(* ===== verification/_CoqProject ===== *)
-Q . S2P
Prelude.v
B64.v
Externals.v
Ids.v
Frame.v
Hello.v
Envelope.v
PairingKeys.v
Ble.v
Bulk.v
Link.v
Peer.v
Vocab.v
Noise.v
Plugin.v
Ping.v
Command.v
Wol.v
Touchpad.v
Session.v
Media.v
Clipboard.v
Share.v
CoreState.v
CoreQueries.v
CoreOps.v
CoreHandle.v
CoreSteps.v
CoreRefines.v
CoreTheorems.v
CoreBehaviour.v
CoreClock.v
Delivery.v
Meeting.v
Pairing.v
Toy.v
PluginWitnesses.v
Scenario.v
Findings.v
Witnesses.v
Strs.v
Floats.v
Utf8.v
Fs.v
RtStore.v
RtBulk.v
LinkLife.v
RtTcp.v
BleTransport.v
BleBus.v
Files.v
Prompt.v
Reconcile.v
Netself.v
Ipc.v
Control.v
TouchDevice.v
Usb.v
Logind.v
Paths.v
Host.v
Players.v
Desktop.v
FfiTypes.v
FfiBodies.v
FfiBulk.v
RtMirror.v
FfiCore.v
RtRuntime.v
HostWitnesses.v
DaemonWitnesses.v
Config.v
Startup.v
StartupTheorems.v
DaemonLife.v
Client.v
Serve.v
Agreement.v
FfiWitnesses.v
StartWitnesses.v
