(* ===== verification/Prelude.v ===== *)
(** * Acrylius: a model of the protocol, the core and the hosts around it

    Acrylius connects a person's own devices: they pair by comparing six
    digits, open Noise sessions over whatever link is at hand, and exchange the
    messages of small plugins (ping, clipboard, media, files, ...).  The Rust
    sources are in [crates/].  This library models the two crates that hold the
    logic every device runs, [acrylius-proto] (formats) and [acrylius-core]
    (the state machine), the runtime that drives it ([acrylius-rt]), the desktop's
    daemon, its client and what it does to the machine ([acryliusd],
    [acrylius-linux]), and the library the phone's application is built on
    ([acrylius-ffi]).

    ** The program, and which file models it

    The core is one value with one entry point: [Core::handle] takes the time
    and an [Event] (a link is up, bytes arrived, a dial failed, a command of
    the person, a tick of the clock, ...), changes its state, and returns the
    [Action]s the host is to carry out and the next moment it wants to be
    woken.  It does no I/O; everything else in the repository feeds it events.

    - [Prelude]: machine integers, bytes and strings, the result type, ordered
      maps as [gmap] with an iteration in key order, sorting.
    - [Externals]: the third-party crates as classes of operations, with what
      the code relies on as classes of laws: SHA-256, HKDF, ChaCha20-Poly1305,
      CBOR codecs, X25519 and the [snow] Noise library ([SnowPairing],
      [SnowSession] and [SnowChannel]: what its two handshakes and its
      transport states promise two parties).
    - Formats, from [acrylius-proto/src]: [B64] (b64.rs), [Ids] (ids.rs),
      [Frame] (frame.rs), [Hello] (handshake.rs: freshness, negotiation),
      [Envelope] (envelope.rs), [PairingKeys] (pairing.rs), [Ble] (ble.rs:
      fragments), [Bulk] (bulk.rs: file channel, received names).
    - Data of the core, from [acrylius-core/src]: [Link] (link.rs), [Peer]
      (peer.rs, config.rs), [Vocab] (vocab.rs: events, actions, effects),
      [Noise] (noise.rs over [snow]).
    - Plugins: [Plugin] (plugin.rs: the trait as a class, [Cx], the laws each
      plugin satisfies, histories of calls), then one file each: [Ping],
      [Command], [Wol], [Touchpad], [Session], [Media], [Clipboard], [Share].
    - The core, from core.rs: [CoreState] (the record and the monad its methods
      run in), [CoreQueries] (methods that only look), [CoreOps] (sending,
      effects, dialling, teardown, pairing), [CoreHandle] (every event, and
      [CoreBuilder::build]).
    - Its proofs: [CoreSteps] (the abstract machine: the steps the
      state may take, when each is allowed, which plugin may be called with what,
      what each action needs, and the invariant), [CoreRefines]
      (every method is a sequence of such steps and never panics),
      [CoreClock] (nothing is overdue after a tick), [CoreTheorems] and
      [CoreBehaviour] (what follows).
    - Two cores together: [Delivery] (a link that keeps order carries each
      message whole), [Meeting] (two devices that trust each other get a
      session), [Pairing] (two devices that never met come to trust each other).
    - What a host stands on: [Strs], [Floats] and [Utf8] (strings, numbers
      in text, binary64, characters), [Fs] (files: a disk with what a power cut may bring back,
      calls that may fail or never return, programs over it as a state and
      error monad, and triples about them; the bytes a connection delivers
      until it ends).
    - The runtime, from [acrylius-rt/src]: [RtStore] (store.rs: the trait as a class, both its implementations), [RtBulk]
      (bulk.rs: transfers and the names reserved for them), [RtTcp] (tcp.rs,
      transport.rs: links and discovery), [RtMirror] (what the
      core asks of any store that keeps [StoreLaws], replayed), [RtRuntime] (runtime.rs: the pump, its timer, the tasks
      of effects and transfers).
    - The daemon, from [acryliusd/src]: [Files] (files.rs), [Prompt] (prompt.rs,
      the loop over the core's reports in main.rs, and notify.rs of
      [acrylius-linux]), [Reconcile] (reconcile.rs), [Netself] (netself.rs),
      [Ipc] and [Control] (ipc.rs, control.rs: the control socket, whose life is
      in [Serve]).
    - The daemon from its start, from [acryliusd/src]: [Paths] (paths as text,
      the environment), [Config] (config.rs and the first file reconcile.rs
      writes), [Startup] (main.rs, and [LinuxEffector::new]), with what follows
      in [StartupTheorems]; [DaemonLife] puts start, core, store and start again
      together; [Client] is bin/acryliusctl.rs.
    - The desktop, from [acrylius-linux/src]: [TouchDevice] (touchpad.rs:
      slots and frames, the declaration of the device), [Usb] (usb.rs: a phone on a
      cable), [LinkLife] (the life of a link, which [RtTcp]
      shares) and [BleTransport] (ble.rs, with its calls to bluetoothd in
      [BleBus]), [Logind] (session.rs), [Players] (media.rs), [Desktop]
      (effector.rs, command.rs, wol.rs), [Host] (mixer.rs, compositor.rs,
      clipboard.rs, lib.rs).
    - The phone's library, from [acrylius-ffi/src]: [FfiTypes] (types.rs),
      [FfiBodies] (bodies.rs), [FfiBulk] (bulk.rs, ble.rs), [FfiCore] (lib.rs);
      [Agreement] has the constants it hands out, against what the desktop does.
    - [Toy]: one concrete instance of all of [Externals], to
      compute with; [PluginWitnesses], [Scenario], [Findings], [Witnesses],
      [HostWitnesses], [DaemonWitnesses], [FfiWitnesses], [StartWitnesses]: the
      theorems at work on devices that pair, connect and talk, on disks,
      streams, prompts and documents.

    The runtime's turn calls [Core::handle] and carries out its actions, so
    [RtRuntime] is stated over [CoreHandle] and its theorems use those of
    [CoreTheorems] and [CoreClock]; [Control] and [Prompt] call [Files], [Files]
    calls [RtBulk], and all of them the disk of [Fs].  [Startup] builds the core
    of [CoreHandle] from the configuration of [Config], the records of [RtStore]
    and the effects of [Desktop]; [FfiCore] builds the same core for the phone,
    and [FfiBulk] reads and writes what [RtBulk] does.

    State and operations correspond field by field and method by method; a
    comment above each definition gives the file, lines and symbol it
    translates.  A Rust [BTreeMap] or [HashMap] is a [gmap] ([bt_iter] is the
    iteration in key order where the code's order matters), an unsigned
    integer an [N] with its wrap-around written out (the release profile has no
    overflow checks), a [String] a [string] (file names, where Unicode matters,
    a list of code points), a [Result] a [result], a panic [None].  An [async]
    operation is cut where it waits: each piece is a definition, and a step
    relation says what may happen between them.  What a call to the system
    answers is an argument, or the faults of the disk.  Logging is left out.

    ** What the theorems show

    - The core ([CoreTheorems]): no event makes it panic, and an invariant
      relating owners, records and sessions holds for ever; the trust store
      changes only by a confirmation or a revocation, and what is stored on
      disk follows it; a confirmation on the screen is never replaced; a
      session exists only after a fresh hello from a trusted device; all that
      is sent is negotiated and fits its link.
    - Its behaviour ([CoreBehaviour], [CoreQueries], [CoreClock]): enforcement
      of capabilities on receipt, the way back of effects, the keys of file
      transfers, the walk along a peer's routes, the choice of a link, the
      deadline handed to the host and what is left due after a tick.
    - Two cores ([Pairing], [Meeting], [Delivery]): two new devices that pair
      show the same six digits, trust nothing before both persons agreed, and
      then trust each other with one secret; when one device has dialled another
      and they trust each other, a session comes up at both ends, with the
      same handshake hash and matching capabilities; from then on, in whatever
      order the two handle whatever else, what one seals is what the other
      opens, in order, until a message is too long for its link or one of them ends
      the link.
    - Plugins: over any history of calls, what each may ask of its host
      (listed commands, allowlisted wake-ups, well-formed touchpad operations,
      clipboard contents some peer sent with their right hash,
      transfers of the very offer somebody agreed to), and what
      answers and announcements it makes.
    - Formats: round trips, canonicity, bounds, freedom from replay, and the
      safety of received file names.
    - The runtime: a record on disk is never torn and the directory store
      refines the one in memory; a core restarted from its store trusts whom it
      trusted; the pump, over any store, never meets a panic, keeps store and
      advertisements in step with the core, but for the records whose writing failed
      and was logged, and does not spin; links come up and go down once; a
      transfer arrives byte for byte or changes nothing, and takes a name no
      file had.
    - The daemon: files that are there stay whatever transfers do, but for one whose
      name a transfer uses for its temporary; a pairing is
      confirmed only by the press of the right button on the question last
      shown, or by the verb for it; answers on the socket are the peer's that
      was asked, and go to the one that made the offer; one daemon at a time has the
      socket; a configuration is brought up to date by adding just
      what it lacks, or left alone.
    - The daemon's life: what it trusts survives any run and any restart, and so does
      who it is, unless the look for its key fails; a configuration written out reads back as itself, an update
      changes no setting and the first file says the defaults; the processes
      it starts are commands of the configuration, those it gives for locking and
      unlocking, and the sound server's tools with fixed arguments; the config subcommands lose nothing.
    - The client: but for the two commands that answer a pairing by themselves, one
      is answered only when the daemon asked, after the digits were shown, with leave
      or by the line somebody at a terminal typed at that question; its exit status says what
      it heard; it meets the daemon's socket.
    - The phone's library: no call makes it panic or poisons it, what it hands
      over to keep is what it trusts, events and bodies cross the boundary
      unchanged, and its sender and receiver are the daemon's.
    - The desktop: one Bluetooth link at a time, up once and down once, advertised
      as the core asked; what a
      machine says it supports it does; a lock or a media command is reported as a
      poll found it, before the phone gives up; a volume that was set was read back; each
      clipboard text is reported once; the sockets asked are the session's.
    - Devices: a frame of fingers is shown as it is, over the multitouch
      protocol, in events the device has declared; over the cable samples keep their spacing within bounds, what is
      waiting and the device are well formed, and silence lifts every finger.
    - [Findings], the theorems about refused and malformed messages in
      [CoreBehaviour], and [RtStore.put_ok_can_be_lost],
      [RtRuntime.second_send_outlives_cancel], [Files.part_file_lost],
      [Files.cancelled_placeholder_stays], [Prompt.button_then_silence],
      [TouchDevice.overtaken_begin_is_lost], [BleTransport.registers_over_a_link],
      [StartupTheorems.identity_lost_on_read_error],
      [StartupTheorems.identity_torn_is_fatal], [Client.sockets_miss],
      [Client.json_yes_unanswered], [Client.silence_is_success],
      [Host.root_signature_escapes], [Host.signature_asked_twice],
      [Serve.racing_starts], [Serve.deaf_daemon] and
      [TouchDevice.tracking_passes_maximum] state what
      the code does where its comments or the protocol document say otherwise.

    ** Bounds and fuel

    The code's loops are over finite collections and are folds here.  Fuel
    appears in the fragmenter and the chunking of base64, each given the length
    of its input plus one, which [Ble.fragment_fits] and [Prelude.chunks_go_fuel] show
    to be enough; in the loops of the daemon's and the phone's receivers, given the length
    of what arrives, each frame of which takes four bytes at least; in the search for a free
    name, given one more than the files there are; and in the drain of a USB
    session's queue, given its length ([Usb.drain_inv]).  Counters wrap at their
    width; theorems that need a counter not to wrap say so.

    ** What is not modelled

    The iOS application, scripts and service units; the D-Bus of
    bluetoothd, players and sessions,
    processes and sockets beyond what they answer; argument parsing ([clap]),
    signals, and the tasks the daemon spawns beyond the events they submit.
    The syntax of TOML, JSON and CBOR is a parameter (of
    [toml_edit] it is supposed only that what it prints reads back with the same
    entries in each table, in whatever order), as are the kernel's input
    devices but for what is written to them.  Cryptography is a
    parameter: nothing is claimed about secrecy. *)

From stdpp Require Export base option list gmap strings pretty sorting.
From Stdlib Require Export Lia NArith ZArith.
From Stdlib Require Import Strings.Byte.
From Stdlib Require Ascii String.

Declare Scope acr_scope.
Delimit Scope acr_scope with acr.
Global Open Scope acr_scope.

(** ** Machine integers

    A Rust unsigned integer is an [N], a signed one a [Z].  The operators that
    can overflow are written with their wrap-around (the release profile of
    the workspace does not enable overflow checks). *)

Abbreviation u8 := N (only parsing).
Abbreviation u16 := N (only parsing).
Abbreviation u32 := N (only parsing).
Abbreviation u64 := N (only parsing).
Abbreviation usize := N (only parsing).
Abbreviation i64 := Z (only parsing).

Definition u16_max : N := 65535.
Definition u32_max : N := 4294967295.
Definition u64_max : N := 18446744073709551615.

Definition wrap8 (n : N) : N := n mod 256.
Definition wrap16 (n : N) : N := n mod 65536.
Definition wrap32 (n : N) : N := n mod 4294967296.
Definition wrap64 (n : N) : N := n mod 18446744073709551616.

(** [a + b] on [u64], [u64::saturating_add], [u64::abs_diff]. *)
Definition u64_add (a b : N) : N := wrap64 (a + b).
Definition u64_saturating_add (a b : N) : N := N.min (a + b) u64_max.
Definition u64_abs_diff (a b : N) : N := (a - b) + (b - a).

Definition i64_max : Z := 9223372036854775807.
Definition i64_min : Z := -9223372036854775808.
(** What [i64::saturating_mul] and [i64::saturating_add] make of a result. *)
Definition clamp64 (z : Z) : Z := Z.max i64_min (Z.min i64_max z).

Infix "+u64" := u64_add (at level 50, left associativity) : acr_scope.

Lemma u64_add_small a b : (a + b <= u64_max)%N -> a +u64 b = (a + b)%N.
Proof.
  unfold u64_add, wrap64, u64_max. intros H. apply N.mod_small. lia.
Qed.

(** ** Bytes and strings *)

Abbreviation byte := Byte.byte.
Abbreviation bytes := (list Byte.byte).

#[global] Instance byte_eq_dec : EqDecision byte := Byte.byte_eq_dec.
#[global] Program Instance byte_countable : Countable byte :=
  inj_countable Byte.to_N Byte.of_N _.
Next Obligation. apply Byte.of_to_N. Qed.

(** [n as u8]: truncation to the low eight bits. *)
Definition byte_of (n : N) : byte :=
  match Byte.of_N (wrap8 n) with Some b => b | None => Byte.x00 end.

Lemma byte_of_small n : (n < 256)%N -> Byte.to_N (byte_of n) = n.
Proof.
  intros H. unfold byte_of, wrap8. rewrite N.mod_small by lia.
  destruct (Byte.of_N n) eqn:E.
  - by apply Byte.to_of_N in E.
  - apply Byte.of_N_None_iff in E. lia.
Qed.

Lemma byte_to_N_lt b : (Byte.to_N b < 256)%N.
Proof. pose proof (Byte.to_N_bounded b). lia. Qed.

Lemma byte_of_to b : byte_of (Byte.to_N b) = b.
Proof.
  unfold byte_of, wrap8. rewrite N.mod_small by apply byte_to_N_lt.
  by rewrite Byte.of_to_N.
Qed.

Lemma byte_to_N_inj b c : Byte.to_N b = Byte.to_N c -> b = c.
Proof. intros E. by rewrite <- (byte_of_to b), <- (byte_of_to c), E. Qed.

(** [s.as_bytes()] and [String::from_utf8_unchecked]. *)
Definition as_bytes (s : string) : bytes := String.list_byte_of_string s.
Definition of_bytes (b : bytes) : string := String.string_of_list_byte b.

(** [==] on strings. *)
Infix "=s" := String.eqb (at level 70) : acr_scope.

Lemma of_as_bytes s : of_bytes (as_bytes s) = s.
Proof. apply String.string_of_list_byte_of_string. Qed.
Lemma as_of_bytes b : as_bytes (of_bytes b) = b.
Proof. apply String.list_byte_of_string_of_list_byte. Qed.
Lemma as_bytes_inj s t : as_bytes s = as_bytes t -> s = t.
Proof. intros E. by rewrite <- (of_as_bytes s), <- (of_as_bytes t), E. Qed.

(** [v.len()]. *)
Definition len {A} (l : list A) : N := N.of_nat (length l).
Definition str_len (s : string) : N := len (as_bytes s).

Lemma len_nil {A} : len ([] : list A) = 0%N.
Proof. done. Qed.
Lemma len_app {A} (l k : list A) : len (l ++ k) = (len l + len k)%N.
Proof. unfold len. rewrite length_app. lia. Qed.

(** [x.to_be_bytes()] of a [k]-byte integer, and its inverse. *)
Fixpoint to_be_bytes (k : nat) (x : N) : bytes :=
  match k with
  | O => []
  | S k' => to_be_bytes k' (x / 256) ++ [byte_of x]
  end.

Definition from_be_bytes (b : bytes) : N :=
  fold_left (λ acc x, (acc * 256 + Byte.to_N x)%N) b 0%N.

Lemma length_to_be_bytes k x : length (to_be_bytes k x) = k.
Proof.
  revert x; induction k as [|k IH]; intros x; simpl; [done|].
  rewrite length_app, IH; simpl; lia.
Qed.

Lemma from_be_bytes_snoc b x :
  from_be_bytes (b ++ [x]) = (from_be_bytes b * 256 + Byte.to_N x)%N.
Proof. unfold from_be_bytes. by rewrite fold_left_app. Qed.

Lemma byte_of_mod n : Byte.to_N (byte_of n) = (n mod 256)%N.
Proof.
  unfold byte_of, wrap8.
  assert (n mod 256 < 256)%N as H by (apply N.mod_lt; lia).
  destruct (Byte.of_N (n mod 256)) eqn:E.
  - by apply Byte.to_of_N in E.
  - apply Byte.of_N_None_iff in E. lia.
Qed.

Lemma from_to_be_bytes k x :
  (x < 256 ^ N.of_nat k)%N -> from_be_bytes (to_be_bytes k x) = x.
Proof.
  revert x; induction k as [|k IH]; intros x Hx; simpl.
  { simpl in Hx. unfold from_be_bytes; simpl. lia. }
  rewrite from_be_bytes_snoc, byte_of_mod, IH.
  - pose proof (N.div_mod' x 256). lia.
  - rewrite Nat2N.inj_succ, N.pow_succ_r' in Hx.
    apply N.Div0.div_lt_upper_bound. lia.
Qed.

Lemma to_be_bytes_inj k x y :
  (x < 256 ^ N.of_nat k)%N -> (y < 256 ^ N.of_nat k)%N ->
  to_be_bytes k x = to_be_bytes k y -> x = y.
Proof.
  intros Hx Hy E.
  by rewrite <- (from_to_be_bytes k x Hx), <- (from_to_be_bytes k y Hy), E.
Qed.

(** ** Bit fields as arithmetic *)

Lemma lor_shiftl_add a b k :
  (b < 2 ^ k)%N -> N.lor (N.shiftl a k) b = (a * 2 ^ k + b)%N.
Proof.
  intros Hb.
  assert (N.land (N.shiftl a k) b = 0%N) as H0.
  { apply N.bits_inj_iff; intros i. rewrite N.land_spec, N.bits_0.
    destruct (N.lt_ge_cases i k) as [Hi|Hi].
    - by rewrite N.shiftl_spec_low.
    - rewrite andb_false_iff; right.
      destruct (N.eq_dec b 0) as [->|Hz]; [apply N.bits_0|].
      apply N.bits_above_log2. apply N.log2_lt_pow2; [lia|].
      eapply N.lt_le_trans; [done|]. by apply N.pow_le_mono_r. }
  by rewrite <- N.lxor_lor, <- N.add_nocarry_lxor, N.shiftl_mul_pow2.
Qed.

(** [n & (2^k - 1)] and [n >> k]. *)
Lemma land_low n k : N.land n (N.ones k) = (n mod 2 ^ k)%N.
Proof. apply N.land_ones. Qed.

(** ** Results *)

Inductive result (A E : Type) : Type :=
| Ok (a : A)
| Err (e : E).
Arguments Ok {A E} a.
Arguments Err {A E} e.

#[global] Instance result_eq_dec {A E} `{EqDecision A, EqDecision E} :
  EqDecision (result A E).
Proof. solve_decision. Defined.

Definition result_bind {A B E} (r : result A E) (k : A -> result B E) : result B E :=
  match r with Ok a => k a | Err e => Err e end.

Definition map_err {A E F} (f : E -> F) (r : result A E) : result A F :=
  match r with Ok a => Ok a | Err e => Err (f e) end.

Definition ok_or {A E} (o : option A) (e : E) : result A E :=
  match o with Some a => Ok a | None => Err e end.

Notation "'try!' x ':=' r 'in' k" := (result_bind r (λ x, k))
  (at level 10, x pattern, r at level 100, k at level 200,
   format "'[v' 'try!'  x  ':='  r  'in' '/' k ']'") : acr_scope.

(** ** [slice::chunks] *)

Fixpoint chunks_go {A} (fuel n : nat) (l : list A) : list (list A) :=
  match fuel, l with
  | S f, _ :: _ => take n l :: chunks_go f n (drop n l)
  | _, _ => []
  end.

Definition chunks {A} (n : nat) (l : list A) : list (list A) :=
  chunks_go (length l) n l.

Lemma chunks_go_fuel {A} n (l : list A) f1 f2 :
  0 < n -> length l <= f1 -> length l <= f2 ->
  chunks_go f1 n l = chunks_go f2 n l.
Proof.
  intros Hn. revert l f2; induction f1 as [|f1 IH]; intros l f2 H1 H2.
  - destruct l; [by destruct f2|simpl in *; lia].
  - destruct l as [|x l]; [by destruct f2|].
    destruct f2 as [|f2]; [simpl in *; lia|]. cbn [chunks_go]. f_equal.
    apply IH; rewrite length_drop; simpl in *; lia.
Qed.

Lemma chunks_nil {A} n : chunks n ([] : list A) = [].
Proof. done. Qed.

Lemma chunks_cons {A} n (l : list A) :
  0 < n -> l ≠ [] -> chunks n l = take n l :: chunks n (drop n l).
Proof.
  intros Hn Hl. unfold chunks at 1.
  destruct l as [|x l]; [done|]. cbn [length chunks_go]. f_equal.
  apply chunks_go_fuel; [done| |done].
  rewrite length_drop; simpl; lia.
Qed.

(** Induction along [chunks (S n)]: peel one chunk at a time. *)
Lemma chunks_ind {A} (n : nat) (P : list A -> Prop) :
  P [] -> (∀ l, l ≠ [] -> P (drop (S n) l) -> P l) -> ∀ l, P l.
Proof.
  intros H0 Hs l.
  remember (length l) as m eqn:Em. revert l Em.
  induction m as [m IH] using lt_wf_ind; intros l ->.
  destruct l as [|x l]; [done|].
  apply Hs; [done|]. eapply IH; [|done].
  rewrite length_drop; simpl; lia.
Qed.

(** ** Ordered iteration over a map

    A [BTreeMap] is a [gmap] whose iteration goes through the keys in
    ascending order; [key_le] is the [Ord] of the key type. *)

Class KeyOrd (K : Type) := key_le : K -> K -> bool.

Definition entry_le {K V} `{KeyOrd K} (a b : K * V) : Prop :=
  Is_true (key_le a.1 b.1).
#[global] Instance entry_le_dec {K V} `{KeyOrd K} (a b : K * V) :
  Decision (entry_le a b).
Proof. unfold entry_le. apply _. Defined.

Definition bt_iter {K V} `{Countable K, KeyOrd K} (m : gmap K V) : list (K * V) :=
  merge_sort entry_le (map_to_list m).
Definition bt_keys {K V} `{Countable K, KeyOrd K} (m : gmap K V) : list K :=
  (bt_iter m).*1.
Definition bt_values {K V} `{Countable K, KeyOrd K} (m : gmap K V) : list V :=
  (bt_iter m).*2.

#[global] Instance N_key_ord : KeyOrd N := N.leb.
#[global] Instance string_key_ord : KeyOrd string := String.leb.

Section bt.
Context {K V : Type} `{Countable K} `{!KeyOrd K}.
Implicit Types m : gmap K V.

Lemma elem_of_bt_iter m k v : (k, v) ∈ bt_iter m <-> m !! k = Some v.
Proof.
  unfold bt_iter. rewrite merge_sort_Permutation. apply elem_of_map_to_list.
Qed.

Lemma elem_of_bt_keys m k : k ∈ bt_keys m <-> is_Some (m !! k).
Proof.
  unfold bt_keys. rewrite list_elem_of_fmap. split.
  - intros ([k' v] & -> & Hin). apply elem_of_bt_iter in Hin. by eexists.
  - intros [v Hv]. exists (k, v). split; [done|]. by apply elem_of_bt_iter.
Qed.

Lemma elem_of_bt_values m v : v ∈ bt_values m <-> ∃ k, m !! k = Some v.
Proof.
  unfold bt_values. rewrite list_elem_of_fmap. split.
  - intros ([k' v'] & -> & Hin). apply elem_of_bt_iter in Hin. by eexists.
  - intros [k Hv]. exists (k, v). split; [done|]. by apply elem_of_bt_iter.
Qed.

Lemma bt_keys_NoDup m : NoDup (bt_keys m).
Proof.
  unfold bt_keys, bt_iter. rewrite merge_sort_Permutation.
  apply NoDup_fst_map_to_list.
Qed.

Lemma bt_iter_empty : bt_iter (∅ : gmap K V) = [].
Proof. unfold bt_iter. by rewrite map_to_list_empty. Qed.
End bt.

(** ** Sorted vectors of strings: [sort_unstable] and [dedup]

    Equal strings are indistinguishable, so an unstable sort has one result. *)

Definition string_leb_prop (a b : string) : Prop := Is_true (String.leb a b).
#[global] Instance string_leb_prop_dec a b : Decision (string_leb_prop a b).
Proof. unfold string_leb_prop. apply _. Defined.

Definition sort_unstable (l : list string) : list string := merge_sort string_leb_prop l.

(** [Vec::dedup]: drop an element equal to the one kept before it. *)
Fixpoint dedup_after (x : string) (l : list string) : list string :=
  match l with
  | [] => []
  | y :: l' => if String.eqb x y then dedup_after x l' else y :: dedup_after y l'
  end.
Definition dedup (l : list string) : list string :=
  match l with [] => [] | x :: l' => x :: dedup_after x l' end.

Lemma string_compare_refl s : String.compare s s = Eq.
Proof.
  pose proof (String.compare_antisym s s) as H. by destruct (String.compare s s).
Qed.

Lemma string_compare_lt_trans a b c :
  String.compare a b = Lt -> String.compare b c = Lt -> String.compare a c = Lt.
Proof.
  revert b c; induction a as [|x a IH]; intros [|y b] [|z c]; simpl; try done.
  unfold Ascii.compare.
  destruct (N.compare_spec (Ascii.N_of_ascii x) (Ascii.N_of_ascii y)) as [E1|E1|E1];
    destruct (N.compare_spec (Ascii.N_of_ascii y) (Ascii.N_of_ascii z)) as [E2|E2|E2];
    try done; intros H1 H2.
  - rewrite E1, E2, N.compare_refl. eauto.
  - by rewrite E1, (proj2 (N.compare_lt_iff _ _)).
  - by rewrite <- E2, (proj2 (N.compare_lt_iff _ _)).
  - rewrite (proj2 (N.compare_lt_iff _ _)); [done|lia].
Qed.

#[global] Instance string_leb_total : Total string_leb_prop.
Proof.
  intros a b. unfold string_leb_prop.
  destruct (String.leb_total a b) as [-> | ->]; [left|right]; done.
Qed.

#[global] Instance string_leb_trans : Transitive string_leb_prop.
Proof.
  intros a b c. unfold string_leb_prop, String.leb.
  destruct (String.compare a b) eqn:E1; [| |done];
    (destruct (String.compare b c) eqn:E2; [| |done]); intros _ _.
  - apply String.compare_eq_iff in E1 as ->. by rewrite E2.
  - apply String.compare_eq_iff in E1 as ->. by rewrite E2.
  - apply String.compare_eq_iff in E2 as ->. by rewrite E1.
  - by rewrite (string_compare_lt_trans _ _ _ E1 E2).
Qed.

#[global] Instance string_leb_antisymm : AntiSymm (=) string_leb_prop.
Proof.
  intros a b H1 H2. apply String.leb_antisym; by apply Is_true_eq_true.
Qed.

Lemma sort_unstable_sorted l : StronglySorted string_leb_prop (sort_unstable l).
Proof. apply (StronglySorted_merge_sort string_leb_prop l). Qed.

Lemma elem_of_sort_unstable x l : x ∈ sort_unstable l <-> x ∈ l.
Proof. unfold sort_unstable. by rewrite merge_sort_Permutation. Qed.

Lemma elem_of_dedup_after x y l : y ∈ x :: dedup_after x l <-> y ∈ x :: l.
Proof.
  revert x; induction l as [|z l IH]; intros x; [done|]. cbn [dedup_after].
  destruct (String.eqb_spec x z) as [->|Hne].
  - rewrite IH. set_solver.
  - rewrite elem_of_cons, IH. set_solver.
Qed.

Lemma elem_of_dedup y l : y ∈ dedup l <-> y ∈ l.
Proof. destruct l as [|x l]; [done|]. apply elem_of_dedup_after. Qed.

Lemma dedup_after_sorted x l :
  StronglySorted string_leb_prop (x :: l) ->
  StronglySorted string_leb_prop (x :: dedup_after x l) /\ NoDup (x :: dedup_after x l).
Proof.
  revert x; induction l as [|y l IH]; intros x Hs.
  { split; [done|]. apply NoDup_singleton. }
  apply StronglySorted_cons in Hs as [Hx Hs].
  apply Forall_cons in Hx as [Hxy Hx].
  pose proof Hs as Hs'. apply StronglySorted_cons in Hs' as [Hy Hl]. cbn [dedup_after].
  destruct (String.eqb_spec x y) as [->|Hne].
  - apply IH. by apply StronglySorted_cons.
  - destruct (IH y Hs) as [Hs2 Hn]. split.
    + apply StronglySorted_cons. split; [|done].
      apply Forall_forall. intros z Hz.
      rewrite elem_of_dedup_after in Hz.
      apply elem_of_cons in Hz as [->|Hz]; [done|].
      rewrite Forall_forall in Hx. by apply Hx.
    + apply NoDup_cons. split; [|done]. intros Hz. rewrite elem_of_dedup_after in Hz.
      apply elem_of_cons in Hz as [->|Hz]; [done|].
      rewrite Forall_forall in Hy. apply Hy in Hz.
      apply Hne. by apply (anti_symm string_leb_prop).
Qed.

Lemma dedup_sort_NoDup l : NoDup (dedup (sort_unstable l)).
Proof.
  pose proof (sort_unstable_sorted l) as Hs. destruct (sort_unstable l); [constructor|].
  by apply dedup_after_sorted.
Qed.

Lemma dedup_sort_sorted l : StronglySorted string_leb_prop (dedup (sort_unstable l)).
Proof.
  pose proof (sort_unstable_sorted l) as Hs. destruct (sort_unstable l); [constructor|].
  by apply dedup_after_sorted.
Qed.

Lemma elem_of_dedup_sort x l : x ∈ dedup (sort_unstable l) <-> x ∈ l.
Proof. by rewrite elem_of_dedup, elem_of_sort_unstable. Qed.

(** ** Record update

    [r <| p := v |>] and [r <| p ::= f |>]; an instance of [Eta] per record
    writes the record out field by field, and the setter of a projection is
    obtained from it. *)

Class Eta (R : Type) := eta : R -> R.
Class Setter {R T : Type} (p : R -> T) := set_field : (T -> T) -> R -> R.
Arguments set_field {R T} p {_} f r.

Ltac build_setter :=
  lazymatch goal with
  | |- @Setter ?R ?T ?p =>
    let e := constr:(_ : Eta R) in
    let e := eval hnf in e in
    let f := fresh "f" in let r := fresh "r" in
    intros f r;
    let body := eval cbv beta in (e r) in
    lazymatch body with
    | context C [p r] => let b := context C [f (p r)] in exact b
    end
  end.
Global Hint Extern 1 (Setter _) => build_setter : typeclass_instances.

Notation "x <| p := v |>" := (set_field p (λ _, v) x)
  (at level 1, left associativity, p at level 0, v at level 200,
   format "x  <|  p  :=  v  |>") : acr_scope.
Notation "x <| p ::= f |>" := (set_field p f x)
  (at level 1, left associativity, p at level 0, f at level 200,
   format "x  <|  p  ::=  f  |>") : acr_scope.

(** ** Tactics *)

(** Case on every [match]/[if] the goal is stuck on, keeping the equations. *)
Ltac split_match :=
  match goal with
  | |- context [match ?x with _ => _ end] => destruct x eqn:?
  end.
Ltac split_matches := repeat (split_match; simplify_eq/=; try done).

(** [lia] with division and remainder by constants. *)
Ltac divlia := zify; Z.to_euclidean_division_equations; lia.

Create HintDb acr discriminated.
Create Rewrite HintDb acr.
#[export] Hint Rewrite @len_nil @len_app @length_app : acr.
