(* ===== verification/B64.v ===== *)
(** * [acrylius-proto/src/b64.rs]: strict base64url without padding

    The encoder and the decoder of the identifier text form, chunk by chunk as
    the Rust code does it.  The theorems: decoding an encoding gives the bytes
    back, and the decoder accepts one spelling only of every value. *)

From S2P Require Import Prelude.
From Stdlib Require Import Strings.Byte.
Local Open Scope N_scope.

(* src: crates/acrylius-proto/src/b64.rs 7 7 ALPHABET *)
Definition ALPHABET : bytes :=
  as_bytes "ABCDEFGHIJKLMNOPQRSTUVWXYZabcdefghijklmnopqrstuvwxyz0123456789-_".

(** [ALPHABET[i]]; the index is at most 63 wherever the code uses it. *)
Definition alphabet_at (i : N) : byte := nth (N.to_nat i) ALPHABET Byte.x00.

(* src: crates/acrylius-proto/src/b64.rs 10 18 DECODE *)
Definition DECODE : list N :=
  fold_left (λ t i, <[N.to_nat (Byte.to_N (alphabet_at (N.of_nat i))) := N.of_nat i]> t)
    (seq 0 64) (replicate 256 0xFF).

(** [DECODE[c as usize]]; the table has an entry for every byte. *)
Definition decode_at (c : byte) : N := nth (N.to_nat (Byte.to_N c)) DECODE 0xFF.

(* src: crates/acrylius-proto/src/b64.rs 20 30 B64Error *)
Inductive B64Error :=
| BadLength (n : usize)
| BadByte (i : usize)
| NonCanonical
| WrongSize (expected actual : usize).

#[global] Instance B64Error_eq_dec : EqDecision B64Error.
Proof. solve_decision. Defined.

(** One iteration of the loop of [encode]. *)
(* src: crates/acrylius-proto/src/b64.rs 34 43 encode *)
Definition encode_chunk (chunk : bytes) : bytes :=
  let b i := default 0 (Byte.to_N <$> chunk !! i) in
  let n := N.lor (N.lor (N.shiftl (b 0%nat) 16) (N.shiftl (b 1%nat) 8)) (b 2%nat) in
  let chars := S (length chunk) in
  map (λ i, alphabet_at (N.land (N.shiftr n (18 - 6 * N.of_nat i)) 0x3F)) (seq 0 chars).

(* src: crates/acrylius-proto/src/b64.rs 32 46 encode *)
Definition encode (input : bytes) : string :=
  of_bytes (concat (map encode_chunk (chunks 3 input))).

(** The inner loop of [decode]: fold the sextets of a chunk into [n], failing at
    the first byte outside the alphabet. *)
(* src: crates/acrylius-proto/src/b64.rs 57 63 decode *)
Fixpoint decode_sextets (ci i : N) (chunk : bytes) (n : u32) : result N B64Error :=
  match chunk with
  | [] => Ok n
  | c :: chunk' =>
      let v := decode_at c in
      if v =? 0xFF then Err (BadByte (ci * 4 + i))
      else decode_sextets ci (i + 1) chunk' (N.lor n (N.shiftl v (18 - 6 * i)))
  end.

(** One iteration of the outer loop: the bytes a chunk pushes. *)
(* src: crates/acrylius-proto/src/b64.rs 56 76 decode *)
Definition decode_chunk (ci : N) (chunk : bytes) : result bytes B64Error :=
  try! n := decode_sextets ci 0 chunk 0 in
  let whole := (length chunk - 1)%nat in
  let out := map (λ i, byte_of (N.land (N.shiftr n (16 - 8 * N.of_nat i)) 0xFF)) (seq 0 whole) in
  if (length chunk <? 4)%nat then
    let used_bits := N.of_nat whole * 8 in
    let leftover := N.land n (N.shiftl 1 (24 - used_bits) - 1) in
    if leftover =? 0 then Ok out else Err NonCanonical
  else Ok out.

(* src: crates/acrylius-proto/src/b64.rs 55 77 decode *)
Fixpoint decode_chunks (ci : N) (cs : list bytes) (out : bytes) : result bytes B64Error :=
  match cs with
  | [] => Ok out
  | chunk :: cs' =>
      try! o := decode_chunk ci chunk in
      decode_chunks (ci + 1) cs' (out ++ o)
  end.

(* src: crates/acrylius-proto/src/b64.rs 48 79 decode *)
Definition decode (input : string) : result bytes B64Error :=
  let bs := as_bytes input in
  if len bs mod 4 =? 1 then Err (BadLength (len bs))
  else decode_chunks 0 (chunks 4 bs) [].

(* src: crates/acrylius-proto/src/b64.rs 81 87 decode_exact *)
Definition decode_exact (n : usize) (input : string) : result bytes B64Error :=
  try! v := decode input in
  if len v =? n then Ok v else Err (WrongSize n (len v)).

(** ** The alphabet and the reverse table are inverse *)

Lemma decode_alphabet i : i < 64 -> decode_at (alphabet_at i) = i.
Proof.
  intros Hi.
  assert (∀ k, (k < 64)%nat -> decode_at (alphabet_at (N.of_nat k)) = N.of_nat k) as H.
  { intros k Hk. do 64 (destruct k as [|k]; [vm_compute; reflexivity|]). lia. }
  rewrite <- (N2Nat.id i). apply H. lia.
Qed.

Lemma decode_at_spec c :
  decode_at c = 0xFF \/ (decode_at c < 64 /\ alphabet_at (decode_at c) = c).
Proof.
  destruct c; first [left; vm_compute; reflexivity
                    |right; split; vm_compute; reflexivity].
Qed.

Lemma decode_at_valid c : decode_at c <> 0xFF -> decode_at c < 64.
Proof. destruct (decode_at_spec c) as [|[]]; [congruence|done]. Qed.

Lemma alphabet_decode c : decode_at c <> 0xFF -> alphabet_at (decode_at c) = c.
Proof. destruct (decode_at_spec c) as [|[]]; [congruence|done]. Qed.

#[global] Opaque decode_at alphabet_at.

(** ** One chunk

    The shifts and masks of both loops as arithmetic on the three bytes of a
    chunk; a short chunk is the same word with zero bytes. *)

Definition word3 (x y z : N) : N := x * 65536 + y * 256 + z.

Lemma word3_lor x y z :
  y < 256 -> z < 256 ->
  N.lor (N.lor (N.shiftl x 16) (N.shiftl y 8)) z = word3 x y z.
Proof.
  intros Hy Hz. unfold word3.
  rewrite <- N.lor_assoc, (lor_shiftl_add y z 8), (lor_shiftl_add x _ 16).
  all: change (2 ^ 8) with 256; change (2 ^ 16) with 65536; lia.
Qed.

Lemma sextet_arith n k : N.land (N.shiftr n k) 0x3F = n / 2 ^ k mod 64.
Proof. rewrite N.shiftr_div_pow2. apply (land_low _ 6). Qed.

Lemma octet_arith n k : N.land (N.shiftr n k) 0xFF = n / 2 ^ k mod 256.
Proof. rewrite N.shiftr_div_pow2. apply (land_low _ 8). Qed.

Definition sextet (n : N) (i : nat) : N := n / 2 ^ (18 - 6 * N.of_nat i) mod 64.

Lemma sextet_lt n i : sextet n i < 64.
Proof. unfold sextet. apply N.mod_lt. lia. Qed.

Lemma encode_chunk_arith c n :
  N.lor (N.lor (N.shiftl (default 0 (Byte.to_N <$> c !! 0%nat)) 16)
               (N.shiftl (default 0 (Byte.to_N <$> c !! 1%nat)) 8))
        (default 0 (Byte.to_N <$> c !! 2%nat)) = n ->
  encode_chunk c = map (λ i, alphabet_at (sextet n i)) (seq 0 (S (length c))).
Proof.
  intros E. unfold encode_chunk. cbv zeta. rewrite E.
  apply map_ext. intros i. by rewrite sextet_arith.
Qed.

(** What the inner loop of [decode] builds from the sextets of a chunk. *)
Definition word4 (v0 v1 v2 v3 : N) : N := v0 * 262144 + v1 * 4096 + v2 * 64 + v3.

Lemma word4_lor v0 v1 v2 v3 :
  v1 < 64 -> v2 < 64 -> v3 < 64 ->
  N.lor (N.lor (N.lor (N.shiftl v0 18) (N.shiftl v1 12)) (N.shiftl v2 6)) v3
  = word4 v0 v1 v2 v3.
Proof.
  intros H1 H2 H3. unfold word4. rewrite <- !N.lor_assoc.
  rewrite (lor_shiftl_add v2 v3 6), (lor_shiftl_add v1 _ 12), (lor_shiftl_add v0 _ 18).
  all: change (2 ^ 6) with 64; change (2 ^ 12) with 4096; change (2 ^ 18) with 262144; lia.
Qed.

Ltac valid_sextets :=
  repeat match goal with
  | H : decode_at ?c <> 0xFF |- _ =>
      lazymatch goal with
      | _ : decode_at c < 64 |- _ => fail
      | _ => pose proof (decode_at_valid c H)
      end
  end.

(** The inner loop, on a chunk whose first byte outside the alphabet, if any,
    is known. *)
Lemma decode_sextets_step ci i c cs n :
  decode_sextets ci i (c :: cs) n =
  if decode_at c =? 0xFF then Err (BadByte (ci * 4 + i))
  else decode_sextets ci (i + 1) cs (N.lor n (N.shiftl (decode_at c) (18 - 6 * i))).
Proof. reflexivity. Qed.

Lemma decode_sextets_ok ci i cs n m :
  decode_sextets ci i cs n = Ok m -> Forall (λ c, decode_at c <> 0xFF) cs.
Proof.
  revert i n; induction cs as [|c cs IH]; intros i n; [constructor|].
  rewrite decode_sextets_step. destruct (N.eqb_spec (decode_at c) 0xFF); [done|].
  intros H. constructor; eauto.
Qed.

Lemma decode_sextets_valid ci cs :
  (length cs <= 4)%nat -> Forall (λ c, decode_at c <> 0xFF) cs ->
  decode_sextets ci 0 cs 0 =
  let v i := default 0 (decode_at <$> cs !! i) in
  Ok (word4 (v 0%nat) (v 1%nat) (v 2%nat) (v 3%nat)).
Proof.
  intros Hl Hv.
  destruct cs as [|c0 [|c1 [|c2 [|c3 [|]]]]]; simpl in Hl; try lia;
    decompose_Forall_hyps; valid_sextets;
    rewrite ?decode_sextets_step, ?(proj2 (N.eqb_neq _ _)) by done;
    cbn [lookup list_lookup fmap option_fmap option_map default decode_sextets];
    rewrite <- word4_lor by lia; 
    change (18 - 6 * 0) with 18; change (18 - 6 * (0 + 1)) with 12;
    change (18 - 6 * (0 + 1 + 1)) with 6; change (18 - 6 * (0 + 1 + 1 + 1)) with 0;
    rewrite ?N.shiftl_0_r, ?N.lor_0_l, ?N.shiftl_0_l, ?N.lor_0_r; reflexivity.
Qed.

(** The octets [decode] pushes, as arithmetic. *)
Definition octet (n : N) (i : nat) : byte := byte_of (n / 2 ^ (16 - 8 * N.of_nat i)).

Lemma byte_of_wrap n : byte_of (n mod 256) = byte_of n.
Proof. unfold byte_of, wrap8. by rewrite N.Div0.mod_mod. Qed.

Lemma decode_chunk_arith ci cs n :
  decode_sextets ci 0 cs 0 = Ok n ->
  decode_chunk ci cs =
  let out := map (octet n) (seq 0 (length cs - 1)) in
  if (length cs <? 4)%nat then
    if n mod 2 ^ (24 - N.of_nat (length cs - 1) * 8) =? 0 then Ok out else Err NonCanonical
  else Ok out.
Proof.
  intros E. unfold decode_chunk. rewrite E. cbn [result_bind]. cbv zeta.
  assert (∀ k, N.shiftl 1 k - 1 = N.ones k) as Hones.
  { intros k. rewrite N.ones_equiv, N.shiftl_1_l. lia. }
  rewrite Hones, N.land_ones.
  assert (map (λ i, byte_of (N.land (N.shiftr n (16 - 8 * N.of_nat i)) 0xFF))
    (seq 0 (length cs - 1)) = map (octet n) (seq 0 (length cs - 1))) as ->; [|done].
  apply map_ext. intros i. unfold octet. by rewrite octet_arith, byte_of_wrap.
Qed.


Lemma sextet_cases n :
  sextet n 0 = n / 262144 mod 64 /\ sextet n 1 = n / 4096 mod 64 /\
  sextet n 2 = n / 64 mod 64 /\ sextet n 3 = n mod 64.
Proof. unfold sextet; cbn. rewrite N.div_1_r. auto. Qed.

Lemma octet_cases n :
  octet n 0 = byte_of (n / 65536) /\ octet n 1 = byte_of (n / 256) /\ octet n 2 = byte_of n.
Proof. unfold octet; cbn. rewrite N.div_1_r. auto. Qed.

Lemma word4_sextets n :
  n < 16777216 -> word4 (sextet n 0) (sextet n 1) (sextet n 2) (sextet n 3) = n.
Proof.
  intros Hn. destruct (sextet_cases n) as (-> & -> & -> & ->). unfold word4. divlia.
Qed.

Lemma octets_word3 (x y z : byte) :
  let n := word3 (Byte.to_N x) (Byte.to_N y) (Byte.to_N z) in
  n < 16777216 /\ octet n 0 = x /\ octet n 1 = y /\ octet n 2 = z.
Proof.
  cbv zeta.
  pose proof (byte_to_N_lt x). pose proof (byte_to_N_lt y). pose proof (byte_to_N_lt z).
  destruct (octet_cases (word3 (Byte.to_N x) (Byte.to_N y) (Byte.to_N z))) as (-> & -> & ->).
  unfold word3. repeat split; [lia|..]; apply byte_to_N_inj; rewrite byte_of_mod; divlia.
Qed.

Lemma sextets_of_encode_chunk ci c x y z :
  default 0 (Byte.to_N <$> c !! 0%nat) = Byte.to_N x ->
  default 0 (Byte.to_N <$> c !! 1%nat) = Byte.to_N y ->
  default 0 (Byte.to_N <$> c !! 2%nat) = Byte.to_N z ->
  (1 <= length c <= 3)%nat ->
  (length c <= 1 -> y = Byte.x00)%nat -> (length c <= 2 -> z = Byte.x00)%nat ->
  decode_sextets ci 0 (encode_chunk c) 0
  = Ok (word3 (Byte.to_N x) (Byte.to_N y) (Byte.to_N z)).
Proof.
  intros Ex Ey Ez Hl Hy Hz.
  pose proof (byte_to_N_lt y). pose proof (byte_to_N_lt z).
  set (n := word3 _ _ _).
  assert (n < 16777216) as Hn by apply (octets_word3 x y z).
  rewrite (encode_chunk_arith c n) by (rewrite Ex, Ey, Ez; by apply word3_lor).
  assert (∀ i, decode_at (alphabet_at (sextet n i)) = sextet n i) as Hda.
  { intros i. apply decode_alphabet, sextet_lt. }
  rewrite decode_sextets_valid.
  - cbv zeta. f_equal.
    transitivity (word4 (sextet n 0) (sextet n 1) (sextet n 2) (sextet n 3));
      [|by apply word4_sextets].
    f_equal. all: destruct (sextet_cases n) as (_ & _ & E2 & E3).
    all: destruct (length c) as [|[|[|[|]]]]; try lia; cbn;
      rewrite ?Hda, ?E2, ?E3; try reflexivity; unfold n, word3;
      try rewrite Hy by lia; try rewrite Hz by lia; cbn [Byte.to_N]; divlia.
  - rewrite length_map, length_seq. lia.
  - apply Forall_forall. intros ? (i & <- & _)%list_elem_of_In%in_map_iff.
    rewrite Hda. pose proof (sextet_lt n i). lia.
Qed.

Lemma decode_encode_chunk ci c :
  (1 <= length c <= 3)%nat -> decode_chunk ci (encode_chunk c) = Ok c.
Proof.
  intros Hl.
  assert (length (encode_chunk c) = S (length c)) as Hlen.
  { unfold encode_chunk. by rewrite length_map, length_seq. }
  destruct c as [|x [|y [|z [|]]]]; simpl in Hl; try lia.
  - erewrite decode_chunk_arith
      by (eapply (sextets_of_encode_chunk ci [x] x Byte.x00 Byte.x00); done || (simpl; lia)).
    rewrite Hlen. destruct (octets_word3 x Byte.x00 Byte.x00) as (_ & E & _).
    cbn [length Nat.sub map seq]. rewrite E.
    unfold word3. change (2 ^ (24 - _)) with 65536. cbn [Nat.ltb Nat.leb Byte.to_N].
    rewrite (proj2 (N.eqb_eq _ 0)); [done|]. divlia.
  - erewrite decode_chunk_arith
      by (eapply (sextets_of_encode_chunk ci [x; y] x y Byte.x00); done || (simpl; lia)).
    rewrite Hlen. destruct (octets_word3 x y Byte.x00) as (_ & E & E' & _).
    cbn [length Nat.sub map seq]. rewrite E, E'.
    unfold word3. change (2 ^ (24 - _)) with 256. cbn [Nat.ltb Nat.leb Byte.to_N].
    rewrite (proj2 (N.eqb_eq _ 0)); [done|]. divlia.
  - erewrite decode_chunk_arith
      by (eapply (sextets_of_encode_chunk ci [x; y; z] x y z); done || (simpl; lia)).
    rewrite Hlen. destruct (octets_word3 x y z) as (_ & E & E' & E'').
    cbn [length Nat.sub map seq]. by rewrite E, E', E''.
Qed.

(** The word of a chunk determines its characters, and its bytes. *)
Lemma sextets_word4 v0 v1 v2 v3 :
  v0 < 64 -> v1 < 64 -> v2 < 64 -> v3 < 64 ->
  let n := word4 v0 v1 v2 v3 in
  n < 16777216 /\ sextet n 0 = v0 /\ sextet n 1 = v1 /\ sextet n 2 = v2 /\ sextet n 3 = v3.
Proof.
  intros H0 H1 H2 H3. cbv zeta.
  destruct (sextet_cases (word4 v0 v1 v2 v3)) as (-> & -> & -> & ->).
  unfold word4. repeat split; divlia.
Qed.

Lemma octet_N n i : Byte.to_N (octet n i) = n / 2 ^ (16 - 8 * N.of_nat i) mod 256.
Proof. unfold octet. apply byte_of_mod. Qed.

Lemma encode_chunk_octets n k :
  n < 16777216 -> (1 <= k <= 3)%nat -> n mod 2 ^ (24 - N.of_nat k * 8) = 0 ->
  encode_chunk (map (octet n) (seq 0 k)) = map (λ i, alphabet_at (sextet n i)) (seq 0 (S k)).
Proof.
  intros Hn Hk Hz.
  rewrite (encode_chunk_arith _ n); [by rewrite length_map, length_seq|].
  assert (k = 1 \/ k = 2 \/ k = 3)%nat as [-> | [-> | ->]] by lia;
    cbn [map seq lookup list_lookup fmap option_fmap option_map default];
    rewrite !octet_N, word3_lor by (try done; apply N.mod_lt; done); unfold word3;
    change (2 ^ (16 - 8 * N.of_nat 0)) with 65536;
    change (2 ^ (16 - 8 * N.of_nat 1)) with 256;
    change (2 ^ (16 - 8 * N.of_nat 2)) with 1;
    change (2 ^ (24 - N.of_nat 1 * 8)) with 65536 in *;
    change (2 ^ (24 - N.of_nat 2 * 8)) with 256 in *;
    change (2 ^ (24 - N.of_nat 3 * 8)) with 1 in *; unfold id; divlia.
Qed.

(** What a chunk that decodes looks like. *)
Lemma decode_sextets_chars ci cs n :
  (2 <= length cs <= 4)%nat -> decode_sextets ci 0 cs 0 = Ok n ->
  n < 16777216 /\ cs = map (λ i, alphabet_at (sextet n i)) (seq 0 (length cs)).
Proof.
  intros Hl En. pose proof (decode_sextets_ok _ _ _ _ _ En) as Hv.
  rewrite decode_sextets_valid in En by (done || lia).
  set (v i := default 0 (decode_at <$> cs !! i)) in *. cbv zeta in En.
  assert (n = word4 (v 0%nat) (v 1%nat) (v 2%nat) (v 3%nat)) as -> by (by injection En).
  assert (∀ i, v i < 64) as Hlt.
  { intros i. unfold v. destruct (cs !! i) as [c|] eqn:E; cbn; [|done].
    apply decode_at_valid. by eapply Forall_lookup_1 in Hv. }
  destruct (sextets_word4 (v 0%nat) (v 1%nat) (v 2%nat) (v 3%nat))
    as (Hn & E0 & E1 & E2 & E3); [apply Hlt..|].
  split; [exact Hn|].
  assert (∀ i c, cs !! i = Some c -> alphabet_at (v i) = c) as Hc.
  { intros i c Hi. unfold v. rewrite Hi. cbn. apply alphabet_decode.
    by eapply Forall_lookup_1 in Hv. }
  destruct cs as [|c0 [|c1 [|c2 [|c3 [|]]]]]; simpl in Hl; try lia; cbn [map seq length];
    rewrite ?E0, ?E1, ?E2, ?E3;
    rewrite ?(Hc 0%nat c0 eq_refl), ?(Hc 1%nat c1 eq_refl), ?(Hc 2%nat c2 eq_refl),
      ?(Hc 3%nat c3 eq_refl); reflexivity.
Qed.

Lemma encode_decode_chunk ci cs out :
  (2 <= length cs <= 4)%nat -> decode_chunk ci cs = Ok out ->
  encode_chunk out = cs /\ length out = (length cs - 1)%nat.
Proof.
  intros Hl H.
  destruct (decode_sextets ci 0 cs 0) as [n|] eqn:En;
    [|by unfold decode_chunk in H; rewrite En in H].
  rewrite (decode_chunk_arith _ _ n En) in H. cbv zeta in H.
  destruct (decode_sextets_chars _ _ _ Hl En) as [Hn Hcs].
  assert (out = map (octet n) (seq 0 (length cs - 1)) /\
          n mod 2 ^ (24 - N.of_nat (length cs - 1) * 8) = 0) as [-> Hz].
  { destruct (Nat.ltb_spec (length cs) 4).
    - destruct (N.eqb_spec (n mod 2 ^ (24 - N.of_nat (length cs - 1) * 8)) 0); naive_solver.
    - replace (length cs) with 4%nat in * by lia. split; [by injection H|].
      apply N.mod_1_r. }
  split; [|by rewrite length_map, length_seq].
  rewrite encode_chunk_octets by (done || lia).
  replace (S (length cs - 1)) with (length cs) by lia. done.
Qed.

(** ** Whole strings *)

Lemma length_encode_chunk c : length (encode_chunk c) = S (length c).
Proof. unfold encode_chunk. by rewrite length_map, length_seq. Qed.

(** A list in chunks of three, and the encoding of a list as the encoding of its
    first chunk followed by the rest. *)
Lemma encode_cons (b : bytes) :
  b <> [] ->
  as_bytes (encode b) = encode_chunk (take 3 b) ++ as_bytes (encode (drop 3 b)).
Proof.
  intros Hb. unfold encode. rewrite !as_of_bytes, (chunks_cons 3 b) by (done || lia).
  done.
Qed.

Lemma encode_nil : encode [] = EmptyString.
Proof. reflexivity. Qed.

Lemma encode_nonempty b : b <> [] -> as_bytes (encode b) <> [].
Proof.
  intros Hb E. rewrite encode_cons in E by done.
  apply (f_equal length) in E. rewrite length_app, length_encode_chunk in E. simpl in E. lia.
Qed.

(** The characters of an encoding come in the chunks the encoder made. *)
Lemma chunks_encode (b : bytes) :
  b <> [] ->
  chunks 4 (as_bytes (encode b)) =
  encode_chunk (take 3 b) :: chunks 4 (as_bytes (encode (drop 3 b))).
Proof.
  intros Hb. pose proof (encode_nonempty b Hb) as Hne.
  rewrite (chunks_cons 4) by (done || lia). rewrite encode_cons by done.
  pose proof (length_encode_chunk (take 3 b)) as Hl. rewrite length_take in Hl.
  assert (length (encode_chunk (take 3 b)) = 4 \/
          (length (encode_chunk (take 3 b)) <= 4 /\ drop 3 b = []))%nat as [H4|[H4 Hd]].
  { destruct (Nat.le_gt_cases (length b) 2).
    - right. split; [lia|]. apply drop_ge. lia.
    - left. lia. }
  - by rewrite take_app_length', drop_app_length' by done.
  - rewrite Hd. cbn [encode chunks_nil as_bytes]. rewrite encode_nil. cbn [as_bytes].
    change (as_bytes "") with (@nil byte). rewrite app_nil_r.
    by rewrite take_ge, drop_ge by lia.
Qed.

Lemma decode_chunks_app_out ci cs out o :
  decode_chunks ci cs (out ++ o) =
  match decode_chunks ci cs o with Ok r => Ok (out ++ r) | Err e => Err e end.
Proof.
  revert ci o; induction cs as [|c cs IH]; intros ci o; [done|].
  simpl. destruct (decode_chunk ci c); [|done]. cbn [result_bind].
  by rewrite <- app_assoc, IH.
Qed.

Lemma decode_chunks_encode ci b :
  decode_chunks ci (chunks 4 (as_bytes (encode b))) [] = Ok b.
Proof.
  revert ci. induction b as [|b Hb IH] using (chunks_ind 2); [done|].
  intros ci. rewrite chunks_encode by done. cbn [decode_chunks].
  assert (b <> []) by done.
  rewrite decode_encode_chunk.
  - cbn [result_bind]. rewrite app_nil_l, <- (app_nil_r (take 3 b)).
    rewrite decode_chunks_app_out, IH. by rewrite take_drop.
  - rewrite length_take. destruct b; [done|]. cbn [length]; lia.
Qed.

Lemma length_encode b : len (as_bytes (encode b)) = (len b * 4 + 2) / 3.
Proof.
  induction b as [|b Hb IH] using (chunks_ind 2); [done|].
  rewrite encode_cons, len_app, IH by done. unfold len in *.
  rewrite length_encode_chunk, length_take, length_drop.
  destruct (Nat.le_gt_cases (length b) 2) as [Hle|Hgt].
  - destruct b as [|x [|y [|]]]; simpl in Hle; [by destruct Hb|reflexivity..|lia].
  - replace (3 `min` length b)%nat with 3%nat by lia. divlia.
Qed.

Lemma encode_length_ok b : (len (as_bytes (encode b)) mod 4 =? 1) = false.
Proof.
  apply N.eqb_neq. rewrite length_encode. divlia.
Qed.

Lemma decode_encode_Ok b : decode (encode b) = Ok b.
Proof. unfold decode. rewrite encode_length_ok. apply decode_chunks_encode. Qed.

(** Every byte string survives encoding and decoding. *)
Theorem decode_encode b : decode (encode b) = Ok b.
Proof. apply decode_encode_Ok. Qed.

(** Chunks of a string whose length is not 1 modulo 4 have at least two bytes. *)
Lemma decode_chunks_sound ci bs out :
  len bs mod 4 <> 1 -> decode_chunks ci (chunks 4 bs) [] = Ok out ->
  as_bytes (encode out) = bs.
Proof.
  revert ci out. induction bs as [|bs Hb IH] using (chunks_ind 3).
  - intros ci out _ H. injection H as <-. done.
  - intros ci out Hm H. assert (bs <> []) as Hne by done.
    rewrite (chunks_cons 4) in H by (done || lia). cbn [decode_chunks] in H.
    destruct (decode_chunk ci (take 4 bs)) as [o|] eqn:Eo; [|done]. cbn [result_bind] in H.
    rewrite app_nil_l, <- (app_nil_r o), decode_chunks_app_out in H.
    destruct (decode_chunks (ci + 1) (chunks 4 (drop 4 bs)) []) as [r|] eqn:Er; [|done].
    injection H as <-.
    assert (2 <= length (take 4 bs) <= 4)%nat as Hl.
    { rewrite length_take. unfold len in Hm.
      destruct bs as [|x [|y bs]]; [done|by cbn in Hm|cbn [length]; lia]. }
    destruct (encode_decode_chunk _ _ _ Hl Eo) as [He Ho].
    assert (o <> []) as Hon by (intros ->; simpl in Ho; lia).
    assert (len (drop 4 bs) mod 4 <> 1) as Hm'.
    { destruct (Nat.le_gt_cases (length bs) 4).
      - by rewrite drop_ge.
      - unfold len in *. rewrite length_drop. divlia. }
    pose proof (IH _ _ Hm' Er) as IH'.
    destruct (Nat.le_gt_cases (length bs) 4) as [Hle|Hgt].
    + rewrite (drop_ge bs 4) in Er by lia. injection Er as <-. rewrite app_nil_r.
      rewrite encode_cons by done. rewrite length_take in Ho.
      rewrite (drop_ge o 3), (take_ge o 3) by lia. rewrite encode_nil, He.
      rewrite (take_ge bs) by lia. change (as_bytes "") with (@nil byte).
      apply app_nil_r.
    + rewrite length_take in Ho. assert (length o = 3)%nat as Ho3 by lia.
      rewrite encode_cons by (destruct o; done).
      rewrite take_app_length', drop_app_length' by done.
      by rewrite He, IH', take_drop.
Qed.

Lemma decode_sound s b : decode s = Ok b -> encode b = s.
Proof.
  unfold decode. intros H. destruct (N.eqb_spec (len (as_bytes s) mod 4) 1); [done|].
  apply as_bytes_inj. by eapply decode_chunks_sound.
Qed.

(** A string that decodes is the one encoding of its value,
    so two spellings of one identifier cannot both be accepted. *)
Theorem decode_canonical s b : decode s = Ok b -> encode b = s.
Proof. apply decode_sound. Qed.

Lemma decode_canonical_witness :
  decode "Zm9vYmE" = Ok (as_bytes "fooba") /\ encode (as_bytes "fooba") = "Zm9vYmE"%string.
Proof.
  assert (decode "Zm9vYmE" = Ok (as_bytes "fooba")) as H by (vm_compute; reflexivity).
  split; [exact H | exact (decode_canonical _ _ H)].
Defined.
