(* ===== verification/Externals.v ===== *)
(** * Interfaces to the crates the sources call

    [sha2], [hkdf], [chacha20poly1305], [minicbor], [snow] and [x25519-dalek]
    are third-party: each is a class of operations the definitions take as an
    argument, and what the code relies on of them is a class of laws, stated
    where a theorem needs it.  Nothing here fixes an implementation. *)

From S2P Require Import Prelude.
Local Open Scope N_scope.

(** ** [sha2]: one-shot SHA-256 of everything fed to the hasher. *)
Class Sha256 := sha256 : bytes -> bytes.

(** A digest is 32 bytes. *)
Class Sha256Laws `{Sha256} := sha256_length : ∀ m, length (sha256 m) = 32%nat.

(** ** [hkdf]: [Hkdf::<Sha256>::new(None, ikm).expand(info, &mut [0; n])]. *)
Class Hkdf := hkdf_expand : bytes -> bytes -> nat -> bytes.

(** The output buffer is filled exactly (for the lengths the code asks for). *)
Class HkdfLaws `{Hkdf} :=
  hkdf_length : ∀ ikm info n, (n <= 255 * 32)%nat -> length (hkdf_expand ikm info n) = n.

(** ** [chacha20poly1305]: key, nonce, message. *)
Class Aead := {
  aead_encrypt : bytes -> bytes -> bytes -> option bytes;
  aead_decrypt : bytes -> bytes -> bytes -> option bytes;
}.

(** What is sealed opens under the same key and nonce. *)
Class AeadLaws `{Aead} :=
  aead_decrypt_encrypt : ∀ k n m c,
    aead_encrypt k n m = Some c -> aead_decrypt k n c = Some m.

(** ** [minicbor]: encoding and decoding of one type; [None] is an error. *)
Class Cbor (T : Type) := {
  to_vec : T -> option bytes;
  cbor_decode : bytes -> option T;
}.

(** Decoding reads back what was encoded. *)
Class CborLaws (T : Type) `{Cbor T} :=
  cbor_decode_to_vec : ∀ (x : T) b, to_vec x = Some b -> cbor_decode b = Some x.

(** Encoding into a [Vec] cannot fail: the writer's error is [Infallible]. *)
Class CborTotal (T : Type) `{Cbor T} :=
  to_vec_total : ∀ x : T, is_Some (to_vec x).

(** ** [x25519-dalek]: the public half of a private key. *)
Class X25519 := x25519_public : bytes -> bytes.

(** ** [snow]: handshake and transport states are opaque.

    [write]/[read] take the size of the output buffer and return the bytes
    written into it.  A builder call can fail. *)
Class Snow := {
  SnowError : Type;
  snow_error_to_string : SnowError -> string;
  SnowBuilder : Type;
  HandshakeState : Type;
  TransportState : Type;
  (* [Builder::new(params.parse().expect(..))] *)
  builder_new : string -> SnowBuilder;
  builder_prologue : SnowBuilder -> bytes -> result SnowBuilder SnowError;
  builder_local_private_key : SnowBuilder -> bytes -> result SnowBuilder SnowError;
  builder_psk : SnowBuilder -> u8 -> bytes -> result SnowBuilder SnowError;
  builder_remote_public_key : SnowBuilder -> bytes -> result SnowBuilder SnowError;
  build_initiator : SnowBuilder -> result HandshakeState SnowError;
  build_responder : SnowBuilder -> result HandshakeState SnowError;
  is_handshake_finished : HandshakeState -> bool;
  hs_is_my_turn : HandshakeState -> bool;
  hs_write_message : HandshakeState -> bytes -> usize -> HandshakeState * result bytes SnowError;
  hs_read_message : HandshakeState -> bytes -> usize -> HandshakeState * result bytes SnowError;
  get_remote_static : HandshakeState -> option bytes;
  get_handshake_hash : HandshakeState -> bytes;
  into_transport_mode : HandshakeState -> result TransportState SnowError;
  ts_write_message : TransportState -> bytes -> usize -> TransportState * result bytes SnowError;
  ts_read_message : TransportState -> bytes -> usize -> TransportState * result bytes SnowError;
  ts_rekey_outgoing : TransportState -> TransportState;
}.

(** A message never overruns the buffer it is written into. *)
Class SnowLaws `{Snow} := {
  hs_write_bound : ∀ s p n s' m, hs_write_message s p n = (s', Ok m) -> len m <= n;
  ts_write_bound : ∀ s p n s' m, ts_write_message s p n = (s', Ok m) -> len m <= n;
}.

(** Two transport states of one session, and what the first has written that the
    second has not read: each message with what was sealed in it.  What is written
    is read in that order, and neither direction disturbs the other. *)
Class SnowChannel `{Snow} := {
  channel : TransportState -> list (bytes * bytes) -> TransportState -> Prop;
  channel_write : ∀ a q b p n a' m,
    channel a q b -> ts_write_message a p n = (a', Ok m) -> channel a' (q ++ [(p, m)]) b;
  channel_read : ∀ a p m q b n,
    channel a ((p, m) :: q) b -> len m <= n -> ∃ b', ts_read_message b m n = (b', Ok p) /\ channel a q b';
  channel_reader_writes : ∀ a q b p n b' m,
    channel a q b -> ts_write_message b p n = (b', Ok m) -> channel a q b';
  channel_writer_reads : ∀ a q b m n a' p,
    channel a q b -> ts_read_message a m n = (a', Ok p) -> channel a' q b;
}.

(** The sessions' handshake, IK with a pre-shared key in its second message: how
    a party of it is built, and what the code relies on when the two of them
    have the same prologue and each other's keys. *)
Definition IK_PARAMS : string := "Noise_IKpsk2_25519_ChaChaPoly_SHA256".
Definition ik_builder `{Snow} (pro private psk : bytes) : result SnowBuilder SnowError :=
  try! b := builder_prologue (builder_new IK_PARAMS) pro in
  try! b := builder_local_private_key b private in
  builder_psk b 2 psk.
Definition ik_initiator `{Snow} (pro private psk rs : bytes) : result HandshakeState SnowError :=
  try! b := ik_builder pro private psk in
  try! b := builder_remote_public_key b rs in
  build_initiator b.
Definition ik_responder `{Snow} (pro private psk : bytes) : result HandshakeState SnowError :=
  try! b := ik_builder pro private psk in
  build_responder b.

Section ik.
  Context `{Snow} `{X25519} `{!SnowChannel}.

(** One message: written by the first, read by the second. *)
Definition hs_passes (a b a' b' : HandshakeState) (p m : bytes) : Prop :=
  is_handshake_finished a = false /\ is_handshake_finished b = false /\
  hs_write_message a p 65535 = (a', Ok m) /\ hs_read_message b m 65535 = (b', Ok p).

(** The two ends of a finished handshake: they name it alike, and their
    transport states belong together. *)
Definition hs_done (a b : HandshakeState) : Prop :=
  is_handshake_finished a = true /\ is_handshake_finished b = true /\
  get_handshake_hash a = get_handshake_hash b /\
  ∃ s t, into_transport_mode a = Ok s /\ into_transport_mode b = Ok t /\
    channel s [] t /\ channel t [] s.
End ik.

(** Any responder with the key the opener was made for reads it and learns who
    wrote it; the one with the same pre-shared key answers, and then both are
    done.  Payloads of up to [ik_room] bytes fit. *)
Class SnowSession `{SnowChannel} `{X25519} := {
  ik_room : usize;
  ik_session : ∀ pro ka kb psk p,
    length ka = 32%nat -> length kb = 32%nat -> length psk = 32%nat -> len p <= ik_room ->
    ∃ i i1 m, ik_initiator pro ka psk (x25519_public kb) = Ok i /\
      ∀ psk', length psk' = 32%nat ->
        ∃ r r1, ik_responder pro kb psk' = Ok r /\ hs_passes i r i1 r1 p m /\
          get_remote_static r1 = Some (x25519_public ka) /\
          (psk' = psk -> ∀ q, len q <= ik_room ->
            ∃ r2 i2 m2, hs_passes r1 i1 r2 i2 q m2 /\ hs_done i2 r2);
}.

(** The pairing's handshake, XX: neither knows the other before. *)
Definition XX_PARAMS : string := "Noise_XX_25519_ChaChaPoly_SHA256".
Definition xx_builder `{Snow} (pro private : bytes) : result SnowBuilder SnowError :=
  try! b := builder_prologue (builder_new XX_PARAMS) pro in
  builder_local_private_key b private.

(** Two parties with the same prologue get through it: the responder may say
    something in the second message, the initiator in the third, up to
    [xx_room] bytes; then both are done, with one hash and each with the other's
    key. *)
Class SnowPairing `{Snow} `{X25519} := {
  xx_room : usize;
  xx_pairing : ∀ pro ka kb, length ka = 32%nat -> length kb = 32%nat ->
    ∃ i r i1 r1 m1, (try! b := xx_builder pro ka in build_initiator b) = Ok i /\
      (try! b := xx_builder pro kb in build_responder b) = Ok r /\ hs_passes i r i1 r1 [] m1 /\
      ∀ q, len q <= xx_room -> ∃ i2 r2 m2, hs_passes r1 i1 r2 i2 q m2 /\ hs_is_my_turn i2 = true /\
      ∀ p, len p <= xx_room -> ∃ i3 r3 m3, hs_passes i2 r2 i3 r3 p m3 /\
        is_handshake_finished i3 = true /\ is_handshake_finished r3 = true /\
        get_handshake_hash i3 = get_handshake_hash r3 /\
        get_remote_static i3 = Some (x25519_public kb) /\ get_remote_static r3 = Some (x25519_public ka);
}.
