(* ===== verification/Ids.v ===== *)
(** * [acrylius-proto/src/ids.rs]: fingerprints and device ids

    Both are derived from a static public key by a domain-tagged hash and kept
    in their text form; parsing accepts exactly the canonical spellings. *)

From S2P Require Import Prelude Externals B64.
Local Open Scope N_scope.

(** [[u8; 32]]. *)
Abbreviation PublicKey := bytes (only parsing).

Definition FP_TAG : bytes := as_bytes "acrylius/v1/fp".
Definition DID_TAG : bytes := as_bytes "acrylius/v1/did".

(* src: crates/acrylius-proto/src/ids.rs 16 19 Fingerprint *)
Record Fingerprint := mkFingerprint { fp_str : string }.
(* src: crates/acrylius-proto/src/ids.rs 21 24 DeviceId *)
Record DeviceId := mkDeviceId { did_str : string }.

#[global] Instance Fingerprint_eq_dec : EqDecision Fingerprint.
Proof. solve_decision. Defined.
#[global] Instance DeviceId_eq_dec : EqDecision DeviceId.
Proof. solve_decision. Defined.
#[global] Program Instance Fingerprint_countable : Countable Fingerprint :=
  inj_countable' fp_str mkFingerprint _.
Next Obligation. by intros []. Qed.
#[global] Program Instance DeviceId_countable : Countable DeviceId :=
  inj_countable' did_str mkDeviceId _.
Next Obligation. by intros []. Qed.
#[global] Instance Fingerprint_key_ord : KeyOrd Fingerprint :=
  λ a b, key_le (fp_str a) (fp_str b).
#[global] Instance DeviceId_key_ord : KeyOrd DeviceId :=
  λ a b, key_le (did_str a) (did_str b).

Definition FP_BYTES : usize := 32.
Definition FP_CHARS : usize := 43.
Definition DID_BYTES : usize := 16.
Definition DID_CHARS : usize := 22.

Section ids.
  Context `{Sha256}.

(* src: crates/acrylius-proto/src/ids.rs 62 68 Fingerprint::of *)
Definition Fingerprint_of (pk : PublicKey) : Fingerprint :=
  mkFingerprint (encode (sha256 (FP_TAG ++ pk))).

(* src: crates/acrylius-proto/src/ids.rs 74 79 DeviceId::of *)
Definition DeviceId_of (pk : PublicKey) : DeviceId :=
  mkDeviceId (encode (take (N.to_nat DID_BYTES) (sha256 (DID_TAG ++ pk)))).

(** [str_id!]'s [parse], for a type of [n] bytes. *)
(* src: crates/acrylius-proto/src/ids.rs 35 46 str_id::parse *)
Definition parse_id {T} (mk : string -> T) (bytes : usize) (s : string) : result T B64Error :=
  try! d := decode s in
  let n := len d in
  if negb (n =? bytes) then Err (WrongSize bytes n) else Ok (mk s).

Definition Fingerprint_parse (s : string) : result Fingerprint B64Error :=
  parse_id mkFingerprint FP_BYTES s.
Definition DeviceId_parse (s : string) : result DeviceId B64Error :=
  parse_id mkDeviceId DID_BYTES s.

Context `{!Sha256Laws}.

Lemma parse_id_encode {T} (mk : string -> T) b :
  parse_id mk (len b) (encode b) = Ok (mk (encode b)).
Proof.
  unfold parse_id. rewrite decode_encode_Ok. cbn [result_bind]. by rewrite N.eqb_refl.
Qed.

Lemma length_did_hash pk : len (take (N.to_nat DID_BYTES) (sha256 (DID_TAG ++ pk))) = DID_BYTES.
Proof. unfold len. rewrite length_take, sha256_length. reflexivity. Qed.

Lemma length_fp_hash pk : len (sha256 (FP_TAG ++ pk)) = FP_BYTES.
Proof. unfold len. by rewrite sha256_length. Qed.

(** An id derived from a key parses back to itself, has the length its
    constant claims, and the text of one kind is refused as the other kind. *)
Theorem ids_parse_of pk :
  Fingerprint_parse (fp_str (Fingerprint_of pk)) = Ok (Fingerprint_of pk) /\
  DeviceId_parse (did_str (DeviceId_of pk)) = Ok (DeviceId_of pk) /\
  str_len (fp_str (Fingerprint_of pk)) = FP_CHARS /\
  str_len (did_str (DeviceId_of pk)) = DID_CHARS /\
  Fingerprint_parse (did_str (DeviceId_of pk)) = Err (WrongSize FP_BYTES DID_BYTES) /\
  DeviceId_parse (fp_str (Fingerprint_of pk)) = Err (WrongSize DID_BYTES FP_BYTES).
Proof.
  unfold Fingerprint_parse, DeviceId_parse, str_len, Fingerprint_of, DeviceId_of.
  cbn [fp_str did_str].
  split_and!.
  - rewrite <- (length_fp_hash pk) at 1. apply parse_id_encode.
  - rewrite <- (length_did_hash pk) at 1. apply parse_id_encode.
  - by rewrite length_encode, length_fp_hash.
  - by rewrite length_encode, length_did_hash.
  - unfold parse_id. rewrite decode_encode_Ok. cbn [result_bind].
    by rewrite length_did_hash.
  - unfold parse_id. rewrite decode_encode_Ok. cbn [result_bind].
    by rewrite length_fp_hash.
Qed.

(** An accepted id is the canonical encoding of exactly the bytes it names. *)
Lemma parse_id_canonical {T} (mk : string -> T) n s t :
  parse_id mk n s = Ok t -> t = mk s /\ ∃ d, s = encode d /\ len d = n.
Proof.
  unfold parse_id. destruct (decode s) as [d|] eqn:E; [|done]. cbn [result_bind].
  destruct (N.eqb_spec (len d) n); [|done]. cbn. intros [= <-]. split; [done|].
  exists d. split; [|done]. symmetry. by apply decode_sound.
Qed.
End ids.
