(* ===== verification/Frame.v ===== *)
(** * [acrylius-proto/src/frame.rs]: the tag byte outside the encryption *)

From S2P Require Import Prelude.
Local Open Scope N_scope.

(* src: crates/acrylius-proto/src/frame.rs 5 15 FrameKind *)
Inductive FrameKind := PairHandshake | SessionHandshake | Transport.

#[global] Instance FrameKind_eq_dec : EqDecision FrameKind.
Proof. solve_decision. Defined.

(* src: crates/acrylius-proto/src/frame.rs 17 23 FrameError *)
Inductive FrameError := FrameEmpty | UnknownKind (b : u8).

(** [kind as u8]: the [repr(u8)] discriminants. *)
(* src: crates/acrylius-proto/src/frame.rs 6 15 FrameKind *)
Definition kind_byte (k : FrameKind) : u8 :=
  match k with PairHandshake => 1 | SessionHandshake => 2 | Transport => 3 end.

(* src: crates/acrylius-proto/src/frame.rs 25 34 FrameKind::from_byte *)
Definition from_byte (b : u8) : result FrameKind FrameError :=
  match b with
  | 1 => Ok PairHandshake
  | 2 => Ok SessionHandshake
  | 3 => Ok Transport
  | other => Err (UnknownKind other)
  end.

(* src: crates/acrylius-proto/src/frame.rs 36 43 join *)
Definition join (kind : FrameKind) (payload : bytes) : bytes :=
  byte_of (kind_byte kind) :: payload.

(* src: crates/acrylius-proto/src/frame.rs 45 49 split *)
Definition split (bs : bytes) : result (FrameKind * bytes) FrameError :=
  match bs with
  | [] => Err FrameEmpty
  | first :: rest =>
      try! k := from_byte (Byte.to_N first) in Ok (k, rest)
  end.

(** A joined frame splits into its kind and payload, and a frame that splits
    is the join of what it splits into: the framing is a bijection between
    (kind, payload) pairs and the frames the receiver accepts. *)
Theorem split_join bs k payload :
  split bs = Ok (k, payload) <-> bs = join k payload.
Proof.
  split.
  - destruct bs as [|b rest]; [done|]. unfold split, join, from_byte.
    intros H. assert (Byte.to_N b = kind_byte k /\ rest = payload) as [E ->].
    { destruct (Byte.to_N b) as [|[[[]|[]|]|[]|]]; cbn in H; simplify_eq; done. }
    by rewrite <- E, byte_of_to.
  - intros ->. by destruct k.
Qed.

Lemma split_join_id k payload : split (join k payload) = Ok (k, payload).
Proof. by destruct k. Qed.

Lemma len_join k payload : len (join k payload) = len payload + 1.
Proof. unfold len, join. cbn [length]. lia. Qed.
