(* ===== verification/Hello.v ===== *)
(** * [acrylius-proto/src/handshake.rs]: what rides inside the handshakes

    The freshness check with its replay watermark, and the directional
    negotiation of capabilities. *)

From S2P Require Import Prelude.
Local Open Scope N_scope.

(* src: crates/acrylius-proto/src/handshake.rs 10 12 MAX_SKEW_MS *)
Definition MAX_SKEW_MS : u64 := 60000.

(* src: crates/acrylius-proto/src/lib.rs 18 19 WIRE_VERSION *)
Definition WIRE_VERSION : u8 := 1.

(* src: crates/acrylius-proto/src/handshake.rs 14 34 Hello *)
Record Hello := mkHello {
  hello_v : u8;
  hello_ts_ms : u64;
  hello_device_id : string;
  hello_name : string;
  hello_platform : string;
  hello_caps_out : list string;
  hello_caps_in : list string;
}.

#[global] Instance Hello_eq_dec : EqDecision Hello.
Proof. solve_decision. Defined.

(* src: crates/acrylius-proto/src/handshake.rs 36 42 FreshnessError *)
Inductive FreshnessError :=
| Skew (ms : u64)
| Replay (got seen : u64).

#[global] Instance FreshnessError_eq_dec : EqDecision FreshnessError.
Proof. solve_decision. Defined.

(** The [Display] that [thiserror] derives from the [#[error]] strings. *)
(* src: crates/acrylius-proto/src/handshake.rs 37 42 FreshnessError *)
Definition freshness_error_to_string (e : FreshnessError) : string :=
  match e with
  | Skew ms => "handshake timestamp is " +:+ pretty ms +:+ " ms outside the permitted skew"
  | Replay got seen => "handshake timestamp " +:+ pretty got
      +:+ " is not newer than the last seen " +:+ pretty seen +:+ ": replay"
  end.

(** The replay watermark; a newtype over [u64]. *)
(* src: crates/acrylius-proto/src/handshake.rs 44 46 GreatestSeen *)
Definition GreatestSeen := u64.

(* src: crates/acrylius-proto/src/handshake.rs 52 70 Hello::check_freshness *)
Definition check_freshness (h : Hello) (now_ms : u64) (seen : GreatestSeen)
    : result GreatestSeen FreshnessError :=
  let delta := u64_abs_diff now_ms (hello_ts_ms h) in
  if MAX_SKEW_MS <? delta then Err (Skew (delta - MAX_SKEW_MS))
  else if hello_ts_ms h <=? seen then Err (Replay (hello_ts_ms h) seen)
  else Ok (hello_ts_ms h).

(* src: crates/acrylius-proto/src/handshake.rs 73 86 negotiate *)
Definition negotiate (sender_out receiver_in : list string) : list string :=
  let caps := List.filter (λ c, existsb (String.eqb c) receiver_in) sender_out in
  dedup (sort_unstable caps).

(** A hello is accepted exactly when its timestamp is within a minute of the
    receiver's clock, both bounds included, and strictly above the watermark,
    which it then becomes; otherwise the refusal names the overshoot or the
    replayed value. *)
Theorem check_freshness_spec h now seen :
  check_freshness h now seen =
  if bool_decide (now <= hello_ts_ms h + MAX_SKEW_MS /\ hello_ts_ms h <= now + MAX_SKEW_MS)
  then if bool_decide (seen < hello_ts_ms h) then Ok (hello_ts_ms h)
       else Err (Replay (hello_ts_ms h) seen)
  else Err (Skew (N.max now (hello_ts_ms h) - N.min now (hello_ts_ms h) - MAX_SKEW_MS)).
Proof.
  unfold check_freshness, u64_abs_diff, MAX_SKEW_MS. cbv zeta.
  set (ts := hello_ts_ms h).
  destruct (N.ltb_spec 60000 ((now - ts) + (ts - now))).
  - rewrite bool_decide_eq_false_2 by lia. repeat f_equal. lia.
  - rewrite bool_decide_eq_true_2 by lia.
    destruct (N.leb_spec ts seen).
    + by rewrite bool_decide_eq_false_2 by lia.
    + by rewrite bool_decide_eq_true_2 by lia.
Qed.

Lemma check_freshness_ok h now seen seen' :
  check_freshness h now seen = Ok seen' -> seen' = hello_ts_ms h /\ seen < seen'.
Proof.
  unfold check_freshness. cbv zeta. destruct (_ <? _); [done|].
  destruct (N.leb_spec (hello_ts_ms h) seen); [done|]. by intros [= <-].
Qed.

(** A sequence of openers offered to one peer record, each checked against the
    watermark the previous accepted one left; the accepted ones are returned. *)
Fixpoint accept_all (seen : GreatestSeen) (tries : list (u64 * Hello)) : list Hello :=
  match tries with
  | [] => []
  | (now, h) :: tries' =>
      match check_freshness h now seen with
      | Ok seen' => h :: accept_all seen' tries'
      | Err _ => accept_all seen tries'
      end
  end.

Lemma accept_all_above seen tries :
  Forall (λ h, seen < hello_ts_ms h) (accept_all seen tries).
Proof.
  revert seen; induction tries as [|[now h] tries IH]; intros seen; [constructor|].
  cbn [accept_all]. destruct (check_freshness h now seen) eqn:E; [|apply IH].
  apply check_freshness_ok in E as [-> Hlt]. constructor; [done|].
  eapply Forall_impl; [apply IH|]. cbn. intros; lia.
Qed.

(** Whatever openers arrive and whenever, the accepted ones have
    strictly increasing timestamps, so no recorded opener is accepted twice. *)
Theorem accept_all_increasing seen tries :
  StronglySorted (λ a b, hello_ts_ms a < hello_ts_ms b) (accept_all seen tries) /\
  NoDup (accept_all seen tries).
Proof.
  assert (StronglySorted (λ a b, hello_ts_ms a < hello_ts_ms b) (accept_all seen tries)) as H.
  { revert seen; induction tries as [|[now h] tries IH]; intros seen; [constructor|].
    cbn [accept_all]. destruct (check_freshness h now seen) eqn:E; [|apply IH].
    apply check_freshness_ok in E as [-> _]. constructor; [apply IH|].
    apply accept_all_above. }
  split; [done|]. induction H as [|h l Hl IH Hf]; [constructor|].
  constructor; [|done]. intros Hin. rewrite Forall_forall in Hf.
  specialize (Hf h Hin). lia.
Qed.

Lemma existsb_eqb_elem c l : existsb (String.eqb c) l = true <-> c ∈ l.
Proof.
  rewrite existsb_exists. split.
  - intros (x & Hx & ->%String.eqb_eq). by apply list_elem_of_In.
  - intros Hc. exists c. split; [by apply list_elem_of_In|apply String.eqb_refl].
Qed.

(** [negotiate] is the set intersection of the two lists, in sorted order
    and without repetition. *)
Theorem negotiate_spec a b :
  (∀ c, c ∈ negotiate a b <-> c ∈ a /\ c ∈ b) /\
  NoDup (negotiate a b) /\ StronglySorted string_leb_prop (negotiate a b).
Proof.
  split_and!; [|apply dedup_sort_NoDup|apply dedup_sort_sorted].
  intros c. unfold negotiate. rewrite elem_of_dedup_sort, !list_elem_of_In, filter_In.
  by rewrite existsb_eqb_elem, list_elem_of_In.
Qed.
