(* ===== verification/Envelope.v ===== *)
(** * [acrylius-proto/src/envelope.rs]: the packet envelope and its errors *)

From S2P Require Import Prelude Externals Hello.
Local Open Scope N_scope.

(* src: crates/acrylius-proto/src/envelope.rs 11 38 Envelope *)
Record Envelope := mkEnvelope {
  env_v : u8;
  env_id : u32;
  env_re : option u32;
  env_cap : string;
  env_ty : string;
  env_body : bytes;
  env_flags : u8;
  env_bulk : option u64;
}.

#[global] Instance Envelope_eq_dec : EqDecision Envelope.
Proof. solve_decision. Defined.
#[global] Instance Envelope_eta : Eta Envelope := λ e,
  mkEnvelope (env_v e) (env_id e) (env_re e) (env_cap e) (env_ty e) (env_body e)
    (env_flags e) (env_bulk e).

(* src: crates/acrylius-proto/src/envelope.rs 41 54 Envelope::new *)
Definition Envelope_new (id : u32) (cap ty : string) (body : bytes) : Envelope :=
  mkEnvelope WIRE_VERSION id None cap ty body 0 None.

(* src: crates/acrylius-proto/src/envelope.rs 56 63 Envelope::reply_to *)
Definition Envelope_reply_to (id : u32) (to : Envelope) (ty : string) (body : bytes) : Envelope :=
  (Envelope_new id (env_cap to) ty body) <| env_re := Some (env_id to) |>.

(* src: crates/acrylius-proto/src/envelope.rs 74 81 ErrorBody *)
Record ErrorBody := mkErrorBody { eb_code : string; eb_message : string }.

(* src: crates/acrylius-proto/src/envelope.rs 82 105 ErrorCode *)
Inductive ErrorCode :=
| CapNotNegotiated
| UnknownType
| BadBody
| NotAllowed
| EffectFailed
| NotPaired
| TooLarge
| Timeout
| Internal.

#[global] Instance ErrorCode_eq_dec : EqDecision ErrorCode.
Proof. solve_decision. Defined.

(* src: crates/acrylius-proto/src/envelope.rs 109 121 ErrorCode::as_str *)
Definition error_code_str (c : ErrorCode) : string :=
  match c with
  | CapNotNegotiated => "cap_not_negotiated"
  | UnknownType => "unknown_type"
  | BadBody => "bad_body"
  | NotAllowed => "not_allowed"
  | EffectFailed => "effect_failed"
  | NotPaired => "not_paired"
  | TooLarge => "too_large"
  | Timeout => "timeout"
  | Internal => "internal"
  end.

(** The error vocabulary is closed: no two codes share a spelling. *)
#[global] Instance error_code_str_inj : Inj (=) (=) error_code_str.
Proof. by intros [] []. Qed.

Lemma reply_stays_in_capability id to ty body :
  env_cap (Envelope_reply_to id to ty body) = env_cap to /\
  env_re (Envelope_reply_to id to ty body) = Some (env_id to).
Proof. done. Qed.
