(* ===== verification/PairingKeys.v ===== *)
(** * [acrylius-proto/src/pairing.rs]: what a pairing handshake hash yields *)

From S2P Require Import Prelude Externals.
Local Open Scope N_scope.

Definition SAS_INFO : bytes := as_bytes "acrylius/pair/v1/sas".
Definition SESSION_PSK_INFO : bytes := as_bytes "acrylius/pair/v1/session-psk".

(* src: crates/acrylius-proto/src/pairing.rs 12 13 SAS_DIGITS *)
Definition SAS_DIGITS : u32 := 6.

(** One decimal digit as a character. *)
Definition digit_char (d : N) : Ascii.ascii := Ascii.ascii_of_N (48 + d).

Definition SPACE : Ascii.ascii := Ascii.ascii_of_N 32.

(** [format!("{value:0digits$}")] for a [value] below [10^digits]. *)
Fixpoint zero_padded (digits : nat) (value : N) : list Ascii.ascii :=
  match digits with
  | O => []
  | S k => zero_padded k (value / 10) ++ [digit_char (value mod 10)]
  end.

(** [String::insert] at a byte index of an ASCII string. *)
Definition insert_at (i : nat) (c : Ascii.ascii) (l : list Ascii.ascii) : list Ascii.ascii :=
  take i l ++ c :: drop i l.

Section pairing.
  Context `{Hkdf}.

(** The number of which the short authentication string shows the digits. *)
(* src: crates/acrylius-proto/src/pairing.rs 22 26 sas *)
Definition sas_value (handshake_hash : bytes) : u32 :=
  let out := hkdf_expand handshake_hash SAS_INFO 4 in
  let modulus := 10 ^ SAS_DIGITS in
  from_be_bytes out mod modulus.

(* src: crates/acrylius-proto/src/pairing.rs 20 32 sas *)
Definition sas (handshake_hash : bytes) : string :=
  let digits := N.to_nat SAS_DIGITS in
  let s := zero_padded digits (sas_value handshake_hash) in
  String.string_of_list_ascii (insert_at (digits / 2) SPACE s).

(* src: crates/acrylius-proto/src/pairing.rs 36 43 session_psk *)
Definition session_psk (pairing_handshake_hash : bytes) : bytes :=
  hkdf_expand pairing_handshake_hash SESSION_PSK_INFO 32.

Lemma sas_value_lt hh : sas_value hh < 1000000.
Proof. unfold sas_value. change (10 ^ SAS_DIGITS) with 1000000. apply N.mod_lt. lia. Qed.

(** The value six decimal digits spell. *)
Definition digits_value (l : list Ascii.ascii) : N :=
  fold_left (λ acc c, acc * 10 + (Ascii.N_of_ascii c - 48)) l 0.

Lemma length_zero_padded k v : length (zero_padded k v) = k.
Proof.
  revert v; induction k as [|k IH]; intros v; [done|].
  cbn [zero_padded]. rewrite length_app, IH. cbn. lia.
Qed.

Lemma digit_char_value d : d < 10 -> Ascii.N_of_ascii (digit_char d) = 48 + d.
Proof. intros Hd. unfold digit_char. rewrite Ascii.N_ascii_embedding; lia. Qed.

Lemma digits_value_zero_padded k v : v < 10 ^ N.of_nat k -> digits_value (zero_padded k v) = v.
Proof.
  revert v; induction k as [|k IH]; intros v Hv.
  { cbn in Hv. cbn. lia. }
  cbn [zero_padded]. unfold digits_value in *.
  rewrite fold_left_app, IH by (rewrite Nat2N.inj_succ, N.pow_succ_r' in Hv;
    apply N.Div0.div_lt_upper_bound; lia).
  cbn [fold_left]. rewrite digit_char_value by (apply N.mod_lt; lia).
  divlia.
Qed.

Lemma zero_padded_digits k v :
  Forall (λ c, 48 <= Ascii.N_of_ascii c <= 57) (zero_padded k v).
Proof.
  revert v; induction k as [|k IH]; intros v; [constructor|].
  cbn [zero_padded]. apply Forall_app. split; [apply IH|]. constructor; [|constructor].
  rewrite digit_char_value by (apply N.mod_lt; lia).
  split; divlia.
Qed.

(** The short authentication string is always three digits, a space and three
    digits, leading zeros kept, and spells the derived value: two devices show
    the same string exactly when the derived values agree. *)
Theorem sas_format hh :
  ∃ l r, sas hh = String.string_of_list_ascii (l ++ SPACE :: r) /\
    length l = 3%nat /\ length r = 3%nat /\
    Forall (λ c, 48 <= Ascii.N_of_ascii c <= 57) (l ++ r) /\
    digits_value (l ++ r) = sas_value hh.
Proof.
  set (z := zero_padded 6 (sas_value hh)).
  exists (take 3 z), (drop 3 z).
  pose proof (length_zero_padded 6 (sas_value hh)) as Hl.
  split_and!; [done|..].
  - rewrite length_take. unfold z. rewrite Hl. done.
  - rewrite length_drop. unfold z. rewrite Hl. done.
  - rewrite take_drop. apply zero_padded_digits.
  - rewrite take_drop. apply digits_value_zero_padded, sas_value_lt.
Qed.
End pairing.
