(* ===== verification/Ble.v ===== *)
(** * [acrylius-proto/src/ble.rs]: BLE fragmentation and reassembly *)

From S2P Require Import Prelude.
Local Open Scope N_scope.

(* src: crates/acrylius-proto/src/ble.rs 14 16 MORE *)
Definition MORE : u8 := 0x01.
Definition START : u8 := 0x02.
Definition RESERVED : u8 := N.lxor 0xFF (N.lor MORE START).
(* src: crates/acrylius-proto/src/ble.rs 18 18 HEADER *)
Definition HEADER : usize := 1.

(* src: crates/acrylius-proto/src/ble.rs 20 28 BleError *)
Inductive BleError := BleEmpty | BleReserved | BleDesync | BleTooLarge.

#[global] Instance BleError_eq_dec : EqDecision BleError.
Proof. solve_decision. Defined.

(** The [Display] impl. *)
(* src: crates/acrylius-proto/src/ble.rs 30 40 BleError::fmt *)
Definition ble_error_to_string (e : BleError) : string :=
  match e with
  | BleEmpty => "a fragment with no header"
  | BleReserved => "a reserved header bit was set"
  | BleDesync => "a fragment that does not continue anything"
  | BleTooLarge => "the message is larger than the link allows"
  end.

(** One turn of the loop of [fragment]; [fuel] bounds the turns. *)
(* src: crates/acrylius-proto/src/ble.rs 52 64 fragment *)
Fixpoint fragment_loop (fuel : nat) (payload : nat) (first : bool) (rest : bytes) : list bytes :=
  match fuel with
  | O => []
  | S fuel' =>
      let take_n := Nat.min (length rest) payload in
      let now := take take_n rest in
      let rest' := drop take_n rest in
      let last := match rest' with [] => true | _ => false end in
      let header := N.lor (if first then START else 0) (if last then 0 else MORE) in
      let frag := byte_of header :: now in
      if last then [frag] else frag :: fragment_loop fuel' payload false rest'
  end.

(** [usize::saturating_sub] then [max(1)]: the payload bytes of a fragment. *)
Definition payload_size (fragment : usize) : nat := Nat.max (N.to_nat (fragment - HEADER)) 1.

(* src: crates/acrylius-proto/src/ble.rs 46 66 fragment *)
Definition fragment (msg : bytes) (frag_size : usize) : list bytes :=
  fragment_loop (S (length msg)) (payload_size frag_size) true msg.

(* src: crates/acrylius-proto/src/ble.rs 68 74 Reassembler *)
Record Reassembler := mkReassembler { r_buf : bytes; r_max : usize; r_open : bool }.
#[global] Instance Reassembler_eta : Eta Reassembler := λ r,
  mkReassembler (r_buf r) (r_max r) (r_open r).

(* src: crates/acrylius-proto/src/ble.rs 77 84 Reassembler::new *)
Definition Reassembler_new (max_message : usize) : Reassembler := mkReassembler [] max_message false.

(* src: crates/acrylius-proto/src/ble.rs 120 123 Reassembler::fail *)
Definition reassembler_fail (r : Reassembler) : Reassembler := r <| r_buf := [] |> <| r_open := false |>.

Definition bit_set (header mask : N) : bool := negb (N.land header mask =? 0).

(* src: crates/acrylius-proto/src/ble.rs 91 118 Reassembler::push *)
Definition push (r : Reassembler) (frag : bytes) : Reassembler * result (option bytes) BleError :=
  match frag with
  | [] => (reassembler_fail r, Err BleEmpty)
  | h :: body =>
      let header := Byte.to_N h in
      if bit_set header RESERVED then (reassembler_fail r, Err BleReserved)
      else
        let starts := bit_set header START in
        if eqb starts (r_open r) then (reassembler_fail r, Err BleDesync)
        else if r_max r <? u64_saturating_add (len (r_buf r)) (len body)
        then (reassembler_fail r, Err BleTooLarge)
        else
          let r := r <| r_buf ::= λ b, b ++ body |> in
          if bit_set header MORE then (r <| r_open := true |>, Ok None)
          else (r <| r_buf := [] |> <| r_open := false |>, Ok (Some (r_buf r)))
  end.

(** Feed fragments until one fails or completes a message. *)
Fixpoint push_all (r : Reassembler) (frags : list bytes)
    : Reassembler * result (list bytes) BleError :=
  match frags with
  | [] => (r, Ok [])
  | f :: frags' =>
      match push r f with
      | (r', Err e) => (r', Err e)
      | (r', Ok o) =>
          match push_all r' frags' with
          | (r'', Ok ms) => (r'', Ok (match o with Some m => m :: ms | None => ms end))
          | (r'', Err e) => (r'', Err e)
          end
      end
  end.

(** ** The fragments of a message *)

(** The four headers the loop writes. *)
Lemma header_bits first last :
  let h := Byte.to_N (byte_of (N.lor (if first : bool then START else 0)
                                     (if last : bool then 0 else MORE))) in
  bit_set h RESERVED = false /\ bit_set h START = first /\ bit_set h MORE = negb last.
Proof. by destruct first, last. Qed.

Lemma payload_size_pos f : (1 <= payload_size f)%nat.
Proof. unfold payload_size. lia. Qed.

(** The loop with the [min] resolved: a fragment carries the next [p] bytes. *)
Lemma fragment_loop_unfold fuel p first rest :
  fragment_loop (S fuel) p first rest =
  let last := bool_decide (drop p rest = []) in
  let frag := byte_of (N.lor (if first then START else 0) (if last then 0 else MORE))
              :: take p rest in
  if last then [frag] else frag :: fragment_loop fuel p false (drop p rest).
Proof.
  cbn [fragment_loop].
  assert (take (length rest `min` p) rest = take p rest) as ->.
  { destruct (Nat.le_gt_cases (length rest) p).
    - by rewrite Nat.min_l, !take_ge by lia.
    - by rewrite Nat.min_r by lia. }
  assert (drop (length rest `min` p) rest = drop p rest) as ->.
  { destruct (Nat.le_gt_cases (length rest) p).
    - by rewrite Nat.min_l, !drop_ge by lia.
    - by rewrite Nat.min_r by lia. }
  by destruct (drop p rest).
Qed.

Definition well_formed (r : Reassembler) : Prop :=
  len (r_buf r) <= r_max r /\ (r_open r = false -> r_buf r = []).

(** What [push] does with a fragment the cutter made. *)
Lemma push_made r first (last : bool) body :
  r_open r = negb first ->
  len (r_buf r) + len body <= r_max r <= u64_max ->
  push r (byte_of (N.lor (if first then START else 0) (if last then 0 else MORE)) :: body) =
  if last then (r <| r_buf := [] |> <| r_open := false |>, Ok (Some (r_buf r ++ body)))
  else (r <| r_buf := r_buf r ++ body |> <| r_open := true |>, Ok None).
Proof.
  intros Ho Hl. unfold push.
  destruct (header_bits first last) as (-> & -> & ->). cbv zeta.
  rewrite Ho. replace (eqb first (negb first)) with false by (by destruct first).
  unfold u64_saturating_add. rewrite (proj2 (N.ltb_ge _ _)) by lia.
  by destruct last.
Qed.

Lemma push_all_fragment_loop fuel p first rest r :
  (length rest < fuel)%nat -> (1 <= p)%nat -> r_open r = negb first ->
  len (r_buf r) + len rest <= r_max r <= u64_max ->
  push_all r (fragment_loop fuel p first rest) =
  (r <| r_buf := [] |> <| r_open := false |>, Ok [r_buf r ++ rest]).
Proof.
  revert first rest r; induction fuel as [|fuel IH]; intros first rest r Hf Hp Ho Hl; [lia|].
  rewrite fragment_loop_unfold. cbv zeta.
  assert (len (take p rest) + len (drop p rest) = len rest) as Hsplit.
  { rewrite <- len_app, take_drop. done. }
  destruct (bool_decide_reflect (drop p rest = [])) as [Hd|Hd]; cbn [push_all].
  - rewrite (push_made r first true) by (done || lia).
    pose proof (take_drop p rest) as E. rewrite Hd, app_nil_r in E. by rewrite E.
  - rewrite (push_made r first false) by (done || lia).
    rewrite IH; [| |done|done|].
    + cbn. by rewrite <- app_assoc, take_drop.
    + rewrite length_drop. destruct rest; [by rewrite drop_nil in Hd|]. simpl in *. lia.
    + cbn. rewrite len_app. lia.
Qed.

(** C20 (roundtrip): whatever the fragment size, feeding a message's fragments in
    order to a closed reassembler whose limit admits the message yields exactly
    that message and leaves the reassembler closed and empty again. *)
Theorem reassemble_fragment msg frag_size r :
  well_formed r -> r_open r = false -> len msg <= r_max r <= u64_max ->
  push_all r (fragment msg frag_size) = (r, Ok [msg]).
Proof.
  intros [_ Hb] Ho Hl. specialize (Hb Ho). unfold fragment.
  rewrite push_all_fragment_loop; [|lia|apply payload_size_pos|by rewrite Ho|].
  - rewrite Hb. cbn. destruct r as [b m o]; cbn in *. by subst.
  - rewrite Hb. unfold len in *. cbn. lia.
Qed.

Lemma reassemble_fragment_witness :
  push_all (Reassembler_new 100) (fragment (as_bytes "a longer message") 5)
  = (Reassembler_new 100, Ok [as_bytes "a longer message"]).
Proof.
  apply reassemble_fragment; [split; [vm_compute; discriminate|reflexivity]|reflexivity|].
  split; vm_compute; discriminate.
Defined.

Lemma fragment_loop_sizes fuel p first rest :
  (length rest < fuel)%nat -> (1 <= p)%nat ->
  Forall (λ f, length f <= S p)%nat (fragment_loop fuel p first rest) /\
  (length rest <= p * length (fragment_loop fuel p first rest))%nat /\
  (p * pred (length (fragment_loop fuel p first rest)) <= length rest)%nat.
Proof.
  revert first rest; induction fuel as [|fuel IH]; intros first rest Hf Hp; [lia|].
  rewrite fragment_loop_unfold. cbv zeta.
  pose proof (length_take rest p) as Ht. pose proof (length_drop rest p) as Hdr.
  destruct (bool_decide_reflect (drop p rest = [])) as [Hd|Hd].
  - rewrite Hd in Hdr. cbn [length] in *. split_and!; [|lia|lia].
    constructor; [|constructor]. cbn [length]. lia.
  - assert (p < length rest)%nat as Hlt.
    { destruct (Nat.le_gt_cases (length rest) p); [|done]. by rewrite drop_ge in Hd. }
    destruct (IH false (drop p rest)) as (H1 & H2 & H3); [lia|done|].
    set (l := fragment_loop fuel p false (drop p rest)) in *.
    split_and!.
    + constructor; [cbn [length]; lia|done].
    + cbn [length]. lia.
    + cbn [length pred]. destruct (length l); lia.
Qed.

(** Every fragment fits the link's fragment size (a size below two
    counts as two), at least one fragment is made, and no fewer and no more are
    made than the payload needs. *)
Theorem fragment_fits msg frag_size :
  let p := payload_size frag_size in
  let frags := fragment msg frag_size in
  Forall (λ f, len f <= N.max frag_size 2) frags /\ frags <> [] /\
  (length msg <= p * length frags)%nat /\ (p * pred (length frags) <= length msg)%nat.
Proof.
  cbv zeta. unfold fragment.
  destruct (fragment_loop_sizes (S (length msg)) (payload_size frag_size) true msg)
    as (H1 & H2 & H3); [lia|apply payload_size_pos|].
  split_and!; [|by rewrite fragment_loop_unfold; cbv zeta; case_bool_decide|done|done].
  eapply Forall_impl; [exact H1|]. cbn. intros f Hf. unfold len, payload_size, HEADER in *. lia.
Qed.

(** ** Any fragments at all *)

(** Whatever bytes arrive, the reassembler never keeps more than
    its limit and holds nothing while closed; an error leaves it closed and
    empty; and a message it delivers is within the limit. *)
Theorem push_invariant r frag r' res :
  well_formed r -> r_max r < u64_max -> push r frag = (r', res) ->
  well_formed r' /\ r_max r' = r_max r /\
  match res with
  | Err _ => r_buf r' = [] /\ r_open r' = false
  | Ok None => r_open r' = true
  | Ok (Some m) => r_buf r' = [] /\ r_open r' = false /\ len m <= r_max r
  end.
Proof.
  intros [Hb Ho] Hm H.
  assert (∀ e, (r', res) = (reassembler_fail r, Err e) ->
    well_formed r' /\ r_max r' = r_max r /\ match res with
    | Err _ => r_buf r' = [] /\ r_open r' = false
    | Ok None => r_open r' = true
    | Ok (Some m) => r_buf r' = [] /\ r_open r' = false /\ len m <= r_max r
    end) as Hfail.
  { intros e [= -> ->]. unfold well_formed, reassembler_fail, len; cbn. split_and!; auto; lia. }
  destruct frag as [|h body]; cbn [push] in H; [by eapply Hfail|].
  destruct (bit_set _ RESERVED); [by eapply Hfail|].
  destruct (eqb _ _); [by eapply Hfail|].
  destruct (N.ltb_spec (r_max r) (u64_saturating_add (len (r_buf r)) (len body))) as [|Hle];
    [by eapply Hfail|].
  unfold u64_saturating_add in Hle. unfold well_formed. cbn in H.
  destruct (bit_set _ MORE); injection H as <- <-; cbn;
    autorewrite with acr; split_and!; auto; try lia; done.
Qed.

Lemma push_invariant_witness :
  well_formed (fst (push (Reassembler_new 4) [byte_of 3; byte_of 7])) /\
  r_max (fst (push (Reassembler_new 4) [byte_of 3; byte_of 7])) = 4 /\
  r_open (fst (push (Reassembler_new 4) [byte_of 3; byte_of 7])) = true.
Proof.
  apply (push_invariant (Reassembler_new 4) [byte_of 3; byte_of 7] _ (Ok None)).
  - split; [vm_compute; discriminate|reflexivity].
  - reflexivity.
  - vm_compute. reflexivity.
Defined.
