(* ===== verification/Bulk.v ===== *)
(** * [acrylius-proto/src/bulk.rs]: the bulk side channel

    Key derivation, the dialer's greeting, chunk sealing, and the rule that
    makes a peer's file name safe.  A Rust [str] is its list of [char]s here,
    since [safe_name] works on characters; a [char] is its scalar value. *)

From S2P Require Import Prelude Externals.
Local Open Scope N_scope.

Definition BULK_INFO : bytes := as_bytes "acrylius/bulk/v1".
(* src: crates/acrylius-proto/src/bulk.rs 14 15 CHUNK *)
Definition CHUNK : usize := 64 * 1024.
(* src: crates/acrylius-proto/src/bulk.rs 17 18 MAX_FRAME *)
Definition MAX_FRAME : u32 := wrap32 (CHUNK + 64).

(** The [info] string of the derivation. *)
(* src: crates/acrylius-proto/src/bulk.rs 26 29 key *)
Definition key_info (offerer : string) (transfer : u64) : bytes :=
  BULK_INFO ++ [byte_of (N.min (str_len offerer) 255)] ++ as_bytes offerer
    ++ to_be_bytes 8 transfer.

(* src: crates/acrylius-proto/src/bulk.rs 24 35 key *)
Definition key `{Hkdf} (handshake_hash : bytes) (offerer : string) (transfer : u64) : bytes :=
  hkdf_expand handshake_hash (key_info offerer transfer) 32.

(* src: crates/acrylius-proto/src/bulk.rs 39 45 hello *)
Definition hello (transfer : u64) : bytes := as_bytes "ACRB" ++ to_be_bytes 8 transfer.

(* src: crates/acrylius-proto/src/bulk.rs 47 51 HelloError *)
Inductive HelloError := NotOurs.

(** The argument is a [[u8; 12]]. *)
(* src: crates/acrylius-proto/src/bulk.rs 53 61 read_hello *)
Definition read_hello (bs : bytes) : result u64 HelloError :=
  if negb (bool_decide (take 4 bs = as_bytes "ACRB")) then Err NotOurs
  else Ok (from_be_bytes (drop 4 bs)).

(* src: crates/acrylius-proto/src/bulk.rs 65 70 nonce *)
Definition nonce (seq : u64) : bytes := replicate 4 Byte.x00 ++ to_be_bytes 8 seq.

(* src: crates/acrylius-proto/src/bulk.rs 72 80 ChunkError *)
Inductive ChunkError := BadKey | Sealed (seq : u64) | Unsealed (seq : u64).
#[global] Instance ChunkError_eq_dec : EqDecision ChunkError.
Proof. solve_decision. Defined.

Section chunks.
  Context `{Aead}.

(** The key a cipher is built from: exactly 32 bytes. *)
(* src: crates/acrylius-proto/src/bulk.rs 97 100 cipher *)
Definition cipher (key : bytes) : result bytes ChunkError :=
  if len key =? 32 then Ok key else Err BadKey.

(* src: crates/acrylius-proto/src/bulk.rs 82 87 seal *)
Definition seal (key : bytes) (seq : u64) (plaintext : bytes) : result bytes ChunkError :=
  try! k := cipher key in
  ok_or (aead_encrypt k (nonce seq) plaintext) (Unsealed seq).

(* src: crates/acrylius-proto/src/bulk.rs 89 95 open *)
Definition open_chunk (key : bytes) (seq : u64) (frame : bytes) : result bytes ChunkError :=
  try! k := cipher key in
  ok_or (aead_decrypt k (nonce seq) frame) (Sealed seq).

(** A chunk opens at its own position, and a key that is not 32 bytes is
    refused on both sides. *)
Lemma open_seal `{!AeadLaws} k seq m c :
  seal k seq m = Ok c -> open_chunk k seq c = Ok m.
Proof.
  unfold seal, open_chunk, cipher. destruct (_ =? _); [|done]. cbn [result_bind].
  destruct (aead_encrypt k (nonce seq) m) as [c'|] eqn:E; [|done]. intros [= <-].
  by rewrite (aead_decrypt_encrypt _ _ _ _ E).
Qed.
End chunks.

(** ** [safe_name] *)

Abbreviation char := N (only parsing).

(** [char::is_control]: Unicode category Cc. *)
Definition is_control (c : char) : bool := (c <? 0x20) || ((0x7F <=? c) && (c <? 0xA0)).

(** [char::is_whitespace]: the Unicode property White_Space. *)
Definition is_whitespace (c : char) : bool :=
  ((9 <=? c) && (c <=? 13)) || (c =? 0x20) || (c =? 0x85) || (c =? 0xA0) || (c =? 0x1680)
  || ((0x2000 <=? c) && (c <=? 0x200A)) || (c =? 0x2028) || (c =? 0x2029) || (c =? 0x202F)
  || (c =? 0x205F) || (c =? 0x3000).

(** [char::len_utf8]. *)
Definition len_utf8 (c : char) : N :=
  if c <? 0x80 then 1 else if c <? 0x800 then 2 else if c <? 0x10000 then 3 else 4.

Definition str_len_utf8 (s : list char) : N := foldr (λ c n, len_utf8 c + n) 0 s.

Fixpoint trim_start_by (p : char -> bool) (s : list char) : list char :=
  match s with [] => [] | c :: s' => if p c then trim_start_by p s' else s end.

(** [str::trim]: white space off both ends. *)
Definition trim (s : list char) : list char :=
  reverse (trim_start_by is_whitespace (reverse (trim_start_by is_whitespace s))).

(** What [rsplit(p).next()] returns: everything after the last match. *)
Fixpoint rsplit_last (p : char -> bool) (s : list char) : list char :=
  match s with
  | [] => []
  | c :: s' => if existsb p s' then rsplit_last p s' else if p c then s' else s
  end.

Definition SLASH : char := 47.
Definition BACKSLASH : char := 92.
Definition DOT : char := 46.
Definition is_separator (c : char) : bool := (c =? SLASH) || (c =? BACKSLASH).

(* src: crates/acrylius-proto/src/bulk.rs 135 136 MAX_NAME_BYTES *)
Definition MAX_NAME_BYTES : usize := 200.

(** The loop that copies characters while they fit. *)
(* src: crates/acrylius-proto/src/bulk.rs 119 126 safe_name *)
Fixpoint take_bytes (cleaned : list char) (cs : list char) : list char :=
  match cs with
  | [] => cleaned
  | c :: cs' =>
      if MAX_NAME_BYTES <? str_len_utf8 cleaned + len_utf8 c then cleaned
      else take_bytes (cleaned ++ [c]) cs'
  end.

Definition str_chars (s : string) : list char := map Byte.to_N (as_bytes s).

(* src: crates/acrylius-proto/src/bulk.rs 102 133 safe_name *)
Definition safe_name (offered : list char) : list char :=
  let base := List.filter (λ c, negb (is_control c)) (rsplit_last is_separator offered) in
  let trimmed := trim (trim_start_by (λ c, c =? DOT) (trim base)) in
  let cleaned := take_bytes [] trimmed in
  match cleaned with [] => str_chars "received" | _ => cleaned end.

(** ** Theorems about keys, greetings and nonces *)

Lemma app_inj_len {A} (a b c d : list A) :
  length a = length c -> a ++ b = c ++ d -> a = c /\ b = d.
Proof. intros Hl E. by apply app_inj_1 in E. Qed.

(** The derivation input determines the offering device and the transfer
    number, so no two transfers of a session, in either direction, are given
    the same input to derive a key from. *)
Theorem key_info_inj o1 t1 o2 t2 :
  t1 <= u64_max -> t2 <= u64_max ->
  key_info o1 t1 = key_info o2 t2 -> o1 = o2 /\ t1 = t2.
Proof.
  intros H1 H2 E. unfold key_info in E.
  apply app_inj_len in E as [_ E]; [|done]. apply app_inj_len in E as [_ E]; [|done].
  assert (length (as_bytes o1) = length (as_bytes o2)) as Hl.
  { apply (f_equal length) in E. rewrite !length_app, !length_to_be_bytes in E. lia. }
  apply app_inj_len in E as [Eo Et]; [|done].
  split; [by apply as_bytes_inj|].
  apply (to_be_bytes_inj 8); [..|done]; unfold u64_max in *;
    change (256 ^ N.of_nat 8) with 18446744073709551616; lia.
Qed.

Lemma key_info_inj_witness :
  key_info "A" 7 = key_info "A" 7 /\ ("A" = "A" /\ 7 = 7)%string.
Proof.
  split; [reflexivity|]. apply (key_info_inj "A" 7 "A" 7);
    [vm_compute; discriminate|vm_compute; discriminate|reflexivity].
Defined.

Lemma u64_pow t : t <= u64_max -> t < 256 ^ N.of_nat 8.
Proof. unfold u64_max. change (256 ^ N.of_nat 8) with 18446744073709551616. lia. Qed.

(** Big-endian bytes are determined by their number. *)
Lemma be_bytes_inv k l : length l = k -> to_be_bytes k (from_be_bytes l) = l.
Proof.
  revert l. induction k as [|k IH]; intros l Hl; [by destruct l|].
  destruct l as [|x l] using rev_ind; [done|].
  rewrite length_app in Hl. cbn in Hl. cbn [to_be_bytes].
  rewrite from_be_bytes_snoc. pose proof (byte_to_N_lt x).
  assert ((from_be_bytes l * 256 + Byte.to_N x) / 256 = from_be_bytes l) as -> by divlia.
  rewrite IH by lia. do 2 f_equal. apply byte_to_N_inj. rewrite byte_of_mod. divlia.
Qed.

(** The twelve greeting bytes read back as the transfer number they were
    written for, and only a greeting is read. *)
Theorem read_hello_iff bs t :
  length bs = 12%nat -> t <= u64_max -> read_hello bs = Ok t <-> bs = hello t.
Proof.
  intros Hl Ht. split.
  - unfold read_hello. case_bool_decide as E; [|done]. cbn [negb]. intros [= <-].
    unfold hello. rewrite <- E, <- (take_drop 4 bs) at 1. f_equal.
    assert (length (drop 4 bs) = 8%nat) as H8 by (rewrite length_drop; lia).
    clear - H8. remember (drop 4 bs) as l eqn:El; clear El.
    symmetry. by apply be_bytes_inv.
  - intros ->. unfold read_hello, hello.
    rewrite take_app_length', drop_app_length' by done.
    rewrite bool_decide_eq_true_2 by done. cbn [negb].
    by rewrite from_to_be_bytes by (by apply u64_pow).
Qed.

Lemma read_hello_iff_witness : read_hello (hello 258) = Ok 258.
Proof.
  apply (read_hello_iff (hello 258) 258); [reflexivity|vm_compute; discriminate|reflexivity].
Defined.

(** Distinct sequence numbers give distinct nonces of the right size. *)
Lemma nonce_inj s1 s2 :
  s1 <= u64_max -> s2 <= u64_max -> nonce s1 = nonce s2 -> s1 = s2.
Proof.
  intros H1 H2 E. unfold nonce in E. apply app_inj_len in E as [_ E]; [|done].
  apply (to_be_bytes_inj 8); [..|done]; by apply u64_pow.
Qed.

(** ** Theorems about names *)

Lemma trim_start_by_suffix p s : ∃ k, trim_start_by p s = drop k s.
Proof.
  induction s as [|c s [k IH]]; [by exists 0%nat|]. cbn [trim_start_by].
  destruct (p c); [by exists (S k)|by exists 0%nat].
Qed.

Lemma trim_start_by_incl p s : trim_start_by p s ⊆ s.
Proof.
  destruct (trim_start_by_suffix p s) as [k ->]. apply subseteq_drop.
Qed.

Lemma trim_incl s : trim s ⊆ s.
Proof.
  unfold trim. intros c Hc. rewrite elem_of_reverse in Hc.
  apply trim_start_by_incl in Hc. rewrite elem_of_reverse in Hc.
  by apply trim_start_by_incl in Hc.
Qed.

Lemma rsplit_last_incl p s c : c ∈ rsplit_last p s -> c ∈ s /\ p c = false.
Proof.
  induction s as [|d s IH]; [by intros ?%not_elem_of_nil|]. cbn [rsplit_last].
  destruct (existsb p s) eqn:E.
  - intros H%IH. rewrite elem_of_cons. naive_solver.
  - assert (∀ c, c ∈ s -> p c = false) as Hs.
    { intros x Hx. destruct (p x) eqn:Ex; [|done]. rewrite <- E. symmetry.
      apply existsb_exists. exists x. split; [by apply list_elem_of_In|done]. }
    destruct (p d) eqn:Ed; rewrite ?elem_of_cons; naive_solver.
Qed.

Lemma str_len_utf8_app a b : str_len_utf8 (a ++ b) = str_len_utf8 a + str_len_utf8 b.
Proof.
  unfold str_len_utf8. induction a as [|c a IH]; [done|].
  cbn [app foldr]. rewrite IH. lia.
Qed.

Lemma take_bytes_prefix acc cs :
  ∃ pre, take_bytes acc cs = acc ++ pre /\ pre `prefix_of` cs /\
    (str_len_utf8 acc <= MAX_NAME_BYTES -> str_len_utf8 (acc ++ pre) <= MAX_NAME_BYTES).
Proof.
  revert acc; induction cs as [|c cs IH]; intros acc.
  { exists []. rewrite app_nil_r. split_and!; [done|apply prefix_nil|done]. }
  cbn [take_bytes]. destruct (N.ltb_spec MAX_NAME_BYTES (str_len_utf8 acc + len_utf8 c)) as [H|H].
  - exists []. rewrite app_nil_r. split_and!; [done|apply prefix_nil|done].
  - destruct (IH (acc ++ [c])) as (pre & E & Hp & Hl). exists (c :: pre).
    rewrite E, <- app_assoc. split_and!; [done|by apply prefix_cons|].
    intros _. rewrite <- app_assoc in Hl. apply Hl. rewrite str_len_utf8_app. cbn. lia.
Qed.

(** The name [safe_name] settles on before the fallback. *)
Definition trimmed_name (offered : list char) : list char :=
  trim (trim_start_by (λ c, c =? DOT)
    (trim (List.filter (λ c, negb (is_control c)) (rsplit_last is_separator offered)))).

Lemma safe_name_cases offered :
  safe_name offered = str_chars "received" \/
  (∃ c s, safe_name offered = c :: s /\ (c :: s) `prefix_of` trimmed_name offered /\
    str_len_utf8 (c :: s) <= MAX_NAME_BYTES).
Proof.
  unfold safe_name. fold (trimmed_name offered). cbv zeta.
  destruct (take_bytes_prefix [] (trimmed_name offered)) as (pre & E & Hp & Hl).
  rewrite E. destruct pre as [|c s]; [by left|]. right. exists c, s.
  split_and!; [done|done|]. apply Hl. vm_compute. discriminate.
Qed.

Lemma trimmed_name_chars offered c :
  c ∈ trimmed_name offered -> is_separator c = false /\ is_control c = false.
Proof.
  unfold trimmed_name. intros H%trim_incl%trim_start_by_incl%trim_incl.
  apply list_elem_of_In, filter_In in H as [H Hc].
  apply list_elem_of_In, rsplit_last_incl in H as [_ H]. by destruct (is_control c).
Qed.

(** Whatever a peer offers as a name, the name used has no path
    separator and no control character, is not empty, and takes at most 200
    bytes. *)
Theorem safe_name_safe offered :
  Forall (λ c, is_separator c = false /\ is_control c = false) (safe_name offered) /\
  safe_name offered <> [] /\ 1 <= str_len_utf8 (safe_name offered) <= MAX_NAME_BYTES.
Proof.
  destruct (safe_name_cases offered) as [-> | (c & s & -> & Hp & Hl)].
  - split_and!; [|done|vm_compute; discriminate..].
    repeat constructor; reflexivity.
  - split_and!; [|done| |done].
    + apply Forall_forall. intros d Hd. apply (trimmed_name_chars offered).
      destruct Hp as [k Hk]. rewrite Hk. by apply elem_of_app; left.
    + cbn. unfold len_utf8. repeat case_match; lia.
Qed.

Lemma trim_start_by_none p s : Forall (λ c, p c = false) s -> trim_start_by p s = s.
Proof. destruct s as [|c s]; [done|]. intros [Hc _]%Forall_cons. cbn. by rewrite Hc. Qed.

Lemma trim_none s : Forall (λ c, is_whitespace c = false) s -> trim s = s.
Proof.
  intros H. unfold trim. rewrite (trim_start_by_none _ s) by done.
  rewrite trim_start_by_none by (by apply Forall_reverse). apply reverse_involutive.
Qed.

Lemma trim_start_by_head p s c r : trim_start_by p s = c :: r -> p c = false.
Proof.
  induction s as [|d s IH]; [done|]. cbn. destruct (p d) eqn:E; [done|]. naive_solver.
Qed.

(** A name offered without white space never comes out starting with a dot,
    so it is neither hidden nor a reference to a directory. *)
Theorem safe_name_no_dot offered :
  Forall (λ c, is_whitespace c = false) offered -> head (safe_name offered) <> Some DOT.
Proof.
  intros Hw. destruct (safe_name_cases offered) as [-> | (c & s & -> & [k Hk] & _)]; [done|].
  assert (∀ l, l ⊆ offered -> trim l = l) as Htrim.
  { intros l Hl. apply trim_none, Forall_forall. intros d Hd%Hl.
    by rewrite Forall_forall in Hw; apply Hw. }
  set (base := List.filter (λ c, negb (is_control c)) (rsplit_last is_separator offered)) in *.
  assert (base ⊆ offered) as Hb.
  { intros d [Hd _]%list_elem_of_In%filter_In.
    by apply list_elem_of_In, rsplit_last_incl in Hd as [Hd _]. }
  unfold trimmed_name in Hk. fold base in Hk. rewrite (Htrim base Hb) in Hk.
  rewrite Htrim in Hk by (by etrans; [apply trim_start_by_incl|]).
  apply trim_start_by_head in Hk. apply N.eqb_neq in Hk. cbn. congruence.
Qed.

Lemma safe_name_no_dot_witness :
  head (safe_name (str_chars "../.bashrc")) <> Some DOT.
Proof. apply safe_name_no_dot. repeat constructor. Defined.

(** A dot hidden behind white space after leading dots survives the trim:
    the offered name [". .."] is used as [".."]. *)
Theorem safe_name_dot_dot :
  safe_name (str_chars ". ..") = str_chars ".." /\
  safe_name (str_chars "x/. .bashrc") = str_chars ".bashrc".
Proof. split; vm_compute; reflexivity. Qed.
