(* ===== verification/Link.v ===== *)
(** * [acrylius-core/src/link.rs]: links, transports and routes *)

From S2P Require Import Prelude Envelope.
Local Open Scope N_scope.

(* src: crates/acrylius-core/src/link.rs 4 7 DEAD_PEER_MS *)
Definition DEAD_PEER_MS : u64 := 20000.
(* src: crates/acrylius-core/src/link.rs 9 12 DIAL_TIMEOUT_MS *)
Definition DIAL_TIMEOUT_MS : u64 := 6000.

(** Newtypes over [u64] and [u16]. *)
Abbreviation LinkId := N (only parsing).
Abbreviation TransportId := N (only parsing).

(* src: crates/acrylius-core/src/link.rs 23 25 LINK_COUNTER_BITS *)
Definition LINK_COUNTER_BITS : u32 := 48.
(* src: crates/acrylius-core/src/link.rs 35 35 COUNTER_MASK *)
Definition COUNTER_MASK : u64 := N.shiftl 1 LINK_COUNTER_BITS - 1.

(* src: crates/acrylius-core/src/link.rs 28 33 LinkId::new *)
Definition LinkId_new (transport : TransportId) (counter : u64) : LinkId :=
  N.lor (wrap64 (N.shiftl transport LINK_COUNTER_BITS)) (N.land counter COUNTER_MASK).

(* src: crates/acrylius-core/src/link.rs 37 43 LinkId::transport *)
Definition LinkId_transport (l : LinkId) : TransportId := wrap16 (N.shiftr l LINK_COUNTER_BITS).

(** ** Routes *)

(** [Routes(BTreeMap<TransportId, String>)]. *)
Abbreviation Routes := (gmap N string).

(* src: crates/acrylius-core/src/link.rs 52 54 Routes::set *)
Definition Routes_set (transport : TransportId) (addr : string) (r : Routes) : Routes :=
  <[transport := addr]> r.

(* src: crates/acrylius-core/src/link.rs 56 65 Routes::forget *)
Definition Routes_forget (transport : TransportId) (addr : string) (r : Routes) : Routes * bool :=
  match r !! transport with
  | Some a => if String.eqb a addr then (delete transport r, true) else (r, false)
  | None => (r, false)
  end.

(* src: crates/acrylius-core/src/link.rs 67 70 Routes::is_empty *)
Definition Routes_is_empty (r : Routes) : bool := bool_decide (r = ∅).

(* src: crates/acrylius-core/src/link.rs 72 76 Routes::in_preference_order *)
Definition in_preference_order (r : Routes) : list (TransportId * string) := bt_iter r.

(* src: crates/acrylius-core/src/link.rs 78 83 Routes::merge_from *)
Definition Routes_merge_from (other : Routes) (r : Routes) : Routes :=
  fold_left (λ acc '(t, a), <[t := a]> acc) (bt_iter other) r.

(** ** Links *)

(* src: crates/acrylius-core/src/link.rs 86 96 TransportKind *)
Inductive TransportKind := TcpLan | UnixLoopback | BleGatt | CustomTransport (name : string).

(* src: crates/acrylius-core/src/link.rs 98 105 LatencyClass *)
Inductive LatencyClass := Loopback | Lan | LatBle | Wan.

(* src: crates/acrylius-core/src/link.rs 107 113 BulkSupport *)
Inductive BulkSupport := BulkNone | SideChannel.

#[global] Instance TransportKind_eq_dec : EqDecision TransportKind.
Proof. solve_decision. Defined.
#[global] Instance LatencyClass_eq_dec : EqDecision LatencyClass.
Proof. solve_decision. Defined.
#[global] Instance BulkSupport_eq_dec : EqDecision BulkSupport.
Proof. solve_decision. Defined.

(* src: crates/acrylius-core/src/link.rs 115 126 LinkAttrs *)
Record LinkAttrs := mkLinkAttrs {
  la_transport : TransportId;
  la_kind : TransportKind;
  la_max_message : u32;
  la_reliable : bool;
  la_ordered : bool;
  la_latency : LatencyClass;
  la_bulk : BulkSupport;
}.
#[global] Instance LinkAttrs_eq_dec : EqDecision LinkAttrs.
Proof. solve_decision. Defined.
#[global] Instance LinkAttrs_eta : Eta LinkAttrs := λ a,
  mkLinkAttrs (la_transport a) (la_kind a) (la_max_message a) (la_reliable a) (la_ordered a)
    (la_latency a) (la_bulk a).

(* src: crates/acrylius-core/src/link.rs 129 140 LinkAttrs::tcp_lan *)
Definition tcp_lan (transport : TransportId) : LinkAttrs :=
  mkLinkAttrs transport TcpLan (N.shiftl 1 20) true true Lan SideChannel.

(* src: crates/acrylius-core/src/link.rs 142 158 LinkAttrs::ble *)
Definition ble_attrs (transport : TransportId) : LinkAttrs :=
  mkLinkAttrs transport BleGatt (16 * 1024) true true LatBle BulkNone.

(* src: crates/acrylius-core/src/link.rs 160 168 LinkAttrs::loopback *)
Definition loopback (transport : TransportId) : LinkAttrs :=
  (tcp_lan transport) <| la_kind := UnixLoopback |> <| la_latency := Loopback |>.

(* src: crates/acrylius-core/src/link.rs 170 176 LinkAttrs::supports_stateful_cipher *)
Definition supports_stateful_cipher (a : LinkAttrs) : bool := la_reliable a && la_ordered a.

(* src: crates/acrylius-core/src/link.rs 179 187 LinkDownReason *)
Inductive LinkDownReason :=
| Closed
| TransportFailed (detail : string)
| Protocol (code : ErrorCode).

(** ** Theorems *)

Lemma land_counter_mask c : N.land c COUNTER_MASK = c mod 2 ^ 48.
Proof. replace COUNTER_MASK with (N.ones 48) by reflexivity. apply N.land_ones. Qed.

Lemma LinkId_new_arith t c : t <= u16_max -> LinkId_new t c = t * 2 ^ 48 + c mod 2 ^ 48.
Proof.
  intros Ht. unfold LinkId_new. rewrite land_counter_mask.
  assert (wrap64 (N.shiftl t LINK_COUNTER_BITS) = N.shiftl t 48) as ->.
  { unfold wrap64, LINK_COUNTER_BITS. apply N.mod_small. rewrite N.shiftl_mul_pow2.
    unfold u16_max in Ht. change (2 ^ 48) with 281474976710656. lia. }
  apply lor_shiftl_add. apply N.mod_lt. vm_compute. discriminate.
Qed.

(** A link id names its transport whatever the counter has reached, and two
    ids are equal only for the same transport and the same counter field. *)
Theorem LinkId_transport_new t1 c1 t2 c2 :
  t1 <= u16_max -> t2 <= u16_max ->
  LinkId_transport (LinkId_new t1 c1) = t1 /\
  LinkId_new t1 c1 <= u64_max /\
  (LinkId_new t1 c1 = LinkId_new t2 c2 <-> t1 = t2 /\ c1 mod 2 ^ 48 = c2 mod 2 ^ 48).
Proof.
  intros H1 H2. unfold LinkId_transport. rewrite !LinkId_new_arith by done.
  unfold LINK_COUNTER_BITS, wrap16. rewrite N.shiftr_div_pow2.
  unfold u16_max, u64_max in *. change (2 ^ 48) with 281474976710656.
  split_and!; [divlia|divlia|]. split; [intros H; split; divlia|intros [-> ->]; done].
Qed.

Lemma LinkId_transport_new_witness : LinkId_transport (LinkId_new 7 u64_max) = 7.
Proof.
  refine (proj1 (LinkId_transport_new 7 u64_max 7 0 _ _)); unfold u16_max; lia.
Defined.

(** Forgetting removes exactly the address named, and reports whether it did. *)
Lemma Routes_forget_spec t a r :
  Routes_forget t a r =
  (if decide (r !! t = Some a) then (delete t r, true) else (r, false)).
Proof.
  unfold Routes_forget. destruct (r !! t) as [b|] eqn:E.
  - destruct (String.eqb_spec b a) as [->|Hne].
    + by rewrite decide_True.
    + rewrite decide_False; [done|congruence].
  - by rewrite decide_False.
Qed.

Lemma Routes_merge_from_lookup other r t :
  Routes_merge_from other r !! t = match other !! t with Some a => Some a | None => r !! t end.
Proof.
  unfold Routes_merge_from.
  assert (∀ l (acc : Routes), NoDup l.*1 ->
    fold_left (λ acc '(t, a), <[t := a]> acc) l acc !! t =
    match list_to_map (M:=Routes) l !! t with Some a => Some a | None => acc !! t end) as H.
  { induction l as [|[k v] l IH]; intros acc Hn; [done|].
    apply NoDup_cons in Hn as [Hk Hn]. cbn [fold_left]. rewrite IH by done. rewrite list_to_map_cons.
    destruct (decide (k = t)) as [->|Hne].
    - rewrite lookup_insert_eq. rewrite not_elem_of_list_to_map_1 by done.
      by rewrite lookup_insert_eq.
    - by rewrite !lookup_insert_ne. }
  rewrite H by apply bt_keys_NoDup.
  replace (list_to_map (bt_iter other) : Routes) with other; [done|].
  symmetry. apply map_eq. intros i. destruct (other !! i) as [v|] eqn:E.
  - apply elem_of_list_to_map; [apply bt_keys_NoDup|]. by apply elem_of_bt_iter.
  - apply not_elem_of_list_to_map_1. intros Hin. apply (elem_of_bt_keys other i) in Hin as [v Hv].
    congruence.
Qed.
