(* ===== verification/Peer.v ===== *)
(** * [acrylius-core/src/peer.rs] and [config.rs]: paired peers, tunables *)

From S2P Require Import Prelude Externals Ids Link.
Local Open Scope N_scope.

(* src: crates/acrylius-core/src/peer.rs 5 31 PeerRecord *)
Record PeerRecord := mkPeerRecord {
  pr_device_id : string;
  pr_public_key : bytes;
  pr_name : string;
  pr_platform : string;
  pr_session_psk : bytes;
  pr_greatest_seen : u64;
  pr_caps_out : list string;
  pr_caps_in : list string;
}.
#[global] Instance PeerRecord_eq_dec : EqDecision PeerRecord.
Proof. solve_decision. Defined.
#[global] Instance PeerRecord_eta : Eta PeerRecord := λ r,
  mkPeerRecord (pr_device_id r) (pr_public_key r) (pr_name r) (pr_platform r)
    (pr_session_psk r) (pr_greatest_seen r) (pr_caps_out r) (pr_caps_in r).

(** [slice.try_into().ok()] at [[u8; 32]]. *)
Definition array32 (b : bytes) : option bytes := if len b =? 32 then Some b else None.

(* src: crates/acrylius-core/src/peer.rs 34 37 PeerRecord::public_key_array *)
Definition public_key_array (r : PeerRecord) : option PublicKey := array32 (pr_public_key r).
(* src: crates/acrylius-core/src/peer.rs 39 42 PeerRecord::session_psk_array *)
Definition session_psk_array (r : PeerRecord) : option bytes := array32 (pr_session_psk r).

(* src: crates/acrylius-core/src/peer.rs 44 47 PeerRecord::fingerprint *)
Definition record_fingerprint `{Sha256} (r : PeerRecord) : option Fingerprint :=
  Fingerprint_of <$> public_key_array r.

(* src: crates/acrylius-core/src/peer.rs 49 52 PeerRecord::id *)
Definition record_id `{Sha256} (r : PeerRecord) : option DeviceId :=
  DeviceId_of <$> public_key_array r.

(* src: crates/acrylius-core/src/peer.rs 55 62 PeerState *)
Inductive PeerState := Unreachable | Connecting | Reachable.
#[global] Instance PeerState_eq_dec : EqDecision PeerState.
Proof. solve_decision. Defined.

(* src: crates/acrylius-core/src/config.rs 3 28 CoreConfig *)
Record CoreConfig := mkCoreConfig {
  cfg_name : string;
  cfg_platform : string;
  pairing_window_ms : u64;
  accept_pair_requests : bool;
  pair_cooldown_ms : u64;
  pair_denied_cooldown_ms : u64;
  reconnect_every_ms : u64;
  handshake_timeout_ms : u64;
  dial_timeout_ms : u64;
}.

(* src: crates/acrylius-core/src/config.rs 30 44 CoreConfig::default *)
Definition CoreConfig_default : CoreConfig := {|
  cfg_name := "acrylius";
  cfg_platform := "unknown";
  pairing_window_ms := 120000;
  accept_pair_requests := true;
  pair_cooldown_ms := 30000;
  pair_denied_cooldown_ms := 300000;
  reconnect_every_ms := 10000;
  handshake_timeout_ms := 15000;
  dial_timeout_ms := DIAL_TIMEOUT_MS * 2;
|}.

(** Records that differ only in what a handshake may refresh have one identity. *)
Lemma record_id_key `{Sha256} r r' :
  pr_public_key r = pr_public_key r' -> record_id r = record_id r'.
Proof. intros E. unfold record_id, public_key_array. by rewrite E. Qed.

Lemma array32_Some b a : array32 b = Some a <-> a = b /\ length b = 32%nat.
Proof.
  unfold array32, len. destruct (N.eqb_spec (N.of_nat (length b)) 32) as [E|E].
  - split; [intros [= <-]; split; [done|lia]|intros [-> _]; done].
  - split; [done|intros [_ ?]; lia].
Qed.
