(* ===== verification/Vocab.v ===== *)
(** * [acrylius-core/src/vocab.rs]: the events the core consumes and the actions
    it returns *)

From S2P Require Import Prelude Ids Envelope Link.
Local Open Scope N_scope.

(* src: crates/acrylius-core/src/vocab.rs 11 21 Now *)
Record Now := mkNow { monotonic_ms : u64; now_wall_ms : u64 }.

(** Newtypes over [u64]. *)
Abbreviation EffectToken := N (only parsing).
Abbreviation TransferId := N (only parsing).
Abbreviation DialToken := N (only parsing).

(* src: crates/acrylius-core/src/vocab.rs 32 34 MINTED_HERE *)
Definition MINTED_HERE : u64 := N.shiftl 1 63.

(* src: crates/acrylius-core/src/vocab.rs 37 42 TransferId::short *)
Definition TransferId_short (t : TransferId) : u64 := N.ldiff t MINTED_HERE.

(* src: crates/acrylius-core/src/vocab.rs 44 48 TransferId::written_as *)
Definition written_as (t : TransferId) (typed : u64) : bool :=
  (typed =? t) || (typed =? TransferId_short t).

(* src: crates/acrylius-core/src/vocab.rs 55 66 DiscoveredPeer *)
Record DiscoveredPeer := mkDiscoveredPeer {
  dp_fingerprint : option Fingerprint;
  dp_name : string;
  dp_addr : string;
  dp_pairing : bool;
}.

(** ** Effects *)

(* src: crates/acrylius-core/src/vocab.rs 209 230 MediaAction *)
Inductive MediaAction :=
| Play | Pause | PlayPause | Next | Previous | Stop
| Seek (offset_ms : i64)
| SetPosition (ms : u64)
| SetVolume (percent : u8).

(* src: crates/acrylius-core/src/vocab.rs 232 239 TouchPoint *)
Record TouchPoint := mkTouchPoint { tp_id : u8; tp_x : u16; tp_y : u16 }.

(* src: crates/acrylius-core/src/vocab.rs 241 252 TouchpadOp *)
Inductive TouchpadOp :=
| TBegin (w_mm h_mm : u16)
| TFrame (points : list TouchPoint)
| TEnd.

(* src: crates/acrylius-core/src/vocab.rs 165 207 Effect *)
Inductive Effect :=
| LockSession
| UnlockSession
| QuerySession
| ClipboardRead
| ClipboardWrite (mime : string) (data : bytes)
| ListCommands
| RunCommand (id : string)
| MediaQuery
| MediaControl (player : string) (action : MediaAction)
| SendMagicPacket (macs dests : list string) (port : u16)
| Touchpad (order : u32) (op : TouchpadOp)
| CustomEffect (ns verb : string) (payload : bytes).

(* src: crates/acrylius-core/src/vocab.rs 254 269 EffectKind *)
Inductive EffectKind :=
| KSession | KClipboard | KCommand | KWol | KMedia | KShare | KTouchpad | KCustom.

#[global] Instance MediaAction_eq_dec : EqDecision MediaAction.
Proof. solve_decision. Defined.
#[global] Instance TouchPoint_eq_dec : EqDecision TouchPoint.
Proof. solve_decision. Defined.
#[global] Instance TouchpadOp_eq_dec : EqDecision TouchpadOp.
Proof. solve_decision. Defined.
#[global] Instance Effect_eq_dec : EqDecision Effect.
Proof. solve_decision. Defined.
#[global] Instance EffectKind_eq_dec : EqDecision EffectKind.
Proof. solve_decision. Defined.

(** [kind as u16]: the discriminant, in declaration order. *)
Definition effect_kind_index (k : EffectKind) : u16 :=
  match k with
  | KSession => 0 | KClipboard => 1 | KCommand => 2 | KWol => 3
  | KMedia => 4 | KShare => 5 | KTouchpad => 6 | KCustom => 7
  end.

(** A bitmask over [u16]. *)
(* src: crates/acrylius-core/src/vocab.rs 271 274 EffectSet *)
Definition EffectSet := u16.

(* src: crates/acrylius-core/src/vocab.rs 293 295 EffectSet::bit *)
Definition effect_bit (k : EffectKind) : u16 := N.shiftl 1 (effect_kind_index k).

(* src: crates/acrylius-core/src/vocab.rs 277 280 EffectSet::new *)
Definition EffectSet_new (kinds : list EffectKind) : EffectSet :=
  fold_left (λ set k, N.lor set (effect_bit k)) kinds 0.

(* src: crates/acrylius-core/src/vocab.rs 282 286 EffectSet::all *)
Definition EffectSet_all : EffectSet := u16_max.

(* src: crates/acrylius-core/src/vocab.rs 288 291 EffectSet::contains *)
Definition EffectSet_contains (s : EffectSet) (k : EffectKind) : bool :=
  negb (N.land s (effect_bit k) =? 0).

(* src: crates/acrylius-core/src/vocab.rs 298 311 Effect::kind *)
Definition effect_kind (e : Effect) : EffectKind :=
  match e with
  | LockSession | UnlockSession | QuerySession => KSession
  | ClipboardRead | ClipboardWrite _ _ => KClipboard
  | ListCommands | RunCommand _ => KCommand
  | SendMagicPacket _ _ _ => KWol
  | MediaQuery | MediaControl _ _ => KMedia
  | Touchpad _ _ => KTouchpad
  | CustomEffect _ _ _ => KCustom
  end.

(* src: crates/acrylius-core/src/vocab.rs 313 322 EffectResult *)
Inductive EffectResult :=
| EffectOk (data : bytes)
| EffectFail (detail : string)
| EffectUnsupported.

(** ** Events *)

(* src: crates/acrylius-core/src/vocab.rs 122 163 LocalCommand *)
Inductive LocalCommand :=
| RequestPairing (transport : TransportId) (addr : string)
| ConfirmPairing (accept : bool)
| SetPeerAddress (peer : DeviceId) (transport : TransportId) (addr : string)
| Connect (peer : DeviceId)
| ReconsiderRoutes
| Disconnect (peer : DeviceId)
| Revoke (peer : DeviceId)
| LocalPlugin (peer : DeviceId) (cap ty : string) (body : bytes).

(* src: crates/acrylius-core/src/vocab.rs 68 120 Event *)
Inductive Event :=
| LinkUp (link : LinkId) (attrs : LinkAttrs) (dial : option DialToken)
| LinkRecv (link : LinkId) (msg : bytes)
| LinkDown (link : LinkId) (reason : LinkDownReason)
| DialFailed (dial : DialToken) (reason : string)
| Discovered (transport : TransportId) (peer : DiscoveredPeer)
| Undiscovered (transport : TransportId) (addr : string)
| Tick
| BulkListening (transfer : TransferId) (endpoint : string)
| BulkStarted (transfer : TransferId)
| BulkFinished (transfer : TransferId) (ok : bool) (detail : string)
| Local (cmd : LocalCommand)
| EffectDone (token : EffectToken) (res : EffectResult).

(** ** Actions *)

(* src: crates/acrylius-core/src/vocab.rs 324 387 UiEvent *)
Inductive UiEvent :=
| UiPairingSas (name : string) (fingerprint : Fingerprint) (sas : string)
| UiPairingComplete (peer : DeviceId) (name : string)
| UiRevoked (peer : DeviceId)
| UiPairingFailed (reason : string)
| UiDiscovered (fingerprint : Fingerprint) (name addr : string) (transport : TransportId) (pairing : bool)
| UiUndiscovered (fingerprint : Fingerprint)
| UiPeerReachable (peer : DeviceId) (name : string)
| UiPeerUnreachable (peer : DeviceId)
| UiPlugin (peer : DeviceId) (cap ty : string) (body : bytes)
| UiError (peer : option DeviceId) (code : ErrorCode) (detail : string).

(* src: crates/acrylius-core/src/vocab.rs 389 398 Sensitivity *)
Inductive Sensitivity := Secret | Ordinary.

(* src: crates/acrylius-core/src/vocab.rs 400 469 Action *)
Inductive Action :=
| Dial (transport : TransportId) (addr : string) (dial : DialToken)
| LinkSend (link : LinkId) (msg : bytes)
| Close (link : LinkId) (reason : LinkDownReason)
| DoEffect (token : EffectToken) (effect : Effect)
| Persist (key : string) (value : option bytes) (sensitivity : Sensitivity)
| Advertise (transport : TransportId) (enable : bool) (txt : list (string * string))
| Discover (transport : TransportId) (enable : bool)
| BulkListen (transfer : TransferId) (offered_as : u64) (key : bytes) (expect_bytes : u64)
| BulkSend (transfer : TransferId) (endpoint : string) (key : bytes)
| BulkCancel (transfer : TransferId)
| Ui (e : UiEvent).

(* src: crates/acrylius-core/src/vocab.rs 471 481 Outcome *)
Record Outcome := mkOutcome { actions : list Action; next_deadline_ms : option u64 }.

(** ** Theorems *)

Lemma effect_bit_testbit k i : N.testbit (effect_bit k) i = (i =? effect_kind_index k).
Proof.
  unfold effect_bit. rewrite N.shiftl_1_l.
  rewrite N.pow2_bits_eqb. apply N.eqb_sym.
Qed.

Lemma EffectSet_contains_testbit s k :
  EffectSet_contains s k = N.testbit s (effect_kind_index k).
Proof.
  unfold EffectSet_contains.
  destruct (N.testbit s (effect_kind_index k)) eqn:E.
  - apply negb_true_iff, N.eqb_neq. intros H0.
    assert (N.testbit (N.land s (effect_bit k)) (effect_kind_index k) = true) as H.
    { by rewrite N.land_spec, effect_bit_testbit, E, N.eqb_refl. }
    by rewrite H0 in H.
  - apply negb_false_iff, N.eqb_eq. apply N.bits_inj_iff. intros i.
    rewrite N.land_spec, effect_bit_testbit, N.bits_0.
    destruct (N.eqb_spec i (effect_kind_index k)) as [->|]; [by rewrite E|apply andb_false_r].
Qed.

(** The bitmask a host's declaration is folded into holds exactly the
    declared effect kinds, in whatever order and with whatever repetition. *)
Theorem EffectSet_contains_new kinds k :
  EffectSet_contains (EffectSet_new kinds) k = true <-> k ∈ kinds.
Proof.
  rewrite EffectSet_contains_testbit. unfold EffectSet_new.
  assert (∀ s, N.testbit (fold_left (λ set k, N.lor set (effect_bit k)) kinds s)
    (effect_kind_index k) = true <-> N.testbit s (effect_kind_index k) = true \/ k ∈ kinds) as H.
  { induction kinds as [|k' kinds IH]; intros s; cbn [fold_left].
    - rewrite elem_of_nil. tauto.
    - rewrite IH, elem_of_cons, N.lor_spec, orb_true_iff, effect_bit_testbit, N.eqb_eq.
      assert (effect_kind_index k = effect_kind_index k' <-> k = k') as -> by
        (by destruct k, k').
      tauto. }
  rewrite H, N.bits_0. naive_solver.
Qed.

(** A transfer can be typed in full or short form, and a minted id and a
    host-numbered one never coincide. *)
Lemma TransferId_short_minted n : n < 2 ^ 63 -> TransferId_short (N.lor MINTED_HERE n) = n.
Proof.
  intros Hn. unfold TransferId_short. apply N.bits_inj_iff. intros i.
  rewrite N.ldiff_spec, N.lor_spec.
  change MINTED_HERE with (2 ^ 63). rewrite N.pow2_bits_eqb.
  destruct (N.eqb_spec 63 i) as [<-|Hi].
  - rewrite andb_false_r. symmetry. destruct (N.eq_dec n 0) as [->|]; [apply N.bits_0|].
    apply N.bits_above_log2, N.log2_lt_pow2; [lia|done].
  - by rewrite andb_true_r.
Qed.
