(* ===== verification/Noise.v ===== *)
(** * [acrylius-core/src/noise.rs]: the Noise layer

    A thin layer over [snow], whose states are parameters ([Snow] in
    [Externals]).  [Identity::generate] draws a key pair from the operating
    system and is not modelled; an identity is loaded from its private half. *)

From S2P Require Import Prelude Externals Ids Hello Link.
Local Open Scope N_scope.

(* src: crates/acrylius-core/src/noise.rs 11 12 MAX_NOISE_MESSAGE *)
Definition MAX_NOISE_MESSAGE : usize := 65535.
Definition PAIR_PARAMS : string := "Noise_XX_25519_ChaChaPoly_SHA256".
Definition SESSION_PARAMS : string := "Noise_IKpsk2_25519_ChaChaPoly_SHA256".
(* src: crates/acrylius-core/src/noise.rs 17 19 SESSION_PSK_INDEX *)
Definition SESSION_PSK_INDEX : u8 := 2.

(* src: crates/acrylius-core/src/noise.rs 21 27 Mode *)
Inductive Mode := ModePair | ModeSession.
#[global] Instance Mode_eq_dec : EqDecision Mode.
Proof. solve_decision. Defined.

(* src: crates/acrylius-core/src/noise.rs 30 35 Mode::params *)
Definition mode_params (m : Mode) : string :=
  match m with ModePair => PAIR_PARAMS | ModeSession => SESSION_PARAMS end.

(* src: crates/acrylius-core/src/noise.rs 37 40 Mode::psk_index *)
Definition mode_psk_index (m : Mode) : u8 := SESSION_PSK_INDEX.

(** The pattern names are shorter than 256 bytes, so [u8::try_from] succeeds. *)
(* src: crates/acrylius-core/src/noise.rs 42 56 Mode::prologue *)
Definition prologue (m : Mode) : bytes :=
  as_bytes "ACR" ++ [byte_of WIRE_VERSION]
    ++ [byte_of (match m with ModePair => 1 | ModeSession => 2 end)]
    ++ [byte_of (str_len (mode_params m))] ++ as_bytes (mode_params m).

(* src: crates/acrylius-core/src/noise.rs 73 78 Identity *)
Record Identity := mkIdentity { id_private : bytes; id_public : bytes }.

(* src: crates/acrylius-core/src/noise.rs 99 109 Identity::from_private *)
Definition Identity_from_private `{X25519} (private : bytes) : Identity :=
  mkIdentity private (x25519_public private).

(* src: crates/acrylius-core/src/noise.rs 121 124 Identity::fingerprint *)
Definition identity_fingerprint `{Sha256} (i : Identity) : Fingerprint := Fingerprint_of (id_public i).
(* src: crates/acrylius-core/src/noise.rs 126 129 Identity::device_id *)
Definition identity_device_id `{Sha256} (i : Identity) : DeviceId := DeviceId_of (id_public i).

Section noise.
  Context `{Snow}.

(* src: crates/acrylius-core/src/noise.rs 59 71 NoiseError *)
Inductive NoiseError :=
| SnowErr (e : SnowError)
| NoiseTooLarge (got : usize)
| AlreadyComplete
| NotComplete
| UnsupportedLink.

(** The [Display] derived from the [#[error]] strings. *)
(* src: crates/acrylius-core/src/noise.rs 60 70 NoiseError *)
Definition noise_error_to_string (e : NoiseError) : string :=
  match e with
  | SnowErr e => "noise: " +:+ snow_error_to_string e
  | NoiseTooLarge got => "message of " +:+ pretty got +:+ " bytes exceeds the Noise limit of "
      +:+ pretty MAX_NOISE_MESSAGE
  | AlreadyComplete => "the handshake is already complete"
  | NotComplete => "the handshake is not complete yet"
  | UnsupportedLink => "this link is lossy or unordered, which needs a stateless cipher"
  end.

(* src: crates/acrylius-core/src/noise.rs 141 145 Handshake *)
Record Handshake := mkHandshake { hs_state : HandshakeState; hs_mode : Mode }.

(* src: crates/acrylius-core/src/noise.rs 181 205 Handshake::build *)
Definition build (mode : Mode) (id : Identity) (psk peer_static : option bytes)
    (initiator : bool) : result Handshake NoiseError :=
  map_err SnowErr (
    try! b := builder_prologue (builder_new (mode_params mode)) (prologue mode) in
    try! b := builder_local_private_key b (id_private id) in
    try! b := match psk with
              | Some psk => builder_psk b (mode_psk_index mode) psk
              | None => Ok b
              end in
    try! b := match peer_static with
              | Some rs => builder_remote_public_key b rs
              | None => Ok b
              end in
    try! st := (if initiator then build_initiator b else build_responder b) in
    Ok (mkHandshake st mode)).

(* src: crates/acrylius-core/src/noise.rs 148 152 Handshake::pair_initiator *)
Definition pair_initiator (id : Identity) : result Handshake NoiseError :=
  build ModePair id None None true.

(* src: crates/acrylius-core/src/noise.rs 154 156 Handshake::pair_responder *)
Definition pair_responder (id : Identity) : result Handshake NoiseError :=
  build ModePair id None None false.

(* src: crates/acrylius-core/src/noise.rs 158 165 Handshake::session_initiator *)
Definition session_initiator (id : Identity) (psk peer_static : bytes) : result Handshake NoiseError :=
  build ModeSession id (Some psk) (Some peer_static) true.

(* src: crates/acrylius-core/src/noise.rs 167 169 Handshake::session_responder *)
Definition session_responder (id : Identity) (psk : bytes) : result Handshake NoiseError :=
  build ModeSession id (Some psk) None false.

(* src: crates/acrylius-core/src/noise.rs 212 215 Handshake::is_complete *)
Definition is_complete (h : Handshake) : bool := is_handshake_finished (hs_state h).

(* src: crates/acrylius-core/src/noise.rs 217 221 Handshake::is_my_turn *)
Definition is_my_turn (h : Handshake) : bool :=
  negb (is_complete h) && hs_is_my_turn (hs_state h).

(* src: crates/acrylius-core/src/noise.rs 223 232 Handshake::write *)
Definition hs_write (h : Handshake) (payload : bytes) : Handshake * result bytes NoiseError :=
  if is_complete h then (h, Err AlreadyComplete)
  else
    let (st, r) := hs_write_message (hs_state h) payload MAX_NOISE_MESSAGE in
    (mkHandshake st (hs_mode h), map_err SnowErr r).

(* src: crates/acrylius-core/src/noise.rs 234 246 Handshake::read *)
Definition hs_read (h : Handshake) (msg : bytes) : Handshake * result bytes NoiseError :=
  if MAX_NOISE_MESSAGE <? len msg then (h, Err (NoiseTooLarge (len msg)))
  else if is_complete h then (h, Err AlreadyComplete)
  else
    let (st, r) := hs_read_message (hs_state h) msg MAX_NOISE_MESSAGE in
    (mkHandshake st (hs_mode h), map_err SnowErr r).

(** [get_remote_static()?.try_into().ok()]. *)
(* src: crates/acrylius-core/src/noise.rs 248 253 Handshake::peer_static *)
Definition peer_static (h : Handshake) : option bytes :=
  match get_remote_static (hs_state h) with
  | Some b => if len b =? 32 then Some b else None
  | None => None
  end.

(* src: crates/acrylius-core/src/noise.rs 171 179 Handshake::session_identify *)
Definition session_identify (id : Identity) (msg1 : bytes) : result bytes NoiseError :=
  try! probe := build ModeSession id (Some (replicate 32 Byte.x00)) None false in
  let (probe, r) := hs_read probe msg1 in
  try! _ := r in
  ok_or (peer_static probe) NotComplete.

(* src: crates/acrylius-core/src/noise.rs 255 262 Handshake::handshake_hash *)
Definition handshake_hash (h : Handshake) : result bytes NoiseError :=
  if negb (is_complete h) then Err NotComplete
  else Ok (get_handshake_hash (hs_state h)).

(* src: crates/acrylius-core/src/noise.rs 280 284 Session *)
Record Session := mkSession { s_state : TransportState; s_sent : u64 }.

(* src: crates/acrylius-core/src/noise.rs 264 277 Handshake::into_session *)
Definition into_session (h : Handshake) (attrs : LinkAttrs) : result Session NoiseError :=
  if negb (is_complete h) then Err NotComplete
  else if negb (supports_stateful_cipher attrs) then Err UnsupportedLink
  else
    try! st := map_err SnowErr (into_transport_mode (hs_state h)) in
    Ok (mkSession st 0).

(* src: crates/acrylius-core/src/noise.rs 286 288 REKEY_AFTER_MESSAGES *)
Definition REKEY_AFTER_MESSAGES : u64 := N.shiftl 1 20.

(* src: crates/acrylius-core/src/noise.rs 291 297 Session::encrypt *)
Definition session_encrypt (s : Session) (plaintext : bytes) : Session * result bytes NoiseError :=
  match ts_write_message (s_state s) plaintext MAX_NOISE_MESSAGE with
  | (st, Ok m) => (mkSession st (s_sent s +u64 1), Ok m)
  | (st, Err e) => (mkSession st (s_sent s), Err (SnowErr e))
  end.

(* src: crates/acrylius-core/src/noise.rs 299 309 Session::decrypt *)
Definition session_decrypt (s : Session) (ciphertext : bytes) : Session * result bytes NoiseError :=
  if MAX_NOISE_MESSAGE <? len ciphertext then (s, Err (NoiseTooLarge (len ciphertext)))
  else
    let (st, r) := ts_read_message (s_state s) ciphertext MAX_NOISE_MESSAGE in
    (mkSession st (s_sent s), map_err SnowErr r).

(* src: crates/acrylius-core/src/noise.rs 311 314 Session::should_rekey *)
Definition should_rekey (s : Session) : bool := REKEY_AFTER_MESSAGES <=? s_sent s.

(* src: crates/acrylius-core/src/noise.rs 316 319 Session::rekey_outgoing *)
Definition rekey_outgoing (s : Session) : Session :=
  mkSession (ts_rekey_outgoing (s_state s)) 0.

(** A session exists only over a link a stateful cipher is safe on, and only
    once its handshake has finished. *)
Lemma into_session_ok h attrs s :
  into_session h attrs = Ok s ->
  is_complete h = true /\ la_reliable attrs = true /\ la_ordered attrs = true /\ s_sent s = 0.
Proof.
  unfold into_session, supports_stateful_cipher.
  destruct (is_complete h); [|done]. destruct (la_reliable attrs), (la_ordered attrs); try done.
  cbn. destruct (into_transport_mode _); [|done]. by intros [= <-].
Qed.

Lemma session_encrypt_bound `{!SnowLaws} s p s' m :
  session_encrypt s p = (s', Ok m) -> len m <= MAX_NOISE_MESSAGE.
Proof.
  unfold session_encrypt. destruct (ts_write_message _ _ _) as [st [m'|]] eqn:E; [|done].
  intros [= _ <-]. by eapply ts_write_bound.
Qed.
End noise.

(** The two prologues differ in the mode byte, so the hashes they start cannot
    be confused: the byte outside the encryption does not choose it alone. *)
#[global] Instance prologue_inj : Inj (=) (=) prologue.
Proof. intros [] [] E; [done|..|done]; by vm_compute in E. Qed.
