(* ===== verification/Plugin.v ===== *)
(** * [acrylius-core/src/plugin.rs]: the plugin seam

    A plugin reads no clock and performs no effect; all it does goes through a
    [Cx].  [Plugin] is the trait as a class, whose methods thread the plugin's
    state and the context, and [PluginLaws] is what the type system of the
    sources guarantees of every implementation: the manifest is a constant, and
    the context (whose fields are private to the crate) only changes by its own
    methods. *)

From S2P Require Import Prelude Externals Ids Envelope Link Vocab.
Local Open Scope N_scope.

(* src: crates/acrylius-core/src/plugin.rs 10 13 REPLY_SLACK_MS *)
Definition REPLY_SLACK_MS : u64 := 4000.

(* src: crates/acrylius-core/src/plugin.rs 15 27 PluginManifest *)
Record PluginManifest := mkPluginManifest {
  pm_id : string;
  pm_outgoing : list string;
  pm_incoming : list string;
  pm_requires : list EffectKind;
}.

(* src: crates/acrylius-core/src/plugin.rs 29 41 PluginError *)
Inductive PluginError :=
| PBadBody
| PNotAllowed
| PUnknownType (ty : string)
| PTooLarge
| PInternal (detail : string).
#[global] Instance PluginError_eq_dec : EqDecision PluginError.
Proof. solve_decision. Defined.

(** [Debug] of a [str]: in quotes, with the escapes of [char::escape_debug] for
    ASCII; a printable character outside ASCII stands for itself. *)
Definition hex_digit (d : N) : Ascii.ascii := Ascii.ascii_of_N (if d <? 10 then 48 + d else 87 + d).
Definition ascii_str (n : N) : string := String (Ascii.ascii_of_N n) EmptyString.
Definition escape_debug (c : Ascii.ascii) : string :=
  let n := Ascii.N_of_ascii c in
  if n =? 0 then "\0"
  else if n =? 9 then "\t"
  else if n =? 10 then "\n"
  else if n =? 13 then "\r"
  else if n =? 34 then "\" +:+ ascii_str 34
  else if n =? 92 then "\\"
  else if (n <? 32) || (n =? 127) then
    "\u{" +:+ (if n <? 16 then "" else String (hex_digit (n / 16)) EmptyString)
      +:+ String (hex_digit (n mod 16)) "}"
  else String c EmptyString.
Fixpoint escape_debug_str (s : string) : string :=
  match s with EmptyString => EmptyString | String c s' => escape_debug c +:+ escape_debug_str s' end.

(** The [Display] derived from the [#[error]] strings. *)
(* src: crates/acrylius-core/src/plugin.rs 30 41 PluginError *)
Definition plugin_error_to_string (e : PluginError) : string :=
  match e with
  | PBadBody => "body did not decode"
  | PNotAllowed => "refused by policy"
  | PUnknownType ty => "unknown message type " +:+ ascii_str 34 +:+ escape_debug_str ty +:+ ascii_str 34
  | PTooLarge => "too large"
  | PInternal detail => detail
  end.

(* src: crates/acrylius-core/src/plugin.rs 43 54 PluginError::code *)
Definition plugin_error_code (e : PluginError) : ErrorCode :=
  match e with
  | PBadBody => BadBody
  | PNotAllowed => NotAllowed
  | PUnknownType _ => UnknownType
  | PTooLarge => TooLarge
  | PInternal _ => Internal
  end.

(* src: crates/acrylius-core/src/plugin.rs 58 65 PendingSend *)
Record PendingSend := mkPendingSend {
  ps_peer : DeviceId;
  ps_cap : string;
  ps_ty : string;
  ps_body : bytes;
  ps_re : option u32;
}.
#[global] Instance PendingSend_eq_dec : EqDecision PendingSend.
Proof. solve_decision. Defined.

(* src: crates/acrylius-core/src/plugin.rs 87 110 BulkRequest *)
Inductive BulkRequest :=
| BrListen (peer : DeviceId) (transfer : TransferId) (offered_as expect_bytes : u64)
| BrSend (peer : DeviceId) (transfer : TransferId) (endpoint : string)
| BrCancel (transfer : TransferId).
#[global] Instance BulkRequest_eq_dec : EqDecision BulkRequest.
Proof. solve_decision. Defined.

(* src: crates/acrylius-core/src/plugin.rs 67 85 Cx *)
Record Cx := mkCx {
  cx_now_ms : u64;
  cx_next_token : u64;
  cx_next_transfer : u64;
  cx_sends : list PendingSend;
  cx_effects : list (EffectToken * Effect);
  cx_uis : list UiEvent;
  cx_wake_at : option u64;
  cx_bulk : list BulkRequest;
  cx_serves_set : EffectSet;
  cx_peer_bulk : option BulkSupport;
}.
#[global] Instance Cx_eta : Eta Cx := λ c,
  mkCx (cx_now_ms c) (cx_next_token c) (cx_next_transfer c) (cx_sends c) (cx_effects c)
    (cx_uis c) (cx_wake_at c) (cx_bulk c) (cx_serves_set c) (cx_peer_bulk c).

(* src: crates/acrylius-core/src/plugin.rs 113 131 Cx::new *)
Definition Cx_new (now_ms next_token next_transfer : u64) (serves : EffectSet) : Cx :=
  mkCx now_ms next_token next_transfer [] [] [] None [] serves None.

(* src: crates/acrylius-core/src/plugin.rs 133 138 Cx::for_peer_link *)
Definition for_peer_link (bulk : option BulkSupport) (cx : Cx) : Cx := cx <| cx_peer_bulk := bulk |>.

(* src: crates/acrylius-core/src/plugin.rs 140 145 Cx::peer_can_carry_bulk *)
Definition peer_can_carry_bulk (cx : Cx) : bool :=
  negb (bool_decide (cx_peer_bulk cx = Some BulkNone)).

(* src: crates/acrylius-core/src/plugin.rs 147 152 Cx::serves *)
Definition cx_serves (kind : EffectKind) (cx : Cx) : bool :=
  EffectSet_contains (cx_serves_set cx) kind.

Definition push {A} (x : A) (l : list A) : list A := l ++ [x].

(* src: crates/acrylius-core/src/plugin.rs 160 168 Cx::send *)
Definition cx_send (peer : DeviceId) (cap ty : string) (body : bytes) (cx : Cx) : Cx :=
  cx <| cx_sends ::= push (mkPendingSend peer cap ty body None) |>.

(* src: crates/acrylius-core/src/plugin.rs 170 179 Cx::reply *)
Definition cx_reply (peer : DeviceId) (to : Envelope) (ty : string) (body : bytes) (cx : Cx) : Cx :=
  cx <| cx_sends ::= push (mkPendingSend peer (env_cap to) ty body (Some (env_id to))) |>.

(* src: crates/acrylius-core/src/plugin.rs 181 190 Cx::send_reply *)
Definition cx_send_reply (peer : DeviceId) (cap ty : string) (body : bytes) (re : u32)
    (cx : Cx) : Cx :=
  cx <| cx_sends ::= push (mkPendingSend peer cap ty body (Some re)) |>.

(** [unwrap_or_default] of an encoding. *)
Definition to_vec_or_default {T} `{Cbor T} (x : T) : bytes := default [] (to_vec x).

(* src: crates/acrylius-core/src/plugin.rs 192 200 Cx::send_error *)
Definition cx_send_error `{Cbor ErrorBody} (peer : DeviceId) (cap : string) (re : u32)
    (code message : string) (cx : Cx) : Cx :=
  cx_send_reply peer cap "err" (to_vec_or_default (mkErrorBody code message)) re cx.

(* src: crates/acrylius-core/src/plugin.rs 202 207 Cx::effect *)
Definition cx_effect (e : Effect) (cx : Cx) : EffectToken * Cx :=
  let t := cx_next_token cx +u64 1 in
  (t, cx <| cx_next_token := t |> <| cx_effects ::= push (t, e) |>).

(* src: crates/acrylius-core/src/plugin.rs 209 216 Cx::new_transfer *)
Definition cx_new_transfer (cx : Cx) : TransferId * Cx :=
  let n := cx_next_transfer cx +u64 1 in
  (N.lor MINTED_HERE n, cx <| cx_next_transfer := n |>).

(* src: crates/acrylius-core/src/plugin.rs 218 220 Cx::ui *)
Definition cx_ui (e : UiEvent) (cx : Cx) : Cx := cx <| cx_uis ::= push e |>.

(* src: crates/acrylius-core/src/plugin.rs 222 237 Cx::bulk_listen *)
Definition cx_bulk_listen (peer : DeviceId) (transfer : TransferId) (offered_as expect_bytes : u64)
    (cx : Cx) : Cx :=
  cx <| cx_bulk ::= push (BrListen peer transfer offered_as expect_bytes) |>.

(* src: crates/acrylius-core/src/plugin.rs 239 251 Cx::bulk_send *)
Definition cx_bulk_send (peer : DeviceId) (transfer : TransferId) (endpoint : string) (cx : Cx) : Cx :=
  cx <| cx_bulk ::= push (BrSend peer transfer endpoint) |>.

(* src: crates/acrylius-core/src/plugin.rs 253 255 Cx::bulk_cancel *)
Definition cx_bulk_cancel (transfer : TransferId) (cx : Cx) : Cx :=
  cx <| cx_bulk ::= push (BrCancel transfer) |>.

(* src: crates/acrylius-core/src/plugin.rs 257 262 Cx::wake_in *)
Definition cx_wake_in (ms : u64) (cx : Cx) : Cx :=
  let at_ := u64_saturating_add (cx_now_ms cx) ms in
  cx <| cx_wake_at := Some (match cx_wake_at cx with Some w => N.min w at_ | None => at_ end) |>.

(** What a method that can fail leaves: the outcome, and the plugin and the
    context with the changes made up to that point. *)
Definition Ran (P : Type) : Type := result unit PluginError * (P * Cx).

(* src: crates/acrylius-core/src/plugin.rs 265 324 Plugin *)
Class Plugin (P : Type) := {
  manifest : P -> PluginManifest;
  on_message : DeviceId -> Envelope -> P -> Cx -> Ran P;
  on_peer_connected : DeviceId -> P -> Cx -> P * Cx;
  on_peer_disconnected : DeviceId -> P -> Cx -> P * Cx;
  on_local : DeviceId -> string -> bytes -> P -> Cx -> Ran P;
  on_effect_result : EffectToken -> EffectResult -> P -> Cx -> P * Cx;
  on_bulk_listening : TransferId -> string -> P -> Cx -> P * Cx;
  on_bulk_finished : TransferId -> bool -> string -> P -> Cx -> P * Cx;
  on_tick : P -> Cx -> P * Cx;
}.

(** The default methods of the trait. *)
Section defaults.
  Context {P : Type}.

(* src: crates/acrylius-core/src/plugin.rs 278 284 Plugin::on_peer_connected *)
Definition default_on_peer (peer : DeviceId) (p : P) (cx : Cx) : P * Cx := (p, cx).
(* src: crates/acrylius-core/src/plugin.rs 286 296 Plugin::on_local *)
Definition default_on_local (peer : DeviceId) (ty : string) (body : bytes) (p : P) (cx : Cx) : Ran P :=
  (Err (PUnknownType ty), (p, cx)).
(* src: crates/acrylius-core/src/plugin.rs 298 300 Plugin::on_effect_result *)
Definition default_on_effect_result (token : EffectToken) (r : EffectResult) (p : P) (cx : Cx) : P * Cx :=
  (p, cx).
(* src: crates/acrylius-core/src/plugin.rs 302 310 Plugin::on_bulk_listening *)
Definition default_on_bulk_listening (transfer : TransferId) (endpoint : string) (p : P) (cx : Cx)
    : P * Cx := (p, cx).
(* src: crates/acrylius-core/src/plugin.rs 312 321 Plugin::on_bulk_finished *)
Definition default_on_bulk_finished (transfer : TransferId) (ok : bool) (detail : string)
    (p : P) (cx : Cx) : P * Cx := (p, cx).
(* src: crates/acrylius-core/src/plugin.rs 323 325 Plugin::on_tick *)
Definition default_on_tick (p : P) (cx : Cx) : P * Cx := (p, cx).
End defaults.

(* src: crates/acrylius-core/src/plugin.rs 328 333 handles *)
Definition handles (m : PluginManifest) (cap : string) : bool :=
  bool_decide (cap ∈ pm_incoming m) || bool_decide (cap ∈ pm_outgoing m).

(** ** What a plugin can do to a context *)

(** One call of a [Cx] method. *)
Inductive cx_step : Cx -> Cx -> Prop :=
| step_send s cx : cx_step cx (cx <| cx_sends ::= push s |>)
| step_effect e cx : cx_step cx (cx_effect e cx).2
| step_new_transfer cx : cx_step cx (cx_new_transfer cx).2
| step_ui e cx : cx_step cx (cx_ui e cx)
| step_bulk b cx : cx_step cx (cx <| cx_bulk ::= push b |>)
| step_wake ms cx : cx_step cx (cx_wake_in ms cx).

Definition cx_grows : Cx -> Cx -> Prop := rtc cx_step.

#[global] Instance cx_grows_preorder : PreOrder cx_grows.
Proof. unfold cx_grows. apply _. Qed.

Class PluginLaws (P : Type) `{Plugin P} := {
  manifest_const_message : ∀ peer e p cx, manifest (on_message peer e p cx).2.1 = manifest p;
  manifest_const_connected : ∀ peer p cx, manifest (on_peer_connected peer p cx).1 = manifest p;
  manifest_const_disconnected :
    ∀ peer p cx, manifest (on_peer_disconnected peer p cx).1 = manifest p;
  manifest_const_local : ∀ peer ty b p cx, manifest (on_local peer ty b p cx).2.1 = manifest p;
  manifest_const_effect : ∀ t r p cx, manifest (on_effect_result t r p cx).1 = manifest p;
  manifest_const_listening : ∀ t e p cx, manifest (on_bulk_listening t e p cx).1 = manifest p;
  manifest_const_finished : ∀ t o d p cx, manifest (on_bulk_finished t o d p cx).1 = manifest p;
  manifest_const_tick : ∀ p cx, manifest (on_tick p cx).1 = manifest p;
  grows_message : ∀ peer e p cx, cx_grows cx (on_message peer e p cx).2.2;
  grows_connected : ∀ peer p cx, cx_grows cx (on_peer_connected peer p cx).2;
  grows_disconnected : ∀ peer p cx, cx_grows cx (on_peer_disconnected peer p cx).2;
  grows_local : ∀ peer ty b p cx, cx_grows cx (on_local peer ty b p cx).2.2;
  grows_effect : ∀ t r p cx, cx_grows cx (on_effect_result t r p cx).2;
  grows_listening : ∀ t e p cx, cx_grows cx (on_bulk_listening t e p cx).2;
  grows_finished : ∀ t o d p cx, cx_grows cx (on_bulk_finished t o d p cx).2;
  grows_tick : ∀ p cx, cx_grows cx (on_tick p cx).2;
}.

Section cx_grows.
Context `{Cbor ErrorBody}.
Implicit Types cx c : Cx.

Lemma cx_grows_step c cx cx' : cx_step cx cx' -> cx_grows c cx -> cx_grows c cx'.
Proof. intros Hs Hg. by eapply rtc_r. Qed.

Lemma grows_send c cx p cap ty b : cx_grows c cx -> cx_grows c (cx_send p cap ty b cx).
Proof. apply cx_grows_step, step_send. Qed.
Lemma grows_reply c cx p to ty b : cx_grows c cx -> cx_grows c (cx_reply p to ty b cx).
Proof. apply cx_grows_step, step_send. Qed.
Lemma grows_send_reply c cx p cap ty b re :
  cx_grows c cx -> cx_grows c (cx_send_reply p cap ty b re cx).
Proof. apply cx_grows_step, step_send. Qed.
Lemma grows_send_error c cx p cap re code m :
  cx_grows c cx -> cx_grows c (cx_send_error p cap re code m cx).
Proof. apply cx_grows_step, step_send. Qed.
Lemma grows_cx_effect c cx e : cx_grows c cx -> cx_grows c (cx_effect e cx).2.
Proof. apply cx_grows_step, step_effect. Qed.
Lemma grows_new_transfer c cx : cx_grows c cx -> cx_grows c (cx_new_transfer cx).2.
Proof. apply cx_grows_step, step_new_transfer. Qed.
Lemma grows_ui c cx e : cx_grows c cx -> cx_grows c (cx_ui e cx).
Proof. apply cx_grows_step, step_ui. Qed.
Lemma grows_bulk_listen c cx p t o n : cx_grows c cx -> cx_grows c (cx_bulk_listen p t o n cx).
Proof. apply cx_grows_step, step_bulk. Qed.
Lemma grows_bulk_send c cx p t e : cx_grows c cx -> cx_grows c (cx_bulk_send p t e cx).
Proof. apply cx_grows_step, step_bulk. Qed.
Lemma grows_bulk_cancel c cx t : cx_grows c cx -> cx_grows c (cx_bulk_cancel t cx).
Proof. apply cx_grows_step, step_bulk. Qed.
Lemma grows_fold {A} c (f : Cx -> A -> Cx) l cx :
  (∀ x cx', cx_grows cx' (f cx' x)) -> cx_grows c cx -> cx_grows c (fold_left f l cx).
Proof.
  intros Hf. revert cx. induction l as [|x l IH]; intros cx Hc; [done|].
  apply IH. etrans; [done|apply Hf].
Qed.
End cx_grows.

Lemma cx_grows_refl c : cx_grows c c.
Proof. done. Qed.

Lemma grows_effect_eq e cx t cx' : cx_effect e cx = (t, cx') -> cx_grows cx cx'.
Proof. intros E. pose proof (grows_cx_effect cx cx e (cx_grows_refl cx)) as H. by rewrite E in H. Qed.
Lemma grows_new_transfer_eq cx t cx' : cx_new_transfer cx = (t, cx') -> cx_grows cx cx'.
Proof. intros E. pose proof (grows_new_transfer cx cx (cx_grows_refl cx)) as H. by rewrite E in H. Qed.

#[export] Hint Extern 1 (cx_grows _ ?b) =>
  match goal with H : cx_grows ?a b |- _ => transitivity a; [|exact H] end : acr.
#[export] Hint Resolve cx_grows_refl grows_send grows_reply grows_send_reply grows_send_error
  grows_cx_effect grows_new_transfer grows_ui grows_bulk_listen grows_bulk_send grows_bulk_cancel : acr.

(** Every effect a context gathers carries the next token number. *)
Definition tokens_counted (c : Cx) : Prop :=
  ∀ t e, (t, e) ∈ cx_effects c -> t <= cx_next_token c.

Lemma cx_grows_readonly c c' : cx_grows c c' ->
  cx_now_ms c' = cx_now_ms c /\ cx_serves_set c' = cx_serves_set c /\
  cx_peer_bulk c' = cx_peer_bulk c.
Proof. induction 1 as [|c c1 c2 [] _ IH]; [done|destruct IH as (->&->&->); done..]. Qed.

Lemma cx_grows_prefix c c' : cx_grows c c' ->
  cx_sends c `prefix_of` cx_sends c' /\ cx_effects c `prefix_of` cx_effects c' /\
  cx_uis c `prefix_of` cx_uis c' /\ cx_bulk c `prefix_of` cx_bulk c'.
Proof.
  induction 1 as [|c c1 c2 Hs _ IH]; [done|].
  destruct Hs; cbn in *; destruct_and!; split_and!;
    (done || (etrans; [|done]; by apply prefix_app_r)).
Qed.

(** The tokens handed out are numbered on from the counter, one by one. *)
Lemma cx_grows_tokens c c' : cx_grows c c' ->
  ∃ es : list Effect,
    cx_effects c' = cx_effects c ++ imap (λ i e, (cx_next_token c +u64 N.of_nat (S i), e)) es /\
    cx_next_token c' = (if es is [] then cx_next_token c
                        else cx_next_token c +u64 N.of_nat (length es)).
Proof.
  intros H. induction H as [|c c1 c2 Hs _ IH].
  { exists []. by rewrite app_nil_r. }
  destruct IH as (es & He & Ht).
  destruct Hs; cbn in *; try (by exists es).
  exists (e :: es). split.
  - rewrite He. unfold push. rewrite <- app_assoc. f_equal. cbn. f_equal.
    apply imap_ext. intros i e' _. cbn. f_equal. unfold u64_add, wrap64.
    rewrite N.Div0.add_mod_idemp_l. f_equal. lia.
  - rewrite Ht. destruct es; cbn [length].
    + done.
    + unfold u64_add, wrap64. rewrite N.Div0.add_mod_idemp_l. f_equal. lia.
Qed.

(** ** A plugin's life: any sequence of the core's calls *)

Inductive Call :=
| CMessage (peer : DeviceId) (env : Envelope)
| CConnected (peer : DeviceId)
| CDisconnected (peer : DeviceId)
| CLocal (peer : DeviceId) (ty : string) (body : bytes)
| CEffectResult (token : EffectToken) (r : EffectResult)
| CBulkListening (transfer : TransferId) (endpoint : string)
| CBulkFinished (transfer : TransferId) (ok : bool) (detail : string)
| CTick.

Definition call {P} `{Plugin P} (c : Call) (p : P) (cx : Cx) : P * Cx :=
  match c with
  | CMessage peer env => (on_message peer env p cx).2
  | CConnected peer => on_peer_connected peer p cx
  | CDisconnected peer => on_peer_disconnected peer p cx
  | CLocal peer ty body => (on_local peer ty body p cx).2
  | CEffectResult t r => on_effect_result t r p cx
  | CBulkListening t e => on_bulk_listening t e p cx
  | CBulkFinished t ok d => on_bulk_finished t ok d p cx
  | CTick => on_tick p cx
  end.

(** The calls one after the other, everything asked for gathered in one context. *)
Definition play {P} `{Plugin P} (cs : list Call) (p : P) (cx : Cx) : P * Cx :=
  fold_left (λ '(p, cx) c, call c p cx) cs (p, cx).

Lemma play_invariant {P} `{Plugin P} (I : P -> Cx -> Prop) cs p cx :
  (∀ c p cx, I p cx -> I (call c p cx).1 (call c p cx).2) ->
  I p cx -> I (play cs p cx).1 (play cs p cx).2.
Proof.
  intros Hc. unfold play. revert p cx. induction cs as [|c cs IH]; intros p cx HI; [done|].
  cbn [fold_left]. specialize (Hc c p cx HI). destruct (call c p cx). by apply IH.
Qed.

(** The same with the calls made so far in hand. *)
Lemma play_history {P} `{Plugin P} (I : list Call -> P -> Cx -> Prop) cs p cx :
  (∀ h c p cx, I h p cx -> I (h ++ [c]) (call c p cx).1 (call c p cx).2) ->
  I [] p cx -> I cs (play cs p cx).1 (play cs p cx).2.
Proof.
  intros Hc HI. induction cs as [|c cs IH] using rev_ind; [done|].
  unfold play in *. rewrite fold_left_app. cbn.
  destruct (fold_left _ cs (p, cx)) as [p' cx'] eqn:E. by apply Hc.
Qed.

Lemma call_grows {P} `{PluginLaws P} c p cx : cx_grows cx (call c p cx).2.
Proof.
  destruct c; cbn; [apply grows_message|apply grows_connected|apply grows_disconnected
    |apply grows_local|apply grows_effect|apply grows_listening|apply grows_finished|apply grows_tick].
Qed.

Lemma call_manifest {P} `{PluginLaws P} c p cx : manifest (call c p cx).1 = manifest p.
Proof.
  destruct c; cbn; [apply manifest_const_message|apply manifest_const_connected
    |apply manifest_const_disconnected|apply manifest_const_local|apply manifest_const_effect
    |apply manifest_const_listening|apply manifest_const_finished|apply manifest_const_tick].
Qed.

(** ** [Box<dyn Plugin>]: a plugin of some type, with its methods *)

Record DynPlugin := Dyn {
  dyn_ty : Type;
  dyn_plugin : Plugin dyn_ty;
  dyn_laws : PluginLaws dyn_ty;
  dyn_self : dyn_ty;
}.
Arguments Dyn {dyn_ty dyn_plugin dyn_laws} dyn_self.

Definition dyn_manifest (d : DynPlugin) : PluginManifest :=
  @manifest (dyn_ty d) (dyn_plugin d) (dyn_self d).

(** The plugin with the state a call left it in. *)
Definition dyn_with (d : DynPlugin) (self : dyn_ty d) : DynPlugin :=
  @Dyn (dyn_ty d) (dyn_plugin d) (dyn_laws d) self.

Definition dyn_on_message (peer : DeviceId) (env : Envelope) (d : DynPlugin) (cx : Cx)
    : result unit PluginError * (DynPlugin * Cx) :=
  let '(r, (self, cx)) := @on_message _ (dyn_plugin d) peer env (dyn_self d) cx in
  (r, (dyn_with d self, cx)).
Definition dyn_on_local (peer : DeviceId) (ty : string) (body : bytes) (d : DynPlugin) (cx : Cx)
    : result unit PluginError * (DynPlugin * Cx) :=
  let '(r, (self, cx)) := @on_local _ (dyn_plugin d) peer ty body (dyn_self d) cx in
  (r, (dyn_with d self, cx)).

(** The call of any method, without the outcome of the two that have one. *)
Definition dyn_call (c : Call) (d : DynPlugin) (cx : Cx) : DynPlugin * Cx :=
  let '(self, cx) := @call _ (dyn_plugin d) c (dyn_self d) cx in (dyn_with d self, cx).

Lemma dyn_call_manifest c d cx : dyn_manifest (dyn_call c d cx).1 = dyn_manifest d.
Proof.
  destruct d as [T P L self]. unfold dyn_call, dyn_manifest. cbn.
  pose proof (call_manifest c self cx) as E. by destruct (call c self cx).
Qed.

Lemma dyn_call_grows c d cx : cx_grows cx (dyn_call c d cx).2.
Proof.
  destruct d as [T P L self]. unfold dyn_call. cbn.
  pose proof (call_grows c self cx) as E. by destruct (call c self cx).
Qed.

Lemma dyn_on_message_call peer env d cx :
  (dyn_on_message peer env d cx).2 = dyn_call (CMessage peer env) d cx.
Proof.
  unfold dyn_on_message, dyn_call. cbn. by destruct (on_message _ _ _ _) as [r [self cx']].
Qed.
Lemma dyn_on_local_call peer ty body d cx :
  (dyn_on_local peer ty body d cx).2 = dyn_call (CLocal peer ty body) d cx.
Proof.
  unfold dyn_on_local, dyn_call. cbn. by destruct (on_local _ _ _ _ _) as [r [self cx']].
Qed.

(** What each [Cx] method does to the effects and the messages gathered. *)
Section cx_fields.
Context `{Cbor ErrorBody}.
Implicit Types cx : Cx.

Lemma effects_send p cap ty b cx : cx_effects (cx_send p cap ty b cx) = cx_effects cx.
Proof. done. Qed.
Lemma effects_reply p to ty b cx : cx_effects (cx_reply p to ty b cx) = cx_effects cx.
Proof. done. Qed.
Lemma effects_send_reply p cap ty b re cx :
  cx_effects (cx_send_reply p cap ty b re cx) = cx_effects cx.
Proof. done. Qed.
Lemma effects_send_error p cap re code m cx :
  cx_effects (cx_send_error p cap re code m cx) = cx_effects cx.
Proof. done. Qed.
Lemma effects_ui e cx : cx_effects (cx_ui e cx) = cx_effects cx.
Proof. done. Qed.
Lemma effects_effect e t cx cx' :
  cx_effect e cx = (t, cx') ->
  t = cx_next_token cx +u64 1 /\ cx_next_token cx' = t /\
  cx_effects cx' = push (t, e) (cx_effects cx) /\ cx_sends cx' = cx_sends cx /\
  cx_uis cx' = cx_uis cx.
Proof. intros [= <- <-]. done. Qed.

Lemma sends_ui e cx : cx_sends (cx_ui e cx) = cx_sends cx.
Proof. done. Qed.
Lemma sends_send p cap ty b cx :
  cx_sends (cx_send p cap ty b cx) = push (mkPendingSend p cap ty b None) (cx_sends cx).
Proof. done. Qed.
Lemma sends_reply p to ty b cx :
  cx_sends (cx_reply p to ty b cx)
  = push (mkPendingSend p (env_cap to) ty b (Some (env_id to))) (cx_sends cx).
Proof. done. Qed.
Lemma sends_send_reply p cap ty b re cx :
  cx_sends (cx_send_reply p cap ty b re cx)
  = push (mkPendingSend p cap ty b (Some re)) (cx_sends cx).
Proof. done. Qed.
Lemma sends_send_error p cap re code m cx :
  cx_sends (cx_send_error p cap re code m cx)
  = push (mkPendingSend p cap "err" (to_vec_or_default (mkErrorBody code m)) (Some re)) (cx_sends cx).
Proof. done. Qed.
End cx_fields.

#[export] Hint Rewrite @effects_send @effects_reply @effects_send_reply @effects_send_error
  @effects_ui @sends_ui @sends_send @sends_reply @sends_send_reply @sends_send_error : acr.

Lemma Forall_push {A} (Q : A -> Prop) x l : Forall Q (push x l) <-> Forall Q l /\ Q x.
Proof. unfold push. rewrite Forall_app, Forall_singleton. done. Qed.

(** The methods of [Cx] stay folded; their effect is in the lemmas above. *)
#[global] Arguments cx_send : simpl never.
#[global] Arguments cx_reply : simpl never.
#[global] Arguments cx_send_reply : simpl never.
#[global] Arguments cx_send_error : simpl never.
#[global] Arguments cx_effect : simpl never.
#[global] Arguments cx_new_transfer : simpl never.
#[global] Arguments cx_ui : simpl never.
#[global] Arguments cx_bulk_listen : simpl never.
#[global] Arguments cx_bulk_send : simpl never.
#[global] Arguments cx_bulk_cancel : simpl never.

(** The proof of [PluginLaws] for a plugin: follow every branch. *)
Ltac solve_plugin_laws :=
  constructor; intros; try done; cbn;
  repeat (first
    [ match goal with |- context [cx_effect ?e ?c] =>
        let E := fresh in destruct (cx_effect e c) eqn:E; apply grows_effect_eq in E end
    | match goal with |- context [cx_new_transfer ?c] =>
        let E := fresh in destruct (cx_new_transfer c) eqn:E; apply grows_new_transfer_eq in E end
    | case_match ]; simplify_eq; cbn; try done); eauto 8 with acr.

(** ** What the plugins that keep a list of connected peers share *)

(** [if !v.contains(x) { v.push(x) }] and [v.retain(|p| p != x)]. *)
Definition push_once (peer : DeviceId) (l : list DeviceId) : list DeviceId :=
  if bool_decide (peer ∈ l) then l else push peer l.
Definition retain_ne (peer : DeviceId) (l : list DeviceId) : list DeviceId :=
  filter (λ p, p ≠ peer) l.

(** Send [body] as a [state] message to every peer of the list but one. *)
Definition send_state_except (cap : string) (body : bytes) (already_told : option DeviceId)
    (connected : list DeviceId) (cx : Cx) : Cx :=
  fold_left (λ cx peer,
    if bool_decide (Some peer = already_told) then cx else cx_send peer cap "state" body cx)
    connected cx.

Lemma grows_send_state_except c cap b a l cx :
  cx_grows c cx -> cx_grows c (send_state_except cap b a l cx).
Proof. apply grows_fold. intros x cx'. case_bool_decide; eauto with acr. Qed.
#[export] Hint Resolve grows_send_state_except : acr.

Lemma elem_of_push_once x y l : x ∈ push_once y l <-> x = y \/ x ∈ l.
Proof. unfold push_once, push. case_bool_decide; [|set_solver]. naive_solver. Qed.

Lemma push_once_NoDup y l : NoDup l -> NoDup (push_once y l).
Proof.
  intros Hl. unfold push_once, push. case_bool_decide; [done|].
  apply NoDup_app. split_and!; [done|set_solver|apply NoDup_singleton].
Qed.

Lemma elem_of_retain_ne x y l : x ∈ retain_ne y l <-> x ∈ l /\ x <> y.
Proof. unfold retain_ne. rewrite list_elem_of_filter. naive_solver. Qed.

(** A broadcast sends the one message to every peer but the excluded one. *)
Lemma sends_send_state_except cap b a l cx :
  cx_sends (send_state_except cap b a l cx)
  = cx_sends cx ++ map (λ q, mkPendingSend q cap "state" b None) (filter (λ q, Some q ≠ a) l).
Proof.
  unfold send_state_except. revert cx. induction l as [|q l IH]; intros cx.
  { cbn. by rewrite app_nil_r. }
  cbn [fold_left]. rewrite IH. rewrite filter_cons. case_bool_decide as E.
  - by rewrite decide_False by tauto.
  - rewrite decide_True by done. rewrite sends_send. unfold push. by rewrite <- app_assoc.
Qed.

Lemma effects_send_state_except cap b a l cx :
  cx_effects (send_state_except cap b a l cx) = cx_effects cx.
Proof.
  unfold send_state_except. revert cx. induction l as [|q l IH]; intros cx; [done|].
  cbn [fold_left]. rewrite IH. by case_bool_decide.
Qed.

