(* ===== verification/Ping.v ===== *)
(** * [acrylius-core/src/plugins/ping.rs]: the smallest plugin *)

From S2P Require Import Prelude Externals Ids Envelope Link Vocab Plugin.
Local Open Scope N_scope.

Definition PING_CAP : string := "org.acrylius.ping/1".

(* src: crates/acrylius-core/src/plugins/ping.rs 12 18 MANIFEST *)
Definition PING_MANIFEST : PluginManifest :=
  mkPluginManifest "org.acrylius.ping" [PING_CAP] [PING_CAP] [].

(* src: crates/acrylius-core/src/plugins/ping.rs 20 24 PingPlugin *)
Record PingPlugin := mkPingPlugin { pongs : u32 }.
#[global] Instance PingPlugin_eta : Eta PingPlugin := λ p, mkPingPlugin (pongs p).

(* src: crates/acrylius-core/src/plugins/ping.rs 31 54 PingPlugin::on_message *)
Definition ping_on_message (peer : DeviceId) (env : Envelope) (p : PingPlugin) (cx : Cx)
    : Ran PingPlugin :=
  if env_ty env =s "ping" then
    (Ok tt, (p, cx_reply peer env "pong" (env_body env) cx))
  else if env_ty env =s "pong" then
    (Ok tt, (p <| pongs ::= λ n, wrap32 (n + 1) |>,
             cx_ui (UiPlugin peer PING_CAP "pong" (env_body env)) cx))
  else (Err (PUnknownType (env_ty env)), (p, cx)).

(* src: crates/acrylius-core/src/plugins/ping.rs 56 69 PingPlugin::on_local *)
Definition ping_on_local (peer : DeviceId) (ty : string) (body : bytes) (p : PingPlugin) (cx : Cx)
    : Ran PingPlugin :=
  if ty =s "ping" then (Ok tt, (p, cx_send peer PING_CAP "ping" body cx))
  else (Err (PUnknownType ty), (p, cx)).

#[global] Instance PingPlugin_Plugin : Plugin PingPlugin := {
  manifest _ := PING_MANIFEST;
  on_message := ping_on_message;
  on_peer_connected := default_on_peer;
  on_peer_disconnected := default_on_peer;
  on_local := ping_on_local;
  on_effect_result := default_on_effect_result;
  on_bulk_listening := default_on_bulk_listening;
  on_bulk_finished := default_on_bulk_finished;
  on_tick := default_on_tick;
}.

#[global] Instance PingPlugin_Laws : PluginLaws PingPlugin.
Proof. unfold PingPlugin_Plugin, ping_on_message, ping_on_local. solve_plugin_laws. Qed.
