(* ===== verification/Command.v ===== *)
(** * [acrylius-core/src/plugins/command.rs]: running a named command

    The wire carries an id from this machine's catalogue, never a command
    string.  The bodies' CBOR codecs are generated by a derive and stay
    parameters. *)

From S2P Require Import Prelude Externals Ids Envelope Link Vocab Plugin.
Local Open Scope N_scope.

Definition COMMAND_CAP : string := "org.acrylius.command/1".

(* src: crates/acrylius-core/src/plugins/command.rs 15 24 CommandEntry *)
Record CommandEntry := mkCommandEntry { ce_id : string; ce_name : string; needs_confirm : bool }.
(* src: crates/acrylius-core/src/plugins/command.rs 26 30 CommandList *)
Record CommandList := mkCommandList { commands : list CommandEntry }.
(* src: crates/acrylius-core/src/plugins/command.rs 38 47 Exited *)
Record Exited := mkExited { ex_run_id : u32; ex_code : Z; ex_truncated : bool }.
(* src: crates/acrylius-core/src/plugins/command.rs 32 36 RunRequest *)
Record RunRequest := mkRunRequest { rr_id : string }.

(* src: crates/acrylius-core/src/plugins/command.rs 49 54 MANIFEST *)
Definition COMMAND_MANIFEST : PluginManifest :=
  mkPluginManifest "org.acrylius.command" [COMMAND_CAP] [COMMAND_CAP] [KCommand].

(* src: crates/acrylius-core/src/plugins/command.rs 56 64 CommandPlugin *)
Record CommandPlugin := mkCommandPlugin {
  cmd_catalog : list CommandEntry;
  cmd_remote : gmap DeviceId (list CommandEntry);
  cmd_pending : gmap EffectToken (DeviceId * u32);
}.
#[global] Instance CommandPlugin_eta : Eta CommandPlugin := λ p,
  mkCommandPlugin (cmd_catalog p) (cmd_remote p) (cmd_pending p).

(* src: crates/acrylius-core/src/plugins/command.rs 66 75 CommandPlugin::new *)
Definition CommandPlugin_new (catalog : list CommandEntry) : CommandPlugin :=
  mkCommandPlugin catalog ∅ ∅.

Section command.
  Context `{Cbor ErrorBody} `{!Cbor CommandList} `{!Cbor RunRequest}.

(* src: crates/acrylius-core/src/plugins/command.rs 82 92 CommandPlugin::on_peer_connected *)
Definition command_on_peer_connected (peer : DeviceId) (p : CommandPlugin) (cx : Cx)
    : CommandPlugin * Cx :=
  if bool_decide (cmd_catalog p = []) then (p, cx)
  else match to_vec (mkCommandList (cmd_catalog p)) with
       | Some body => (p, cx_send peer COMMAND_CAP "list" body cx)
       | None => (p, cx)
       end.

(** [cx.ui(UiEvent::Plugin { .. })] with the message as it came. *)
Definition cx_show (peer : DeviceId) (cap : string) (env : Envelope) (cx : Cx) : Cx :=
  cx_ui (UiPlugin peer cap (env_ty env) (env_body env)) cx.

(* src: crates/acrylius-core/src/plugins/command.rs 94 134 CommandPlugin::on_message *)
Definition command_on_message (peer : DeviceId) (env : Envelope) (p : CommandPlugin) (cx : Cx)
    : Ran CommandPlugin :=
  let ty := env_ty env in
  if ty =s "run" then
    match cbor_decode (env_body env) with
    | None => (Err PBadBody, (p, cx))
    | Some req =>
        if negb (existsb (λ c, ce_id c =s rr_id req) (cmd_catalog p)) then
          (Err PNotAllowed, (p, cx))
        else
          let '(token, cx) := cx_effect (RunCommand (rr_id req)) cx in
          (Ok tt, (p <| cmd_pending ::= <[token := (peer, env_id env)]> |>, cx))
    end
  else if ty =s "list" then
    let p := match cbor_decode (env_body env) with
             | Some list => p <| cmd_remote ::= <[peer := commands list]> |>
             | None => p
             end in
    (Ok tt, (p, cx_ui (UiPlugin peer COMMAND_CAP "list" (env_body env)) cx))
  else if (ty =s "started") || (ty =s "output") || (ty =s "exited") || (ty =s "ok") then
    (Ok tt, (p, cx_ui (UiPlugin peer COMMAND_CAP ty (env_body env)) cx))
  else (Err (PUnknownType ty), (p, cx)).

(* src: crates/acrylius-core/src/plugins/command.rs 136 164 CommandPlugin::on_local *)
Definition command_on_local (peer : DeviceId) (ty : string) (body : bytes) (p : CommandPlugin)
    (cx : Cx) : Ran CommandPlugin :=
  if ty =s "run" then (Ok tt, (p, cx_send peer COMMAND_CAP "run" body cx))
  else if ty =s "list" then
    let cs := default [] (cmd_remote p !! peer) in
    match to_vec (mkCommandList cs) with
    | None => (Err (PInternal "encode failed"), (p, cx))
    | Some encoded => (Ok tt, (p, cx_ui (UiPlugin peer COMMAND_CAP "list" encoded) cx))
    end
  else (Err (PUnknownType ty), (p, cx)).

(* src: crates/acrylius-core/src/plugins/command.rs 166 180 CommandPlugin::on_effect_result *)
Definition command_on_effect_result (token : EffectToken) (r : EffectResult) (p : CommandPlugin)
    (cx : Cx) : CommandPlugin * Cx :=
  match cmd_pending p !! token with
  | None => (p, cx)
  | Some (peer, request) =>
      let p := p <| cmd_pending ::= delete token |> in
      match r with
      | EffectOk bs => (p, cx_send_reply peer COMMAND_CAP "exited" bs request cx)
      | EffectFail detail => (p, cx_send_error peer COMMAND_CAP request "effect_failed" detail cx)
      | EffectUnsupported =>
          (p, cx_send_error peer COMMAND_CAP request "not_allowed" "cannot run commands" cx)
      end
  end.

#[global] Instance CommandPlugin_Plugin : Plugin CommandPlugin := {
  manifest _ := COMMAND_MANIFEST;
  on_message := command_on_message;
  on_peer_connected := command_on_peer_connected;
  on_peer_disconnected := default_on_peer;
  on_local := command_on_local;
  on_effect_result := command_on_effect_result;
  on_bulk_listening := default_on_bulk_listening;
  on_bulk_finished := default_on_bulk_finished;
  on_tick := default_on_tick;
}.

#[global] Instance CommandPlugin_Laws : PluginLaws CommandPlugin.
Proof.
  unfold CommandPlugin_Plugin, command_on_message, command_on_peer_connected, command_on_local,
    command_on_effect_result.
  solve_plugin_laws.
Qed.
End command.

(** ** Theorems *)

Section command_theorems.
Context `{Cbor ErrorBody} `{!Cbor CommandList} `{!Cbor RunRequest}.

(** Every effect is a run of a catalogue entry, by its own id. *)
Definition runs_listed (catalog : list CommandEntry) (e : Effect) : Prop :=
  ∃ c, c ∈ catalog /\ e = RunCommand (ce_id c).

Definition command_inv (catalog : list CommandEntry) (p : CommandPlugin) (cx : Cx) : Prop :=
  cmd_catalog p = catalog /\ Forall (λ te, runs_listed catalog te.2) (cx_effects cx).

Lemma command_call_inv catalog c p cx :
  command_inv catalog p cx -> command_inv catalog (call c p cx).1 (call c p cx).2.
Proof.
  unfold command_inv. intros [Hc He].
  destruct c; cbn; unfold command_on_message, command_on_peer_connected, command_on_local,
    command_on_effect_result; repeat (case_match; cbn); autorewrite with acr; try done.
  match goal with H : cx_effect _ _ = _ |- _ => apply effects_effect in H as (_ & _ & -> & _) end.
  split; [done|]. apply Forall_push. split; [done|]. cbn.
  match goal with H : negb _ = false |- _ => apply negb_false_iff, existsb_exists in H as (ce & Hin & Hid) end.
  apply String.eqb_eq in Hid. exists ce. subst. split; [by apply list_elem_of_In|by rewrite Hid].
Qed.

(** Whatever peers send and in whatever order, a machine only ever
    asks its host to run commands by ids that are in its own catalogue. *)
Theorem command_only_catalogue catalog cs cx :
  cx_effects cx = [] ->
  Forall (λ te, runs_listed catalog te.2)
    (cx_effects (play cs (CommandPlugin_new catalog) cx).2).
Proof.
  intros Hcx.
  apply (play_invariant (command_inv catalog) cs); [apply command_call_inv|].
  split; [done|]. by rewrite Hcx.
Qed.
End command_theorems.
