(* ===== verification/Wol.v ===== *)
(** * [acrylius-core/src/plugins/wol.rs]: wake on LAN, and relaying a wake

    The bodies' CBOR codecs are generated by a derive and stay parameters. *)

From S2P Require Import Prelude Externals Ids Envelope Link Vocab Plugin.
From Stdlib Require Import Ascii.
Local Open Scope N_scope.

Definition WOL_CAP : string := "org.acrylius.wol/1".

(* src: crates/acrylius-core/src/plugins/wol.rs 13 26 WolConfig *)
Record WolConfig := mkWolConfig {
  macs : list string;
  broadcast : string;
  port : u16;
  last_ipv4 : string;
}.
(* src: crates/acrylius-core/src/plugins/wol.rs 28 32 RelayRequest *)
Record RelayRequest := mkRelayRequest { mac : string }.

(* src: crates/acrylius-core/src/plugins/wol.rs 34 39 MANIFEST *)
Definition WOL_MANIFEST : PluginManifest :=
  mkPluginManifest "org.acrylius.wol" [WOL_CAP] [WOL_CAP] [KWol].

(* src: crates/acrylius-core/src/plugins/wol.rs 41 46 WolPlugin *)
Record WolPlugin := mkWolPlugin {
  wol_config : WolConfig;
  wol_allowlist : list string;
  wol_pending : gmap EffectToken (DeviceId * u32);
}.
#[global] Instance WolPlugin_eta : Eta WolPlugin := λ p,
  mkWolPlugin (wol_config p) (wol_allowlist p) (wol_pending p).

(* src: crates/acrylius-core/src/plugins/wol.rs 48 57 WolPlugin::new *)
Definition WolPlugin_new (config : WolConfig) (allowlist : list string) : WolPlugin :=
  mkWolPlugin config allowlist ∅.

(** [char::is_ascii_hexdigit] and [char::to_lowercase] on such a character. *)
Definition is_ascii_hexdigit (c : ascii) : bool :=
  let n := N_of_ascii c in
  ((48 <=? n) && (n <=? 57)) || ((65 <=? n) && (n <=? 70)) || ((97 <=? n) && (n <=? 102)).
Definition to_lowercase (c : ascii) : ascii :=
  let n := N_of_ascii c in
  if (65 <=? n) && (n <=? 90) then ascii_of_N (n + 32) else c.

(* src: crates/acrylius-core/src/plugins/wol.rs 65 70 normalize_mac *)
Fixpoint normalize_mac (m : string) : string :=
  match m with
  | EmptyString => EmptyString
  | String c m' =>
      if is_ascii_hexdigit c then String (to_lowercase c) (normalize_mac m') else normalize_mac m'
  end.

Section wol.
  Context `{Cbor ErrorBody} `{!Cbor WolConfig} `{!Cbor RelayRequest}.

(* src: crates/acrylius-core/src/plugins/wol.rs 77 86 WolPlugin::on_peer_connected *)
Definition wol_on_peer_connected (peer : DeviceId) (p : WolPlugin) (cx : Cx) : WolPlugin * Cx :=
  if bool_decide (macs (wol_config p) = []) then (p, cx)
  else match to_vec (wol_config p) with
       | Some body => (p, cx_send peer WOL_CAP "config" body cx)
       | None => (p, cx)
       end.

(* src: crates/acrylius-core/src/plugins/wol.rs 88 136 WolPlugin::on_message *)
Definition wol_on_message (peer : DeviceId) (env : Envelope) (p : WolPlugin) (cx : Cx)
    : Ran WolPlugin :=
  let ty := env_ty env in
  if (ty =s "ok") || (ty =s "err") then
    (Ok tt, (p, cx_ui (UiPlugin peer WOL_CAP ty (env_body env)) cx))
  else if ty =s "config" then
    (Ok tt, (p, cx_ui (UiPlugin peer WOL_CAP "config" (env_body env)) cx))
  else if ty =s "relay" then
    match cbor_decode (env_body env) with
    | None => (Err PBadBody, (p, cx))
    | Some req =>
        let wanted := normalize_mac (mac req) in
        if negb (str_len wanted =? 12) then (Err PBadBody, (p, cx))
        else if negb (existsb (λ m, normalize_mac m =s wanted) (wol_allowlist p)) then
          (Err PNotAllowed, (p, cx))
        else
          let '(token, cx) := cx_effect
            (SendMagicPacket [mac req] [broadcast (wol_config p)] (port (wol_config p))) cx in
          (Ok tt, (p <| wol_pending ::= <[token := (peer, env_id env)]> |>, cx))
    end
  else (Err (PUnknownType ty), (p, cx)).

(* src: crates/acrylius-core/src/plugins/wol.rs 138 153 WolPlugin::on_local *)
Definition wol_on_local (peer : DeviceId) (ty : string) (body : bytes) (p : WolPlugin) (cx : Cx)
    : Ran WolPlugin :=
  if ty =s "relay" then (Ok tt, (p, cx_send peer WOL_CAP "relay" body cx))
  else (Err (PUnknownType ty), (p, cx)).

(* src: crates/acrylius-core/src/plugins/wol.rs 155 168 WolPlugin::on_effect_result *)
Definition wol_on_effect_result (token : EffectToken) (r : EffectResult) (p : WolPlugin) (cx : Cx)
    : WolPlugin * Cx :=
  match wol_pending p !! token with
  | None => (p, cx)
  | Some (peer, request) =>
      let p := p <| wol_pending ::= delete token |> in
      match r with
      | EffectOk _ => (p, cx_send_reply peer WOL_CAP "ok" [] request cx)
      | EffectFail detail => (p, cx_send_error peer WOL_CAP request "effect_failed" detail cx)
      | EffectUnsupported =>
          (p, cx_send_error peer WOL_CAP request "not_allowed" "cannot send packets" cx)
      end
  end.

#[global] Instance WolPlugin_Plugin : Plugin WolPlugin := {
  manifest _ := WOL_MANIFEST;
  on_message := wol_on_message;
  on_peer_connected := wol_on_peer_connected;
  on_peer_disconnected := default_on_peer;
  on_local := wol_on_local;
  on_effect_result := wol_on_effect_result;
  on_bulk_listening := default_on_bulk_listening;
  on_bulk_finished := default_on_bulk_finished;
  on_tick := default_on_tick;
}.

#[global] Instance WolPlugin_Laws : PluginLaws WolPlugin.
Proof.
  unfold WolPlugin_Plugin, wol_on_message, wol_on_peer_connected, wol_on_local, wol_on_effect_result.
  solve_plugin_laws.
Qed.

(** ** Theorems *)

(** A magic packet for one interface that is on the allowlist however it was
    punctuated, to the configured broadcast address and port. *)
Definition wakes_allowed (p : WolPlugin) (e : Effect) : Prop :=
  ∃ m listed, e = SendMagicPacket [m] [broadcast (wol_config p)] (port (wol_config p)) /\
    listed ∈ wol_allowlist p /\ normalize_mac listed = normalize_mac m /\
    str_len (normalize_mac m) = 12.

Definition wol_inv (p0 p : WolPlugin) (cx : Cx) : Prop :=
  wol_config p = wol_config p0 /\ wol_allowlist p = wol_allowlist p0 /\
  Forall (λ te, wakes_allowed p0 te.2) (cx_effects cx).

Lemma wol_call_inv p0 c p cx : wol_inv p0 p cx -> wol_inv p0 (call c p cx).1 (call c p cx).2.
Proof.
  unfold wol_inv. intros (Hc & Ha & He).
  destruct c; cbn; unfold wol_on_message, wol_on_peer_connected, wol_on_local,
    wol_on_effect_result; repeat (case_match; cbn); autorewrite with acr; try done.
  match goal with H : cx_effect _ _ = _ |- _ => apply effects_effect in H as (_ & _ & -> & _) end.
  split_and!; [done..|]. apply Forall_push. split; [done|]. cbn.
  match goal with H : negb (existsb _ _) = false |- _ =>
    apply negb_false_iff, existsb_exists in H as (m & Hin & Hm) end.
  match goal with H : negb (_ =? _) = false |- _ => apply negb_false_iff, N.eqb_eq in H end.
  apply String.eqb_eq in Hm. eexists _, m. rewrite <- Hc, <- Ha. split_and!; [done| |done|done].
  by apply list_elem_of_In.
Qed.

(** A machine never sends a magic packet on a peer's behalf except
    for an interface its allowlist names, to its configured broadcast address;
    the relay is not an open UDP reflector. *)
Theorem wol_only_allowlisted config allowlist cs cx :
  cx_effects cx = [] ->
  Forall (λ te, wakes_allowed (WolPlugin_new config allowlist) te.2)
    (cx_effects (play cs (WolPlugin_new config allowlist) cx).2).
Proof.
  intros Hcx.
  apply (play_invariant (wol_inv (WolPlugin_new config allowlist)) cs); [apply wol_call_inv|].
  split_and!; [done..|]. by rewrite Hcx.
Qed.
End wol.
