(* ===== verification/Touchpad.v ===== *)
(** * [acrylius-core/src/plugins/touchpad.rs]: replaying a phone's fingers

    The bodies' CBOR codecs are generated by a derive and stay parameters. *)

From S2P Require Import Prelude Externals Ids Envelope Link Vocab Plugin.
Local Open Scope N_scope.

Definition TOUCHPAD_CAP : string := "org.acrylius.touchpad/1".
(* src: crates/acrylius-core/src/plugins/touchpad.rs 11 13 MAX_POINTS *)
Definition MAX_POINTS : usize := 10.

(* src: crates/acrylius-core/src/plugins/touchpad.rs 15 22 Begin *)
Record Begin := mkBegin { w_mm : u16; h_mm : u16 }.
(* src: crates/acrylius-core/src/plugins/touchpad.rs 24 33 Point *)
Record Point := mkPoint { pt_id : u8; pt_x : u16; pt_y : u16 }.
(* src: crates/acrylius-core/src/plugins/touchpad.rs 35 46 Frame *)
Record TouchFrame := mkTouchFrame { tf_seq : u32; tf_points : list Point; tf_t_us : option u32 }.

(* src: crates/acrylius-core/src/plugins/touchpad.rs 48 53 MANIFEST *)
Definition TOUCHPAD_MANIFEST : PluginManifest :=
  mkPluginManifest "org.acrylius.touchpad" [TOUCHPAD_CAP] [TOUCHPAD_CAP] [KTouchpad].

(* src: crates/acrylius-core/src/plugins/touchpad.rs 55 61 TouchpadPlugin *)
Record TouchpadPlugin := mkTouchpadPlugin { tpad_order : u32; tpad_owner : option DeviceId }.
#[global] Instance TouchpadPlugin_eta : Eta TouchpadPlugin := λ p,
  mkTouchpadPlugin (tpad_order p) (tpad_owner p).
Definition TouchpadPlugin_default : TouchpadPlugin := mkTouchpadPlugin 0 None.

Section touchpad.
  Context `{!Cbor Begin} `{!Cbor TouchFrame}.

(* src: crates/acrylius-core/src/plugins/touchpad.rs 68 74 TouchpadPlugin::on_peer_connected *)
Definition touchpad_on_peer_connected (peer : DeviceId) (p : TouchpadPlugin) (cx : Cx)
    : TouchpadPlugin * Cx :=
  if cx_serves KTouchpad cx then (p, cx_send peer TOUCHPAD_CAP "avail" [] cx) else (p, cx).

(** The two statements that end every accepted operation: number it, ask for it. *)
(* src: crates/acrylius-core/src/plugins/touchpad.rs 146 151 TouchpadPlugin::on_message *)
Definition touchpad_emit (op : TouchpadOp) (p : TouchpadPlugin) (cx : Cx) : TouchpadPlugin * Cx :=
  let p := p <| tpad_order ::= λ n, wrap32 (n + 1) |> in
  let '(_, cx) := cx_effect (Touchpad (tpad_order p) op) cx in
  (p, cx).

(* src: crates/acrylius-core/src/plugins/touchpad.rs 76 86 TouchpadPlugin::on_peer_disconnected *)
Definition touchpad_on_peer_disconnected (peer : DeviceId) (p : TouchpadPlugin) (cx : Cx)
    : TouchpadPlugin * Cx :=
  if bool_decide (tpad_owner p = Some peer) then
    touchpad_emit TEnd (p <| tpad_owner := None |>) cx
  else (p, cx).

(* src: crates/acrylius-core/src/plugins/touchpad.rs 88 152 TouchpadPlugin::on_message *)
Definition touchpad_on_message (peer : DeviceId) (env : Envelope) (p : TouchpadPlugin) (cx : Cx)
    : Ran TouchpadPlugin :=
  let ty := env_ty env in
  if ty =s "avail" then (Ok tt, (p, cx_ui (UiPlugin peer TOUCHPAD_CAP "avail" []) cx))
  else if negb (cx_serves KTouchpad cx) then (Err PNotAllowed, (p, cx))
  else
    let op : result (TouchpadPlugin * TouchpadOp) PluginError :=
      if ty =s "begin" then
        try! b := ok_or (cbor_decode (env_body env)) PBadBody in
        if (w_mm b =? 0) || (h_mm b =? 0) then Err PBadBody
        else Ok (p <| tpad_owner := Some peer |>, TBegin (w_mm b) (h_mm b))
      else if ty =s "frame" then
        try! f := ok_or (cbor_decode (env_body env)) PBadBody in
        if MAX_POINTS <? len (tf_points f) then Err PTooLarge
        else Ok (p, TFrame (map (λ q, mkTouchPoint (pt_id q) (pt_x q) (pt_y q)) (tf_points f)))
      else if ty =s "end" then Ok (p <| tpad_owner := None |>, TEnd)
      else Err (PUnknownType ty) in
    match op with
    | Err e => (Err e, (p, cx))
    | Ok (p, op) => (Ok tt, touchpad_emit op p cx)
    end.

(* src: crates/acrylius-core/src/plugins/touchpad.rs 154 168 TouchpadPlugin::on_local *)
Definition touchpad_on_local (peer : DeviceId) (ty : string) (body : bytes) (p : TouchpadPlugin)
    (cx : Cx) : Ran TouchpadPlugin :=
  if (ty =s "begin") || (ty =s "frame") || (ty =s "end") then
    (Ok tt, (p, cx_send peer TOUCHPAD_CAP ty body cx))
  else (Err (PUnknownType ty), (p, cx)).

#[global] Instance TouchpadPlugin_Plugin : Plugin TouchpadPlugin := {
  manifest _ := TOUCHPAD_MANIFEST;
  on_message := touchpad_on_message;
  on_peer_connected := touchpad_on_peer_connected;
  on_peer_disconnected := touchpad_on_peer_disconnected;
  on_local := touchpad_on_local;
  on_effect_result := default_on_effect_result;
  on_bulk_listening := default_on_bulk_listening;
  on_bulk_finished := default_on_bulk_finished;
  on_tick := default_on_tick;
}.

#[global] Instance TouchpadPlugin_Laws : PluginLaws TouchpadPlugin.
Proof.
  unfold TouchpadPlugin_Plugin, touchpad_on_message, touchpad_on_peer_connected,
    touchpad_on_peer_disconnected, touchpad_on_local, touchpad_emit.
  solve_plugin_laws.
Qed.

(** ** Theorems *)

(** The [i]th effect asked for is the touchpad operation numbered [i + 1], a
    frame of at most [MAX_POINTS] fingers or a surface of positive size. *)
Definition op_ok (op : TouchpadOp) : Prop :=
  match op with
  | TBegin w h => 0 < w /\ 0 < h
  | TFrame points => len points <= MAX_POINTS
  | TEnd => True
  end.

Definition touch_effects (es : list (EffectToken * Effect)) : Prop :=
  ∀ (i : nat) te, es !! i = Some te ->
    ∃ op, te.2 = Touchpad (wrap32 (N.of_nat (S i))) op /\ op_ok op.

Definition touchpad_inv (p : TouchpadPlugin) (cx : Cx) : Prop :=
  tpad_order p = wrap32 (len (cx_effects cx)) /\ touch_effects (cx_effects cx).

Lemma touchpad_emit_inv op p cx :
  touchpad_inv p cx -> op_ok op ->
  touchpad_inv (touchpad_emit op p cx).1 (touchpad_emit op p cx).2.
Proof.
  unfold touchpad_inv, touchpad_emit. intros [Ho He] Hop.
  destruct (cx_effect _ cx) as [t cx'] eqn:E.
  apply effects_effect in E as (_ & _ & E & _). cbn. rewrite E. unfold push.
  assert (wrap32 (tpad_order p + 1) = wrap32 (N.of_nat (S (length (cx_effects cx))))) as Hn.
  { rewrite Ho. unfold wrap32, len. rewrite N.Div0.add_mod_idemp_l. f_equal. lia. }
  split.
  - cbn. rewrite Hn, len_app. unfold len. cbn [length]. f_equal. lia.
  - intros i te Hi. apply lookup_app_Some in Hi as [Hi|[Hl Hi]]; [by apply He|].
    apply list_lookup_singleton_Some in Hi as [Hi <-].
    exists op. split; [|done]. cbn. rewrite Hn. do 3 f_equal. lia.
Qed.

Lemma touchpad_call_inv c p cx :
  touchpad_inv p cx -> touchpad_inv (call c p cx).1 (call c p cx).2.
Proof.
  intros HI. destruct c; cbn; try done.
  - unfold touchpad_on_message. cbv zeta.
    destruct (_ =s "avail"); [done|]. destruct (negb _); [done|].
    destruct (_ =s "begin"); [|destruct (_ =s "frame"); [|by destruct (_ =s "end");
      [apply touchpad_emit_inv|]]].
    + destruct (cbor_decode _) as [b|]; cbn; [|done].
      destruct (N.eqb_spec (w_mm b) 0), (N.eqb_spec (h_mm b) 0); cbn; try done.
      apply touchpad_emit_inv; [done|cbn; lia].
    + destruct (cbor_decode _) as [f|]; cbn; [|done].
      destruct (N.ltb_spec MAX_POINTS (len (tf_points f))); cbn; [done|].
      apply touchpad_emit_inv; [done|]. cbn. unfold len in *. by rewrite length_map.
  - unfold touchpad_on_peer_connected. by case_match.
  - unfold touchpad_on_peer_disconnected. case_match; [|done]. by apply touchpad_emit_inv.
  - unfold touchpad_on_local. by case_match.
Qed.

(** Whatever phones send, the host is asked for touchpad operations numbered
    one after the other from one (modulo 2^32), in order of arrival, and each is
    well formed: no frame has more fingers than the device has slots and no
    surface is empty. *)
Theorem touchpad_numbered cs cx :
  cx_effects cx = [] ->
  touch_effects (cx_effects (play cs TouchpadPlugin_default cx).2).
Proof.
  intros Hcx. apply (play_invariant touchpad_inv cs TouchpadPlugin_default cx touchpad_call_inv).
  unfold touchpad_inv, touch_effects. by rewrite Hcx.
Qed.

(** The disconnection of the peer whose stream is open lifts the fingers, once;
    that of anybody else changes nothing. *)
Theorem touchpad_lift peer p cx :
  touchpad_on_peer_disconnected peer p cx =
  (if bool_decide (tpad_owner p = Some peer)
   then (mkTouchpadPlugin (wrap32 (tpad_order p + 1)) None,
         (cx_effect (Touchpad (wrap32 (tpad_order p + 1)) TEnd) cx).2)
   else (p, cx)) /\
  touchpad_on_peer_disconnected peer (touchpad_on_peer_disconnected peer p cx).1 cx =
  ((touchpad_on_peer_disconnected peer p cx).1, cx).
Proof.
  unfold touchpad_on_peer_disconnected. case_bool_decide as E; [done|].
  by rewrite bool_decide_eq_false_2 by done.
Qed.
End touchpad.
