(* ===== verification/Session.v ===== *)
(** * [acrylius-core/src/plugins/session.rs]: locking a desktop session

    The bodies' CBOR codecs are generated by a derive and stay parameters. *)

From S2P Require Import Prelude Externals Ids Envelope Link Vocab Plugin.
Local Open Scope N_scope.

Definition SESSION_CAP : string := "org.acrylius.session/1".
(* src: crates/acrylius-core/src/plugins/session.rs 16 21 LOCK_CONFIRM_MS *)
Definition LOCK_CONFIRM_MS : u64 := 8000.
Definition UNLOCK_CONFIRM_MS : u64 := 5000.
(* src: crates/acrylius-core/src/plugins/session.rs 23 29 LOCK_REPLY_BUDGET_MS *)
Definition LOCK_REPLY_BUDGET_MS : u64 := LOCK_CONFIRM_MS + REPLY_SLACK_MS.
Definition UNLOCK_REPLY_BUDGET_MS : u64 := UNLOCK_CONFIRM_MS + REPLY_SLACK_MS.

(* src: crates/acrylius-core/src/plugins/session.rs 39 51 SessionState *)
Record SessionState := mkSessionState {
  ss_locked : bool;
  ss_session_id : string;
  ss_kind : string;
  ss_active : bool;
}.
(* src: crates/acrylius-core/src/plugins/session.rs 53 63 SessionOutcome *)
Record SessionOutcome := mkSessionOutcome { so_was_locked : bool; so_locked : bool; so_session_id : string }.
#[global] Instance SessionState_eq_dec : EqDecision SessionState.
Proof. solve_decision. Defined.

(* src: crates/acrylius-core/src/plugins/session.rs 65 71 MANIFEST *)
Definition SESSION_MANIFEST : PluginManifest :=
  mkPluginManifest "org.acrylius.session" [SESSION_CAP] [SESSION_CAP] [KSession].

(* src: crates/acrylius-core/src/plugins/session.rs 73 79 Pending *)
Record Pending := mkPending { pend_peer : DeviceId; pend_request : u32; pend_reply : string }.

(* src: crates/acrylius-core/src/plugins/session.rs 81 87 SessionPlugin *)
Record SessionPlugin := mkSessionPlugin {
  sess_pending : gmap EffectToken Pending;
  sess_connected : list DeviceId;
  sess_last : option SessionState;
}.
#[global] Instance SessionPlugin_eta : Eta SessionPlugin := λ p,
  mkSessionPlugin (sess_pending p) (sess_connected p) (sess_last p).
Definition SessionPlugin_default : SessionPlugin := mkSessionPlugin ∅ [] None.

Section session.
  Context `{Cbor ErrorBody} `{!Cbor SessionState}.

(* src: crates/acrylius-core/src/plugins/session.rs 94 111 SessionPlugin::broadcast_state_except *)
Definition broadcast_state_except (state : SessionState) (already_told : option DeviceId)
    (p : SessionPlugin) (cx : Cx) : Cx :=
  match to_vec state with
  | None => cx
  | Some body => send_state_except SESSION_CAP body already_told (sess_connected p) cx
  end.

(* src: crates/acrylius-core/src/plugins/session.rs 90 92 SessionPlugin::broadcast_state *)
Definition broadcast_state (state : SessionState) (p : SessionPlugin) (cx : Cx) : Cx :=
  broadcast_state_except state None p cx.

(* src: crates/acrylius-core/src/plugins/session.rs 119 129 SessionPlugin::on_peer_connected *)
Definition session_on_peer_connected (peer : DeviceId) (p : SessionPlugin) (cx : Cx)
    : SessionPlugin * Cx :=
  let p := p <| sess_connected ::= push_once peer |> in
  match sess_last p with
  | Some state =>
      match to_vec state with
      | Some body => (p, cx_send peer SESSION_CAP "state" body cx)
      | None => (p, cx)
      end
  | None => (p, cx)
  end.

(* src: crates/acrylius-core/src/plugins/session.rs 131 133 SessionPlugin::on_peer_disconnected *)
Definition session_on_peer_disconnected (peer : DeviceId) (p : SessionPlugin) (cx : Cx)
    : SessionPlugin * Cx :=
  (p <| sess_connected ::= retain_ne peer |>, cx).

Definition session_ask (e : Effect) (pending : Pending) (p : SessionPlugin) (cx : Cx)
    : SessionPlugin * Cx :=
  let '(token, cx) := cx_effect e cx in
  (p <| sess_pending ::= <[token := pending]> |>, cx).

(* src: crates/acrylius-core/src/plugins/session.rs 135 167 SessionPlugin::on_message *)
Definition session_on_message (peer : DeviceId) (env : Envelope) (p : SessionPlugin) (cx : Cx)
    : Ran SessionPlugin :=
  let ty := env_ty env in
  let ask e reply := (Ok tt, session_ask e (mkPending peer (env_id env) reply) p cx) in
  if ty =s "query" then ask QuerySession "state"
  else if ty =s "lock" then ask LockSession "result"
  else if ty =s "unlock" then ask UnlockSession "result"
  else if (ty =s "state") || (ty =s "result") then
    (Ok tt, (p, cx_ui (UiPlugin peer SESSION_CAP ty (env_body env)) cx))
  else (Err (PUnknownType ty), (p, cx)).

(* src: crates/acrylius-core/src/plugins/session.rs 169 196 SessionPlugin::on_local *)
Definition session_on_local (peer : DeviceId) (ty : string) (body : bytes) (p : SessionPlugin)
    (cx : Cx) : Ran SessionPlugin :=
  if ty =s "notify" then (Ok tt, session_ask QuerySession (mkPending peer 0 "broadcast") p cx)
  else if (ty =s "query") || (ty =s "lock") || (ty =s "unlock") then
    (Ok tt, (p, cx_send peer SESSION_CAP ty [] cx))
  else (Err (PUnknownType ty), (p, cx)).

(* src: crates/acrylius-core/src/plugins/session.rs 197 240 SessionPlugin::on_effect_result *)
Definition session_on_effect_result (token : EffectToken) (r : EffectResult) (p : SessionPlugin)
    (cx : Cx) : SessionPlugin * Cx :=
  match sess_pending p !! token with
  | None => (p, cx)
  | Some q =>
      let p := p <| sess_pending ::= delete token |> in
      match r with
      | EffectOk bs =>
          if pend_reply q =s "broadcast" then
            match cbor_decode bs with
            | Some state =>
                if negb (bool_decide (sess_last p = Some state)) then
                  let p := p <| sess_last := Some state |> in
                  (p, broadcast_state state p cx)
                else (p, cx)
            | None => (p, cx)
            end
          else
            let '(p, cx) :=
              if pend_reply q =s "state" then
                match cbor_decode bs with
                | Some state =>
                    if negb (bool_decide (sess_last p = Some state)) then
                      let p := p <| sess_last := Some state |> in
                      (p, broadcast_state_except state (Some (pend_peer q)) p cx)
                    else (p, cx)
                | None => (p, cx)
                end
              else (p, cx) in
            (p, cx_send_reply (pend_peer q) SESSION_CAP (pend_reply q) bs (pend_request q) cx)
      | EffectFail detail =>
          if negb (pend_reply q =s "broadcast") then
            (p, cx_send_error (pend_peer q) SESSION_CAP (pend_request q) "effect_failed" detail cx)
          else (p, cx)
      | EffectUnsupported =>
          if negb (pend_reply q =s "broadcast") then
            (p, cx_send_error (pend_peer q) SESSION_CAP (pend_request q) "not_allowed"
                  "no session on this device" cx)
          else (p, cx)
      end
  end.

#[global] Instance SessionPlugin_Plugin : Plugin SessionPlugin := {
  manifest _ := SESSION_MANIFEST;
  on_message := session_on_message;
  on_peer_connected := session_on_peer_connected;
  on_peer_disconnected := session_on_peer_disconnected;
  on_local := session_on_local;
  on_effect_result := session_on_effect_result;
  on_bulk_listening := default_on_bulk_listening;
  on_bulk_finished := default_on_bulk_finished;
  on_tick := default_on_tick;
}.

Lemma grows_broadcast_state_except c s a p cx :
  cx_grows c cx -> cx_grows c (broadcast_state_except s a p cx).
Proof.
  unfold broadcast_state_except. case_match; [|done]. apply grows_send_state_except.
Qed.
Lemma grows_broadcast_state c s p cx : cx_grows c cx -> cx_grows c (broadcast_state s p cx).
Proof. apply grows_broadcast_state_except. Qed.
#[local] Hint Resolve grows_broadcast_state_except grows_broadcast_state : acr.

#[global] Instance SessionPlugin_Laws : PluginLaws SessionPlugin.
Proof.
  unfold SessionPlugin_Plugin, session_on_message, session_on_peer_connected,
    session_on_peer_disconnected, session_on_local, session_on_effect_result, session_ask.
  solve_plugin_laws.
Qed.
End session.

(** ** Theorems *)

Section session_theorems.
  Context `{Cbor ErrorBody} `{!Cbor SessionState}.

(** The messages one effect result makes the plugin send: the answer to the
    request that asked, preceded by the news for the other peers when a reading
    differs from the last one. *)
Definition session_told (q : Pending) (r : EffectResult) (p : SessionPlugin) : list PendingSend :=
  let answer ty body := mkPendingSend (pend_peer q) SESSION_CAP ty body (Some (pend_request q)) in
  let news except :=
    match r with
    | EffectOk bs =>
        match cbor_decode bs with
        | Some state =>
            if bool_decide (sess_last p = Some state) then []
            else match to_vec state with
                 | Some body => map (λ peer, mkPendingSend peer SESSION_CAP "state" body None)
                                 (filter (λ peer, Some peer ≠ except) (sess_connected p))
                 | None => []
                 end
        | None => []
        end
    | _ => []
    end in
  if pend_reply q =s "broadcast" then news None
  else (if pend_reply q =s "state" then news (Some (pend_peer q)) else [])
    ++ [match r with
        | EffectOk bs => answer (pend_reply q) bs
        | EffectFail d => answer "err" (to_vec_or_default (mkErrorBody "effect_failed" d))
        | EffectUnsupported => answer "err"
            (to_vec_or_default (mkErrorBody "not_allowed" "no session on this device"))
        end].

(** A result is spent on the request that asked for it and answers it exactly
    once, under its own id; a change it reveals is told once to every other
    connected peer and an unchanged reading to nobody; a result nobody waits
    for, or for a broadcast with nothing new, sends nothing. *)
Theorem session_effect_result token r p cx :
  let '(p', cx') := session_on_effect_result token r p cx in
  sess_pending p' = delete token (sess_pending p) /\
  sess_connected p' = sess_connected p /\
  cx_effects cx' = cx_effects cx /\
  cx_sends cx' = cx_sends cx ++
    match sess_pending p !! token with Some q => session_told q r p | None => [] end.
Proof.
  unfold session_on_effect_result. destruct (sess_pending p !! token) as [q|] eqn:Eq.
  2: { rewrite app_nil_r, delete_id by done. done. }
  assert (∀ s x P c, cx_effects (broadcast_state_except s x P c) = cx_effects c) as Hb.
  { intros s x P c. unfold broadcast_state_except. case_match; [|done].
    apply effects_send_state_except. }
  assert (∀ s x P c, cx_sends (broadcast_state_except s x P c) = cx_sends c ++
     match to_vec s with Some body => map (λ peer, mkPendingSend peer SESSION_CAP "state" body None)
                                 (filter (λ peer, Some peer ≠ x) (sess_connected P))
       | None => [] end) as Hs.
  { intros s x P c. unfold broadcast_state_except. destruct (to_vec s); [|by rewrite app_nil_r].
    apply sends_send_state_except. }
  unfold session_told, broadcast_state. cbv zeta. cbn.
  destruct (pend_reply q =s "broadcast") eqn:Er.
  - destruct r as [bs|d|]; cbn; rewrite ?app_nil_r; try done.
    destruct (cbor_decode bs) as [s|]; cbn; rewrite ?app_nil_r; try done.
    case_bool_decide; cbn; rewrite ?app_nil_r; [done|]. rewrite Hb, Hs. done.
  - destruct (pend_reply q =s "state"); destruct r as [bs|d|]; cbn;
      try (rewrite ?sends_send_reply, ?sends_send_error; done).
    destruct (cbor_decode bs) as [s|]; cbn; [|done].
    case_bool_decide; cbn; [done|].
    rewrite effects_send_reply, sends_send_reply, Hb, Hs. cbn. unfold push. by rewrite app_assoc.
Qed.
End session_theorems.
