(* ===== verification/Media.v ===== *)
(** * [acrylius-core/src/plugins/media.rs]: controlling whatever is playing

    The bodies' CBOR codecs are generated by a derive and stay parameters. *)

From S2P Require Import Prelude Externals Ids Envelope Link Vocab Plugin.
Local Open Scope N_scope.

Definition MEDIA_CAP : string := "org.acrylius.media/1".
(* src: crates/acrylius-core/src/plugins/media.rs 16 18 CONTROL_CONFIRM_MS *)
Definition CONTROL_CONFIRM_MS : u64 := 1500.
(* src: crates/acrylius-core/src/plugins/media.rs 27 29 WATCH_INTERVAL_MS *)
Definition WATCH_INTERVAL_MS : u64 := 700.
(* src: crates/acrylius-core/src/plugins/media.rs 31 32 WATCH_INTERVAL_SLOW_MS *)
Definition WATCH_INTERVAL_SLOW_MS : u64 := 2000.
(* src: crates/acrylius-core/src/plugins/media.rs 34 39 IDLE_INTERVAL_MS *)
Definition IDLE_INTERVAL_MS : u64 := 5000.
(* src: crates/acrylius-core/src/plugins/media.rs 20 25 CONTROL_REPLY_BUDGET_MS *)
Definition CONTROL_REPLY_BUDGET_MS : u64 := CONTROL_CONFIRM_MS + REPLY_SLACK_MS.

Definition PLAYING : string := "playing".
Definition PAUSED : string := "paused".
Definition STOPPED : string := "stopped".

(* src: crates/acrylius-core/src/plugins/media.rs 50 86 MediaPlayer *)
Record MediaPlayer := mkMediaPlayer {
  mp_id : string;
  mp_name : string;
  mp_status : string;
  mp_title : string;
  mp_artist : string;
  mp_album : string;
  mp_length_ms : u64;
  mp_position_ms : u64;
  mp_volume_percent : option u8;
  mp_can_go_next : bool;
  mp_can_go_previous : bool;
  mp_can_seek : bool;
  mp_can_control : bool;
}.
#[global] Instance MediaPlayer_eq_dec : EqDecision MediaPlayer.
Proof. solve_decision. Defined.
#[global] Instance MediaPlayer_eta : Eta MediaPlayer := λ p,
  mkMediaPlayer (mp_id p) (mp_name p) (mp_status p) (mp_title p) (mp_artist p) (mp_album p)
    (mp_length_ms p) (mp_position_ms p) (mp_volume_percent p) (mp_can_go_next p)
    (mp_can_go_previous p) (mp_can_seek p) (mp_can_control p).

(* src: crates/acrylius-core/src/plugins/media.rs 88 101 MediaState *)
Record MediaState := mkMediaState {
  ms_players : list MediaPlayer;
  ms_active : string;
  ms_system_volume : option u8;
}.
#[global] Instance MediaState_eq_dec : EqDecision MediaState.
Proof. solve_decision. Defined.

(* src: crates/acrylius-core/src/plugins/media.rs 103 113 MediaCommand *)
Record MediaCommand := mkMediaCommand { mc_player : string; mc_value : i64 }.
Definition MediaCommand_default : MediaCommand := mkMediaCommand "" 0.

(* src: crates/acrylius-core/src/plugins/media.rs 115 120 MANIFEST *)
Definition MEDIA_MANIFEST : PluginManifest :=
  mkPluginManifest "org.acrylius.media" [MEDIA_CAP] [MEDIA_CAP] [KMedia].

(* src: crates/acrylius-core/src/plugins/media.rs 122 127 Pending *)
Record MediaPending := mkMediaPending { mq_peer : DeviceId; mq_request : u32; mq_reply : string }.

(* src: crates/acrylius-core/src/plugins/media.rs 129 134 MediaPlugin *)
Record MediaPlugin := mkMediaPlugin {
  media_pending : gmap EffectToken MediaPending;
  media_connected : list DeviceId;
  media_last : option MediaState;
}.
#[global] Instance MediaPlugin_eta : Eta MediaPlugin := λ p,
  mkMediaPlugin (media_pending p) (media_connected p) (media_last p).
Definition MediaPlugin_default : MediaPlugin := mkMediaPlugin ∅ [] None.

(* src: crates/acrylius-core/src/plugins/media.rs 136 147 simple_action *)
Definition simple_action (ty : string) : option MediaAction :=
  if ty =s "play" then Some Play
  else if ty =s "pause" then Some Pause
  else if ty =s "playpause" then Some PlayPause
  else if ty =s "next" then Some Next
  else if ty =s "previous" then Some Previous
  else if ty =s "stop" then Some Stop
  else None.

Definition find_player (target : string) (s : MediaState) : option MediaPlayer :=
  List.find (λ p, mp_id p =s target) (ms_players s).

Definition track (p : MediaPlayer) : string * string * string * u64 :=
  (mp_title p, mp_artist p, mp_album p, mp_length_ms p).

(* src: crates/acrylius-core/src/plugins/media.rs 149 190 landed *)
Definition landed (action : MediaAction) (player : string) (before now : MediaState) : option bool :=
  let target := if str_len player =? 0 then ms_active before else player in
  let was := find_player target before in
  match find_player target now with
  | None => Some (match action with Stop => true | _ => false end)
  | Some now =>
      match action with
      | Play => Some (mp_status now =s PLAYING)
      | Pause => Some (mp_status now =s PAUSED)
      | Stop => Some (mp_status now =s STOPPED)
      | PlayPause => (λ w, negb (mp_status w =s mp_status now)) <$> was
      | Next | Previous => (λ w, bool_decide (track w ≠ track now)) <$> was
      | Seek _ | SetPosition _ | SetVolume _ => None
      end
  end.

(** A player as it compares when only its position moved. *)
Definition forget_position (p : MediaPlayer) : MediaPlayer := p <| mp_position_ms := 0 |>.

(* src: crates/acrylius-core/src/plugins/media.rs 192 213 worth_announcing *)
Definition worth_announcing (before : option MediaState) (now : MediaState) : bool :=
  match before with
  | None => true
  | Some before =>
      if negb (ms_active before =s ms_active now)
         || negb (len (ms_players before) =? len (ms_players now))
         || negb (bool_decide (ms_system_volume before = ms_system_volume now))
      then true
      else existsb (λ '(a, b), bool_decide (forget_position a ≠ forget_position b))
             (zip (ms_players before) (ms_players now))
  end.

(* src: crates/acrylius-core/src/plugins/media.rs 237 265 MediaPlugin::action_for *)
Definition action_for (ty : string) (cmd : MediaCommand) : result MediaAction PluginError :=
  match simple_action ty with
  | Some a => Ok a
  | None =>
      if ty =s "seek" then Ok (Seek (mc_value cmd))
      else if ty =s "position" then
        if (mc_value cmd <? 0)%Z then Err PNotAllowed else Ok (SetPosition (Z.to_N (mc_value cmd)))
      else if ty =s "volume" then
        if negb ((0 <=? mc_value cmd)%Z && (mc_value cmd <=? 100)%Z) then Err PNotAllowed
        else Ok (SetVolume (Z.to_N (mc_value cmd)))
      else Err (PUnknownType ty)
  end.

Section media.
  Context `{Cbor ErrorBody} `{!Cbor MediaState} `{!Cbor MediaCommand}.

(* src: crates/acrylius-core/src/plugins/media.rs 220 236 MediaPlugin::broadcast_except *)
Definition media_broadcast_except (state : MediaState) (already_told : option DeviceId)
    (p : MediaPlugin) (cx : Cx) : Cx :=
  match to_vec state with
  | None => cx
  | Some body => send_state_except MEDIA_CAP body already_told (media_connected p) cx
  end.

(* src: crates/acrylius-core/src/plugins/media.rs 216 218 MediaPlugin::broadcast *)
Definition media_broadcast (state : MediaState) (p : MediaPlugin) (cx : Cx) : Cx :=
  media_broadcast_except state None p cx.

(* src: crates/acrylius-core/src/plugins/media.rs 273 283 MediaPlugin::on_peer_connected *)
Definition media_on_peer_connected (peer : DeviceId) (p : MediaPlugin) (cx : Cx) : MediaPlugin * Cx :=
  let p := p <| media_connected ::= push_once peer |> in
  match media_last p with
  | Some state =>
      match to_vec state with
      | Some body => (p, cx_send peer MEDIA_CAP "state" body cx)
      | None => (p, cx)
      end
  | None => (p, cx)
  end.

(* src: crates/acrylius-core/src/plugins/media.rs 285 287 MediaPlugin::on_peer_disconnected *)
Definition media_on_peer_disconnected (peer : DeviceId) (p : MediaPlugin) (cx : Cx)
    : MediaPlugin * Cx :=
  (p <| media_connected ::= retain_ne peer |>, cx).

Definition media_ask (e : Effect) (q : MediaPending) (p : MediaPlugin) (cx : Cx) : MediaPlugin * Cx :=
  let '(token, cx) := cx_effect e cx in
  (p <| media_pending ::= <[token := q]> |>, cx).

(** A verb's arguments: an empty body is a bare verb. *)
(* src: crates/acrylius-core/src/plugins/media.rs 320 325 MediaPlugin::on_message *)
Definition media_command (body : bytes) : result MediaCommand PluginError :=
  if bool_decide (body = []) then Ok MediaCommand_default
  else ok_or (cbor_decode body) PBadBody.

(* src: crates/acrylius-core/src/plugins/media.rs 289 345 MediaPlugin::on_message *)
Definition media_on_message (peer : DeviceId) (env : Envelope) (p : MediaPlugin) (cx : Cx)
    : Ran MediaPlugin :=
  let ty := env_ty env in
  let pending := mkMediaPending peer (env_id env) "state" in
  if ty =s "query" then (Ok tt, media_ask MediaQuery pending p cx)
  else if ty =s "state" then
    (Ok tt, (p, cx_ui (UiPlugin peer MEDIA_CAP ty (env_body env)) cx))
  else
    match (try! cmd := media_command (env_body env) in
           try! action := action_for ty cmd in
           Ok (cmd, action)) with
    | Err e => (Err e, (p, cx))
    | Ok (cmd, action) => (Ok tt, media_ask (MediaControl (mc_player cmd) action) pending p cx)
    end.

(* src: crates/acrylius-core/src/plugins/media.rs 346 383 MediaPlugin::on_local *)
Definition media_on_local (peer : DeviceId) (ty : string) (body : bytes) (p : MediaPlugin) (cx : Cx)
    : Ran MediaPlugin :=
  if ty =s "notify" then (Ok tt, media_ask MediaQuery (mkMediaPending peer 0 "broadcast") p cx)
  else if ty =s "query" then (Ok tt, (p, cx_send peer MEDIA_CAP "query" [] cx))
  else
    match (try! cmd := media_command body in action_for ty cmd) with
    | Err e => (Err e, (p, cx))
    | Ok _ => (Ok tt, (p, cx_send peer MEDIA_CAP ty body cx))
    end.

(* src: crates/acrylius-core/src/plugins/media.rs 385 433 MediaPlugin::on_effect_result *)
Definition media_on_effect_result (token : EffectToken) (r : EffectResult) (p : MediaPlugin) (cx : Cx)
    : MediaPlugin * Cx :=
  match media_pending p !! token with
  | None => (p, cx)
  | Some q =>
      let p := p <| media_pending ::= delete token |> in
      match r with
      | EffectOk data =>
          match cbor_decode data with
          | None =>
              if negb (mq_reply q =s "broadcast") then
                (p, cx_send_error (mq_peer q) MEDIA_CAP (mq_request q) "internal"
                      "unreadable state" cx)
              else (p, cx)
          | Some state =>
              let changed := worth_announcing (media_last p) state in
              let p := p <| media_last := Some state |> in
              if mq_reply q =s "broadcast" then
                (p, if changed then media_broadcast state p cx else cx)
              else
                let cx := if changed then media_broadcast_except state (Some (mq_peer q)) p cx
                          else cx in
                match to_vec state with
                | Some body => (p, cx_send_reply (mq_peer q) MEDIA_CAP "state" body (mq_request q) cx)
                | None => (p, cx_send_error (mq_peer q) MEDIA_CAP (mq_request q) "internal"
                                "encode failed" cx)
                end
          end
      | EffectFail detail =>
          if negb (mq_reply q =s "broadcast") then
            (p, cx_send_error (mq_peer q) MEDIA_CAP (mq_request q) "effect_failed" detail cx)
          else (p, cx)
      | EffectUnsupported =>
          if negb (mq_reply q =s "broadcast") then
            (p, cx_send_error (mq_peer q) MEDIA_CAP (mq_request q) "not_allowed"
                  "this device has nothing to control" cx)
          else (p, cx)
      end
  end.

#[global] Instance MediaPlugin_Plugin : Plugin MediaPlugin := {
  manifest _ := MEDIA_MANIFEST;
  on_message := media_on_message;
  on_peer_connected := media_on_peer_connected;
  on_peer_disconnected := media_on_peer_disconnected;
  on_local := media_on_local;
  on_effect_result := media_on_effect_result;
  on_bulk_listening := default_on_bulk_listening;
  on_bulk_finished := default_on_bulk_finished;
  on_tick := default_on_tick;
}.

Lemma grows_media_broadcast_except c s a p cx :
  cx_grows c cx -> cx_grows c (media_broadcast_except s a p cx).
Proof. unfold media_broadcast_except. case_match; eauto with acr. Qed.
Lemma grows_media_broadcast c s p cx : cx_grows c cx -> cx_grows c (media_broadcast s p cx).
Proof. apply grows_media_broadcast_except. Qed.
#[local] Hint Resolve grows_media_broadcast_except grows_media_broadcast : acr.

#[global] Instance MediaPlugin_Laws : PluginLaws MediaPlugin.
Proof.
  unfold MediaPlugin_Plugin, media_on_message, media_on_peer_connected,
    media_on_peer_disconnected, media_on_local, media_on_effect_result, media_ask.
  solve_plugin_laws.
Qed.

(** ** Theorems *)

(** The verbs of the wire are exactly the nine of the vocabulary;
    of them only a negative position and a volume outside 0..=100 are refused,
    and what is let through carries the value it was given. *)
Theorem action_for_spec ty cmd a :
  action_for ty cmd = Ok a <->
  simple_action ty = Some a \/
  (ty = "seek" /\ a = Seek (mc_value cmd))%string \/
  (ty = "position" /\ (0 <= mc_value cmd)%Z /\ a = SetPosition (Z.to_N (mc_value cmd)))%string \/
  (ty = "volume" /\ (0 <= mc_value cmd <= 100)%Z /\ a = SetVolume (Z.to_N (mc_value cmd)))%string.
Proof.
  unfold action_for. destruct (simple_action ty) as [b|] eqn:Es.
  { split; [intros [= <-]; by left|]. intros [[= <-]|Hd]; [done|].
    destruct Hd as [[-> _]|[[-> _]|[-> _]]]; discriminate Es. }
  destruct (String.eqb_spec ty "seek") as [->|H1]; [naive_solver|].
  destruct (String.eqb_spec ty "position") as [->|H2].
  { destruct (Z.ltb_spec (mc_value cmd) 0); split; intros Hd; simplify_eq; destruct_or?;
      destruct_and?; simplify_eq; try lia; auto 6. }
  destruct (String.eqb_spec ty "volume") as [->|H3]; [|naive_solver].
  destruct (Z.leb_spec 0 (mc_value cmd)), (Z.leb_spec (mc_value cmd) 100); cbn;
    split; intros Hd; simplify_eq; destruct_or?; destruct_and?; simplify_eq; try lia; auto 7.
Qed.

(** Two readings that differ only in positions. *)
Definition same_but_position (a b : MediaState) : Prop :=
  ms_active a = ms_active b /\ ms_system_volume a = ms_system_volume b /\
  map forget_position (ms_players a) = map forget_position (ms_players b).

Lemma zip_any_differs (a b : list MediaPlayer) :
  length a = length b ->
  existsb (λ '(a, b), bool_decide (forget_position a ≠ forget_position b)) (zip a b) = false <->
  map forget_position a = map forget_position b.
Proof.
  revert b; induction a as [|x a IH]; intros [|y b] Hl; try done. cbn in *.
  rewrite orb_false_iff, IH, bool_decide_eq_false by lia. split.
  - intros [Hn ->]. f_equal. by destruct (decide (forget_position x = forget_position y)).
  - intros [Hx ->]%cons_eq_inj. by split; [intros Hn; apply Hn|].
Qed.

(** A reading is announced exactly when it is the first or differs from the
    last one in anything but the positions of the players. *)
Theorem worth_announcing_spec before now :
  worth_announcing before now = false <->
  ∃ b, before = Some b /\ same_but_position b now.
Proof.
  unfold worth_announcing, same_but_position. destruct before as [b|]; [|naive_solver].
  destruct (String.eqb_spec (ms_active b) (ms_active now)); cbn; [|naive_solver].
  destruct (N.eqb_spec (len (ms_players b)) (len (ms_players now))) as [El|El]; cbn.
  2: { split; [done|]. intros (b' & [= <-] & _ & _ & E). apply (f_equal length) in E.
       rewrite !length_map in E. unfold len in El. lia. }
  case_bool_decide; cbn; [|naive_solver].
  rewrite zip_any_differs by (unfold len in El; lia). naive_solver.
Qed.

(** A pause that the player shows landed, a player that is gone only stopped. *)
Lemma landed_gone action player before now :
  find_player (if str_len player =? 0 then ms_active before else player) now = None ->
  landed action player before now = Some (bool_decide (action = Stop)).
Proof. intros E. unfold landed. cbv zeta. rewrite E. by destruct action. Qed.
End media.
