(* ===== verification/Clipboard.v ===== *)
(** * [acrylius-core/src/plugins/clipboard.rs]: sharing the clipboard

    The bodies' CBOR codecs are generated by a derive and stay parameters. *)

From S2P Require Import Prelude Externals Ids Envelope Link Vocab Plugin.
Local Open Scope N_scope.

Definition CLIPBOARD_CAP : string := "org.acrylius.clipboard/1".
Definition TEXT_PLAIN : string := "text/plain;charset=utf-8".
(* src: crates/acrylius-core/src/plugins/clipboard.rs 21 22 MAX_INLINE *)
Definition MAX_INLINE : usize := 128 * 1024.

(* src: crates/acrylius-core/src/plugins/clipboard.rs 24 33 ClipboardSet *)
Record ClipboardSet := mkClipboardSet { cs_mime : string; cs_data : bytes; cs_hash : bytes }.

(* src: crates/acrylius-core/src/plugins/clipboard.rs 42 47 MANIFEST *)
Definition CLIPBOARD_MANIFEST : PluginManifest :=
  mkPluginManifest "org.acrylius.clipboard" [CLIPBOARD_CAP] [CLIPBOARD_CAP] [KClipboard].

(* src: crates/acrylius-core/src/plugins/clipboard.rs 49 64 Directions *)
Record Directions := mkDirections { dir_send : bool; dir_receive : bool }.
Definition Directions_default : Directions := mkDirections true true.

(* src: crates/acrylius-core/src/plugins/clipboard.rs 66 75 ClipboardPlugin *)
Record ClipboardPlugin := mkClipboardPlugin {
  directions : Directions;
  clip_connected : list DeviceId;
  last_local : option bytes;
  last_remote : option bytes;
  clip_pending : gmap EffectToken (option (DeviceId * u32));
}.
#[global] Instance ClipboardPlugin_eta : Eta ClipboardPlugin := λ p,
  mkClipboardPlugin (directions p) (clip_connected p) (last_local p) (last_remote p) (clip_pending p).

(* src: crates/acrylius-core/src/plugins/clipboard.rs 107 112 ClipboardPlugin::new *)
Definition ClipboardPlugin_new (d : Directions) : ClipboardPlugin := mkClipboardPlugin d [] None None ∅.

Section clipboard.
  Context `{Sha256} `{Cbor ErrorBody} `{!Cbor ClipboardSet}.

(* src: crates/acrylius-core/src/plugins/clipboard.rs 35 40 hash *)
Definition hash (data : bytes) : bytes := sha256 data.

(* src: crates/acrylius-core/src/plugins/clipboard.rs 114 123 ClipboardPlugin::take_echo *)
Definition take_echo (h : bytes) (p : ClipboardPlugin) : bool * ClipboardPlugin :=
  if bool_decide (last_remote p = Some h) then (true, p <| last_remote := None |>)
  else (bool_decide (last_local p = Some h), p).

(* src: crates/acrylius-core/src/plugins/clipboard.rs 78 104 ClipboardPlugin::offer *)
Definition offer (body : bytes) (deliberate : bool) (p : ClipboardPlugin) (cx : Cx)
    : Ran ClipboardPlugin :=
  if negb deliberate && negb (dir_send (directions p)) then (Ok tt, (p, cx))
  else if MAX_INLINE <? len body then (Err PTooLarge, (p, cx))
  else
    let h := hash body in
    let '(echo, p) := take_echo h p in
    if echo then (Ok tt, (p, cx))
    else
      let p := p <| last_local := Some h |> in
      match to_vec (mkClipboardSet TEXT_PLAIN body h) with
      | None => (Err (PInternal "encode failed"), (p, cx))
      | Some encoded =>
          (Ok tt, (p, fold_left (λ cx q, cx_send q CLIPBOARD_CAP "set" encoded cx)
                        (clip_connected p) cx))
      end.

(* src: crates/acrylius-core/src/plugins/clipboard.rs 130 134 ClipboardPlugin::on_peer_connected *)
Definition clipboard_on_peer_connected (peer : DeviceId) (p : ClipboardPlugin) (cx : Cx)
    : ClipboardPlugin * Cx := (p <| clip_connected ::= push_once peer |>, cx).

(* src: crates/acrylius-core/src/plugins/clipboard.rs 136 138 ClipboardPlugin::on_peer_disconnected *)
Definition clipboard_on_peer_disconnected (peer : DeviceId) (p : ClipboardPlugin) (cx : Cx)
    : ClipboardPlugin * Cx := (p <| clip_connected ::= retain_ne peer |>, cx).

(* src: crates/acrylius-core/src/plugins/clipboard.rs 140 204 ClipboardPlugin::on_message *)
Definition clipboard_on_message (peer : DeviceId) (env : Envelope) (p : ClipboardPlugin) (cx : Cx)
    : Ran ClipboardPlugin :=
  let ty := env_ty env in
  let show := cx_ui (UiPlugin peer CLIPBOARD_CAP "set" (env_body env)) in
  if (ty =s "set") && bool_decide (is_Some (env_re env)) then
    match cbor_decode (env_body env) with
    | None => (Err PBadBody, (p, cx))
    | Some msg =>
        if MAX_INLINE <? len (cs_data msg) then (Err PTooLarge, (p, cx))
        else if negb (bool_decide (cs_hash msg = hash (cs_data msg))) then (Err PBadBody, (p, cx))
        else (Ok tt, (p, show cx))
    end
  else if ty =s "set" then
    match cbor_decode (env_body env) with
    | None => (Err PBadBody, (p, cx))
    | Some msg =>
        if negb (dir_receive (directions p)) then (Err PNotAllowed, (p, cx))
        else if MAX_INLINE <? len (cs_data msg) then (Err PTooLarge, (p, cx))
        else if negb (cs_mime msg =s TEXT_PLAIN) then (Err PNotAllowed, (p, cx))
        else
          let h := hash (cs_data msg) in
          if negb (bool_decide (cs_hash msg = h)) then (Err PBadBody, (p, cx))
          else
            let p := p <| last_remote := Some h |> in
            let '(_, cx) := cx_effect (ClipboardWrite (cs_mime msg) (cs_data msg)) (show cx) in
            (Ok tt, (p, cx))
    end
  else if ty =s "get" then
    let '(token, cx) := cx_effect ClipboardRead cx in
    (Ok tt, (p <| clip_pending ::= <[token := Some (peer, env_id env)]> |>, cx))
  else (Err (PUnknownType ty), (p, cx)).

(* src: crates/acrylius-core/src/plugins/clipboard.rs 206 223 ClipboardPlugin::on_local *)
Definition clipboard_on_local (peer : DeviceId) (ty : string) (body : bytes) (p : ClipboardPlugin)
    (cx : Cx) : Ran ClipboardPlugin :=
  if ty =s "changed" then offer body false p cx
  else if ty =s "push" then offer body true p cx
  else if ty =s "get" then (Ok tt, (p, cx_send peer CLIPBOARD_CAP "get" [] cx))
  else (Err (PUnknownType ty), (p, cx)).

(* src: crates/acrylius-core/src/plugins/clipboard.rs 225 250 ClipboardPlugin::on_effect_result *)
Definition clipboard_on_effect_result (token : EffectToken) (r : EffectResult) (p : ClipboardPlugin)
    (cx : Cx) : ClipboardPlugin * Cx :=
  match clip_pending p !! token with
  | None => (p, cx)
  | Some who =>
      let p := p <| clip_pending ::= delete token |> in
      match who with
      | None => (p, cx)
      | Some (peer, request) =>
          match r with
          | EffectOk data =>
              let msg := mkClipboardSet TEXT_PLAIN data (hash data) in
              let p := p <| last_local := Some (cs_hash msg) |> in
              match to_vec msg with
              | Some body => (p, cx_send_reply peer CLIPBOARD_CAP "set" body request cx)
              | None => (p, cx_send_error peer CLIPBOARD_CAP request "internal" "encode failed" cx)
              end
          | EffectFail detail =>
              (p, cx_send_error peer CLIPBOARD_CAP request "effect_failed" detail cx)
          | EffectUnsupported =>
              (p, cx_send_error peer CLIPBOARD_CAP request "not_allowed" "no clipboard here" cx)
          end
      end
  end.

#[global] Instance ClipboardPlugin_Plugin : Plugin ClipboardPlugin := {
  manifest _ := CLIPBOARD_MANIFEST;
  on_message := clipboard_on_message;
  on_peer_connected := clipboard_on_peer_connected;
  on_peer_disconnected := clipboard_on_peer_disconnected;
  on_local := clipboard_on_local;
  on_effect_result := clipboard_on_effect_result;
  on_bulk_listening := default_on_bulk_listening;
  on_bulk_finished := default_on_bulk_finished;
  on_tick := default_on_tick;
}.

Definition send_all (encoded : bytes) (l : list DeviceId) (cx : Cx) : Cx :=
  fold_left (λ cx q, cx_send q CLIPBOARD_CAP "set" encoded cx) l cx.

Lemma grows_send_all c b l cx : cx_grows c cx -> cx_grows c (send_all b l cx).
Proof. apply grows_fold. eauto with acr. Qed.

Lemma send_all_fields b l cx :
  cx_sends (send_all b l cx)
    = cx_sends cx ++ map (λ q, mkPendingSend q CLIPBOARD_CAP "set" b None) l /\
  cx_effects (send_all b l cx) = cx_effects cx.
Proof.
  unfold send_all. revert cx. induction l as [|q l IH]; intros cx; cbn; [by rewrite app_nil_r|].
  destruct (IH (cx_send q CLIPBOARD_CAP "set" b cx)) as [-> ->].
  rewrite sends_send. unfold push. by rewrite <- app_assoc.
Qed.

Lemma offer_unfold body deliberate p cx :
  offer body deliberate p cx =
  if negb deliberate && negb (dir_send (directions p)) then (Ok tt, (p, cx))
  else if MAX_INLINE <? len body then (Err PTooLarge, (p, cx))
  else if bool_decide (last_remote p = Some (hash body)) then
    (Ok tt, (p <| last_remote := None |>, cx))
  else if bool_decide (last_local p = Some (hash body)) then (Ok tt, (p, cx))
  else match to_vec (mkClipboardSet TEXT_PLAIN body (hash body)) with
       | None => (Err (PInternal "encode failed"), (p <| last_local := Some (hash body) |>, cx))
       | Some encoded => (Ok tt, (p <| last_local := Some (hash body) |>,
                                  send_all encoded (clip_connected p) cx))
       end.
Proof.
  unfold offer, take_echo. repeat (case_match; simplify_eq/=; try done).
Qed.

Lemma grows_offer c b d p cx : cx_grows c cx -> cx_grows c (offer b d p cx).2.2.
Proof. rewrite offer_unfold. intros ?. repeat case_match; try done. by apply grows_send_all. Qed.
#[local] Hint Resolve grows_offer : acr.
#[local] Arguments offer : simpl never.

#[global] Instance ClipboardPlugin_Laws : PluginLaws ClipboardPlugin.
Proof.
  unfold ClipboardPlugin_Plugin, clipboard_on_message, clipboard_on_peer_connected,
    clipboard_on_peer_disconnected, clipboard_on_local, clipboard_on_effect_result.
  solve_plugin_laws.
Qed.

(** ** Theorems *)

(** What an unsolicited message must be for its value to be written here. *)
Definition acceptable (d : Directions) (msg : ClipboardSet) : Prop :=
  dir_receive d = true /\ len (cs_data msg) <= MAX_INLINE /\ cs_mime msg = TEXT_PLAIN /\
  cs_hash msg = hash (cs_data msg).

(** An effect a clipboard plugin asks for in the course of the calls [h]: to read
    the clipboard, or to write exactly what some peer's unsolicited "set" among
    those calls carries. *)
Definition clip_effect_ok (d : Directions) (h : list Call) (e : Effect) : Prop :=
  e = ClipboardRead \/
  ∃ peer env msg, CMessage peer env ∈ h /\ env_ty env = "set" /\ env_re env = None /\
    cbor_decode (env_body env) = Some msg /\ acceptable d msg /\
    e = ClipboardWrite (cs_mime msg) (cs_data msg).

Definition clip_inv (d : Directions) (h : list Call) (p : ClipboardPlugin) (cx : Cx) : Prop :=
  directions p = d /\ Forall (λ te, clip_effect_ok d h te.2) (cx_effects cx).

Lemma clip_inv_mono d h k p cx : clip_inv d h p cx -> clip_inv d (h ++ k) p cx.
Proof.
  intros [Hd He]. split; [done|]. eapply Forall_impl; [done|]. intros te. unfold clip_effect_ok.
  set_unfold. naive_solver.
Qed.

Lemma clip_offer_inv d h b del p cx :
  clip_inv d h p cx -> clip_inv d h (offer b del p cx).2.1 (offer b del p cx).2.2.
Proof.
  rewrite offer_unfold. intros HI. repeat case_match; try done.
  destruct HI as [HI He]. split; [done|]. cbn.
  by destruct (send_all_fields l (clip_connected p) cx) as [_ ->].
Qed.

Lemma clip_message_inv d h peer env p cx :
  CMessage peer env ∈ h -> clip_inv d h p cx ->
  clip_inv d h (clipboard_on_message peer env p cx).2.1 (clipboard_on_message peer env p cx).2.2.
Proof.
  intros Hin [Hd He]. unfold clipboard_on_message, clip_inv.
  repeat (case_match; cbn); try done;
    match goal with H : cx_effect _ _ = _ |- _ => apply effects_effect in H as (_ & _ & -> & _) end;
    (split; [done|]); apply Forall_push; (split; [done|]); cbn; [right|by left].
  exists peer, env. eexists. unfold acceptable. rewrite <- Hd.
  repeat match goal with
  | H : negb _ = false |- _ => apply negb_false_iff in H
  | H : (_ <? _) = false |- _ => apply N.ltb_ge in H
  | H : bool_decide _ = true |- _ => apply bool_decide_eq_true in H
  | H : (_ =s _) = true |- _ => rewrite ?H in *; apply String.eqb_eq in H
  | H : true && _ = false |- _ => cbn in H; apply bool_decide_eq_false, eq_None_not_Some in H
  end. done.
Qed.

Lemma clip_call_inv d h c p cx :
  clip_inv d h p cx -> clip_inv d (h ++ [c]) (call c p cx).1 (call c p cx).2.
Proof.
  intros HI. apply (clip_inv_mono _ _ [c]) in HI.
  destruct c; cbn; try done; try (by apply clip_message_inv; [set_solver|]).
  - unfold clipboard_on_local. repeat case_match; try done; by apply clip_offer_inv.
  - unfold clipboard_on_effect_result. repeat case_match; try done; destruct HI; split; done.
Qed.

(** C19 (safety): whatever calls a fresh clipboard plugin with the switches [d] gets, in a context with no effect asked for yet, each effect it asks for is to read the clipboard, or to write to it
    exactly the type and the bytes of a message some peer sent among those calls:
    a "set" that answers no request, whose body decodes to plain text within the
    size limit, with the hash that is the hash of its bytes; and with receiving
    switched off it never writes at all. *)
Theorem clipboard_writes_acceptable d cs cx :
  cx_effects cx = [] ->
  Forall (λ te, clip_effect_ok d cs te.2) (cx_effects (play cs (ClipboardPlugin_new d) cx).2).
Proof.
  intros Hcx. apply (play_history (clip_inv d) cs (ClipboardPlugin_new d) cx (clip_call_inv d)).
  split; [done|]. by rewrite Hcx.
Qed.

(** Once a peer's value is applied, the watcher's report of that value
    is told to nobody, and the guard is spent on it: nothing of the state but
    the one-shot slot changes. *)
Theorem clipboard_no_echo peer env msg p cx body :
  env_ty env = "set" -> env_re env = None -> cbor_decode (env_body env) = Some msg ->
  (clipboard_on_message peer env p cx).1 = Ok tt ->
  body = cs_data msg -> dir_send (directions p) = true ->
  let p1 := (clipboard_on_message peer env p cx).2.1 in
  ∀ cx', clipboard_on_local peer "changed" body p1 cx' = (Ok tt, (p <| last_remote := None |>, cx')).
Proof.
  intros Ht Hr Hd Hok -> Hs p1 cx'. unfold p1; clear p1. revert Hok.
  unfold clipboard_on_message. rewrite Ht, Hr, Hd. cbn.
  destruct (dir_receive _) eqn:E1; cbn; [|done].
  destruct (N.ltb_spec MAX_INLINE (len (cs_data msg))); cbn; [done|].
  destruct (cs_mime msg =s TEXT_PLAIN); cbn; [|done].
  case_bool_decide; cbn; [|done]. intros _.
  destruct (cx_effect _ _) as [tk cx1]. cbn [fst snd].
  unfold clipboard_on_local. change ("changed" =s "changed") with true. cbv iota.
  rewrite offer_unfold. cbn.
  rewrite Hs. cbn. destruct (N.ltb_spec MAX_INLINE (len (cs_data msg))); [lia|].
  by rewrite bool_decide_eq_true_2.
Qed.
End clipboard.
