(* ===== verification/Share.v ===== *)
(** * [acrylius-core/src/plugins/share.rs]: sending a file

    Offers, endpoints and results travel on the session; the bytes go over a
    bulk connection.  A transfer has two numbers, this device's and the peer's;
    what reaches a host carries the first and what reaches a peer the second.
    The bodies' CBOR codecs are generated by a derive and stay parameters. *)

From S2P Require Import Prelude Externals Ids Envelope Link Vocab Plugin.
Local Open Scope N_scope.

Definition SHARE_CAP : string := "org.acrylius.share/1".
(* src: crates/acrylius-core/src/plugins/share.rs 17 18 MAX_BYTES *)
Definition MAX_BYTES : u64 := 8 * 1024 * 1024 * 1024.

(* src: crates/acrylius-core/src/plugins/share.rs 20 33 Offer *)
Record Offer := mkOffer { of_transfer : u64; of_name : string; of_size : u64; of_mime : string }.
#[global] Instance Offer_eta : Eta Offer := λ o,
  mkOffer (of_transfer o) (of_name o) (of_size o) (of_mime o).
(* src: crates/acrylius-core/src/plugins/share.rs 35 43 Accept *)
Record Accept := mkAccept { ac_transfer : u64; ac_endpoint : string }.
(* src: crates/acrylius-core/src/plugins/share.rs 45 54 Finished *)
Record Finished := mkFinished { fin_transfer : u64; fin_ok : bool; fin_detail : string }.
#[global] Instance Finished_eta : Eta Finished := λ f,
  mkFinished (fin_transfer f) (fin_ok f) (fin_detail f).

(* src: crates/acrylius-core/src/plugins/share.rs 56 62 MANIFEST *)
Definition SHARE_MANIFEST : PluginManifest :=
  mkPluginManifest "org.acrylius.share" [SHARE_CAP] [SHARE_CAP] [KShare].

(* src: crates/acrylius-core/src/plugins/share.rs 64 74 Incoming *)
Record Incoming := mkIncoming {
  in_peer : DeviceId;
  in_offer : Offer;
  in_request : u32;
  offered_as : u64;
}.
(* src: crates/acrylius-core/src/plugins/share.rs 76 80 Outgoing *)
Record Outgoing := mkOutgoing { out_peer : DeviceId; out_offer : Offer }.

(* src: crates/acrylius-core/src/plugins/share.rs 82 88 SharePlugin *)
Record SharePlugin := mkSharePlugin {
  offered : gmap TransferId Incoming;
  sending : gmap TransferId Outgoing;
}.
#[global] Instance SharePlugin_eta : Eta SharePlugin := λ p, mkSharePlugin (offered p) (sending p).
Definition SharePlugin_default : SharePlugin := mkSharePlugin ∅ ∅.

(* src: crates/acrylius-core/src/plugins/share.rs 92 94 SharePlugin::pending *)
Definition share_pending (p : SharePlugin) : list (TransferId * DeviceId * Offer) :=
  map (λ '(id, i), (id, in_peer i, in_offer i)) (bt_iter (offered p)).

(* src: crates/acrylius-core/src/plugins/share.rs 96 101 SharePlugin::is_sending_to *)
Definition is_sending_to (peer : DeviceId) (transfer : TransferId) (p : SharePlugin) : bool :=
  match sending p !! transfer with
  | Some o => bool_decide (out_peer o = peer)
  | None => false
  end.

(* src: crates/acrylius-core/src/plugins/share.rs 103 110 SharePlugin::incoming_from *)
Definition incoming_from (peer : DeviceId) (as_ : u64) (p : SharePlugin) : option TransferId :=
  fst <$> List.find (λ '(_, i), bool_decide (in_peer i = peer) && (offered_as i =? as_))
            (bt_iter (offered p)).

(* src: crates/acrylius-core/src/plugins/share.rs 112 118 SharePlugin::as_the_peer_numbers_it *)
Definition as_the_peer_numbers_it (transfer : TransferId) (p : SharePlugin) : u64 :=
  match offered p !! transfer with Some i => offered_as i | None => transfer end.

Definition drop_transfer (transfer : TransferId) (p : SharePlugin) : SharePlugin :=
  p <| offered ::= delete transfer |> <| sending ::= delete transfer |>.

Section share.
  Context `{!Cbor Offer} `{!Cbor Accept} `{!Cbor Finished}.

(* src: crates/acrylius-core/src/plugins/share.rs 120 129 SharePlugin::announce *)
Definition announce {B} `{Cbor B} (peer : DeviceId) (ty : string) (body : B) (cx : Cx) : Cx :=
  match to_vec body with
  | Some encoded => cx_ui (UiPlugin peer SHARE_CAP ty encoded) cx
  | None => cx
  end.

(* src: crates/acrylius-core/src/plugins/share.rs 137 142 SharePlugin::on_peer_disconnected *)
Definition share_on_peer_disconnected (peer : DeviceId) (p : SharePlugin) (cx : Cx)
    : SharePlugin * Cx :=
  (p <| offered ::= filter (λ '(_, i), in_peer i ≠ peer) |>
     <| sending ::= filter (λ '(_, o), out_peer o ≠ peer) |>, cx).

(* src: crates/acrylius-core/src/plugins/share.rs 144 244 SharePlugin::on_message *)
Definition share_on_message (peer : DeviceId) (env : Envelope) (p : SharePlugin) (cx : Cx)
    : Ran SharePlugin :=
  let ty := env_ty env in
  if ty =s "offer" then
    if negb (cx_serves KShare cx) then (Err PNotAllowed, (p, cx))
    else match cbor_decode (T:=Offer) (env_body env) with
    | None => (Err PBadBody, (p, cx))
    | Some offer =>
        if MAX_BYTES <? of_size offer then (Err PTooLarge, (p, cx))
        else if bool_decide (of_name offer = EmptyString) then (Err PBadBody, (p, cx))
        else
          let '(transfer, cx) := cx_new_transfer cx in
          let p := p <| offered ::=
            <[transfer := mkIncoming peer offer (env_id env) (of_transfer offer)]> |> in
          (Ok tt, (p, announce peer "offer" (offer <| of_transfer := transfer |>) cx))
    end
  else if ty =s "accept" then
    match cbor_decode (T:=Accept) (env_body env) with
    | None => (Err PBadBody, (p, cx))
    | Some accept =>
        let transfer := ac_transfer accept in
        if negb (is_sending_to peer transfer p) then (Err PNotAllowed, (p, cx))
        else (Ok tt, (p, cx_bulk_send peer transfer (ac_endpoint accept) cx))
    end
  else if ty =s "reject" then
    match cbor_decode (T:=Finished) (env_body env) with
    | None => (Err PBadBody, (p, cx))
    | Some f =>
        let transfer := fin_transfer f in
        if negb (is_sending_to peer transfer p) then (Err PNotAllowed, (p, cx))
        else (Ok tt, (p <| sending ::= delete transfer |>, announce peer "reject" f cx))
    end
  else if ty =s "finished" then
    match cbor_decode (T:=Finished) (env_body env) with
    | None => (Err PBadBody, (p, cx))
    | Some f =>
        match (if is_sending_to peer (fin_transfer f) p then Some (fin_transfer f)
               else incoming_from peer (fin_transfer f) p) with
        | None => (Err PNotAllowed, (p, cx))
        | Some transfer =>
            (Ok tt, (drop_transfer transfer p,
                     announce peer "finished" (f <| fin_transfer := transfer |>) cx))
        end
    end
  else (Err (PUnknownType ty), (p, cx)).

(* src: crates/acrylius-core/src/plugins/share.rs 246 353 SharePlugin::on_local *)
Definition share_on_local (peer : DeviceId) (ty : string) (body : bytes) (p : SharePlugin) (cx : Cx)
    : Ran SharePlugin :=
  if ty =s "offer" then
    match cbor_decode (T:=Offer) body with
    | None => (Err PBadBody, (p, cx))
    | Some offer =>
        if MAX_BYTES <? of_size offer then (Err PTooLarge, (p, cx))
        else if negb (peer_can_carry_bulk cx) then
          let cx := cx_ui (UiError (Some peer) NotAllowed
            ("the link to " +:+ did_str peer
              +:+ " cannot carry files. Reach it over the network for that.")) cx in
          (Ok tt, (p, announce peer "reject"
            (mkFinished (of_transfer offer) false "this link cannot carry files") cx))
        else
          (Ok tt, (p <| sending ::= <[of_transfer offer := mkOutgoing peer offer]> |>,
                   cx_send peer SHARE_CAP "offer" body cx))
    end
  else if ty =s "accept" then
    match cbor_decode (T:=Finished) body with
    | None => (Err PBadBody, (p, cx))
    | Some f =>
        let transfer := fin_transfer f in
        match offered p !! transfer with
        | None => (Err PNotAllowed, (p, cx))
        | Some incoming =>
            (Ok tt, (p, cx_bulk_listen (in_peer incoming) transfer (offered_as incoming)
                          (of_size (in_offer incoming)) cx))
        end
    end
  else if ty =s "reject" then
    match cbor_decode (T:=Finished) body with
    | None => (Err PBadBody, (p, cx))
    | Some f =>
        let transfer := fin_transfer f in
        match offered p !! transfer with
        | None => (Err PNotAllowed, (p, cx))
        | Some incoming =>
            let p := p <| offered ::= delete transfer |> in
            match to_vec (f <| fin_transfer := offered_as incoming |>) with
            | None => (Err PBadBody, (p, cx))
            | Some body =>
                (Ok tt, (p, cx_send_reply (in_peer incoming) SHARE_CAP "reject" body
                              (in_request incoming) cx))
            end
        end
    end
  else if ty =s "cancel" then
    match cbor_decode (T:=Finished) body with
    | None => (Err PBadBody, (p, cx))
    | Some f =>
        let transfer := fin_transfer f in
        let theirs := as_the_peer_numbers_it transfer p in
        let p := drop_transfer transfer p in
        let cx := cx_bulk_cancel transfer cx in
        match to_vec (f <| fin_transfer := theirs |>) with
        | None => (Err PBadBody, (p, cx))
        | Some body => (Ok tt, (p, cx_send peer SHARE_CAP "finished" body cx))
        end
    end
  else (Err (PUnknownType ty), (p, cx)).

(* src: crates/acrylius-core/src/plugins/share.rs 355 374 SharePlugin::on_bulk_listening *)
Definition share_on_bulk_listening (transfer : TransferId) (endpoint : string) (p : SharePlugin)
    (cx : Cx) : SharePlugin * Cx :=
  match offered p !! transfer with
  | None => (p, cx)
  | Some incoming =>
      let body := to_vec_or_default (mkAccept (offered_as incoming) endpoint) in
      (p, cx_send_reply (in_peer incoming) SHARE_CAP "accept" body (in_request incoming) cx)
  end.

(* src: crates/acrylius-core/src/plugins/share.rs 376 405 SharePlugin::on_bulk_finished *)
Definition share_on_bulk_finished (transfer : TransferId) (ok : bool) (detail : string)
    (p : SharePlugin) (cx : Cx) : SharePlugin * Cx :=
  let peer := match in_peer <$> offered p !! transfer with
              | Some peer => Some peer
              | None => out_peer <$> sending p !! transfer
              end in
  let theirs := as_the_peer_numbers_it transfer p in
  let p := drop_transfer transfer p in
  let f := mkFinished transfer ok detail in
  match peer with
  | None => (p, cx)
  | Some peer =>
      let cx := match to_vec (f <| fin_transfer := theirs |>) with
                | Some body => cx_send peer SHARE_CAP "finished" body cx
                | None => cx
                end in
      (p, announce peer "finished" f cx)
  end.

#[global] Instance SharePlugin_Plugin : Plugin SharePlugin := {
  manifest _ := SHARE_MANIFEST;
  on_message := share_on_message;
  on_peer_connected := default_on_peer;
  on_peer_disconnected := share_on_peer_disconnected;
  on_local := share_on_local;
  on_effect_result := default_on_effect_result;
  on_bulk_listening := share_on_bulk_listening;
  on_bulk_finished := share_on_bulk_finished;
  on_tick := default_on_tick;
}.

Lemma grows_announce {B} `{Cbor B} c peer ty (b : B) cx :
  cx_grows c cx -> cx_grows c (announce peer ty b cx).
Proof. unfold announce. case_match; eauto with acr. Qed.
#[local] Hint Resolve grows_announce : acr.
#[local] Arguments announce : simpl never.

#[global] Instance SharePlugin_Laws : PluginLaws SharePlugin.
Proof.
  unfold SharePlugin_Plugin, share_on_message, share_on_peer_disconnected, share_on_local,
    share_on_bulk_listening, share_on_bulk_finished.
  solve_plugin_laws.
Qed.

(** ** Theorems *)

(** A peer's offer among the calls [h], with the calls [h2] made after it: it
    was within the limits, and [t] is the number this device gave it then. *)
Definition offered_to_us (cx0 : Cx) (h : list Call) (peer : DeviceId) (o : Offer) (t : TransferId)
    (h2 : list Call) : Prop :=
  ∃ h1 env, h = h1 ++ CMessage peer env :: h2 /\ env_ty env = "offer" /\
    cbor_decode (env_body env) = Some o /\ of_size o <= MAX_BYTES /\ of_name o <> EmptyString /\
    t = (cx_new_transfer (play h1 SharePlugin_default cx0).2).1.
(** An offer of ours among the calls [h], with the calls made after it. *)
Definition offered_by_us (h : list Call) (peer : DeviceId) (o : Offer) (h2 : list Call) : Prop :=
  ∃ h1 body, h = h1 ++ CLocal peer "offer" body :: h2 /\ cbor_decode body = Some o /\
    of_size o <= MAX_BYTES.
Definition said_yes (h : list Call) (transfer : TransferId) : Prop :=
  ∃ peer body f, CLocal peer "accept" body ∈ h /\ cbor_decode body = Some f /\
    fin_transfer f = transfer.
Definition peer_accepted (h : list Call) (peer : DeviceId) (t : TransferId) (e : string) : Prop :=
  ∃ env, CMessage peer env ∈ h /\ env_ty env = "accept" /\
    cbor_decode (env_body env) = Some (mkAccept t e).

(** A side channel is opened only for an offer, by the decision of the side that
    has to make it about that very offer, made after it, and only with the
    device on the other side of it. *)
Definition bulk_justified (cx0 : Cx) (h : list Call) (r : BulkRequest) : Prop :=
  match r with
  | BrListen peer t as_ size =>
      ∃ o h2, offered_to_us cx0 h peer o t h2 /\ said_yes h2 t /\ as_ = of_transfer o /\ size = of_size o
  | BrSend peer t e =>
      ∃ o h2, offered_by_us h peer o h2 /\ of_transfer o = t /\ peer_accepted h2 peer t e
  | BrCancel _ => True
  end.

Definition share_inv (cx0 : Cx) (h : list Call) (p : SharePlugin) (cx : Cx) : Prop :=
  map_Forall (λ t i, (∃ h2, offered_to_us cx0 h (in_peer i) (in_offer i) t h2) /\
                     offered_as i = of_transfer (in_offer i)) (offered p) /\
  map_Forall (λ t o, (∃ h2, offered_by_us h (out_peer o) (out_offer o) h2) /\
                     of_transfer (out_offer o) = t) (sending p) /\
  Forall (bulk_justified cx0 h) (cx_bulk cx).

Lemma offered_to_us_mono cx0 h k peer o t h2 :
  offered_to_us cx0 h peer o t h2 -> offered_to_us cx0 (h ++ k) peer o t (h2 ++ k).
Proof. intros (h1 & env & -> & ?). exists h1, env. by rewrite <- app_assoc. Qed.
Lemma offered_by_us_mono h k peer o h2 :
  offered_by_us h peer o h2 -> offered_by_us (h ++ k) peer o (h2 ++ k).
Proof. intros (h1 & body & -> & ?). exists h1, body. by rewrite <- app_assoc. Qed.
#[local] Hint Resolve offered_to_us_mono offered_by_us_mono : core.

Lemma said_yes_mono h k t : said_yes h t -> said_yes (h ++ k) t.
Proof. unfold said_yes. set_unfold. naive_solver. Qed.
Lemma peer_accepted_mono h k peer t e : peer_accepted h peer t e -> peer_accepted (h ++ k) peer t e.
Proof. unfold peer_accepted. set_unfold. naive_solver. Qed.
#[local] Hint Resolve said_yes_mono peer_accepted_mono : core.

Lemma bulk_justified_mono cx0 h k r : bulk_justified cx0 h r -> bulk_justified cx0 (h ++ k) r.
Proof.
  destruct r; cbn; [| |done]; intros (o & h2 & H); exists o, (h2 ++ k); destruct_and!; split_and!; eauto.
Qed.

Lemma share_inv_mono cx0 h k p cx : share_inv cx0 h p cx -> share_inv cx0 (h ++ k) p cx.
Proof.
  intros (Ho & Hs & Hb). split_and!.
  - eapply map_Forall_impl; [done|]. cbn. intros t i [[h2 H] ?]. eauto.
  - eapply map_Forall_impl; [done|]. cbn. intros t i [[h2 H] ?]. eauto.
  - eapply Forall_impl; [done|]. intros r. apply bulk_justified_mono.
Qed.

Lemma share_inv_bulk cx0 h p cx cx' :
  cx_bulk cx' = cx_bulk cx -> share_inv cx0 h p cx -> share_inv cx0 h p cx'.
Proof. unfold share_inv. by intros ->. Qed.

Lemma bulk_announce {B} `{Cbor B} peer ty (b : B) cx :
  cx_bulk (announce peer ty b cx) = cx_bulk cx.
Proof. unfold announce. by case_match. Qed.

Lemma share_inv_drop cx0 h t p cx : share_inv cx0 h p cx -> share_inv cx0 h (drop_transfer t p) cx.
Proof. intros (Ho & Hs & Hb). split_and!; [by apply map_Forall_delete..|done]. Qed.

Lemma is_sending_to_true peer t p :
  is_sending_to peer t p = true <-> ∃ o, sending p !! t = Some o /\ out_peer o = peer.
Proof. unfold is_sending_to. case_match; [rewrite bool_decide_eq_true|]; naive_solver. Qed.

Lemma incoming_from_Some peer n p t :
  incoming_from peer n p = Some t ->
  ∃ i, offered p !! t = Some i /\ in_peer i = peer /\ offered_as i = n.
Proof.
  unfold incoming_from. destruct (List.find _ _) as [[t' i]|] eqn:E; [|done]. cbn. intros [= ->].
  apply find_some in E as [Hin Hb]. apply list_elem_of_In, elem_of_bt_iter in Hin.
  apply andb_true_iff in Hb as [Hp%bool_decide_eq_true Hn%N.eqb_eq]. eauto.
Qed.

Lemma share_message_inv cx0 h peer env p cx :
  cx = (play h SharePlugin_default cx0).2 ->
  share_inv cx0 h p cx ->
  share_inv cx0 (h ++ [CMessage peer env]) (share_on_message peer env p cx).2.1
    (share_on_message peer env p cx).2.2.
Proof.
  intros Hcx HI0. pose proof (share_inv_mono _ _ [CMessage peer env] _ _ HI0) as HI.
  unfold share_on_message.
  destruct (String.eqb_spec (env_ty env) "offer") as [Ht|_].
  { destruct (negb _); [done|]. destruct (cbor_decode (env_body env)) as [o|] eqn:Ed; [|done].
    destruct (N.ltb_spec MAX_BYTES (of_size o)); [done|]. case_bool_decide; [done|].
    destruct (cx_new_transfer cx) as [t cx'] eqn:En. apply (share_inv_bulk _ _ _ cx).
    { cbn. rewrite bulk_announce. by injection En as _ <-. }
    destruct HI as (Ho & Hs & Hb). split_and!; [|done..]. cbn. apply map_Forall_insert_2; [|done].
    cbn. split; [|done]. exists [], h, env. rewrite <- Hcx, En. by split_and!. }
  destruct (String.eqb_spec (env_ty env) "accept") as [Ht|_].
  { destruct (cbor_decode (env_body env)) as [a|] eqn:Ed; [|done].
    destruct (is_sending_to _ _ _) eqn:Es; [|done]. apply is_sending_to_true in Es as (o & Hl & <-).
    destruct HI as (Ho & Hs & Hb). split_and!; [done..|]. cbn. apply Forall_push. split; [done|].
    destruct (proj1 (proj2 HI0) _ _ Hl) as [(h2 & Hw) Hn]. exists (out_offer o), (h2 ++ [CMessage (out_peer o) env]).
    split_and!; [by apply offered_by_us_mono|done|].
    exists env. destruct a. set_solver by eauto. }
  destruct (_ =s "reject").
  { destruct (cbor_decode _) as [f|]; [|done]. destruct (negb _); [done|].
    apply (share_inv_bulk _ _ _ cx); [apply bulk_announce|].
    destruct HI as (Ho & Hs & Hb). split_and!; [done|by apply map_Forall_delete|done]. }
  destruct (_ =s "finished"); [|done].
  destruct (cbor_decode _) as [f|]; [|done]. case_match; [|done].
  apply (share_inv_bulk _ _ _ cx); [apply bulk_announce|]. by apply share_inv_drop.
Qed.

Lemma share_local_inv cx0 h peer ty body p cx :
  share_inv cx0 h p cx ->
  share_inv cx0 (h ++ [CLocal peer ty body]) (share_on_local peer ty body p cx).2.1
    (share_on_local peer ty body p cx).2.2.
Proof.
  intros HI0. pose proof (share_inv_mono _ _ [CLocal peer ty body] _ _ HI0) as HI. unfold share_on_local.
  destruct (String.eqb_spec ty "offer") as [->|_].
  { destruct (cbor_decode body) as [o|] eqn:Ed; [|done].
    destruct (N.ltb_spec MAX_BYTES (of_size o)); [done|]. destruct (negb _).
    { apply (share_inv_bulk _ _ _ cx); [cbn; by rewrite bulk_announce|done]. }
    destruct HI as (Ho & Hs & Hb). split_and!; [done| |done]. cbn. apply map_Forall_insert_2; [|done].
    cbn. split; [|done]. exists [], h, body. by split_and!. }
  destruct (String.eqb_spec ty "accept") as [->|_].
  { destruct (cbor_decode body) as [f|] eqn:Ed; [|done].
    destruct (offered p !! fin_transfer f) as [i|] eqn:El; [|done].
    destruct HI as (Ho & Hs & Hb). split_and!; [done..|]. cbn. apply Forall_push. split; [done|].
    destruct (proj1 HI0 _ _ El) as [(h2 & Hw) Hn]. exists (in_offer i), (h2 ++ [CLocal peer "accept" body]).
    split_and!; [by apply offered_to_us_mono| |done..].
    exists peer, body, f. set_solver by eauto. }
  destruct (_ =s "reject").
  { destruct (cbor_decode _) as [f|]; [|done]. case_match; [|done].
    destruct HI as (Ho & Hs & Hb). case_match; (split_and!; [by apply map_Forall_delete|done..]). }
  destruct (_ =s "cancel"); [|done].
  destruct (cbor_decode _) as [f|]; [|done].
  apply (share_inv_drop _ _ (fin_transfer f)) in HI. destruct HI as (Ho & Hs & Hb).
  case_match; (split_and!; [done..|]); cbn; apply Forall_push; done.
Qed.

Lemma share_call_inv cx0 h c p cx :
  cx = (play h SharePlugin_default cx0).2 ->
  share_inv cx0 h p cx -> share_inv cx0 (h ++ [c]) (call c p cx).1 (call c p cx).2.
Proof.
  intros Hcx HI. destruct c; [by apply share_message_inv|..|by apply share_inv_mono];
    [by apply share_inv_mono|..].
  - apply (share_inv_mono _ _ [CDisconnected peer]) in HI. destruct HI as (Ho & Hs & Hb).
    split_and!; [..|done]; cbn; intros k x [Hx _]%map_lookup_filter_Some; eauto.
  - by apply share_local_inv.
  - by apply share_inv_mono.
  - apply (share_inv_mono _ _ [CBulkListening transfer endpoint]) in HI. cbn.
    unfold share_on_bulk_listening. by case_match.
  - apply (share_inv_mono _ _ [CBulkFinished transfer ok detail]) in HI. cbn.
    unfold share_on_bulk_finished. apply (share_inv_drop _ _ transfer) in HI.
    destruct (match _ with Some p => Some p | None => _ end); [|done].
    eapply share_inv_bulk; [|done]. cbn. rewrite bulk_announce. by case_match.
Qed.

(** C18 (safety): whatever calls a fresh share plugin gets, in a context in which no channel was asked for yet, a side channel for a
    file is only ever opened for an offer that was made, after the decision about
    that very offer.  To listen: among the calls there is an offer of the very
    peer it is opened to, within the size limit and named, to which this device
    gave the number of the channel when it came; after that call somebody here
    said yes to that number; and the channel carries that offer's own number and
    its size.  To connect: among the calls this device offered the file to the
    very peer it connects to, under the channel's number, and after that call
    that same peer accepted that number and named the endpoint. *)
Theorem share_bulk_justified cs cx :
  cx_bulk cx = [] ->
  Forall (bulk_justified cx cs) (cx_bulk (play cs SharePlugin_default cx).2).
Proof.
  intros Hcx.
  pose proof (play_history (λ h p c, ((p, c) = play h SharePlugin_default cx) /\ share_inv cx h p c)
    cs SharePlugin_default cx) as H. apply H.
  - intros h c p c' [E HI]. split.
    + unfold play in *. rewrite fold_left_app, <- E. cbn. by destruct (call c p c').
    + apply share_call_inv; [by rewrite <- E|done].
  - split; [done|]. split_and!; [apply map_Forall_empty..|]. by rewrite Hcx.
Qed.

(** The two numberings are apart: what is offered to us has a minted number no
    greater than the counter, and what we offer has a host's number. *)
Definition numbered (p : SharePlugin) (cx : Cx) : Prop :=
  cx_next_transfer cx + 1 < 2 ^ 63 /\
  map_Forall (λ t _, ∃ n, n <= cx_next_transfer cx /\ t = N.lor MINTED_HERE n) (offered p) /\
  map_Forall (λ t _, t < 2 ^ 63) (sending p).

Lemma minted_ge n : 2 ^ 63 <= N.lor MINTED_HERE n.
Proof.
  unfold MINTED_HERE. rewrite N.shiftl_1_l.
  apply N.le_trans with (N.lor (2 ^ 63) 0); [by rewrite N.lor_0_r|].
  rewrite <- (N.lor_diag (2 ^ 63)) at 2. apply N.ldiff_le. apply N.bits_inj_iff. intros i.
  rewrite N.ldiff_spec, !N.lor_spec, N.bits_0. destruct (N.testbit (2 ^ 63) i); done.
Qed.

(** A message from one peer, whatever it is, leaves every transfer
    with any other peer exactly as it was, in both directions. *)
Theorem share_isolation peer env p cx :
  numbered p cx ->
  let p' := (share_on_message peer env p cx).2.1 in
  (∀ t i, in_peer i <> peer -> offered p !! t = Some i -> offered p' !! t = Some i) /\
  (∀ t o, out_peer o <> peer -> sending p !! t = Some o -> sending p' !! t = Some o).
Proof.
  intros (Hc & Ho & Hs). cbv zeta. unfold share_on_message.
  destruct (_ =s "offer").
  { destruct (negb _); [done|]. destruct (cbor_decode _) as [o|]; [|done].
    destruct (_ <? _); [done|]. case_bool_decide; [done|].
    destruct (cx_new_transfer cx) as [t cx'] eqn:En. cbn. split; [|done].
    intros t' i _ Hi. rewrite lookup_insert_ne; [done|]. intros <-.
    apply Ho in Hi as (n & Hn & Ht). injection En as Et _. rewrite <- Et in Ht.
    rewrite u64_add_small in Ht by (unfold u64_max; lia).
    apply (f_equal TransferId_short) in Ht. rewrite !TransferId_short_minted in Ht by lia. lia. }
  destruct (_ =s "accept").
  { destruct (cbor_decode _); [|done]. by destruct (negb _). }
  destruct (_ =s "reject").
  { destruct (cbor_decode _) as [f|]; [|done].
    destruct (is_sending_to _ _ _) eqn:Es; [|done]. apply is_sending_to_true in Es as (o & Hl & <-).
    cbn. split; [done|]. intros t o' Hne Ho'. rewrite lookup_delete_ne; [done|]. congruence. }
  destruct (_ =s "finished"); [|done].
  destruct (cbor_decode _) as [f|]; [|done].
  destruct (is_sending_to _ _ _) eqn:Es.
  - apply is_sending_to_true in Es as (o & Hl & <-). cbn. split.
    + intros t i _ Hi. rewrite lookup_delete_ne; [done|]. intros <-.
      apply Ho in Hi as (n & _ & Ht). apply Hs in Hl. pose proof (minted_ge n). lia.
    + intros t o' Hne Ho'. rewrite lookup_delete_ne; [done|]. congruence.
  - destruct (incoming_from _ _ _) as [t|] eqn:Ei; [|done].
    apply incoming_from_Some in Ei as (i & Hl & <- & _). cbn. split.
    + intros t' i' Hne Hi'. rewrite lookup_delete_ne; [done|]. congruence.
    + intros t' o' _ Ho'. rewrite lookup_delete_ne; [done|]. intros <-.
      apply Ho in Hl as (n & _ & Ht). apply Hs in Ho'. pose proof (minted_ge n). lia.
Qed.

(** When a peer's session ends, nothing waits on it any more and nothing of
    anybody else is lost. *)
Theorem share_disconnect peer p cx :
  let p' := (share_on_peer_disconnected peer p cx).1 in
  (∀ t i, offered p' !! t = Some i <-> offered p !! t = Some i /\ in_peer i <> peer) /\
  (∀ t o, sending p' !! t = Some o <-> sending p !! t = Some o /\ out_peer o <> peer).
Proof. cbn. split; intros; by rewrite map_lookup_filter_Some. Qed.
End share.
