(* ===== verification/CoreState.v ===== *)
(** * The state of [acrylius-core/src/core.rs], and the monad its methods run in

    A method of [Core] mutates [self], pushes onto an [Outcome] and can panic
    (an [expect], an index out of range).  [M] threads the two and has [None]
    for a panic. *)

From S2P Require Import Prelude Externals Ids Frame Hello Envelope.
From S2P Require Import PairingKeys Link Peer Vocab Noise Plugin.
Local Open Scope N_scope.

(** Everything of other crates the state machine calls. *)
Class Externs := {
  ext_sha256 :: Sha256;
  ext_hkdf :: Hkdf;
  ext_snow :: Snow;
  ext_hello :: Cbor Hello;
  ext_record :: Cbor PeerRecord;
  ext_envelope :: Cbor Envelope;
  ext_text :: Cbor string;
}.

(** Encoding into a [Vec] cannot fail, which the two [expect]s rely on. *)
Class ExternsLaws `{Externs} := {
  ext_hello_total :: CborTotal Hello;
  ext_record_total :: CborTotal PeerRecord;
}.

(* src: crates/acrylius-core/src/core.rs 27 29 MAX_SEEN *)
Definition MAX_SEEN : nat := 256.
(* src: crates/acrylius-core/src/core.rs 31 33 BULK_DIAL_WAIT_MS *)
Definition BULK_DIAL_WAIT_MS : u64 := 30000.

(** A dial in flight: target, routes not yet tried, whether a person asked. *)
(* src: crates/acrylius-core/src/core.rs 23 25 PeerDial *)
Record PeerDial := mkPeerDial {
  pd_peer : DeviceId;
  pd_routes : list (TransportId * string);
  by_hand : bool;
}.
#[global] Instance PeerDial_eta : Eta PeerDial := λ p,
  mkPeerDial (pd_peer p) (pd_routes p) (by_hand p).

(** What a link we dialled brings with it into its handshake. *)
(* src: crates/acrylius-core/src/core.rs 35 41 Dialled *)
Record Dialled := mkDialled { dl_attrs : LinkAttrs; dl_deadline : u64; dl_fallback : option PeerDial }.

(* src: crates/acrylius-core/src/core.rs 43 47 PendingLink *)
Record PendingLink := mkPendingLink { pl_attrs : LinkAttrs; pl_deadline : u64 }.

Section state.
  Context `{Externs}.

(* src: crates/acrylius-core/src/core.rs 48 64 HandshakingLink *)
Record HandshakingLink := mkHandshakingLink {
  hl_hs : Handshake;
  hl_attrs : LinkAttrs;
  hl_deadline : u64;
  hl_expect : option DeviceId;
  pairing_flow : bool;
  hl_via : option (TransportId * string);
  hl_fallback : option PeerDial;
}.
#[global] Instance HandshakingLink_eta : Eta HandshakingLink := λ h,
  mkHandshakingLink (hl_hs h) (hl_attrs h) (hl_deadline h) (hl_expect h) (pairing_flow h) (hl_via h)
    (hl_fallback h).

(* src: crates/acrylius-core/src/core.rs 66 84 UpLink *)
Record UpLink := mkUpLink {
  ul_session : Session;
  ul_peer : DeviceId;
  ul_handshake_hash : bytes;
  ul_bulk : BulkSupport;
  ul_max_message : u32;
  ul_last_recv_ms : u64;
  ul_transport : TransportId;
  ul_kind : TransportKind;
  can_send : list string;
  can_recv : list string;
}.
#[global] Instance UpLink_eta : Eta UpLink := λ u,
  mkUpLink (ul_session u) (ul_peer u) (ul_handshake_hash u) (ul_bulk u) (ul_max_message u)
    (ul_last_recv_ms u) (ul_transport u) (ul_kind u) (can_send u) (can_recv u).

(* src: crates/acrylius-core/src/core.rs 86 91 LinkState *)
Inductive LinkState :=
| Pending (p : PendingLink)
| Handshaking (h : HandshakingLink)
| Up (u : UpLink).

(* src: crates/acrylius-core/src/core.rs 93 100 AwaitingConfirm *)
Record AwaitingConfirm := mkAwaitingConfirm {
  aw_link : LinkId;
  aw_record : PeerRecord;
  aw_sas : string;
  aw_via : option (TransportId * string);
}.

(* src: crates/acrylius-core/src/core.rs 102 107 PairingWindow *)
Record PairingWindow := mkPairingWindow { pw_deadline : u64; awaiting : option AwaitingConfirm }.
#[global] Instance PairingWindow_eta : Eta PairingWindow := λ w,
  mkPairingWindow (pw_deadline w) (awaiting w).

(* src: crates/acrylius-core/src/core.rs 128 136 Sighting *)
Record Sighting := mkSighting { sg_routes : Routes; sg_name : string; sg_pairing : bool }.
#[global] Instance Sighting_eta : Eta Sighting := λ s,
  mkSighting (sg_routes s) (sg_name s) (sg_pairing s).

(* src: crates/acrylius-core/src/core.rs 138 186 Core *)
Record Core := mkCore {
  identity : Identity;
  config : CoreConfig;
  peers : gmap DeviceId PeerRecord;
  links : gmap LinkId LinkState;
  addrs : gmap DeviceId Routes;
  seen : gmap Fingerprint Sighting;
  pairing : option PairingWindow;
  pair_quiet_until : u64;
  pending_pair_dials : gmap DialToken (TransportId * string);
  pending_peer_dials : gmap DialToken (u64 * PeerDial);
  dial_trouble : gmap DeviceId string;
  reconnect_at : option u64;
  plugins : list DynPlugin;
  effect_owner : gmap EffectToken nat;
  bulk_owner : gmap TransferId nat;
  next_transfer : u64;
  bulk_wait : gmap TransferId u64;
  caps_out : list string;
  caps_in : list string;
  caps_served : list string;
  serves : EffectSet;
  next_token : u64;
  next_dial : u64;
  next_msg_id : u32;
  wall_ms : u64;
  plugin_wake : option u64;
}.
#[global] Instance Core_eta : Eta Core := λ c,
  mkCore (identity c) (config c) (peers c) (links c) (addrs c) (seen c) (pairing c)
    (pair_quiet_until c) (pending_pair_dials c) (pending_peer_dials c) (dial_trouble c)
    (reconnect_at c) (plugins c) (effect_owner c) (bulk_owner c) (next_transfer c) (bulk_wait c)
    (caps_out c) (caps_in c) (caps_served c) (serves c) (next_token c) (next_dial c) (next_msg_id c)
    (wall_ms c) (plugin_wake c).

(** ** The monad *)

Definition St : Type := Core * list Action.
Definition M (A : Type) : Type := St -> option (A * St).

Definition ret {A} (a : A) : M A := λ s, Some (a, s).
Definition bind {A B} (m : M A) (k : A -> M B) : M B :=
  λ s, match m s with Some (a, s') => k a s' | None => None end.
Definition panic {A} : M A := λ _, None.
Definition get {A} (f : Core -> A) : M A := λ s, Some (f s.1, s).
Definition modify (f : Core -> Core) : M unit := λ s, Some (tt, (f s.1, s.2)).

(** [out.push(a)] and [out.ui(e)]. *)
Definition emit (a : Action) : M unit := λ s, Some (tt, (s.1, push a s.2)).
(* src: crates/acrylius-core/src/vocab.rs 483 491 Outcome::ui *)
Definition ui (e : UiEvent) : M unit := emit (Ui e).

(** [option::expect]. *)
Definition expect {A} (o : option A) : M A := match o with Some a => ret a | None => panic end.
End state.

Notation "'let!' x ':=' m 'in' k" := (bind m (λ x, k))
  (at level 10, x pattern, m at level 100, k at level 200,
   format "'[v' 'let!'  x  ':='  m  'in' '/' k ']'") : acr_scope.
Notation "m ';;!' k" := (bind m (λ _, k))
  (at level 100, k at level 200, right associativity, format "'[v' m  ';;!' '/' k ']'") : acr_scope.

(** [for x in l { f(x) }]. *)
Fixpoint for_each `{Externs} {A} (l : list A) (f : A -> M unit) : M unit :=
  match l with [] => ret tt | x :: l' => f x ;;! for_each l' f end.
