(* ===== verification/CoreQueries.v ===== *)
(** * The read-only methods of [Core]

    Pairing admission, peer state, the choice of a link, the next deadline. *)

From S2P Require Import Prelude Externals Ids Frame Hello Envelope PairingKeys.
From S2P Require Import Link Peer Vocab Noise Plugin CoreState.
Local Open Scope N_scope.

Section queries.
  Context `{Externs}.
  Implicit Types c : Core.

(* src: crates/acrylius-core/src/core.rs 194 197 Core::fingerprint *)
Definition core_fingerprint c : Fingerprint := identity_fingerprint (identity c).
(* src: crates/acrylius-core/src/core.rs 199 202 Core::device_id *)
Definition core_device_id c : DeviceId := identity_device_id (identity c).

(* src: crates/acrylius-core/src/core.rs 225 234 Core::pending_sas *)
Definition pending_sas c : option string :=
  w ← pairing c; a ← awaiting w; Some (aw_sas a).

(* src: crates/acrylius-core/src/core.rs 109 115 PendingPairing *)
Record PendingPairing := mkPendingPairing {
  pp_name : string; pp_fingerprint : Fingerprint; pp_sas : string }.

(* src: crates/acrylius-core/src/core.rs 236 246 Core::pending_pairing *)
Definition pending_pairing c : option PendingPairing :=
  w ← pairing c; a ← awaiting w;
  fp ← record_fingerprint (aw_record a);
  Some (mkPendingPairing (pr_name (aw_record a)) fp (aw_sas a)).

(* src: crates/acrylius-core/src/core.rs 248 254 Core::pairing_open *)
Definition pairing_open c : bool := bool_decide (is_Some (pairing c)).

(* src: crates/acrylius-core/src/core.rs 256 275 Core::why_not_pair *)
Definition why_not_pair (now_ms : u64) c : option string :=
  if negb (accept_pair_requests (config c)) then
    Some "this device is not accepting pairing requests"
  else match pairing c with
  | Some w =>
      if bool_decide (is_Some (awaiting w)) then
        Some "already confirming a pairing with somebody else"
      else Some "a pairing is already in progress"
  | None =>
      if now_ms <? pair_quiet_until c then Some "too soon after the last pairing attempt"
      else None
  end.

(** [self.peers.values().any(|r| r.fingerprint().as_ref() == Some(fp))]. *)
Definition fingerprint_known (fp : Fingerprint) c : bool :=
  existsb (λ r, bool_decide (record_fingerprint r = Some fp)) (bt_values (peers c)).

Definition best_route (r : Routes) : option (TransportId * string) := head (in_preference_order r).

(** The announcement of a machine that is in sight and not paired. *)
(* src: crates/acrylius-core/src/core.rs 277 298 Core::announce *)
Definition announcement (fp : Fingerprint) c : option UiEvent :=
  s ← seen c !! fp;
  '(transport, addr) ← best_route (sg_routes s);
  if fingerprint_known fp c then None
  else Some (UiDiscovered fp (sg_name s) addr transport (sg_pairing s)).

(* src: crates/acrylius-core/src/core.rs 117 126 Nearby *)
Record Nearby := mkNearby {
  nb_fingerprint : Fingerprint; nb_name : string; nb_addr : string;
  nb_transport : TransportId; nb_pairing : bool }.

(* src: crates/acrylius-core/src/core.rs 300 320 Core::nearby *)
Definition nearby c : list Nearby :=
  omap (λ '(fp, s),
    if fingerprint_known fp c then None
    else '(transport, addr) ← best_route (sg_routes s);
         Some (mkNearby fp (sg_name s) addr transport (sg_pairing s))) (bt_iter (seen c)).

(* src: crates/acrylius-core/src/core.rs 343 348 Core::dial_trouble *)
Definition dial_trouble_for (peer : DeviceId) c : option string := dial_trouble c !! peer.

(** The first link of the table, in id order, that says something of the peer. *)
Fixpoint first_state (peer : DeviceId) (l : list LinkState) : option PeerState :=
  match l with
  | [] => None
  | Up u :: l' => if bool_decide (ul_peer u = peer) then Some Reachable else first_state peer l'
  | Handshaking h :: l' =>
      if bool_decide (hl_expect h = Some peer) then Some Connecting else first_state peer l'
  | Pending _ :: l' => first_state peer l'
  end.

Definition dialling (peer : DeviceId) c : bool :=
  existsb (λ '(_, d), bool_decide (pd_peer d = peer)) (bt_values (pending_peer_dials c)).

(* src: crates/acrylius-core/src/core.rs 350 370 Core::peer_state *)
Definition peer_state (peer : DeviceId) c : PeerState :=
  match first_state peer (bt_values (links c)) with
  | Some st => st
  | None => if dialling peer c then Connecting else Unreachable
  end.

(** [best = Some(best.map_or(d, |b| b.min(d)))]. *)
Definition consider (best : option u64) (d : u64) : option u64 :=
  Some (match best with Some b => N.min b d | None => d end).
Definition consider_opt (best : option u64) (d : option u64) : option u64 :=
  match d with Some d => consider best d | None => best end.

Definition link_deadline (st : LinkState) : option u64 :=
  match st with
  | Pending p => Some (pl_deadline p)
  | Handshaking h => Some (hl_deadline h)
  | Up _ => None
  end.

(* src: crates/acrylius-core/src/core.rs 489 512 Core::next_deadline *)
Definition next_deadline c : option u64 :=
  let best := plugin_wake c in
  let best := consider_opt best (reconnect_at c) in
  let best := fold_left consider (map fst (bt_values (pending_peer_dials c))) best in
  let best := consider_opt best (pw_deadline <$> pairing c) in
  let best := fold_left consider (bt_values (bulk_wait c)) best in
  fold_left (λ b st, consider_opt b (link_deadline st)) (bt_values (links c)) best.

(* src: crates/acrylius-core/src/core.rs 514 525 Core::hello *)
Definition core_hello c : Hello := {|
  hello_v := WIRE_VERSION;
  hello_ts_ms := wall_ms c;
  hello_device_id := did_str (core_device_id c);
  hello_name := cfg_name (config c);
  hello_platform := cfg_platform (config c);
  hello_caps_out := caps_out c;
  hello_caps_in := caps_in c;
|}.

(* src: crates/acrylius-core/src/core.rs 1432 1447 Core::bulk_support_for *)
Fixpoint bulk_support_of (peer : DeviceId) (l : list LinkState) (best : option BulkSupport)
    : option BulkSupport :=
  match l with
  | [] => best
  | Up u :: l' =>
      if bool_decide (ul_peer u = peer) then
        match ul_bulk u with
        | SideChannel => Some SideChannel
        | b => bulk_support_of peer l' (Some b)
        end
      else bulk_support_of peer l' best
  | _ :: l' => bulk_support_of peer l' best
  end.
Definition bulk_support_for (peer : DeviceId) c : option BulkSupport :=
  bulk_support_of peer (bt_values (links c)) None.

(** The order of the tuples [(last_recv_ms, Reverse(transport), id)]. *)
Definition link_rank_le (a b : LinkId * UpLink) : bool :=
  let '(i, u) := a in let '(j, v) := b in
  if ul_last_recv_ms u =? ul_last_recv_ms v then
    if ul_transport u =? ul_transport v then i <=? j
    else ul_transport v <? ul_transport u
  else ul_last_recv_ms u <? ul_last_recv_ms v.

(** [Iterator::max_by_key]: the last of the greatest. *)
Definition max_by {A} (le : A -> A -> bool) (l : list A) : option A :=
  fold_left (λ best x, match best with
                       | Some b => if le b x then Some x else Some b
                       | None => Some x
                       end) l None.

Definition up_to (peer : DeviceId) '((i, st) : LinkId * LinkState) : option (LinkId * UpLink) :=
  match st with
  | Up u => if bool_decide (ul_peer u = peer) then Some (i, u) else None
  | _ => None
  end.

(* src: crates/acrylius-core/src/core.rs 1449 1462 Core::best_link *)
Definition best_link (peer : DeviceId) c : option (LinkId * UpLink) :=
  max_by link_rank_le (omap (up_to peer) (bt_iter (links c))).

(* src: crates/acrylius-core/src/core.rs 1464 1466 Core::best_link_transport *)
Definition best_link_transport (peer : DeviceId) c : option TransportId :=
  ul_transport ∘ snd <$> best_link peer c.
(* src: crates/acrylius-core/src/core.rs 1468 1471 Core::transport_for *)
Definition transport_for (peer : DeviceId) c : option TransportKind :=
  ul_kind ∘ snd <$> best_link peer c.
(* src: crates/acrylius-core/src/core.rs 1546 1551 Core::handshake_hash_for *)
Definition handshake_hash_for (peer : DeviceId) c : option bytes :=
  ul_handshake_hash ∘ snd <$> best_link peer c.

(** The index of the first plugin that handles a capability. *)
Definition plugin_for (cap : string) c : option nat :=
  fst <$> list_find (λ p, handles (dyn_manifest p) cap = true) (plugins c).

(** The up links with a peer, in id order. *)
Definition up_links_with (peer : DeviceId) c : list LinkId :=
  map fst (omap (up_to peer) (bt_iter (links c))).

(** ** Theorems *)

(** An inbound pairing handshake is answered exactly when the device accepts
    requests, no pairing is in flight and the cooldown is over. *)
Theorem why_not_pair_spec now_ms c :
  why_not_pair now_ms c = None <->
  accept_pair_requests (config c) = true /\ pairing c = None /\ pair_quiet_until c <= now_ms.
Proof.
  unfold why_not_pair. destruct (accept_pair_requests (config c)); cbn; [|naive_solver].
  destruct (pairing c) as [w|]; [case_bool_decide; naive_solver|].
  destruct (N.ltb_spec now_ms (pair_quiet_until c)); split; try done.
  intros (_ & _ & ?). lia.
Qed.

(** *** The order on links *)

Lemma link_rank_total a b : link_rank_le a b = true \/ link_rank_le b a = true.
Proof.
  destruct a as [i u], b as [j v]. unfold link_rank_le.
  rewrite (N.eqb_sym (ul_last_recv_ms v)), (N.eqb_sym (ul_transport v)).
  destruct (N.eqb_spec (ul_last_recv_ms u) (ul_last_recv_ms v));
    [destruct (N.eqb_spec (ul_transport u) (ul_transport v))|];
    rewrite ?N.leb_le, ?N.ltb_lt; lia.
Qed.

Lemma link_rank_trans a b d :
  link_rank_le a b = true -> link_rank_le b d = true -> link_rank_le a d = true.
Proof.
  destruct a as [i u], b as [j v], d as [k w]. unfold link_rank_le.
  repeat match goal with |- context [?x =? ?y] => destruct (N.eqb_spec x y) end;
    rewrite ?N.leb_le, ?N.ltb_lt; lia.
Qed.

Lemma max_by_spec {A} (le : A -> A -> bool) (l : list A) :
  (∀ a b, le a b = true \/ le b a = true) ->
  (∀ a b d, le a b = true -> le b d = true -> le a d = true) ->
  match max_by le l with
  | None => l = []
  | Some m => m ∈ l /\ ∀ x, x ∈ l -> le x m = true
  end.
Proof.
  intros Ht Htr. unfold max_by.
  assert (∀ l best, match fold_left (λ best x, match best with
                       | Some b => if le b x then Some x else Some b
                       | None => Some x
                       end) l best with
    | None => best = None /\ l = []
    | Some m => (Some m = best \/ m ∈ l) /\ (∀ x, x ∈ l -> le x m = true) /\
                (∀ b, best = Some b -> le b m = true)
    end) as Hgen.
  { clear l. induction l as [|x l IH]; intros best; cbn [fold_left].
    { destruct best as [b|]; [|done]. split_and!; [by left|by intros ? ?%elem_of_nil|].
      intros ? [= <-]. by destruct (Ht b b). }
    set (best' := match best with Some b => if le b x then Some x else Some b | None => Some x end).
    specialize (IH best'). destruct (fold_left _ l best') as [m|].
    - destruct IH as (Hm & Hl & Hb). destruct best as [b|]; cbn in best'.
      + destruct (le b x) eqn:E; subst best'.
        * split_and!; [set_solver| |]; [|naive_solver].
          intros y [->|Hy]%elem_of_cons; [by apply Hb|by apply Hl].
        * assert (le x b = true) by (by destruct (Ht b x); congruence).
          split_and!; [set_solver| |]; [|naive_solver].
          intros y [->|Hy]%elem_of_cons; [|by apply Hl]. by eapply Htr; [|apply Hb].
      + subst best'. split_and!; [set_solver| |done].
        intros y [->|Hy]%elem_of_cons; [by apply Hb|by apply Hl].
    - destruct IH as [Hb _]. subst best'. destruct best as [b|]; [by destruct (le b x)|done]. }
  specialize (Hgen l None). destruct (fold_left _ l None) as [m|]; [|naive_solver].
  destruct Hgen as ([?|?] & ? & _); [done|]. done.
Qed.

Lemma elem_of_up_to peer c i u :
  (i, u) ∈ omap (up_to peer) (bt_iter (links c)) <-> links c !! i = Some (Up u) /\ ul_peer u = peer.
Proof.
  rewrite list_elem_of_omap. split.
  - intros ([j st] & Hin%elem_of_bt_iter & E). unfold up_to in E.
    destruct st; try done. case_bool_decide; naive_solver.
  - intros [Hl Hp]. exists (i, Up u). split; [by apply elem_of_bt_iter|].
    cbn. by rewrite bool_decide_eq_true_2.
Qed.

(** The link a message takes is an established one with that peer, and none
    other was heard from more recently, or as recently over a better transport,
    or on the same terms with a newer id; there is none exactly when the peer
    has no established link. *)
Theorem best_link_spec peer c :
  match best_link peer c with
  | Some (i, u) =>
      links c !! i = Some (Up u) /\ ul_peer u = peer /\
      ∀ j v, links c !! j = Some (Up v) -> ul_peer v = peer ->
        ul_last_recv_ms v < ul_last_recv_ms u \/
        (ul_last_recv_ms v = ul_last_recv_ms u /\
         (ul_transport u < ul_transport v \/ (ul_transport u = ul_transport v /\ j <= i)))
  | None => ∀ j v, links c !! j = Some (Up v) -> ul_peer v <> peer
  end.
Proof.
  unfold best_link.
  pose proof (max_by_spec link_rank_le (omap (up_to peer) (bt_iter (links c)))
    link_rank_total link_rank_trans) as Hm.
  destruct (max_by _ _) as [[i u]|].
  - destruct Hm as [Hin Hmax]. apply elem_of_up_to in Hin as [Hl Hp]. split_and!; [done..|].
    intros j v Hj Hv. specialize (Hmax (j, v) (proj2 (elem_of_up_to _ _ _ _) (conj Hj Hv))).
    unfold link_rank_le in Hmax.
    destruct (N.eqb_spec (ul_last_recv_ms v) (ul_last_recv_ms u));
      [destruct (N.eqb_spec (ul_transport v) (ul_transport u))|];
      rewrite ?N.leb_le, ?N.ltb_lt in Hmax; lia.
  - intros j v Hj Hv. assert ((j, v) ∈ omap (up_to peer) (bt_iter (links c))) as Hin
      by (by apply elem_of_up_to). rewrite Hm in Hin. by apply elem_of_nil in Hin.
Qed.

Lemma best_link_Some peer c i u :
  best_link peer c = Some (i, u) -> links c !! i = Some (Up u) /\ ul_peer u = peer.
Proof.
  pose proof (max_by_spec link_rank_le (omap (up_to peer) (bt_iter (links c)))
    link_rank_total link_rank_trans) as Hm.
  unfold best_link. intros E. rewrite E in Hm. destruct Hm as [Hin _]. by apply elem_of_up_to in Hin.
Qed.

Lemma best_link_None peer c :
  best_link peer c = None <-> (∀ j v, links c !! j = Some (Up v) -> ul_peer v <> peer).
Proof.
  pose proof (max_by_spec link_rank_le (omap (up_to peer) (bt_iter (links c)))
    link_rank_total link_rank_trans) as Hm.
  unfold best_link. destruct (max_by _ _) as [[i u]|].
  - destruct Hm as [Hin _]. apply elem_of_up_to in Hin as [Hl Hp]. naive_solver.
  - split; [|done]. intros _ j v Hj Hv.
    assert ((j, v) ∈ omap (up_to peer) (bt_iter (links c))) as Hin by (by apply elem_of_up_to).
    rewrite Hm in Hin. by apply elem_of_nil in Hin.
Qed.

Lemma elem_of_up_links_with peer c i :
  i ∈ up_links_with peer c <-> ∃ u, links c !! i = Some (Up u) /\ ul_peer u = peer.
Proof.
  unfold up_links_with. rewrite list_elem_of_fmap. split.
  - intros ([j u] & -> & Hin). apply elem_of_up_to in Hin. by exists u.
  - intros [u Hu]. exists (i, u). split; [done|]. by apply elem_of_up_to.
Qed.

(** *** The next deadline *)

(** [d] is one of the moments the core must be woken at. *)
Definition due_at (d : u64) c : Prop :=
  plugin_wake c = Some d \/ reconnect_at c = Some d \/
  (∃ t p, pending_peer_dials c !! t = Some (d, p)) \/
  (∃ w, pairing c = Some w /\ pw_deadline w = d) \/
  (∃ t, bulk_wait c !! t = Some d) \/
  (∃ l st, links c !! l = Some st /\ link_deadline st = Some d).

(** The minimum of an optional value and a list. *)
Definition is_min (P : u64 -> Prop) (best : option u64) : Prop :=
  match best with Some b => P b /\ ∀ d, P d -> b <= d | None => ∀ d, ~ P d end.

Lemma is_min_consider P Q best d :
  is_min P best -> (∀ x, Q x <-> P x \/ x = d) -> is_min Q (consider best d).
Proof.
  unfold is_min, consider. intros HP HQ. destruct best as [b|].
  - destruct HP as [Hb Hm]. split.
    + apply HQ. destruct (N.min_spec b d) as [[_ ->]|[_ ->]]; auto.
    + intros x [Hx| ->]%HQ; [apply Hm in Hx|]; lia.
  - split; [apply HQ; auto|]. intros x [Hx| ->]%HQ; [by apply HP in Hx|lia].
Qed.

Lemma is_min_iff P Q best : (∀ x, P x <-> Q x) -> is_min P best -> is_min Q best.
Proof. unfold is_min. intros HPQ. destruct best; naive_solver. Qed.

Lemma is_min_fold {A} (f : A -> option u64) l P best :
  is_min P best ->
  is_min (λ d, P d \/ ∃ x, x ∈ l /\ f x = Some d) (fold_left (λ b x, consider_opt b (f x)) l best).
Proof.
  revert P best; induction l as [|x l IH]; intros P best HP; cbn [fold_left].
  { eapply is_min_iff; [|done]. set_solver. }
  eapply is_min_iff; [|apply (IH (λ d, P d \/ f x = Some d))].
  - set_solver.
  - unfold consider_opt. destruct (f x) as [d|].
    + eapply is_min_consider; [done|]. intros y. split; (intros [?|?]; [by left|right; congruence]).
    + eapply is_min_iff; [|done]. intros y. split; [by left|by intros [?|?]].
Qed.

Lemma is_min_opt P best o :
  is_min P best -> is_min (λ d, P d \/ o = Some d) (consider_opt best o).
Proof.
  intros HP. destruct o as [d|]; cbn [consider_opt].
  - eapply is_min_consider; [done|]. intros x. split; (intros [?|?]; [by left|right; congruence]).
  - eapply is_min_iff; [|done]. intros x. split; [by left|by intros [?|?]].
Qed.

Lemma next_deadline_due c :
  match next_deadline c with
  | Some b => due_at b c /\ ∀ d, due_at d c -> b <= d
  | None => ∀ d, ~ due_at d c
  end.
Proof.
  change (is_min (λ d, due_at d c) (next_deadline c)). unfold next_deadline.
  set (P0 := λ d, plugin_wake c = Some d).
  assert (is_min P0 (plugin_wake c)) as H0.
  { unfold is_min, P0. destruct (plugin_wake c); naive_solver lia. }
  apply (is_min_opt _ _ (reconnect_at c)) in H0.
  apply (is_min_fold (λ x, Some x) (map fst (bt_values (pending_peer_dials c)))) in H0.
  apply (is_min_opt _ _ (pw_deadline <$> pairing c)) in H0.
  apply (is_min_fold (λ x, Some x) (bt_values (bulk_wait c))) in H0.
  apply (is_min_fold link_deadline (bt_values (links c))) in H0.
  eapply is_min_iff; [|exact H0]. intros d. unfold due_at, P0.
  assert ((∃ x, x ∈ map fst (bt_values (pending_peer_dials c)) /\ Some x = Some d) <->
    (∃ t p, pending_peer_dials c !! t = Some (d, p))) as ->.
  { split.
    - intros (x & ([x' p] & -> & [t Ht]%elem_of_bt_values)%list_elem_of_fmap & [= ->]). eauto.
    - intros (t & p & Ht). exists d. split; [|done]. apply list_elem_of_fmap. exists (d, p).
      split; [done|]. apply elem_of_bt_values. eauto. }
  assert ((∃ x, x ∈ bt_values (bulk_wait c) /\ Some x = Some d) <->
    (∃ t, bulk_wait c !! t = Some d)) as ->.
  { split; [intros (x & [t Ht]%elem_of_bt_values & [= ->]); eauto|].
    intros Ht. exists d. by rewrite elem_of_bt_values. }
  assert ((∃ x, x ∈ bt_values (links c) /\ link_deadline x = Some d) <->
    (∃ l st, links c !! l = Some st /\ link_deadline st = Some d)) as ->.
  { split; [intros (x & [t Ht]%elem_of_bt_values & E); eauto|].
    intros (l & st & Hl & E). exists st. rewrite elem_of_bt_values. eauto. }
  rewrite fmap_Some. split; [|naive_solver].
  intros [[[[[?|?]|?]|(w & ? & ?)]|?]|?]; naive_solver.
Qed.

(** The deadline handed to the host is the earliest moment at which anything
    the core waits on is due, and there is none exactly when it waits on
    nothing. *)
Theorem next_deadline_spec c :
  match next_deadline c with
  | Some b => due_at b c /\ ∀ d, due_at d c -> b <= d
  | None => ∀ d, ~ due_at d c
  end.
Proof. apply next_deadline_due. Qed.
End queries.
