(* ===== verification/CoreOps.v ===== *)
(** * The methods of [Core] that change it

    Callees first.  The log lines ([tracing]) are left out. *)

From S2P Require Import Prelude Externals Ids Frame Hello Envelope PairingKeys Bulk.
From S2P Require Import Link Peer Vocab Noise Plugin CoreState CoreQueries.
Local Open Scope N_scope.

Section ops.
  Context `{Externs}.

(** [f] on one field of [self]. *)
Definition upd {T} (p : Core -> T) `{!Setter p} (f : T -> T) : M unit := modify (set_field p f).

(** ** Sending *)

(* src: crates/acrylius-core/src/core.rs 1953 1978 Core::fail_link *)
Definition fail_link (link : LinkId) (detail : string) : M unit :=
  let! was := get (λ c, links c !! link) in
  upd links (delete link) ;;!
  let peer := match was with Some (Up u) => Some (ul_peer u) | _ => None end in
  emit (Close link (Protocol NotAllowed)) ;;!
  ui (UiError peer NotAllowed detail).

(* src: crates/acrylius-core/src/core.rs 1199 1256 Core::dispatch_send *)
Definition dispatch_send (now_ms : u64) (s : PendingSend) : M unit :=
  let! best := get (best_link (ps_peer s)) in
  match best with
  | None => ui (UiPeerUnreachable (ps_peer s))
  | Some (link, _) =>
      let! st := get (λ c, links c !! link) in
      match st with
      | Some (Up u) =>
          if negb (existsb (String.eqb (ps_cap s)) (can_send u)) then
            ui (UiError (Some (ul_peer u)) CapNotNegotiated
                  (ps_cap s +:+ " is not negotiated with this peer"))
          else
            upd next_msg_id (λ n, wrap32 (n + 1)) ;;!
            let! id := get next_msg_id in
            let env := mkEnvelope WIRE_VERSION id (ps_re s) (ps_cap s) (ps_ty s) (ps_body s) 0 None in
            match to_vec env with
            | None => ret tt
            | Some plaintext =>
                let '(session, r) := session_encrypt (ul_session u) plaintext in
                upd links (insert link (Up (u <| ul_session := session |>))) ;;!
                match r with
                | Ok ct =>
                    let msg := join Transport ct in
                    if ul_max_message u <? len msg then
                      ui (UiError (Some (ul_peer u)) TooLarge
                            (pretty (len msg) +:+ " bytes does not fit this link, which takes "
                              +:+ pretty (ul_max_message u)))
                    else emit (LinkSend link msg)
                | Err e => ui (UiError (Some (ul_peer u)) Internal (noise_error_to_string e))
                end
            end
      | _ => ret tt
      end
  end.

(* src: crates/acrylius-core/src/core.rs 1177 1197 Core::send_error *)
Definition send_error (now_ms : u64) (peer : DeviceId) (to : Envelope) (code : ErrorCode) : M unit :=
  let body := to_vec_or_default (error_code_str code) in
  dispatch_send now_ms (mkPendingSend peer (env_cap to) "err" body (Some (env_id to))).

(* src: crates/acrylius-core/src/core.rs 1473 1544 Core::dispatch_bulk *)
Definition dispatch_bulk (now_ms : u64) (request : BulkRequest) : M unit :=
  match request with
  | BrCancel transfer => emit (BulkCancel transfer)
  | BrListen peer transfer _ _ | BrSend peer transfer _ =>
      let! support := get (bulk_support_for peer) in
      if bool_decide (support = Some BulkNone) then
        ui (UiError (Some peer) NotAllowed
              ("transport for connection to " +:+ did_str peer
                +:+ " does not support file transfers. change transports and try again.")) ;;!
        emit (BulkCancel transfer) ;;!
        upd bulk_owner (delete transfer)
      else
        let! hash := get (handshake_hash_for peer) in
        match hash with
        | None => ui (UiError (Some peer) NotAllowed
                        ("no session with " +:+ did_str peer +:+ " to derive a transfer key from"))
        | Some hash =>
            let! me := get core_device_id in
            let '(offerer, numbered) :=
              match request with
              | BrListen _ _ offered_as _ => (peer, offered_as)
              | _ => (me, transfer)
              end in
            let key := key hash (did_str offerer) numbered in
            match request with
            | BrListen _ _ _ expect_bytes =>
                upd bulk_wait (insert transfer (now_ms +u64 BULK_DIAL_WAIT_MS)) ;;!
                emit (BulkListen transfer numbered key expect_bytes)
            | BrSend _ _ endpoint => emit (BulkSend transfer endpoint key)
            | BrCancel _ => panic
            end
        end
  end.

(* src: crates/acrylius-core/src/core.rs 1258 1269 Core::remember_owner *)
Definition remember_owner (cx : Cx) (idx : nat) : M unit :=
  for_each (cx_effects cx) (λ '(t, _), upd effect_owner (insert t idx)) ;;!
  for_each (cx_bulk cx) (λ b,
    match b with
    | BrListen _ transfer _ _ | BrSend _ transfer _ => upd bulk_owner (insert transfer idx)
    | BrCancel _ => ret tt
    end).

(* src: crates/acrylius-core/src/core.rs 1271 1296 Core::drain_cx *)
Definition drain_cx (cx : Cx) : M unit :=
  for_each (cx_uis cx) ui ;;!
  for_each (cx_effects cx) (λ '(token, effect), emit (DoEffect token effect)) ;;!
  for_each (cx_bulk cx) (dispatch_bulk (cx_now_ms cx)) ;;!
  for_each (cx_sends cx) (dispatch_send 0) ;;!
  match cx_wake_at cx with
  | Some w => upd plugin_wake (λ p, Some (match p with Some p => N.min p w | None => w end))
  | None => ret tt
  end.

(** [Cx::new(now_ms, self.next_token, self.next_transfer, self.serves)]. *)
Definition new_cx (now_ms : u64) : M Cx :=
  get (λ c, Cx_new now_ms (next_token c) (next_transfer c) (serves c)).

(** The two counters go back into [self]. *)
Definition take_counters (cx : Cx) : M unit :=
  upd next_token (λ _, cx_next_token cx) ;;! upd next_transfer (λ _, cx_next_transfer cx).

(** A method of [self.plugins[idx]]; an index out of range panics. *)
Definition on_plugin {A} (idx : nat) (f : DynPlugin -> Cx -> A * (DynPlugin * Cx)) (cx : Cx)
    : M (A * Cx) :=
  let! p := get (λ c, plugins c !! idx) in
  match p with
  | None => panic
  | Some p =>
      let '(r, (p, cx)) := f p cx in
      upd plugins (insert idx p) ;;! ret (r, cx)
  end.

(** [for p in &mut self.plugins { p.method(&mut cx) }]. *)
Fixpoint call_each (c : Call) (ps : list DynPlugin) (cx : Cx) : list DynPlugin * Cx :=
  match ps with
  | [] => ([], cx)
  | p :: ps =>
      let '(p, cx) := dyn_call c p cx in
      let '(ps, cx) := call_each c ps cx in
      (p :: ps, cx)
  end.
Definition all_plugins (c : Call) (cx : Cx) : M Cx :=
  let! ps := get plugins in
  let '(ps, cx) := call_each c ps cx in
  upd plugins (λ _, ps) ;;! ret cx.

(** Every plugin is told, and what they ask for is carried out. *)
(* src: crates/acrylius-core/src/core.rs 1917 1924 Core::on_link_down *)
Definition tell_plugins (now_ms : u64) (c : Call) : M unit :=
  let! cx := new_cx now_ms in
  let! cx := all_plugins c cx in
  take_counters cx ;;!
  drain_cx cx.

(** One plugin is called, owns what it asks for, and has it carried out. *)
(* src: crates/acrylius-core/src/core.rs 1708 1714 Core::dispatch_to_transfer_owner *)
Definition run_plugin {A} (idx : nat) (f : DynPlugin -> Cx -> A * (DynPlugin * Cx)) (cx : Cx) : M A :=
  let! (r, cx) := on_plugin idx f cx in
  take_counters cx ;;!
  remember_owner cx idx ;;!
  drain_cx cx ;;!
  ret r.

Definition no_result (f : DynPlugin -> Cx -> DynPlugin * Cx) (p : DynPlugin) (cx : Cx)
    : unit * (DynPlugin * Cx) := (tt, f p cx).

(* src: crates/acrylius-core/src/core.rs 1697 1715 Core::dispatch_to_transfer_owner *)
Definition dispatch_to_transfer_owner (now_ms : u64) (transfer : TransferId) (c : Call) : M unit :=
  let! owner := get (λ c, bulk_owner c !! transfer) in
  match owner with
  | None => ret tt
  | Some idx =>
      let! cx := new_cx now_ms in
      run_plugin idx (no_result (dyn_call c)) cx
  end.

(* src: crates/acrylius-core/src/core.rs 1717 1733 Core::on_effect_done *)
Definition on_effect_done (now_ms : u64) (token : EffectToken) (r : EffectResult) : M unit :=
  let! owner := get (λ c, effect_owner c !! token) in
  upd effect_owner (delete token) ;;!
  match owner with
  | None => ret tt
  | Some idx =>
      let! cx := new_cx now_ms in
      run_plugin idx (no_result (dyn_call (CEffectResult token r))) cx
  end.

(** ** Dialling *)

(** A dial is numbered, remembered with its deadline, and asked of the host. *)
(* src: crates/acrylius-core/src/core.rs 1314 1329 Core::try_next_route *)
Definition dial (now_ms : u64) (transport : TransportId) (addr : string) (d : PeerDial) : M unit :=
  upd next_dial (λ n, n +u64 1) ;;!
  let! next := get next_dial in
  let! timeout := get (λ c, dial_timeout_ms (config c)) in
  upd pending_peer_dials (insert next (now_ms +u64 timeout, d)) ;;!
  emit (Dial transport addr next).

(* src: crates/acrylius-core/src/core.rs 1298 1330 Core::try_next_route *)
Definition try_next_route (now_ms : u64) (pending : PeerDial) (why : string) : M unit :=
  let peer := pd_peer pending in
  let! best := get (best_link peer) in
  if bool_decide (is_Some best) then ret tt
  else match pd_routes pending with
  | [] =>
      upd dial_trouble (insert peer why) ;;!
      if by_hand pending then ui (UiPeerUnreachable peer) else ret tt
  | (transport, addr) :: routes => dial now_ms transport addr (pending <| pd_routes := routes |>)
  end.

(* src: crates/acrylius-core/src/core.rs 1332 1348 Core::adopt_attempt *)
Definition adopt (peer : DeviceId) (d : PeerDial) : PeerDial :=
  if bool_decide (pd_peer d = peer) then d <| by_hand := true |> else d.
Definition adopt_link (peer : DeviceId) (st : LinkState) : LinkState :=
  match st with
  | Handshaking h => Handshaking (h <| hl_fallback ::= fmap (adopt peer) |>)
  | st => st
  end.
Definition adopt_attempt (peer : DeviceId) : M unit :=
  upd pending_peer_dials (fmap (λ '(t, d), (t, adopt peer d))) ;;!
  upd links (fmap (adopt_link peer)).

Definition NOWHERE : string :=
  "Device is asleep or unreachable. It might be off or on another network.".

(** Where a peer may be dialled: the addresses it was reached at, or else those
    discovery has shown for its fingerprint. *)
(* src: crates/acrylius-core/src/core.rs 1360 1366 Core::connect_peer *)
Definition known_routes (peer : DeviceId) (c : Core) : list (TransportId * string) :=
  let known := match addrs c !! peer with
               | Some r => Some r
               | None => rec ← peers c !! peer; fp ← record_fingerprint rec;
                         sg_routes <$> seen c !! fp
               end in
  match known with Some r => in_preference_order r | None => [] end.

(** The tail of [connect_peer]: the first route is dialled, the rest stay behind. *)
(* src: crates/acrylius-core/src/core.rs 1394 1429 Core::connect_peer *)
Definition dial_first (now_ms : u64) (peer : DeviceId) (routes : list (TransportId * string))
    (hand : bool) : M unit :=
  match routes with
  | [] =>
      upd dial_trouble (insert peer NOWHERE) ;;!
      if hand then
        ui (UiError (Some peer) NotAllowed
              ("no address known for " +:+ did_str peer +:+ ". " +:+ NOWHERE)) ;;!
        ui (UiPeerUnreachable peer)
      else ret tt
  | (transport, addr) :: routes => dial now_ms transport addr (mkPeerDial peer routes hand)
  end.

(* src: crates/acrylius-core/src/core.rs 1350 1430 Core::connect_peer *)
Definition connect_peer (now_ms : u64) (peer : DeviceId) (hand : bool) : M unit :=
  let! busy := get (dialling peer) in
  if negb hand && busy then ret tt
  else
    let! routes := get (known_routes peer) in
    let! st := get (peer_state peer) in
    match st with
    | Unreachable => dial_first now_ms peer routes hand
    | Connecting => if hand then adopt_attempt peer else ret tt
    | Reachable =>
        if hand then
          let! rec := get (λ c, peers c !! peer) in
          ui (UiPeerReachable peer (match rec with Some r => pr_name r | None => EmptyString end))
        else
          let! current := get (best_link_transport peer) in
          match current with
          | None => ret tt
          | Some current =>
              let routes := List.filter (λ '(t, _), t <? current) routes in
              if bool_decide (routes = []) then ret tt
              else dial_first now_ms peer routes hand
          end
    end.

(** ** Links that end *)

(* src: crates/acrylius-core/src/core.rs 1853 1925 Core::on_link_down *)
Definition on_link_down (now_ms : u64) (link : LinkId) : M unit :=
  let! was := get (λ c, links c !! link) in
  upd links (delete link) ;;!
  match was with
  | Some (Up u) =>
      let peer := ul_peer u in
      let! best := get (best_link peer) in
      if bool_decide (is_Some best) then
        let! rec := get (λ c, peers c !! peer) in
        ui (UiPeerReachable peer (match rec with Some r => pr_name r | None => EmptyString end))
      else
        ui (UiPeerUnreachable peer) ;;!
        upd reconnect_at (λ _, Some 0) ;;!
        tell_plugins now_ms (CDisconnected peer)
  | Some (Handshaking h) =>
      (if pairing_flow h then upd pairing (λ _, None) else ret tt) ;;!
      match hl_fallback h with
      | Some pending =>
          try_next_route now_ms pending "connection closed before session was established"
      | None => ret tt
      end
  | Some (Pending _) | None => ret tt
  end.

(* src: crates/acrylius-core/src/core.rs 1927 1951 Core::fail_up_link *)
Definition fail_up_link (now_ms : u64) (link : LinkId) (u : UpLink) (detail : string) : M unit :=
  upd links (insert link (Up u)) ;;!
  emit (Close link (Protocol NotAllowed)) ;;!
  ui (UiError (Some (ul_peer u)) NotAllowed detail) ;;!
  on_link_down now_ms link.

(** ** Pairing *)

(* src: crates/acrylius-core/src/core.rs 322 329 Core::begin_pairing *)
Definition begin_pairing (now_ms : u64) : M unit :=
  let! window := get (λ c, pairing_window_ms (config c)) in
  upd pairing (λ _, Some (mkPairingWindow (now_ms +u64 window) None)).

(* src: crates/acrylius-core/src/core.rs 331 341 Core::end_pairing *)
Definition end_pairing (now_ms : u64) (denied : bool) : M unit :=
  upd pairing (λ _, None) ;;!
  let! cooldown := get (λ c, if denied then pair_denied_cooldown_ms (config c)
                             else pair_cooldown_ms (config c)) in
  upd pair_quiet_until (λ _, now_ms +u64 cooldown).

(* src: crates/acrylius-core/src/core.rs 277 298 Core::announce *)
Definition announce_peer (fp : Fingerprint) : M unit :=
  let! a := get (announcement fp) in
  match a with Some e => ui e | None => ret tt end.

(* src: crates/acrylius-core/src/core.rs 1082 1087 Core::peer_blob *)
Definition peer_blob (rec : PeerRecord) : M (string * option bytes) :=
  let! b := expect (to_vec rec) in
  ret ("peer/" +:+ pr_device_id rec, Some b).

(** [push(Action::Persist { .. })] of a record. *)
Definition persist_peer (rec : PeerRecord) : M unit :=
  let! (key, value) := peer_blob rec in
  emit (Persist key value Secret).

(* src: crates/acrylius-core/src/core.rs 1072 1080 Core::pairing_attempt_failed *)
Definition pairing_attempt_failed (now_ms : u64) (link : LinkId) : M unit :=
  fail_link link "pairing handshake failed" ;;!
  end_pairing now_ms false ;;!
  ui (UiPairingFailed "the pairing handshake failed").

(* src: crates/acrylius-core/src/core.rs 948 1011 Core::pairing_completed *)
Definition pairing_completed (now_ms : u64) (link : LinkId) (h : HandshakingLink) (payload : bytes)
    : M unit :=
  match handshake_hash (hl_hs h), peer_static (hl_hs h) with
  | Ok hash, Some pk =>
      match cbor_decode payload with
      | None => pairing_attempt_failed now_ms link
      | Some hello =>
          let record := {|
            pr_device_id := did_str (DeviceId_of pk);
            pr_public_key := pk;
            pr_name := hello_name hello;
            pr_platform := hello_platform hello;
            pr_session_psk := session_psk hash;
            pr_greatest_seen := 0;
            pr_caps_out := hello_caps_out hello;
            pr_caps_in := hello_caps_in hello;
          |} in
          let sas := sas hash in
          upd links (insert link (Pending (mkPendingLink (hl_attrs h) (hl_deadline h)))) ;;!
          let! w := get pairing in
          match w with
          | None => fail_link link "no pairing is in progress"
          | Some w =>
              if bool_decide (is_Some (awaiting w)) then
                fail_link link "a confirmation is already waiting"
              else
                let! window := get (λ c, pairing_window_ms (config c)) in
                upd pairing (λ _, Some (mkPairingWindow (now_ms +u64 window)
                  (Some (mkAwaitingConfirm link record sas (hl_via h))))) ;;!
                ui (UiPairingSas (pr_name record) (Fingerprint_of pk) sas)
          end
      end
  | _, _ => fail_link link "handshake completed without a peer key"
  end.

(** [self.addrs.entry(id).or_default()]. *)
Definition with_routes (id : DeviceId) (f : Routes -> Routes) : M unit :=
  upd addrs (λ m, <[id := f (default ∅ (m !! id))]> m).

(* src: crates/acrylius-core/src/core.rs 1013 1070 Core::confirm_pairing *)
Definition confirm_pairing (now_ms : u64) (accept : bool) : M unit :=
  let! w := get pairing in
  match w with
  | None => ret tt
  | Some w =>
      upd pairing (λ _, Some (w <| awaiting := None |>)) ;;!
      match awaiting w with
      | None => ret tt
      | Some a =>
          if negb accept then
            emit (Close (aw_link a) (Protocol NotAllowed)) ;;!
            upd links (delete (aw_link a)) ;;!
            end_pairing now_ms true ;;!
            ui (UiPairingFailed "the codes did not match")
          else match record_id (aw_record a) with
          | None => ret tt
          | Some id =>
              match aw_via a with
              | Some (transport, addr) => with_routes id (Routes_set transport addr)
              | None =>
                  let! via := get (λ c, fp ← record_fingerprint (aw_record a); seen c !! fp) in
                  match via with
                  | Some via => with_routes id (Routes_merge_from (sg_routes via))
                  | None => ret tt
                  end
              end ;;!
              persist_peer (aw_record a) ;;!
              ui (UiPairingComplete id (pr_name (aw_record a))) ;;!
              upd peers (insert id (aw_record a)) ;;!
              upd pairing (λ _, None) ;;!
              emit (Close (aw_link a) Closed) ;;!
              upd links (delete (aw_link a)) ;;!
              upd reconnect_at (λ _, Some 0)
          end
      end
  end.
End ops.
