(* ===== verification/CoreHandle.v ===== *)
(** * The events: [Core::handle] and what it calls, and [CoreBuilder::build] *)

From S2P Require Import Prelude Externals Ids Frame Hello Envelope PairingKeys Bulk.
From S2P Require Import Link Peer Vocab Noise Plugin CoreState CoreQueries CoreOps.
Local Open Scope N_scope.

Section handle.
  Context `{Externs}.

(** [minicbor::to_vec(self.hello(now_ms)).expect("hello encodes")]. *)
Definition my_hello : M bytes :=
  let! h := get core_hello in expect (to_vec h).

(** ** Links that come up *)

(* src: crates/acrylius-core/src/core.rs 601 651 Core::start_session_initiator *)
Definition start_session_initiator (now_ms : u64) (link : LinkId) (peer : DeviceId)
    (dialled : Dialled) : M unit :=
  let! rec := get (λ c, peers c !! peer) in
  match rec with
  | None => fail_link link "no such peer"
  | Some rec =>
      match public_key_array rec, session_psk_array rec with
      | Some pk, Some psk =>
          let! id := get identity in
          match session_initiator id psk pk with
          | Ok hs =>
              let! hello := my_hello in
              match hs_write hs hello with
              | (hs, Ok m) =>
                  emit (LinkSend link (join SessionHandshake m)) ;;!
                  upd links (insert link (Handshaking (mkHandshakingLink hs (dl_attrs dialled)
                    (dl_deadline dialled) (Some peer) false None (dl_fallback dialled))))
              | (_, Err e) => fail_link link (noise_error_to_string e)
              end
          | Err e => fail_link link (noise_error_to_string e)
          end
      | _, _ => fail_link link "corrupt peer record"
      end
  end.

(** A link dialled to pair: message 1 of XX goes out, carrying nothing. *)
(* src: crates/acrylius-core/src/core.rs 541 574 Core::on_link_up *)
Definition start_pairing (link : LinkId) (attrs : LinkAttrs) (deadline : u64)
    (via : TransportId * string) : M unit :=
  let! id := get identity in
  match pair_initiator id with
  | Ok hs =>
      match hs_write hs [] with
      | (hs, Ok m) =>
          emit (LinkSend link (join PairHandshake m)) ;;!
          upd links (insert link (Handshaking
            (mkHandshakingLink hs attrs deadline None true (Some via) None)))
      | (_, Err e) => fail_link link (noise_error_to_string e)
      end
  | Err e => fail_link link (noise_error_to_string e)
  end.

(* src: crates/acrylius-core/src/core.rs 531 599 Core::on_link_up *)
Definition on_link_up (now_ms : u64) (link : LinkId) (attrs : LinkAttrs) (dial : option DialToken)
    : M unit :=
  let! timeout := get (λ c, handshake_timeout_ms (config c)) in
  let deadline := now_ms +u64 timeout in
  let! to_pair := get (λ c, d ← dial; via ← pending_pair_dials c !! d; Some (d, via)) in
  match to_pair with
  | Some (d, via) =>
      upd pending_pair_dials (delete d) ;;!
      start_pairing link attrs deadline via
  | None =>
      let! to_peer := get (λ c, d ← dial; p ← pending_peer_dials c !! d; Some (d, snd p)) in
      match to_peer with
      | Some (d, pending) =>
          upd pending_peer_dials (delete d) ;;!
          start_session_initiator now_ms link (pd_peer pending)
            (mkDialled attrs deadline (Some pending))
      | None => upd links (insert link (Pending (mkPendingLink attrs deadline)))
      end
  end.

(** ** Sessions *)

(** What a fresh hello leaves of a record: its identity, key and secret stay. *)
Definition refresh_record (rec : PeerRecord) (seen : GreatestSeen) (h : Hello) : PeerRecord :=
  rec <| pr_greatest_seen := seen |> <| pr_name := hello_name h |>
      <| pr_platform := hello_platform h |> <| pr_caps_out := hello_caps_out h |>
      <| pr_caps_in := hello_caps_in h |>.

(* src: crates/acrylius-core/src/core.rs 838 875 Core::accept_hello *)
Definition accept_hello (peer : DeviceId) (payload : bytes) : M bool :=
  match cbor_decode payload with
  | None =>
      ui (UiError (Some peer) BadBody "handshake payload did not decode") ;;!
      ret false
  | Some hello =>
      let! rec := get (λ c, peers c !! peer) in
      match rec with
      | None => ret false
      | Some rec =>
          let! wall := get wall_ms in
          match check_freshness hello wall (pr_greatest_seen rec) with
          | Ok seen =>
              let rec := refresh_record rec seen hello in
              upd peers (insert peer rec) ;;!
              persist_peer rec ;;!
              ret true
          | Err e =>
              ui (UiError (Some peer) NotAllowed (freshness_error_to_string e)) ;;!
              ret false
          end
      end
  end.

(* src: crates/acrylius-core/src/core.rs 877 942 Core::finish_session *)
Definition finish_session (now_ms : u64) (link : LinkId) (hs : Handshake) (attrs : LinkAttrs)
    (peer : DeviceId) : M unit :=
  let hash := match handshake_hash hs with Ok h => h | Err _ => [] end in
  match into_session hs attrs with
  | Err e => fail_link link (noise_error_to_string e)
  | Ok session =>
      let! rec := get (λ c, peers c !! peer) in
      match rec with
      | None => fail_link link "peer vanished mid-handshake"
      | Some rec =>
          let! mine_out := get caps_out in
          let! mine_in := get caps_in in
          let can_send := negotiate mine_out (pr_caps_in rec) in
          let can_recv := negotiate (pr_caps_out rec) mine_in in
          upd links (insert link (Up {|
            ul_session := session;
            ul_peer := peer;
            ul_handshake_hash := hash;
            ul_bulk := la_bulk attrs;
            ul_max_message := la_max_message attrs;
            ul_last_recv_ms := now_ms;
            ul_transport := la_transport attrs;
            ul_kind := la_kind attrs;
            can_send := can_send;
            can_recv := can_recv;
          |})) ;;!
          upd dial_trouble (delete peer) ;;!
          ui (UiPeerReachable peer (pr_name rec)) ;;!
          tell_plugins now_ms (CConnected peer)
      end
  end.

(** ** Frames *)

(** An inbound pairing opener. *)
(* src: crates/acrylius-core/src/core.rs 680 720 Core::on_first_frame *)
Definition answer_pairing (now_ms : u64) (link : LinkId) (p : PendingLink) (body : bytes) : M unit :=
  let! why := get (why_not_pair now_ms) in
  match why with
  | Some why => fail_link link why
  | None =>
      let! id := get identity in
      match pair_responder id with
      | Ok hs =>
          match hs_read hs body with
          | (_, Err _) =>
              let! cooldown := get (λ c, pair_cooldown_ms (config c)) in
              upd pair_quiet_until (λ _, now_ms +u64 cooldown) ;;!
              fail_link link "malformed pairing handshake"
          | (hs, Ok _) =>
              let! hello := my_hello in
              match hs_write hs hello with
              | (hs, Ok m) =>
                  begin_pairing now_ms ;;!
                  emit (LinkSend link (join PairHandshake m)) ;;!
                  upd links (insert link (Handshaking (mkHandshakingLink hs (pl_attrs p)
                    (pl_deadline p) None true None None)))
              | (_, Err e) => fail_link link (noise_error_to_string e)
              end
          end
      | Err e => fail_link link (noise_error_to_string e)
      end
  end.

(** An inbound session opener. *)
(* src: crates/acrylius-core/src/core.rs 721 763 Core::on_first_frame *)
Definition answer_session (now_ms : u64) (link : LinkId) (p : PendingLink) (body : bytes) : M unit :=
  let! me := get identity in
  match session_identify me body with
  | Err _ => fail_link link "unreadable session opener"
  | Ok pk =>
      let id := DeviceId_of pk in
      let! rec := get (λ c, peers c !! id) in
      match rec with
      | None => fail_link link "unknown device"
      | Some rec =>
          match session_psk_array rec with
          | None => fail_link link "corrupt peer record"
          | Some psk =>
              match session_responder me psk with
              | Ok hs =>
                  match hs_read hs body with
                  | (hs, Ok payload) =>
                      let! fresh := accept_hello id payload in
                      if negb fresh then fail_link link "stale or replayed opener"
                      else
                        let! hello := my_hello in
                        match hs_write hs hello with
                        | (hs, Ok m) =>
                            emit (LinkSend link (join SessionHandshake m)) ;;!
                            finish_session now_ms link hs (pl_attrs p) id
                        | (_, Err e) => fail_link link (noise_error_to_string e)
                        end
                  | (_, Err e) => fail_link link (noise_error_to_string e)
                  end
              | Err e => fail_link link (noise_error_to_string e)
              end
          end
      end
  end.

(* src: crates/acrylius-core/src/core.rs 669 766 Core::on_first_frame *)
Definition on_first_frame (now_ms : u64) (link : LinkId) (p : PendingLink) (kind : FrameKind)
    (body : bytes) : M unit :=
  match kind with
  | PairHandshake => answer_pairing now_ms link p body
  | SessionHandshake => answer_session now_ms link p body
  | Transport => fail_link link "transport frame before a handshake"
  end.

(** Everything is exchanged: what the handshake was for is done. *)
(* src: crates/acrylius-core/src/core.rs 815 835 Core::on_handshake_frame *)
Definition handshake_over (now_ms : u64) (link : LinkId) (h : HandshakingLink) (payload : bytes)
    : M unit :=
  if negb (is_complete (hl_hs h)) then upd links (insert link (Handshaking h))
  else if pairing_flow h then pairing_completed now_ms link h payload
  else match hl_expect h with
  | None => fail_link link "session handshake with no expected peer"
  | Some peer =>
      let! fresh := accept_hello peer payload in
      if negb fresh then fail_link link "stale or replayed response"
      else finish_session now_ms link (hl_hs h) (hl_attrs h) peer
  end.

(* src: crates/acrylius-core/src/core.rs 772 836 Core::on_handshake_frame *)
Definition on_handshake_frame (now_ms : u64) (link : LinkId) (h : HandshakingLink) (kind : FrameKind)
    (body : bytes) : M unit :=
  let expected := if pairing_flow h then PairHandshake else SessionHandshake in
  if negb (bool_decide (kind = expected)) then fail_link link "handshake frame of the wrong kind"
  else match hs_read (hl_hs h) body with
  | (_, Err e) =>
      if pairing_flow h then pairing_attempt_failed now_ms link
      else fail_link link (noise_error_to_string e)
  | (hs, Ok payload) =>
      let h := h <| hl_hs := hs |> in
      if pairing_flow h && is_my_turn (hl_hs h) then
        let! hello := my_hello in
        match hs_write (hl_hs h) hello with
        | (hs, Ok m) =>
            emit (LinkSend link (join PairHandshake m)) ;;!
            handshake_over now_ms link (h <| hl_hs := hs |>) payload
        | (_, Err e) => fail_link link (noise_error_to_string e)
        end
      else handshake_over now_ms link h payload
  end.

(** A decrypted message, once its capability is known to be allowed. *)
(* src: crates/acrylius-core/src/core.rs 1143 1174 Core::on_transport_frame *)
Definition deliver (now_ms : u64) (peer : DeviceId) (env : Envelope) : M unit :=
  if env_ty env =s "err" then ui (UiPlugin peer (env_cap env) "err" (env_body env))
  else
    let! idx := get (plugin_for (env_cap env)) in
    match idx with
    | None => send_error now_ms peer env CapNotNegotiated
    | Some idx =>
        let! cx := new_cx now_ms in
        let! support := get (bulk_support_for peer) in
        let! r := run_plugin idx (dyn_on_message peer env) (for_peer_link support cx) in
        match r with
        | Ok _ => ret tt
        | Err e => send_error now_ms peer env (plugin_error_code e)
        end
    end.

(* src: crates/acrylius-core/src/core.rs 1093 1175 Core::on_transport_frame *)
Definition on_transport_frame (now_ms : u64) (link : LinkId) (u : UpLink) (kind : FrameKind)
    (body : bytes) : M unit :=
  if negb (bool_decide (kind = Transport)) then
    fail_up_link now_ms link u "handshake frame on an established link"
  else
    let '(session, r) := session_decrypt (ul_session u) body in
    let u := u <| ul_session := session |> in
    match r with
    | Err e => fail_up_link now_ms link u (noise_error_to_string e)
    | Ok plaintext =>
        let peer := ul_peer u in
        let allowed := can_recv u in
        let u := u <| ul_last_recv_ms := now_ms |> in
        upd links (insert link (Up u)) ;;!
        match cbor_decode plaintext with
        | None => ui (UiError (Some peer) BadBody "envelope did not decode")
        | Some env =>
            if negb (existsb (λ c, c =s env_cap env) allowed) then
              send_error now_ms peer env CapNotNegotiated
            else deliver now_ms peer env
        end
    end.

(* src: crates/acrylius-core/src/core.rs 653 667 Core::on_link_recv *)
Definition on_link_recv (now_ms : u64) (link : LinkId) (msg : bytes) : M unit :=
  match split msg with
  | Err _ => fail_link link "malformed frame"
  | Ok (kind, body) =>
      let! was := get (λ c, links c !! link) in
      upd links (delete link) ;;!
      match was with
      | Some (Pending p) => on_first_frame now_ms link p kind body
      | Some (Handshaking h) => on_handshake_frame now_ms link h kind body
      | Some (Up u) => on_transport_frame now_ms link u kind body
      | None => fail_link link "frame on an unknown link"
      end
  end.

(** ** Local commands *)

(* src: crates/acrylius-core/src/core.rs 1658 1695 Core::handle_revoke *)
Definition handle_revoke (now_ms : u64) (peer : DeviceId) : M unit :=
  let! fingerprint := get (λ c, r ← peers c !! peer; record_fingerprint r) in
  upd peers (delete peer) ;;!
  upd addrs (delete peer) ;;!
  upd dial_trouble (delete peer) ;;!
  emit (Persist ("peer/" +:+ did_str peer) None Secret) ;;!
  let! ls := get (up_links_with peer) in
  for_each ls (λ l, emit (Close l (Protocol NotPaired)) ;;! on_link_down now_ms l) ;;!
  ui (UiRevoked peer) ;;!
  match fingerprint with Some fp => announce_peer fp | None => ret tt end.

(** The pairing a person here asks for. *)
(* src: crates/acrylius-core/src/core.rs 1559 1576 Core::on_local *)
Definition request_pairing (now_ms : u64) (transport : TransportId) (addr : string) : M unit :=
  let! why := get (why_not_pair now_ms) in
  match why with
  | Some why => ui (UiPairingFailed why)
  | None =>
      begin_pairing now_ms ;;!
      upd next_dial (λ n, n +u64 1) ;;!
      let! d := get next_dial in
      upd pending_pair_dials (insert d (transport, addr)) ;;!
      emit (Dial transport addr d)
  end.

(** A host's message for a plugin. *)
(* src: crates/acrylius-core/src/core.rs 1617 1654 Core::on_local *)
Definition local_plugin (now_ms : u64) (peer : DeviceId) (cap ty : string) (body : bytes) : M unit :=
  let! idx := get (plugin_for cap) in
  match idx with
  | None => ui (UiError (Some peer) UnknownType ("no plugin handles " +:+ cap))
  | Some idx =>
      let! cx := new_cx now_ms in
      let! support := get (bulk_support_for peer) in
      let! r := run_plugin idx (dyn_on_local peer ty body) (for_peer_link support cx) in
      match r with
      | Ok _ => ret tt
      | Err e => ui (UiError (Some peer) (plugin_error_code e) (plugin_error_to_string e))
      end
  end.

(* src: crates/acrylius-core/src/core.rs 1557 1656 Core::on_local *)
Definition on_local_command (now_ms : u64) (cmd : LocalCommand) : M unit :=
  match cmd with
  | RequestPairing transport addr => request_pairing now_ms transport addr
  | ConfirmPairing accept => confirm_pairing now_ms accept
  | SetPeerAddress peer transport addr =>
      let! known := get (λ c, bool_decide (is_Some (peers c !! peer))) in
      if known then with_routes peer (Routes_set transport addr)
      else ui (UiError (Some peer) NotPaired (did_str peer +:+ " is not a paired device"))
  | Connect peer => connect_peer now_ms peer true
  | ReconsiderRoutes =>
      let! known := get (bt_keys ∘ peers) in
      for_each known (λ peer, connect_peer now_ms peer false)
  | Disconnect peer =>
      let! ls := get (up_links_with peer) in
      for_each ls (λ l, emit (Close l Closed) ;;! on_link_down now_ms l)
  | Revoke peer => handle_revoke now_ms peer
  | LocalPlugin peer cap ty body => local_plugin now_ms peer cap ty body
  end.

(** ** The clock *)

(** A pairing nobody answered. *)
(* src: crates/acrylius-core/src/core.rs 1736 1755 Core::on_tick *)
Definition lapse_pairing (now_ms : u64) : M unit :=
  let! w := get pairing in
  match w with
  | Some w =>
      if pw_deadline w <=? now_ms then
        upd pairing (λ _, None) ;;!
        match awaiting w with
        | Some a => emit (Close (aw_link a) Closed) ;;! upd links (delete (aw_link a))
        | None => ret tt
        end ;;!
        end_pairing now_ms false ;;!
        ui (UiPairingFailed "nobody confirmed the pairing in time")
      else ret tt
  | None => ret tt
  end.

(** Senders that were told where to connect and never did. *)
(* src: crates/acrylius-core/src/core.rs 1757 1777 Core::on_tick *)
Definition give_up_bulk (now_ms : u64) : M unit :=
  let! gave_up := get (λ c, map fst (List.filter (λ '(_, d), d <=? now_ms) (bt_iter (bulk_wait c)))) in
  for_each gave_up (λ transfer,
    upd bulk_wait (delete transfer) ;;!
    emit (BulkCancel transfer) ;;!
    dispatch_to_transfer_owner now_ms transfer
      (CBulkFinished transfer false "the sender never connected") ;;!
    upd bulk_owner (delete transfer)).

Definition expired_link (now_ms : u64) (st : LinkState) : bool :=
  match link_deadline st with Some d => d <=? now_ms | None => false end.

(** Links that never finished a handshake. *)
(* src: crates/acrylius-core/src/core.rs 1779 1803 Core::on_tick *)
Definition drop_stale_links (now_ms : u64) : M unit :=
  let! stale := get (λ c, map fst (List.filter (λ '(_, st), expired_link now_ms st)
                                    (bt_iter (links c)))) in
  for_each stale (λ l,
    let! was := get (λ c, links c !! l) in
    upd links (delete l) ;;!
    emit (Close l Closed) ;;!
    match was with
    | Some (Handshaking h) =>
        match hl_fallback h with
        | Some pending => try_next_route now_ms pending "got answer that cut off half way"
        | None => ret tt
        end
    | _ => ret tt
    end).

(** Dials nobody ever answered. *)
(* src: crates/acrylius-core/src/core.rs 1805 1818 Core::on_tick *)
Definition expire_dials (now_ms : u64) : M unit :=
  let! expired := get (λ c, map fst (List.filter (λ '(_, (d, _)), d <=? now_ms)
                                      (bt_iter (pending_peer_dials c)))) in
  for_each expired (λ d,
    let! p := get (λ c, pending_peer_dials c !! d) in
    match p with
    | None => ret tt
    | Some (_, pending) =>
        upd pending_peer_dials (delete d) ;;!
        try_next_route now_ms pending "peer didn't answer"
    end).

(** Peers with no live link and somewhere to dial. *)
Definition waiting_peers (c : Core) : list DeviceId :=
  List.filter (λ id, bool_decide (best_link id c = None) && bool_decide (is_Some (addrs c !! id)))
    (bt_keys (peers c)).

(* src: crates/acrylius-core/src/core.rs 1820 1839 Core::on_tick *)
Definition retry_peers (now_ms : u64) : M unit :=
  let! at_ := get reconnect_at in
  if match at_ with Some at_ => at_ <=? now_ms | None => true end then
    let! every := get (λ c, reconnect_every_ms (config c)) in
    upd reconnect_at (λ _, Some (now_ms +u64 every)) ;;!
    let! waiting := get waiting_peers in
    for_each waiting (λ id, connect_peer now_ms id false)
  else ret tt.

(* src: crates/acrylius-core/src/core.rs 1841 1850 Core::on_tick *)
Definition wake_plugins (now_ms : u64) : M unit :=
  let! w := get plugin_wake in
  match w with
  | Some w =>
      if w <=? now_ms then
        upd plugin_wake (λ _, None) ;;!
        tell_plugins now_ms CTick
      else ret tt
  | None => ret tt
  end.

(* src: crates/acrylius-core/src/core.rs 1735 1851 Core::on_tick *)
Definition on_tick_event (now_ms : u64) : M unit :=
  lapse_pairing now_ms ;;!
  give_up_bulk now_ms ;;!
  drop_stale_links now_ms ;;!
  expire_dials now_ms ;;!
  retry_peers now_ms ;;!
  wake_plugins now_ms.

(** ** Discovery *)

(* src: crates/acrylius-core/src/core.rs 398 439 Core::handle *)
Definition on_discovered (now_ms : u64) (transport : TransportId) (peer : DiscoveredPeer) : M unit :=
  match dp_fingerprint peer with
  | None => ret tt
  | Some fp =>
      upd seen (λ m,
        let m := if bool_decide (MAX_SEEN <= size m)%nat && bool_decide (m !! fp = None) then ∅ else m in
        let s := default (mkSighting ∅ (dp_name peer) (dp_pairing peer)) (m !! fp) in
        <[fp := s <| sg_routes ::= Routes_set transport (dp_addr peer) |>
                  <| sg_name := dp_name peer |> <| sg_pairing := dp_pairing peer |>]> m) ;;!
      let! id := get (λ c, r ← List.find (λ r, bool_decide (record_fingerprint r = Some fp))
                                 (bt_values (peers c));
                           record_id r) in
      match id with
      | Some id =>
          with_routes id (Routes_set transport (dp_addr peer)) ;;!
          connect_peer now_ms id false
      | None => announce_peer fp
      end
  end.

(** One sighting loses an address; whether that was its last. *)
Definition forget_route (transport : TransportId) (addr : string) (s : Sighting) : Sighting * bool :=
  let '(r, did) := Routes_forget transport addr (sg_routes s) in
  (s <| sg_routes := r |>, did && Routes_is_empty r).

(* src: crates/acrylius-core/src/core.rs 440 465 Core::handle *)
Definition on_undiscovered (transport : TransportId) (addr : string) : M unit :=
  let! gone := get (λ c, map fst (List.filter (λ '(_, s), (forget_route transport addr s).2)
                                    (bt_iter (seen c)))) in
  upd seen (fmap (λ s, (forget_route transport addr s).1)) ;;!
  for_each gone (λ fp,
    upd seen (delete fp) ;;!
    let! known := get (fingerprint_known fp) in
    if negb known then ui (UiUndiscovered fp) else ret tt).

(** ** The entry point *)

(* src: crates/acrylius-core/src/core.rs 385 397 Core::handle *)
Definition on_dial_failed (now_ms : u64) (dial : DialToken) (reason : string) : M unit :=
  let! to_pair := get (λ c, pending_pair_dials c !! dial) in
  upd pending_pair_dials (delete dial) ;;!
  match to_pair with
  | Some _ => upd pairing (λ _, None) ;;! ui (UiPairingFailed reason)
  | None =>
      let! p := get (λ c, pending_peer_dials c !! dial) in
      upd pending_peer_dials (delete dial) ;;!
      match p with
      | Some (_, pending) => try_next_route now_ms pending reason
      | None => ret tt
      end
  end.

(* src: crates/acrylius-core/src/core.rs 379 484 Core::handle *)
Definition on_event (now_ms : u64) (ev : Event) : M unit :=
  match ev with
  | LinkUp link attrs dial => on_link_up now_ms link attrs dial
  | LinkRecv link msg => on_link_recv now_ms link msg
  | LinkDown link _ => on_link_down now_ms link
  | DialFailed dial reason => on_dial_failed now_ms dial reason
  | Discovered transport peer => on_discovered now_ms transport peer
  | Undiscovered transport addr => on_undiscovered transport addr
  | Vocab.BulkListening transfer endpoint =>
      dispatch_to_transfer_owner now_ms transfer (CBulkListening transfer endpoint)
  | BulkStarted transfer => upd bulk_wait (delete transfer)
  | Vocab.BulkFinished transfer ok detail =>
      dispatch_to_transfer_owner now_ms transfer (CBulkFinished transfer ok detail) ;;!
      upd bulk_owner (delete transfer) ;;!
      upd bulk_wait (delete transfer)
  | Tick => on_tick_event now_ms
  | Local cmd => on_local_command now_ms cmd
  | EffectDone token r => on_effect_done now_ms token r
  end.

(** [None] is a panic. *)
(* src: crates/acrylius-core/src/core.rs 372 487 Core::handle *)
Definition handle (now : Now) (ev : Event) (c : Core) : option (Outcome * Core) :=
  match on_event (monotonic_ms now) ev (c <| wall_ms := now_wall_ms now |>, []) with
  | Some (_, (c, out)) => Some (mkOutcome out (next_deadline c), c)
  | None => None
  end.

(** ** The builder *)

(* src: crates/acrylius-core/src/core.rs 1986 1992 CoreBuilder *)
Record CoreBuilder := mkCoreBuilder {
  cb_identity : Identity;
  cb_config : CoreConfig;
  cb_effects : list EffectKind;
  cb_plugins : list DynPlugin;
  cb_peers : list PeerRecord;
}.

(** The [BTreeSet] of effects is only asked for its members. *)
(* src: crates/acrylius-core/src/core.rs 1995 2004 CoreBuilder::new *)
Definition CoreBuilder_new (id : Identity) (config : CoreConfig) : CoreBuilder := mkCoreBuilder id config [] [] [].
(* src: crates/acrylius-core/src/core.rs 2006 2011 CoreBuilder::effects *)
Definition with_effects (kinds : list EffectKind) (b : CoreBuilder) : CoreBuilder :=
  mkCoreBuilder (cb_identity b) (cb_config b) (cb_effects b ++ kinds) (cb_plugins b) (cb_peers b).
(* src: crates/acrylius-core/src/core.rs 2013 2017 CoreBuilder::plugin *)
Definition with_plugin (p : DynPlugin) (b : CoreBuilder) : CoreBuilder :=
  mkCoreBuilder (cb_identity b) (cb_config b) (cb_effects b) (push p (cb_plugins b)) (cb_peers b).
(* src: crates/acrylius-core/src/core.rs 2019 2024 CoreBuilder::restore *)
Definition with_restored (records : list PeerRecord) (b : CoreBuilder) : CoreBuilder :=
  mkCoreBuilder (cb_identity b) (cb_config b) (cb_effects b) (cb_plugins b) (cb_peers b ++ records).

(** [.plugin(p)] for each of a list. *)
Definition with_plugins (ps : list DynPlugin) (b : CoreBuilder) : CoreBuilder :=
  fold_left (λ b p, with_plugin p b) ps b.

(** The capabilities of the plugins whose every effect the host carries out. *)
Definition served_by (effects : list EffectKind) (p : DynPlugin) : list string :=
  if forallb (λ k, bool_decide (k ∈ effects)) (pm_requires (dyn_manifest p))
  then pm_incoming (dyn_manifest p) else [].

(* src: crates/acrylius-core/src/core.rs 2026 2091 CoreBuilder::build *)
Definition build_core (b : CoreBuilder) : Core := {|
  identity := cb_identity b;
  config := cb_config b;
  peers := fold_left (λ m r, match record_id r with Some id => <[id := r]> m | None => m end)
             (cb_peers b) ∅;
  links := ∅;
  addrs := ∅;
  seen := ∅;
  pairing := None;
  pair_quiet_until := 0;
  pending_pair_dials := ∅;
  pending_peer_dials := ∅;
  dial_trouble := ∅;
  reconnect_at := None;
  plugins := cb_plugins b;
  effect_owner := ∅;
  bulk_owner := ∅;
  next_transfer := 0;
  bulk_wait := ∅;
  caps_out := dedup (sort_unstable (concat (map (pm_outgoing ∘ dyn_manifest) (cb_plugins b))));
  caps_in := dedup (sort_unstable (concat (map (pm_incoming ∘ dyn_manifest) (cb_plugins b))));
  caps_served := dedup (sort_unstable (concat (map (served_by (cb_effects b)) (cb_plugins b))));
  serves := EffectSet_new (cb_effects b);
  next_token := 0;
  next_dial := 0;
  next_msg_id := 0;
  wall_ms := 0;
  plugin_wake := None;
|}.

(** The calls come to what they were given. *)
Lemma builder_spec id config kinds ps records :
  with_restored records (with_plugins ps (with_effects kinds (CoreBuilder_new id config))) =
  mkCoreBuilder id config kinds ps records.
Proof.
  unfold with_plugins. assert (∀ b, fold_left (λ b p, with_plugin p b) ps b =
    mkCoreBuilder (cb_identity b) (cb_config b) (cb_effects b) (cb_plugins b ++ ps) (cb_peers b)) as ->; [|done].
  induction ps as [|p ps IH]; intros b; cbn [fold_left]; [rewrite app_nil_r; by destruct b|].
  rewrite IH. unfold with_plugin, push. cbn. by rewrite <- app_assoc.
Qed.
End handle.
