(* ===== verification/CoreSteps.v ===== *)
(** * An abstract specification of [Core]: the steps an event may take

    [step c0 now ev] is a transition system on the state and the actions put out
    so far: what [Core] may do, one change at a time, while it handles [ev] from
    [c0].  Each change that matters carries the condition under which it is
    allowed: who may enter the trust store and by which command, which link a
    message may leave on and how long it may be, which plugin may be called
    with what.  [CoreRefines] shows that [handle] takes only such steps;
    invariants and safety properties are then proved once, by induction on the
    steps.  *)

From S2P Require Import Prelude Externals Ids Frame Hello Envelope PairingKeys Bulk Link.
From S2P Require Import Peer Vocab Noise Plugin CoreState CoreQueries CoreOps CoreHandle.
Local Open Scope N_scope.

Section steps.
  Context `{Externs}.
  (** The state the event found, the moment and the event. *)
  Variables (c0 : Core) (now : u64) (ev : Event).

(** The part of the state the rules below guard; any change of the rest is allowed. *)
Definition guarded (c : Core) :=
  (identity c, config c, peers c, links c, pairing c, plugins c, effect_owner c, bulk_owner c,
   (caps_out c, caps_in c, caps_served c, serves c, wall_ms c),
   (next_token c, next_transfer c, plugin_wake c)).

(** *** Links and sessions *)

(** Two views of one established link: only the cipher and the time differ. *)
Definition same_link (u v : UpLink) : Prop :=
  ul_peer u = ul_peer v /\ ul_handshake_hash u = ul_handshake_hash v /\ ul_bulk u = ul_bulk v /\
  ul_max_message u = ul_max_message v /\ ul_transport u = ul_transport v /\
  ul_kind u = ul_kind v /\ can_send u = can_send v /\ can_recv u = can_recv v.

(** The same links are established in both, and each is the same but for those two. *)
Definition ups_kept (c c' : Core) : Prop :=
  (∀ l u, links c !! l = Some (Up u) -> ∃ u', links c' !! l = Some (Up u') /\ same_link u u') /\
  (∀ l u', links c' !! l = Some (Up u') -> ∃ u, links c !! l = Some (Up u) /\ same_link u u').

(** A session seals or opens one message. *)
Inductive session_move : Session -> Session -> Prop :=
| move_seal s plaintext : session_move s (session_encrypt s plaintext).1
| move_open s ciphertext : session_move s (session_decrypt s ciphertext).1.

(** *** Handshakes

    What the event's frame does to the handshake the link is in, as [c0] has it. *)

(** The frame is the opener of a session, or the answer to ours: the trusted
    peer it was made for, what it carries, the handshake once it is read, and
    the link's attributes; [true] for the side that still has to answer. *)
Inductive greets (l : LinkId) (msg : bytes) : DeviceId -> bytes -> Handshake -> LinkAttrs -> bool -> Prop :=
| greets_opener body p pk rec psk hs0 hs payload :
    split msg = Ok (SessionHandshake, body) -> links c0 !! l = Some (Pending p) ->
    session_identify (identity c0) body = Ok pk -> peers c0 !! DeviceId_of pk = Some rec ->
    session_psk_array rec = Some psk -> session_responder (identity c0) psk = Ok hs0 ->
    hs_read hs0 body = (hs, Ok payload) ->
    greets l msg (DeviceId_of pk) payload hs (pl_attrs p) true
| greets_answer body h peer hs payload :
    split msg = Ok (SessionHandshake, body) -> links c0 !! l = Some (Handshaking h) ->
    pairing_flow h = false -> hl_expect h = Some peer ->
    hs_read (hl_hs h) body = (hs, Ok payload) -> is_complete hs = true ->
    greets l msg peer payload hs (hl_attrs h) false.

(** It carries a hello newer than any accepted from that device, [rec0] being its
    record and [seen] the time the hello is from. *)
Definition greeted (l : LinkId) (peer : DeviceId) (hs : Handshake) (attrs : LinkAttrs) (answers : bool)
    (hello : Hello) (rec0 : PeerRecord) (seen : GreatestSeen) : Prop :=
  ∃ msg payload, ev = LinkRecv l msg /\ greets l msg peer payload hs attrs answers /\
    cbor_decode payload = Some hello /\ peers c0 !! peer = Some rec0 /\
    check_freshness hello (wall_ms c0) (pr_greatest_seen rec0) = Ok seen.

(** The handshake at its end: the side that answers does so with its own hello. *)
Definition concluded (answers : bool) (hs hs' : Handshake) : Prop :=
  if answers then ∃ hello m, to_vec (core_hello c0) = Some hello /\ hs_write hs hello = (hs', Ok m)
  else hs' = hs.

(** The link such a handshake establishes. *)
Definition session_link (session : Session) (hash : bytes) (peer : DeviceId) (attrs : LinkAttrs)
    (hello : Hello) : UpLink := {|
  ul_session := session;
  ul_peer := peer;
  ul_handshake_hash := hash;
  ul_bulk := la_bulk attrs;
  ul_max_message := la_max_message attrs;
  ul_last_recv_ms := now;
  ul_transport := la_transport attrs;
  ul_kind := la_kind attrs;
  can_send := negotiate (caps_out c0) (hello_caps_in hello);
  can_recv := negotiate (hello_caps_out hello) (caps_in c0);
|}.

(** [u] is the link the frame that arrived on [l] establishes; [rec] is what
    becomes of its peer's record. *)
Definition comes_up (l : LinkId) (u : UpLink) (rec : PeerRecord) : Prop :=
  (∀ u0, links c0 !! l <> Some (Up u0)) /\
  ∃ peer hs attrs answers hello rec0 seen hs' hash session,
    greeted l peer hs attrs answers hello rec0 seen /\ concluded answers hs hs' /\
    handshake_hash hs' = Ok hash /\ into_session hs' attrs = Ok session /\
    u = session_link session hash peer attrs hello /\ rec = refresh_record rec0 seen hello.

(** The state of a handshake that is about to write a message on the link: its
    kind, what it was made from, what it says, and whom it is with, if that is
    known. *)
Inductive shakes (l : LinkId) : FrameKind -> Handshake -> bytes -> option DeviceId -> Prop :=
| shakes_pair attrs d hs :
    ev = LinkUp l attrs d -> pair_initiator (identity c0) = Ok hs -> shakes l PairHandshake hs [] None
| shakes_open attrs d peer rec pk psk hs hello :
    ev = LinkUp l attrs d -> peers c0 !! peer = Some rec -> public_key_array rec = Some pk ->
    session_psk_array rec = Some psk -> session_initiator (identity c0) psk pk = Ok hs ->
    to_vec (core_hello c0) = Some hello -> shakes l SessionHandshake hs hello (Some peer)
| shakes_pair_back msg body p hs0 hs payload hello :
    ev = LinkRecv l msg -> split msg = Ok (PairHandshake, body) -> links c0 !! l = Some (Pending p) ->
    pair_responder (identity c0) = Ok hs0 -> hs_read hs0 body = (hs, Ok payload) ->
    to_vec (core_hello c0) = Some hello -> shakes l PairHandshake hs hello None
| shakes_pair_last msg body h hs payload hello :
    ev = LinkRecv l msg -> split msg = Ok (PairHandshake, body) -> links c0 !! l = Some (Handshaking h) ->
    pairing_flow h = true -> hs_read (hl_hs h) body = (hs, Ok payload) -> is_my_turn hs = true ->
    to_vec (core_hello c0) = Some hello -> shakes l PairHandshake hs hello (hl_expect h)
| shakes_answer peer hs attrs hello rec0 seen mine :
    greeted l peer hs attrs true hello rec0 seen -> to_vec (core_hello c0) = Some mine ->
    shakes l SessionHandshake hs mine (Some peer).

(** What may be put in the table for a link that is not established: one that
    waits for its first frame, a handshake that wrote its message, or one that
    read its message and waits for another. *)
Definition early_ok (l : LinkId) (st : LinkState) : Prop :=
  match st with
  | Pending p =>
      (∃ attrs d, ev = LinkUp l attrs d /\ pl_attrs p = attrs) \/
      (∃ msg h, ev = LinkRecv l msg /\ links c0 !! l = Some (Handshaking h) /\ pairing_flow h = true /\
         p = mkPendingLink (hl_attrs h) (hl_deadline h))
  | Handshaking h =>
      (∃ kind hs payload m, shakes l kind hs payload (hl_expect h) /\
         hs_write hs payload = (hl_hs h, Ok m) /\ pairing_flow h = bool_decide (kind = PairHandshake)) \/
      (∃ msg kind body h0 payload, ev = LinkRecv l msg /\ split msg = Ok (kind, body) /\
         links c0 !! l = Some (Handshaking h0) /\ hs_read (hl_hs h0) body = (hl_hs h, Ok payload) /\
         is_complete (hl_hs h) = false /\ h = h0 <| hl_hs := hl_hs h |>)
  | Up _ => False
  end.

(** *** Pairing *)

(** What a finished pairing handshake asks a person to confirm: the record of the
    device whose key it proved, and the digits, both from the hash both ends
    of the handshake share. *)
Definition pairing_offer (l : LinkId) (pk hash : bytes) (hello : Hello)
    (via : option (TransportId * string)) : AwaitingConfirm :=
  mkAwaitingConfirm l
    {| pr_device_id := did_str (DeviceId_of pk); pr_public_key := pk; pr_name := hello_name hello;
       pr_platform := hello_platform hello; pr_session_psk := session_psk hash; pr_greatest_seen := 0;
       pr_caps_out := hello_caps_out hello; pr_caps_in := hello_caps_in hello |}
    (sas hash) via.

(** The frame is the last of the pairing handshake the link is in, which it and our
    answer, where it is our turn, complete: the key and the hash it ends
    with, and the hello it carries. *)
Definition paired_by (l : LinkId) (a : AwaitingConfirm) : Prop :=
  ∃ msg body h hs payload hs' hash pk hello,
    ev = LinkRecv l msg /\ split msg = Ok (PairHandshake, body) /\
    links c0 !! l = Some (Handshaking h) /\ pairing_flow h = true /\
    hs_read (hl_hs h) body = (hs, Ok payload) /\ concluded (is_my_turn hs) hs hs' /\
    is_complete hs' = true /\ handshake_hash hs' = Ok hash /\ peer_static hs' = Some pk /\
    cbor_decode payload = Some hello /\ a = pairing_offer l pk hash hello (hl_via h).

(** *** Sending *)

(** A transport frame on an established link: the sealing, by that link's own
    session, of a message of a capability negotiated for sending, of a size the
    link takes. *)
Definition frame_ok (u : UpLink) (msg : bytes) : Prop :=
  ∃ env plaintext s ct,
    env_cap env ∈ can_send u /\ to_vec env = Some plaintext /\
    session_encrypt (ul_session u) plaintext = (s, Ok ct) /\ msg = join Transport ct /\
    len msg <= ul_max_message u.

(** A handshake message of this link. *)
Definition shake_ok (l : LinkId) (msg : bytes) : Prop :=
  ∃ kind hs payload expect hs' m,
    shakes l kind hs payload expect /\ hs_write hs payload = (hs', Ok m) /\ msg = join kind m.

(** What sealing an envelope for an established link puts out: the frame, if it
    fits, or else a notice that it was lost. *)
Definition lost (peer : DeviceId) (a : Action) : Prop :=
  ∃ code d, a = Ui (UiError (Some peer) code d) /\ (code = TooLarge \/ code = Internal).
Definition seals (l : LinkId) (u : UpLink) (env : Envelope) (s : Session) (a : Action) : Prop :=
  ∃ plaintext r, env_cap env ∈ can_send u /\ to_vec env = Some plaintext /\
    session_encrypt (ul_session u) plaintext = (s, r) /\
    (lost (ul_peer u) a \/
     ∃ ct, r = Ok ct /\ a = LinkSend l (join Transport ct) /\ len (join Transport ct) <= ul_max_message u).

(** An established link as a frame that arrived on it leaves it. *)
Definition received (kind : FrameKind) (body : bytes) (u0 u : UpLink) : Prop :=
  same_link u0 u /\
  ul_session u = (if bool_decide (kind = Transport) then (session_decrypt (ul_session u0) body).1 else ul_session u0).

(** The writing of a trusted device's record, and its erasure. *)
Definition persisted (rec : PeerRecord) (b : bytes) : Action :=
  Persist ("peer/" +:+ pr_device_id rec) (Some b) Secret.
Definition erased (id : DeviceId) : Action := Persist ("peer/" +:+ did_str id) None Secret.

(** What the state has to show for an action to be put out. *)
Definition action_ok (c : Core) (a : Action) : Prop :=
  match a with
  | LinkSend l msg => shake_ok l msg \/ (∃ u, links c !! l = Some (Up u) /\ frame_ok u msg)
  | BulkListen t as_ k _ =>
      ∃ peer hash, handshake_hash_for peer c = Some hash /\
        bulk_support_for peer c <> Some BulkNone /\ k = key hash (did_str peer) as_
  | BulkSend t _ k =>
      ∃ peer hash, handshake_hash_for peer c = Some hash /\
        bulk_support_for peer c <> Some BulkNone /\ k = key hash (did_str (core_device_id c)) t
  | Persist k v s =>
      s = Secret /\
      match v with
      | Some b => ∃ rec, k = "peer/" +:+ pr_device_id rec /\ to_vec rec = Some b /\
          ∃ id, peers c !! id = Some rec
      | None => ∃ peer, ev = Local (Revoke peer) /\ k = "peer/" +:+ did_str peer /\ peers c !! peer = None
      end
  | Advertise _ _ _ | Discover _ _ => False
  | _ => True
  end.

(** A frame that goes out by itself is a handshake message; other frames only go
    out as they are sealed. *)
Definition emit_ok (c : Core) (a : Action) : Prop :=
  match a with LinkSend l msg => shake_ok l msg | _ => action_ok c a end.

(** *** Calls of the plugins *)

(** Which call of one plugin the event allows, and in which state. *)
Definition message_allowed (p : DynPlugin) (peer : DeviceId) (env : Envelope) : Prop :=
  ∃ l msg body u plaintext,
    ev = LinkRecv l msg /\ split msg = Ok (Transport, body) /\
    links c0 !! l = Some (Up u) /\ ul_peer u = peer /\
    (session_decrypt (ul_session u) body).2 = Ok plaintext /\
    cbor_decode plaintext = Some env /\
    env_cap env ∈ can_recv u /\ handles (dyn_manifest p) (env_cap env) = true /\ env_ty env <> "err".

Definition call_allowed (c : Core) (idx : nat) (p : DynPlugin) (k : Call) : Prop :=
  match k with
  | CMessage peer env => plugins c0 !! idx = Some p /\ message_allowed p peer env
  | CLocal peer ty body =>
      plugins c0 !! idx = Some p /\
      ∃ cap, ev = Local (LocalPlugin peer cap ty body) /\ handles (dyn_manifest p) cap = true
  | CEffectResult t r =>
      plugins c0 !! idx = Some p /\ ev = EffectDone t r /\ effect_owner c0 !! t = Some idx
  | CBulkListening t e =>
      plugins c0 !! idx = Some p /\ ev = BulkListening t e /\ bulk_owner c0 !! t = Some idx
  | CBulkFinished t ok detail =>
      bulk_owner c !! t = Some idx /\
      ((ev = BulkFinished t ok detail /\ plugins c0 !! idx = Some p) \/
       (ev = Tick /\ ok = false /\ detail = "the sender never connected" /\
        ∃ d, bulk_wait c0 !! t = Some d /\ d <= now))
  | _ => False
  end.

(** Which call of all of them: of a link this frame just established, of the end of
    a peer's last, or of the time one of them asked to be woken at. *)
Definition told_allowed (c : Core) (k : Call) : Prop :=
  match k with
  | CConnected peer =>
      plugins c = plugins c0 /\
      ∃ l u rec, links c !! l = Some (Up u) /\ ul_peer u = peer /\ comes_up l u rec
  | CDisconnected peer =>
      (∃ l u, links c0 !! l = Some (Up u) /\ ul_peer u = peer) /\ best_link peer c = None
  | _ => False
  end.

(** The context a plugin is called with. *)
Definition call_cx (c : Core) (k : Call) : Cx :=
  let cx := Cx_new now (next_token c) (next_transfer c) (serves c) in
  match k with
  | CMessage peer _ | CLocal peer _ _ => for_peer_link (bulk_support_for peer c) cx
  | _ => cx
  end.

(** What one call leaves: the plugin's new state, the numbers it used up, and it
    as the owner of just the effects and transfers it asked for. *)
Definition own_effects (idx : nat) (cx : Cx) (m : gmap EffectToken nat) : gmap EffectToken nat :=
  fold_left (λ m '(t, _), <[t := idx]> m) (cx_effects cx) m.
Definition own_bulk (idx : nat) (cx : Cx) (m : gmap TransferId nat) : gmap TransferId nat :=
  fold_left (λ m b, match b with
                    | BrListen _ t _ _ | BrSend _ t _ => <[t := idx]> m
                    | BrCancel _ => m
                    end) (cx_bulk cx) m.
Definition called (idx : nat) (p : DynPlugin) (cx : Cx) (c : Core) : Core :=
  c <| plugins ::= insert idx p |>
    <| next_token := cx_next_token cx |> <| next_transfer := cx_next_transfer cx |>
    <| effect_owner ::= own_effects idx cx |> <| bulk_owner ::= own_bulk idx cx |>.

(** What telling all of them leaves. *)
Definition told (k : Call) (c : Core) : Core :=
  let r := call_each k (plugins c) (Cx_new now (next_token c) (next_transfer c) (serves c)) in
  c <| plugins := r.1 |> <| next_token := cx_next_token r.2 |> <| next_transfer := cx_next_transfer r.2 |>.

Definition sooner (w : u64) (p : option u64) : option u64 :=
  Some (match p with Some p => N.min p w | None => w end).

Inductive step : St -> St -> Prop :=
| step_emit a c out : emit_ok c a -> step (c, out) (c, push a out)
| step_free c c' out : guarded c' = guarded c -> step (c, out) (c', out)
| step_drop_link l c out : step (c, out) (c <| links ::= delete l |>, out)
| step_early_link l st c out :
    early_ok l st -> step (c, out) (c <| links ::= insert l st |>, out)
| step_link_up l u rec c out :
    comes_up l u rec -> peers c !! ul_peer u = Some rec ->
    step (c, out) (c <| links ::= insert l (Up u) |>, out)
| step_link_back l msg kind body u0 u c :
    ev = LinkRecv l msg -> split msg = Ok (kind, body) -> links c0 !! l = Some (Up u0) ->
    received kind body u0 u -> is_Some (peers c !! ul_peer u) ->
    step (c, []) (c <| links ::= insert l (Up u) |>, [])
| step_link_seal l u env s a c out :
    links c !! l = Some (Up u) -> seals l u env s a ->
    step (c, out) (c <| links ::= insert l (Up (u <| ul_session := s |>)) |>, push a out)
| step_adopt peer c out : step (c, out) (c <| links ::= fmap (adopt_link peer) |>, out)
| step_pair_begin d c out :
    why_not_pair now c = None ->
    step (c, out) (c <| pairing := Some (mkPairingWindow d None) |>, out)
| step_pair_end c out : step (c, out) (c <| pairing := None |>, out)
| step_pair_take w b c out :
    ev = Local (ConfirmPairing b) -> pairing c = Some w ->
    step (c, out) (c <| pairing := Some (w <| awaiting := None |>) |>, out)
| step_pair_await l w a d c out :
    pairing c0 = Some w -> pairing c = Some w -> awaiting w = None -> paired_by l a ->
    step (c, out) (c <| pairing := Some (mkPairingWindow d (Some a)) |>, out)
| step_refresh l peer hs attrs answers hello rec seen b c out :
    greeted l peer hs attrs answers hello rec seen -> peers c !! peer = Some rec ->
    to_vec (refresh_record rec seen hello) = Some b ->
    step (c, out) (c <| peers ::= insert peer (refresh_record rec seen hello) |>,
                   push (persisted (refresh_record rec seen hello) b) out)
| step_trust w a id b c out :
    ev = Local (ConfirmPairing true) -> pairing c0 = Some w -> awaiting w = Some a ->
    record_id (aw_record a) = Some id -> to_vec (aw_record a) = Some b ->
    step (c, out) (c <| peers ::= insert id (aw_record a) |>,
                   push (Ui (UiPairingComplete id (pr_name (aw_record a))))
                     (push (persisted (aw_record a) b) out))
| step_forget id c out :
    ev = Local (Revoke id) ->
    step (c, out) (c <| peers ::= delete id |> <| addrs ::= delete id |> <| dial_trouble ::= delete id |>,
                   push (erased id) out)
| step_call idx p k c out :
    plugins c !! idx = Some p -> call_allowed c idx p k ->
    let r := dyn_call k p (call_cx c k) in
    step (c, out) (called idx r.1 r.2 c, out)
| step_tell k c out : told_allowed c k -> step (c, out) (told k c, out)
| step_tick w c out :
    ev = Tick -> plugin_wake c = Some w -> w <= now ->
    step (c, out) (told CTick (c <| plugin_wake := None |>), out)
| step_wake w c out : step (c, out) (c <| plugin_wake ::= sooner w |>, out)
| step_disown_effect t c out : step (c, out) (c <| effect_owner ::= delete t |>, out)
| step_disown_bulk t c out : step (c, out) (c <| bulk_owner ::= delete t |>, out).

(** ** The invariant *)

Definition owners_in_range (c : Core) : Prop :=
  map_Forall (λ _ i, (i < length (plugins c))%nat) (effect_owner c) /\
  map_Forall (λ _ i, (i < length (plugins c))%nat) (bulk_owner c).

(** Every record is filed under the device id of its own key. *)
Definition filed_by_key (c : Core) : Prop := map_Forall (λ id r, record_id r = Some id) (peers c).

(** A live session is with a device that is trusted (or being revoked). *)
Definition ups_trusted (c : Core) : Prop :=
  ∀ l u, links c !! l = Some (Up u) ->
    is_Some (peers c !! ul_peer u) \/ ev = Local (Revoke (ul_peer u)).

Definition Inv (c : Core) : Prop := owners_in_range c /\ filed_by_key c /\ ups_trusted c.

Lemma length_call_each k ps cx : length (call_each k ps cx).1 = length ps.
Proof.
  revert cx; induction ps as [|p ps IH]; intros cx; [done|]. cbn [call_each].
  destruct (dyn_call k p cx) as [p' cx']. specialize (IH cx').
  destruct (call_each k ps cx'). cbn in *. by rewrite IH.
Qed.

Lemma guarded_eq c c' : guarded c' = guarded c ->
  identity c' = identity c /\ config c' = config c /\ peers c' = peers c /\ links c' = links c /\
  pairing c' = pairing c /\ plugins c' = plugins c /\ effect_owner c' = effect_owner c /\
  bulk_owner c' = bulk_owner c /\ caps_out c' = caps_out c /\ caps_in c' = caps_in c /\
  caps_served c' = caps_served c /\ serves c' = serves c /\ wall_ms c' = wall_ms c /\
  next_token c' = next_token c /\ next_transfer c' = next_transfer c /\ plugin_wake c' = plugin_wake c.
Proof. unfold guarded. intros E. by simplify_eq. Qed.

Lemma record_id_refresh rec s h : record_id (refresh_record rec s h) = record_id rec.
Proof. by apply record_id_key. Qed.

(** A link table in which only links that were established still are. *)
Lemma ups_trusted_sub c c' :
  (∀ id, is_Some (peers c !! id) -> is_Some (peers c' !! id)) ->
  (∀ l u, links c' !! l = Some (Up u) -> ∃ l' u', links c !! l' = Some (Up u') /\ ul_peer u' = ul_peer u) ->
  ups_trusted c -> ups_trusted c'.
Proof.
  intros Hp Hl HU l u Hu. apply Hl in Hu as (l' & u' & Hu' & <-).
  destruct (HU l' u' Hu') as [?|?]; [left; by apply Hp|by right].
Qed.

Lemma up_after_insert (m : gmap LinkId LinkState) l st l' u :
  <[l := st]> m !! l' = Some (Up u) -> (l = l' /\ st = Up u) \/ (l <> l' /\ m !! l' = Some (Up u)).
Proof. intros [[-> ->]|[? ?]]%lookup_insert_Some; auto. Qed.

Lemma up_after_adopt peer (m : gmap LinkId LinkState) l u :
  fmap (adopt_link peer) m !! l = Some (Up u) -> m !! l = Some (Up u).
Proof.
  rewrite lookup_fmap. destruct (m !! l) as [[]|]; cbn; try done. 
Qed.

Lemma same_link_refl u : same_link u u.
Proof. unfold same_link. split_and!; done. Qed.
Lemma same_link_trans u v w : same_link u v -> same_link v w -> same_link u w.
Proof. unfold same_link. intros (->&->&->&->&->&->&->&->) ?. done. Qed.
Lemma same_link_session u s : same_link u (u <| ul_session := s |>).
Proof. unfold same_link. split_and!; done. Qed.

Lemma ups_kept_same c c' : links c' = links c -> ups_kept c c'.
Proof. unfold ups_kept. intros ->. split; intros l u ?; (exists u; split; [done|apply same_link_refl]). Qed.

(** A link whose session sealed something is the same link. *)
Lemma ups_kept_seal (c : Core) l u s :
  links c !! l = Some (Up u) -> ups_kept c (c <| links ::= insert l (Up (u <| ul_session := s |>)) |>).
Proof.
  intros Hl. split; intros l' v; cbn.
  - intros Hv. destruct (decide (l = l')) as [->|Hne].
    + rewrite Hl in Hv. injection Hv as <-. rewrite lookup_insert_eq. eexists. split; [done|apply same_link_session].
    + rewrite lookup_insert_ne by done. exists v. split; [done|apply same_link_refl].
  - intros [[<- [= <-]]|[_ Hv]]%up_after_insert.
    + exists u. split; [done|apply same_link_session].
    + exists v. split; [done|apply same_link_refl].
Qed.

Lemma ups_kept_adopt (c : Core) peer : ups_kept c (c <| links ::= fmap (adopt_link peer) |>).
Proof.
  split; intros l u; cbn.
  - intros Hu. rewrite lookup_fmap, Hu. exists u. split; [done|apply same_link_refl].
  - intros Hu%up_after_adopt. exists u. split; [done|apply same_link_refl].
Qed.

Lemma owners_cong c c' :
  length (plugins c') = length (plugins c) -> effect_owner c' = effect_owner c ->
  bulk_owner c' = bulk_owner c -> owners_in_range c -> owners_in_range c'.
Proof. unfold owners_in_range. by intros -> -> ->. Qed.

Lemma emit_action_ok c a : emit_ok c a -> action_ok c a.
Proof. destruct a; try done. by left. Qed.

(** What a sealing puts out is allowed in the state it is done in. *)
Lemma seals_action_ok l u env s a c : links c !! l = Some (Up u) -> seals l u env s a -> action_ok c a.
Proof.
  intros Hl (pt & r & Hc & Ht & He & [(code & d & -> & _)|(ct & -> & -> & Hlen)]); [done|].
  right. exists u. split; [done|]. by exists env, pt, s, ct.
Qed.

Lemma early_not_up l st : early_ok l st -> ∀ u, st <> Up u.
Proof. by intros Hst u ->. Qed.

Lemma own_effects_range idx cx m n :
  (idx < n)%nat -> map_Forall (λ _ i, (i < n)%nat) m -> map_Forall (λ _ i, (i < n)%nat) (own_effects idx cx m).
Proof.
  intros Hi. unfold own_effects. revert m. induction (cx_effects cx) as [|[t e] l IH]; intros m Hm; [done|].
  apply IH. by apply map_Forall_insert_2.
Qed.
Lemma own_bulk_range idx cx m n :
  (idx < n)%nat -> map_Forall (λ _ i, (i < n)%nat) m -> map_Forall (λ _ i, (i < n)%nat) (own_bulk idx cx m).
Proof.
  intros Hi. unfold own_bulk. revert m. induction (cx_bulk cx) as [|[] l IH]; intros m Hm; try done;
    apply IH; try done; by apply map_Forall_insert_2.
Qed.

Lemma called_owners idx p cx c :
  (idx < length (plugins c))%nat -> owners_in_range c -> owners_in_range (called idx p cx c).
Proof.
  intros Hi [HE HB]. unfold owners_in_range, called. cbn. rewrite length_insert.
  split; [by apply own_effects_range|by apply own_bulk_range].
Qed.

(** Every step keeps the invariant. *)
Lemma step_inv s s' : step s s' -> Inv s.1 -> Inv s'.1.
Proof.
  intros Hs (HO & HF & HU). destruct Hs; cbn [fst] in *; (split_and!;
    [try (eapply owners_cong; [..|exact HO]; cbn; by rewrite ?length_insert, ?length_call_each)
    |try exact HF|try exact HU]).
  all: try (eapply (ups_trusted_sub c); [done|by eauto|exact HU]).
  - apply guarded_eq in H0 as (_&_&_&_&_&Hp&He&Hb&_). unfold owners_in_range. by rewrite Hp, He, Hb.
  - apply guarded_eq in H0 as (_&_&Hp&_). unfold filed_by_key. by rewrite Hp.
  - apply guarded_eq in H0 as (_&_&Hp&Hl&_). unfold ups_trusted. by rewrite Hp, Hl.
  - eapply (ups_trusted_sub c); [done| |exact HU]. cbn. intros l' u [_ ?]%lookup_delete_Some. eauto.
  - eapply (ups_trusted_sub c); [done| |exact HU]. cbn.
    intros l' u [[_ ->]|[_ ?]]%up_after_insert; [done|eauto].
  - intros l' v. cbn. intros [[_ [= <-]]|[_ ?]]%up_after_insert; [by left; eexists|eauto].
  - intros l' v. cbn. intros [[_ [= <-]]|[_ ?]]%up_after_insert; [by left|eauto].
  - eapply (ups_trusted_sub c); [done| |exact HU]. cbn.
    intros l' v [[_ [= <-]]|[_ ?]]%up_after_insert; eauto.
  - eapply (ups_trusted_sub c); [done| |exact HU]. cbn. intros l' v Hv%up_after_adopt. eauto.
  - unfold filed_by_key. cbn. apply map_Forall_insert_2; [|done].
    rewrite record_id_refresh. by apply HF.
  - eapply (ups_trusted_sub c); [|by eauto|exact HU]. cbn. intros id' ?. by apply lookup_insert_is_Some'; right.
  - unfold filed_by_key. cbn. by apply map_Forall_insert_2.
  - eapply (ups_trusted_sub c); [|by eauto|exact HU]. cbn. intros id' ?. by apply lookup_insert_is_Some'; right.
  - unfold filed_by_key. cbn. by apply map_Forall_delete.
  - intros l u Hu. cbn in *. destruct (decide (id = ul_peer u)) as [->|Hne]; [by right|].
    rewrite lookup_delete_ne by done. eauto.
  - apply called_owners; [by eapply lookup_lt_Some|done].
  - destruct HO as [HE HB]. split; [|done]. cbn. by apply map_Forall_delete.
  - destruct HO as [HE HB]. split; [done|]. cbn. by apply map_Forall_delete.
Qed.

Lemma steps_inv s s' : rtc step s s' -> Inv s.1 -> Inv s'.1.
Proof. induction 1; eauto using step_inv. Qed.
End steps.
