(* ===== verification/CoreRefines.v ===== *)
(** * [Core::handle] refines the steps of [CoreSteps]

    [wp m Q s]: from a state that satisfies the invariant, [m] does not panic,
    everything it does is a sequence of steps, and [Q] holds of its result and
    the state it leaves.  One lemma per method, callees first. *)

From S2P Require Import Prelude Externals Ids Frame Hello Envelope PairingKeys Bulk Link.
From S2P Require Import Peer Vocab Noise Plugin CoreState CoreQueries CoreOps CoreHandle CoreSteps.
Local Open Scope N_scope.

Section refines.
  Context `{Externs} `{!ExternsLaws}.
  Variables (c0 : Core) (now : u64) (ev : Event).

Abbreviation step := (step c0 now ev).
Abbreviation Inv := (Inv ev).

Definition wp {A} (m : M A) (Q : A -> St -> Prop) (s : St) : Prop :=
  Inv s.1 -> ∃ a s', m s = Some (a, s') /\ rtc step s s' /\ Inv s'.1 /\ Q a s'.

(** From a state where [P] holds, [m] runs and [P] holds again. *)
Definition keeps {A} (P : Core -> Prop) (m : M A) : Prop :=
  ∀ s, P s.1 -> wp m (λ _ s', P s'.1) s.
Abbreviation safe m := (keeps (λ _, True) m).

Lemma wp_ret {A} (a : A) Q s : Q a s -> wp (ret a) Q s.
Proof. intros HQ HI. by exists a, s. Qed.

Lemma wp_bind {A B} (m : M A) (k : A -> M B) Q s :
  wp m (λ a s', wp (k a) Q s') s -> wp (bind m k) Q s.
Proof.
  intros Hm HI. destruct (Hm HI) as (a & s1 & E1 & Hr1 & HI1 & Hk).
  destruct (Hk HI1) as (b & s2 & E2 & Hr2 & HI2 & HQ).
  exists b, s2. unfold bind. rewrite E1. split_and!; [done|by etrans|done|done].
Qed.

Lemma wp_mono {A} (m : M A) (Q R : A -> St -> Prop) s :
  (∀ a s', Q a s' -> R a s') -> wp m Q s -> wp m R s.
Proof. intros HQR Hm HI. destruct (Hm HI) as (a & s1 & ? & ? & ? & ?). exists a, s1. auto. Qed.

Lemma wp_inv {A} (m : M A) Q s : (Inv s.1 -> wp m Q s) -> wp m Q s.
Proof. intros Hm HI. by apply Hm. Qed.

Lemma wp_get {A B} (f : Core -> A) (k : A -> M B) Q s :
  wp (k (f s.1)) Q s -> wp (bind (get f) k) Q s.
Proof. done. Qed.

Lemma wp_get_last {A} (f : Core -> A) Q s : Q (f s.1) s -> wp (get f) Q s.
Proof. intros HQ HI. by exists (f s.1), s. Qed.

Lemma wp_step (m : M unit) s s' Q :
  m s = Some (tt, s') -> step s s' -> Q tt s' -> wp m Q s.
Proof.
  intros E Hs HQ HI. exists tt, s'.
  split_and!; [done|by apply rtc_once|by eapply step_inv|done].
Qed.

(** Several operations that make one step together. *)
Lemma wp_fuse {A} (m m' : M A) s s' Q :
  m s = m' s' -> step s s' -> wp m' Q s' -> wp m Q s.
Proof.
  intros E Hs Hm HI. destruct (Hm (step_inv _ _ _ _ _ Hs HI)) as (a & s2 & E2 & Hr & HI2 & HQ).
  exists a, s2. rewrite E. split_and!; [done|by eapply rtc_l|done|done].
Qed.

Lemma wp_upd {T} (p : Core -> T) `{!Setter p} (f : T -> T) Q c out :
  step (c, out) (c <| p ::= f |>, out) -> Q tt (c <| p ::= f |>, out) -> wp (upd p f) Q (c, out).
Proof. intros Hs HQ. by eapply wp_step. Qed.

Lemma wp_emit a Q c out :
  emit_ok c0 ev c a -> Q tt (c, push a out) -> wp (emit a) Q (c, out).
Proof. intros Ha HQ. eapply wp_step; [done|by apply step_emit|done]. Qed.

Lemma wp_for_each {A} (P : Core -> Prop) (l : list A) f Q s :
  (∀ x, x ∈ l -> keeps P (f x)) -> P s.1 -> (∀ s', P s'.1 -> Q tt s') -> wp (for_each l f) Q s.
Proof.
  intros Hf HP HQ. revert s HP. induction l as [|x l IH]; intros s HP; cbn [for_each].
  { apply wp_ret. by apply HQ. }
  apply wp_bind. eapply wp_mono; [|apply Hf; [by left|done]].
  intros [] s' HP'. apply IH; [|done]. intros y Hy. apply Hf. by right.
Qed.

Lemma keeps_for_each {A} (P : Core -> Prop) (l : list A) f :
  (∀ x, keeps P (f x)) -> keeps P (for_each l f).
Proof. intros Hf s HP. eapply wp_for_each; eauto. Qed.

Lemma keeps_ret {A} P (a : A) : keeps P (ret a).
Proof. intros s HP. by apply wp_ret. Qed.

Lemma keeps_bind {A B} P (m : M A) (k : A -> M B) :
  keeps P m -> (∀ a, keeps P (k a)) -> keeps P (bind m k).
Proof. intros Hm Hk s HP. apply wp_bind. eapply wp_mono; [|by apply Hm]. intros a s' ?. by apply Hk. Qed.

Lemma keeps_get {A} P (f : Core -> A) : keeps P (get f).
Proof. intros s HP. by apply wp_get_last. Qed.

Lemma keeps_get_bind {A B} (P : Core -> Prop) (f : Core -> A) (k : A -> M B) :
  (∀ a, keeps P (k a)) -> keeps P (bind (get f) k).
Proof. intros Hk s HP. apply wp_get. by apply Hk. Qed.

Lemma keeps_emit P a : (∀ c, P c -> emit_ok c0 ev c a) -> keeps P (emit a).
Proof. intros Ha [c out] HP. apply wp_emit; [by apply Ha|done]. Qed.

Lemma keeps_upd {T} (P : Core -> Prop) (p : Core -> T) `{!Setter p} (f : T -> T) :
  (∀ c out, P c -> step (c, out) (c <| p ::= f |>, out)) ->
  (∀ c, P c -> P (c <| p ::= f |>)) -> keeps P (upd p f).
Proof. intros Hs HP [c out] Hc. apply wp_upd; [by apply Hs|by apply HP]. Qed.

(** A change outside the guarded part. *)
Lemma step_unguarded {T} (p : Core -> T) `{!Setter p} (f : T -> T) c out :
  guarded (c <| p ::= f |>) = guarded c -> step (c, out) (c <| p ::= f |>, out).
Proof. apply step_free. Qed.

(** What a step of the interpreter looks like, on a goal [wp m Q s] or [keeps P m]. *)
Ltac wp_go :=
  repeat first
    [ apply wp_get; cbn [fst snd]
    | match goal with
      | |- wp (bind (bind _ _) _) _ _ => apply wp_bind, wp_bind
      | |- wp (bind (upd _ _) _) _ _ =>
          apply wp_bind, wp_upd; [by (apply step_free; done)|cbn [fst snd]]
      | |- wp (bind (ui _) _) _ _ => apply wp_bind, wp_emit; [done|cbn [fst snd]]
      | |- wp (bind (emit (Close _ _)) _) _ _ => apply wp_bind, wp_emit; [done|cbn [fst snd]]
      | |- wp (bind (ret _) _) _ _ => apply wp_bind, wp_ret
      end ].

Ltac keeps_go :=
  repeat first
    [ progress (intros)
    | apply keeps_ret
    | apply keeps_get_bind; intros ?; cbn beta
    | apply keeps_bind; [|intros ?]
    | apply keeps_get
    | apply keeps_emit; by intros
    | apply keeps_upd; [intros; apply step_free; done|by intros]
    | case_match ].

(** ** Sending *)

Lemma upd_delete_link l P :
  (∀ c, P c -> P (c <| links ::= delete l |>)) -> keeps P (upd links (delete l)).
Proof. intros HP. apply keeps_upd; [intros; apply step_drop_link|done]. Qed.

Lemma fail_link_safe link detail P :
  (∀ c, P c -> P (c <| links ::= delete link |>)) -> keeps P (fail_link link detail).
Proof.
  intros HP. unfold fail_link. apply keeps_get_bind. intros was.
  apply keeps_bind; [by apply upd_delete_link|intros []].
  apply keeps_bind; [by apply keeps_emit|intros []]. by apply keeps_emit.
Qed.

(** Facts about the state that the methods which only send, dial or answer leave
    alone: they speak of nothing but the plugins' number, the trust store, the
    pairing, the clock and which links are established. *)
Definition stable (P : Core -> Prop) : Prop :=
  ∀ c c', length (plugins c') = length (plugins c) -> peers c' = peers c ->
          pairing c' = pairing c -> wall_ms c' = wall_ms c -> ups_kept c c' -> P c -> P c'.

(** The same, and each plugin's state: nothing that sends or dials calls one. *)
Definition quietly (P : Core -> Prop) : Prop :=
  ∀ c c', plugins c' = plugins c -> peers c' = peers c ->
          pairing c' = pairing c -> wall_ms c' = wall_ms c -> ups_kept c c' -> P c -> P c'.

#[local] Hint Extern 0 (ups_kept _ _) => apply ups_kept_same; reflexivity : core.

Lemma stable_quietly P : stable P -> quietly P.
Proof. intros HP c c' Hp. apply HP. by rewrite Hp. Qed.

Lemma stable_True : stable (λ _, True).
Proof. done. Qed.

Lemma stable_free P c c' : quietly P -> guarded c' = guarded c -> P c -> P c'.
Proof.
  intros HP HG. apply guarded_eq in HG as (_&_&Hp&Hl&Hpa&Hpl&_&_&_&_&_&_&Hw&_).
  apply HP; by (congruence || apply ups_kept_same).
Qed.

Lemma keeps_free {T} P (p : Core -> T) `{!Setter p} (f : T -> T) :
  quietly P -> (∀ c, guarded (c <| p ::= f |>) = guarded c) -> keeps P (upd p f).
Proof.
  intros HP HG. apply keeps_upd; [intros; by apply step_free|].
  intros c Hc. by apply (stable_free P c).
Qed.

Lemma keeps_ui P e : keeps P (ui e).
Proof. by apply keeps_emit. Qed.

Lemma dispatch_send_safe n s P : quietly P -> keeps P (dispatch_send n s).
Proof.
  intros HP [c out] Hc. unfold dispatch_send. apply wp_get. cbn [fst].
  destruct (best_link (ps_peer s) c) as [[link u']|]; [|by apply wp_emit].
  apply wp_get. cbn [fst].
  destruct (links c !! link) as [[| |u]|] eqn:El; try by apply wp_ret.
  destruct (existsb _ _) eqn:Ecap; cbn [negb]; [|by apply wp_emit].
  apply wp_bind, wp_upd; [by apply step_free|]. apply wp_get. cbn [fst].
  destruct (to_vec _) as [plaintext|] eqn:Ev; [|apply wp_ret; cbn; by eapply (stable_free P c)].
  destruct (session_encrypt _ _) as [session r] eqn:Ee. cbn [fst].
  set (env := mkEnvelope _ _ _ _ _ _ _ _) in *. apply existsb_eqb_elem in Ecap.
  assert (∀ m a, (∀ c1, m (c1, out) = Some (tt, (c1, push a out))) ->
    (lost (ul_peer u) a \/
     ∃ ct, r = Ok ct /\ a = LinkSend link (join Transport ct) /\ len (join Transport ct) <= ul_max_message u) ->
    wp (upd links (insert link (Up (u <| ul_session := session |>))) ;;! m) (λ _ s', P s'.1)
      (c <| next_msg_id ::= λ n, wrap32 (n + 1) |>, out)) as Hseal.
  { intros m a Hm Ha. eapply wp_step; [apply Hm|apply (step_link_seal _ _ _ link u env)|eapply (HP c); try done; by apply (ups_kept_seal c)]; [done|].
    by exists plaintext, r. }
  destruct r as [ct|e]; [|eapply Hseal; [done|left; eexists _, _; split; [done|by right]]].
  destruct (N.ltb_spec (ul_max_message u) (len (join Transport ct)));
    (eapply Hseal; [done|]); [left; eexists _, _; split; [done|by left]|right; by exists ct].
Qed.

Lemma send_error_safe n peer env code P : quietly P -> keeps P (send_error n peer env code).
Proof. apply dispatch_send_safe. Qed.

Lemma dispatch_bulk_safe n b P : quietly P -> keeps P (dispatch_bulk n b).
Proof.
  intros HP [c out] Hc. unfold dispatch_bulk.
  assert (∀ peer t, wp (ui (UiError (Some peer) NotAllowed
              ("transport for connection to " +:+ did_str peer
                +:+ " does not support file transfers. change transports and try again.")) ;;!
        emit (BulkCancel t) ;;! upd bulk_owner (delete t)) (λ _ s', P s'.1) (c, out)) as Hno.
  { intros peer t. apply wp_bind, wp_emit; [done|]. apply wp_bind, wp_emit; [done|].
    apply wp_upd; [apply step_disown_bulk|]. by eapply (HP c). }
  destruct b as [peer t as_ size|peer t ep|t]; [..|by apply wp_emit].
  all: apply wp_get; cbn [fst]; case_bool_decide as Hbulk; [apply Hno|];
    apply wp_get; cbn [fst]; destruct (handshake_hash_for peer c) as [hash|] eqn:Eh;
    [|by apply wp_emit]; apply wp_get; cbn [fst snd].
  - apply wp_bind, wp_upd; [by apply step_free|]. cbn [fst]. apply wp_emit; [|by eapply (HP c)].
    by exists peer, hash.
  - apply wp_emit; [|done]. by exists peer, hash.
Qed.

Lemma drain_cx_safe cx P : quietly P -> keeps P (drain_cx cx).
Proof.
  intros HP. unfold drain_cx. repeat (apply keeps_bind; [|intros _]).
  - apply keeps_for_each. intros e. apply keeps_ui.
  - apply keeps_for_each. intros [t e]. by apply keeps_emit.
  - apply keeps_for_each. intros b. by apply dispatch_bulk_safe.
  - apply keeps_for_each. intros b. by apply dispatch_send_safe.
  - destruct (cx_wake_at cx) as [w|]; [|apply keeps_ret].
    apply keeps_upd; [intros; apply (step_wake _ _ _ w)|]. intros c Hc. by apply (HP c).
Qed.

(** ** Calling plugins *)

(** The bookkeeping of a call is one step. *)
Lemma for_each_upd {A} {T} (p : Core -> T) `{!Setter p} (g : A -> T -> T) (l : list A) c out :
  (∀ c x y, c <| p ::= g x |> <| p ::= y |> = c <| p ::= λ m, y (g x m) |>) ->
  c <| p ::= λ m, m |> = c ->
  for_each l (λ x, upd p (g x)) (c, out) = Some (tt, (c <| p ::= λ m, fold_left (λ m x, g x m) l m |>, out)).
Proof.
  intros Hc. revert c. induction l as [|x l IH]; intros c Hid; cbn [for_each fold_left]; [by rewrite Hid|].
  unfold bind, upd, modify. cbn [fst snd]. rewrite IH; rewrite !Hc; done.
Qed.

Lemma for_each_ext {A} (l : list A) f g s : (∀ x s, f x s = g x s) -> for_each l f s = for_each l g s.
Proof.
  intros E. revert s. induction l as [|x l IH]; intros s; cbn [for_each]; [done|].
  unfold bind. rewrite E. destruct (g x s) as [[? s']|]; [apply IH|done].
Qed.

Lemma remember_owner_run cx idx c out :
  remember_owner cx idx (c, out) =
  Some (tt, (c <| effect_owner ::= own_effects idx cx |> <| bulk_owner ::= own_bulk idx cx |>, out)).
Proof.
  unfold remember_owner. unfold bind at 1.
  rewrite (for_each_ext _ _ (λ x, upd effect_owner (λ m, let '(t, _) := x in <[t := idx]> m))) by (by intros [? ?] ?).
  rewrite (for_each_upd effect_owner (λ x m, let '(t, _) := x in <[t := idx]> m)) by (by destruct c).
  rewrite (for_each_ext _ _ (λ b, upd bulk_owner (λ m, match b with
     | BrListen _ t _ _ | BrSend _ t _ => <[t := idx]> m | BrCancel _ => m end))).
  - by rewrite (for_each_upd bulk_owner (λ b m, match b with
     | BrListen _ t _ _ | BrSend _ t _ => <[t := idx]> m | BrCancel _ => m end)) by (by destruct c).
  - intros [] [d o]; try done. unfold ret, upd, modify. by destruct d.
Qed.

Lemma run_plugin_run {A} idx (f : DynPlugin -> Cx -> A * (DynPlugin * Cx)) cx p c out :
  plugins c !! idx = Some p ->
  let r := f p cx in
  run_plugin idx f cx (c, out) = (drain_cx r.2.2 ;;! ret r.1) (called idx r.2.1 r.2.2 c, out).
Proof.
  intros Hp. cbv zeta. unfold run_plugin, on_plugin. unfold bind at 1 2, get. cbn [fst]. rewrite Hp.
  destruct (f p cx) as [r [p' cx']]. cbn [fst snd]. unfold bind at 1, upd at 1, modify. cbn [fst snd].
  unfold ret at 1. unfold bind at 1, take_counters, bind at 1, upd, modify. cbn [fst snd].
  unfold bind at 1. by rewrite remember_owner_run.
Qed.

Lemma run_plugin_wp {A} idx (f : DynPlugin -> Cx -> A * (DynPlugin * Cx)) cx k p P c out :
  quietly P -> plugins c !! idx = Some p -> cx = call_cx now c k -> (f p cx).2 = dyn_call k p cx ->
  call_allowed c0 now ev c idx p k -> P (c <| plugins ::= insert idx (dyn_call k p cx).1 |>) ->
  wp (run_plugin idx f cx) (λ _ s', P s'.1) (c, out).
Proof.
  intros HP Hp -> Hf Hk Hc. eapply wp_fuse; [by apply run_plugin_run|rewrite Hf; by apply step_call|].
  apply wp_bind. eapply wp_mono; [|apply (drain_cx_safe _ P); [done|rewrite Hf]].
  - intros [] s' ?. by apply wp_ret.
  - by apply (HP (c <| plugins ::= insert idx (dyn_call k p (call_cx now c k)).1 |>)).
Qed.

(** Calling a plugin does not touch what a [stable] fact speaks of. *)
Lemma stable_call P c idx p : stable P -> P c -> P (c <| plugins ::= insert idx p |>).
Proof. intros HP Hc. apply (HP c); try done. cbn. apply length_insert. Qed.

Lemma tell_plugins_run k c out :
  tell_plugins now k (c, out) =
  drain_cx (call_each k (plugins c) (Cx_new now (next_token c) (next_transfer c) (serves c))).2 (told now k c, out).
Proof.
  unfold tell_plugins, new_cx, all_plugins, told. unfold bind at 1, get at 1. cbn [fst]. unfold bind at 1 2, get. cbn [fst].
  destruct (call_each _ _ _) as [ps cx']. cbn [fst snd]. unfold bind at 1, upd, modify, ret. cbn [fst snd].
  done.
Qed.

Lemma stable_told P k c : stable P -> P c -> P (told now k c).
Proof. intros HP Hc. apply (HP c); try done. unfold told. cbn. apply length_call_each. Qed.

Lemma tell_plugins_wp k P c out :
  stable P -> told_allowed c0 now ev c k -> P c -> wp (tell_plugins now k) (λ _ s', P s'.1) (c, out).
Proof.
  intros HP Hk Hc. eapply wp_fuse; [apply tell_plugins_run|by apply step_tell|].
  apply drain_cx_safe; [by apply stable_quietly|by apply stable_told].
Qed.

Lemma owner_plugin (c : Core) idx :
  (idx < length (plugins c))%nat -> ∃ p, plugins c !! idx = Some p.
Proof. apply lookup_lt_is_Some. Qed.

Lemma dispatch_to_transfer_owner_wp t k P c out :
  stable P -> P c -> call_cx now c k = Cx_new now (next_token c) (next_transfer c) (serves c) ->
  (∀ idx p, bulk_owner c !! t = Some idx -> plugins c !! idx = Some p -> call_allowed c0 now ev c idx p k) ->
  wp (dispatch_to_transfer_owner now t k) (λ _ s', P s'.1) (c, out).
Proof.
  intros HP Hc Hcx Hk. apply wp_inv. intros HI. unfold dispatch_to_transfer_owner.
  apply wp_get. cbn [fst]. destruct (bulk_owner c !! t) as [idx|] eqn:E; [|by apply wp_ret].
  destruct (owner_plugin c idx) as [p Hp]; [by apply (proj2 (proj1 HI) t)|].
  apply wp_get. eapply (run_plugin_wp _ _ _ k p);
    [by apply stable_quietly|done|by rewrite Hcx|done|by apply Hk|by apply stable_call].
Qed.

Lemma on_effect_done_wp t r out :
  ev = EffectDone t r -> wp (on_effect_done now t r) (λ _ _, True) (c0, out).
Proof.
  intros Hev. apply wp_inv. intros HI. unfold on_effect_done. apply wp_get. cbn [fst].
  apply wp_bind, wp_upd; [apply step_disown_effect|].
  destruct (effect_owner c0 !! t) as [idx|] eqn:E; [|by apply wp_ret].
  destruct (owner_plugin c0 idx) as [p Hp]; [by apply (proj1 (proj1 HI) t)|].
  apply wp_get. by apply (run_plugin_wp _ _ _ (CEffectResult t r) p (λ _, True)).
Qed.

(** ** Dialling *)

Lemma dial_safe tr a d P : quietly P -> keeps P (dial now tr a d).
Proof.
  intros HP. unfold dial. apply keeps_bind; [by apply keeps_free|intros _].
  do 2 (apply keeps_get_bind; intros ?).
  apply keeps_bind; [by apply keeps_free|intros _]. by apply keeps_emit.
Qed.

Lemma try_next_route_safe d why P : quietly P -> keeps P (try_next_route now d why).
Proof.
  intros HP. unfold try_next_route. apply keeps_get_bind. intros best.
  case_bool_decide; [apply keeps_ret|].
  destruct (pd_routes d) as [|[tr a] routes]; [|by apply dial_safe].
  apply keeps_bind; [by apply keeps_free|intros _].
  destruct (by_hand d); [apply keeps_ui|apply keeps_ret].
Qed.

Lemma connect_peer_safe peer hand P : quietly P -> keeps P (connect_peer now peer hand).
Proof.
  intros HP. unfold connect_peer. apply keeps_get_bind. intros busy.
  destruct (negb hand && busy); [apply keeps_ret|].
  do 2 (apply keeps_get_bind; intros ?).
  assert (∀ routes, keeps P (dial_first now peer routes hand)) as Hd.
  { intros [|[tr a'] routes]; cbn [dial_first]; [|by apply dial_safe].
    apply keeps_bind; [by apply keeps_free|intros _]. destruct hand; [|apply keeps_ret].
    apply keeps_bind; [apply keeps_ui|intros _; apply keeps_ui]. }
  destruct a0; [apply Hd|..].
  - destruct hand; [|apply keeps_ret]. unfold adopt_attempt.
    apply keeps_bind; [by apply keeps_free|intros _].
    apply keeps_upd; [intros; apply step_adopt|]. intros c Hc. apply (HP c); try done. apply ups_kept_adopt.
  - destruct hand; apply keeps_get_bind; intros x; [apply keeps_ui|].
    destruct x; [|apply keeps_ret]. case_bool_decide; [apply keeps_ret|apply Hd].
Qed.

(** ** Links that end *)

(** What [on_link_down] does once the link is out of the table. *)
Definition link_ended (was : option LinkState) : M unit :=
  match was with
  | Some (Up u) =>
      let! best := get (best_link (ul_peer u)) in
      if bool_decide (is_Some best) then
        let! rec := get (λ c, peers c !! ul_peer u) in
        ui (UiPeerReachable (ul_peer u) (match rec with Some r => pr_name r | None => EmptyString end))
      else
        ui (UiPeerUnreachable (ul_peer u)) ;;!
        upd reconnect_at (λ _, Some 0) ;;!
        tell_plugins now (CDisconnected (ul_peer u))
  | Some (Handshaking h) =>
      (if pairing_flow h then upd pairing (λ _, None) else ret tt) ;;!
      match hl_fallback h with
      | Some pending =>
          try_next_route now pending "connection closed before session was established"
      | None => ret tt
      end
  | Some (Pending _) | None => ret tt
  end.

Lemma on_link_down_eq l :
  on_link_down now l =
  (let! was := get (λ c, links c !! l) in upd links (delete l) ;;! link_ended was).
Proof. done. Qed.

(** Established links that were so, with their peer, when the event came. *)
Definition was_with (peer : DeviceId) : Prop := ∃ l u, links c0 !! l = Some (Up u) /\ ul_peer u = peer.
Definition from_before (c : Core) : Prop := ∀ l u, links c !! l = Some (Up u) -> was_with (ul_peer u).

Lemma from_before_stable : stable from_before.
Proof. intros c c' _ _ _ _ [_ Hk] Hc l u' Hu'. destruct (Hk l u' Hu') as (u & Hu & <- & _). by eapply Hc. Qed.
Lemma from_before_drop c l : from_before c -> from_before (c <| links ::= delete l |>).
Proof. intros Hc l' u. cbn. intros [_ Hu]%lookup_delete_Some. by eapply Hc. Qed.
Lemma from_before_start c : links c = links c0 -> from_before c.
Proof. intros E l u. rewrite E. by exists l, u. Qed.

Lemma link_ended_safe was P :
  stable P -> (∀ c, P c -> P (c <| pairing := None |>)) -> (∀ u, was = Some (Up u) -> was_with (ul_peer u)) ->
  keeps P (link_ended was).
Proof.
  intros HP Hpair Hwas. pose proof (stable_quietly P HP) as HPq. destruct was as [[p|h|u]|]; try apply keeps_ret.
  - apply keeps_bind; [|intros _].
    + destruct (pairing_flow h); [|apply keeps_ret].
      apply keeps_upd; [intros; apply step_pair_end|done].
    + destruct (hl_fallback h); [by apply try_next_route_safe|apply keeps_ret].
  - intros [c out] Hc. unfold link_ended. apply wp_get. cbn [fst]. case_bool_decide as Hb.
    + apply wp_get. by apply wp_emit.
    + apply wp_bind, wp_emit; [done|]. apply wp_bind, wp_upd; [by apply step_free|].
      apply tell_plugins_wp; [done| |by apply (HP c)]. split; [by apply Hwas|]. by apply eq_None_not_Some.
Qed.

Lemma on_link_down_safe l P :
  stable P -> (∀ c, P c -> P (c <| links ::= delete l |>)) -> (∀ c, P c -> P (c <| pairing := None |>)) ->
  (∀ c, P c -> from_before c) -> keeps P (on_link_down now l).
Proof.
  intros HP Hdrop Hpair Hfrom s Hs. rewrite on_link_down_eq. apply wp_get, wp_bind.
  eapply wp_mono; [|by apply upd_delete_link]. intros [] s' Hs'. apply link_ended_safe; [done..| |done].
  intros u Hu. by apply (Hfrom _ Hs) in Hu.
Qed.

(** Ending every link with somebody, one after the other. *)
Lemma end_links_safe why ls :
  keeps from_before (for_each ls (λ l, emit (Close l why) ;;! on_link_down now l)).
Proof.
  apply keeps_for_each. intros l. apply keeps_bind; [by apply keeps_emit|intros _].
  apply on_link_down_safe; [apply from_before_stable|by intros; apply from_before_drop|done|done].
Qed.

Lemma fail_up_link_safe l msg kind body u0 u detail c :
  ev = LinkRecv l msg -> split msg = Ok (kind, body) -> links c0 !! l = Some (Up u0) ->
  received kind body u0 u -> is_Some (peers c !! ul_peer u) -> from_before c ->
  wp (fail_up_link now l u detail) (λ _ _, True) (c, []).
Proof.
  intros Hev Hb Hl Hs Hp Hfrom. unfold fail_up_link.
  apply wp_bind, wp_upd; [by eapply step_link_back|].
  apply wp_bind, wp_emit; [done|]. apply wp_bind, wp_emit; [done|].
  eapply wp_mono; [|apply (on_link_down_safe l from_before)]; [done|apply from_before_stable|..|done|done|].
  - intros. by apply from_before_drop.
  - intros l' v. cbn. intros [[<- [= <-]]|[_ Hv]]%up_after_insert; [|by eapply Hfrom].
    exists l, u0. split; [done|]. by destruct Hs as [[-> _] _].
Qed.

(** ** Pairing *)

Lemma wp_expect {A} (o : option A) Q s : (∃ a, o = Some a /\ Q a s) -> wp (expect o) Q s.
Proof. intros (a & -> & HQ). by apply wp_ret. Qed.

Lemma my_hello_wp {B} (k : bytes -> M B) Q s :
  (∀ b, to_vec (core_hello s.1) = Some b -> wp (k b) Q s) -> wp (bind my_hello k) Q s.
Proof.
  intros Hk. unfold my_hello. apply wp_bind, wp_get, wp_expect.
  destruct (to_vec_total (core_hello s.1)) as [b Hb]. exists b. split; [done|by apply Hk].
Qed.

Lemma end_pairing_safe denied P :
  stable P -> (∀ c, P c -> P (c <| pairing := None |>)) -> keeps P (end_pairing now denied).
Proof.
  intros HP Hpair. pose proof (stable_quietly P HP) as HPq. unfold end_pairing.
  apply keeps_bind; [apply keeps_upd; [intros; apply step_pair_end|done]|intros _].
  apply keeps_get_bind. intros n. by apply keeps_free.
Qed.

Lemma pairing_attempt_failed_safe l : safe (pairing_attempt_failed now l).
Proof.
  unfold pairing_attempt_failed. apply keeps_bind; [by apply fail_link_safe|intros _].
  apply keeps_bind; [by apply end_pairing_safe|intros _]. apply keeps_ui.
Qed.

(** A failing method ends wherever it is. *)
Lemma fail_link_wp l d s : wp (fail_link l d) (λ _ _, True) s.
Proof. by apply (fail_link_safe l d (λ _, True)). Qed.
Lemma pairing_failed_wp l s : wp (pairing_attempt_failed now l) (λ _ _, True) s.
Proof. by apply pairing_attempt_failed_safe. Qed.

(** The state in which a frame on [l] is looked at, if [l] was not established. *)
Definition taken_out (l : LinkId) : Core := c0 <| links ::= delete l |>.

Lemma pairing_completed_wp l msg h0 h payload out :
  ev = LinkRecv l msg -> links c0 !! l = Some (Handshaking h0) -> pairing_flow h0 = true ->
  hl_attrs h = hl_attrs h0 -> hl_deadline h = hl_deadline h0 ->
  (∀ hash pk hello, handshake_hash (hl_hs h) = Ok hash -> peer_static (hl_hs h) = Some pk ->
     cbor_decode payload = Some hello -> paired_by c0 ev l (pairing_offer l pk hash hello (hl_via h))) ->
  wp (pairing_completed now l h payload) (λ _ _, True) (taken_out l, out).
Proof.
  intros Hev Hl Hf Hat Hdl Hby. unfold pairing_completed.
  destruct (handshake_hash (hl_hs h)) as [hash|] eqn:Eh; [|apply fail_link_wp].
  destruct (peer_static (hl_hs h)) as [pk|] eqn:Ep; [|apply fail_link_wp].
  destruct (cbor_decode payload) as [hello|] eqn:Ed; [|apply pairing_failed_wp].
  apply wp_bind, wp_upd.
  { apply step_early_link. right. exists msg, h0. by rewrite Hat, Hdl. }
  apply wp_get. cbn [fst pairing]. cbn.
  destruct (pairing c0) as [w|] eqn:Ew; [|apply fail_link_wp].
  case_bool_decide as Ha; [apply fail_link_wp|]. apply wp_get.
  apply wp_bind, wp_upd; [|by apply wp_emit].
  eapply (step_pair_await _ _ _ l w); [done|done|by apply eq_None_not_Some|by apply Hby].
Qed.

Lemma persist_peer_run rec b c out :
  to_vec rec = Some b -> persist_peer rec (c, out) = Some (tt, (c, push (persisted rec b) out)).
Proof.
  intros Hb. unfold persist_peer, peer_blob, bind, expect. by rewrite Hb.
Qed.

Lemma with_routes_safe id f P : quietly P -> keeps P (with_routes id f).
Proof. intros HP. by apply keeps_free. Qed.

Lemma confirm_pairing_wp accept out :
  ev = Local (ConfirmPairing accept) ->
  wp (confirm_pairing now accept) (λ _ _, True) (c0, out).
Proof.
  intros Hev. unfold confirm_pairing. apply wp_get. cbn [fst].
  destruct (pairing c0) as [w|] eqn:Ew; [|by apply wp_ret].
  apply wp_bind, wp_upd; [by eapply step_pair_take|].
  destruct (awaiting w) as [a|] eqn:Ea; [|by apply wp_ret]. destruct accept; cbn [negb].
  - destruct (record_id (aw_record a)) as [id|] eqn:Ei; [|by apply wp_ret].
    apply wp_bind. eapply wp_mono; [|apply (λ H, H : wp _ (λ _ _, True) _)].
    2: { destruct (aw_via a) as [[tr ad]|].
         - by apply (with_routes_safe _ _ (λ _, True)).
         - apply wp_get. match goal with |- wp (match ?o with _ => _ end) _ _ => destruct o end;
             [by apply (with_routes_safe _ _ (λ _, True))|by apply wp_ret]. }
    intros [] [c1 out1] _. destruct (to_vec_total (aw_record a)) as [b Hb].
    eapply wp_fuse; [|by eapply step_trust|].
    { unfold bind at 1. rewrite (persist_peer_run _ b _ _ Hb). reflexivity. }
    apply wp_bind, wp_upd; [apply step_pair_end|].
    apply wp_bind, wp_emit; [done|].
    apply wp_bind, wp_upd; [apply step_drop_link|].
    apply wp_upd; [by apply step_free|done].
  - apply wp_bind, wp_emit; [done|].
    apply wp_bind, wp_upd; [apply step_drop_link|]. apply wp_bind.
    eapply wp_mono; [|by apply (end_pairing_safe true (λ _, True))].
    intros [] [c1 out1] _. by apply wp_emit.
Qed.

(** ** Links that come up *)

Lemma shake_emit c l kind hs payload expect hs' m :
  shakes c0 ev l kind hs payload expect -> hs_write hs payload = (hs', Ok m) ->
  emit_ok c0 ev c (LinkSend l (join kind m)).
Proof. intros Hs Hw. by exists kind, hs, payload, expect, hs', m. Qed.

Lemma start_session_initiator_wp l at_ dl peer d c out :
  ev = LinkUp l at_ dl -> identity c = identity c0 -> peers c = peers c0 -> core_hello c = core_hello c0 ->
  wp (start_session_initiator now l peer d) (λ _ _, True) (c, out).
Proof.
  intros Hev Hid Hpe Hhe. unfold start_session_initiator. apply wp_get. cbn [fst]. rewrite Hpe.
  destruct (peers c0 !! peer) as [rec|] eqn:Er; [|apply fail_link_wp].
  destruct (public_key_array rec) as [pk|] eqn:Ek; [|apply fail_link_wp].
  destruct (session_psk_array rec) as [psk|] eqn:Es; [|apply fail_link_wp].
  apply wp_get. cbn [fst]. rewrite Hid. destruct (session_initiator _ _ _) as [hs|] eqn:Ei; [|apply fail_link_wp].
  apply my_hello_wp. cbn [fst]. rewrite Hhe. intros hello Eh.
  destruct (hs_write hs hello) as [hs' [m|]] eqn:Ew; [|apply fail_link_wp].
  assert (shakes c0 ev l SessionHandshake hs hello (Some peer)) as Hsh by (by eapply shakes_open).
  apply wp_bind, wp_emit; [by eapply shake_emit|].
  apply wp_upd; [|done]. apply step_early_link. left. by exists SessionHandshake, hs, hello, m.
Qed.

Lemma start_pairing_wp l at_ dl attrs d via c out :
  ev = LinkUp l at_ dl -> identity c = identity c0 ->
  wp (start_pairing l attrs d via) (λ _ _, True) (c, out).
Proof.
  intros Hev Hid. unfold start_pairing. apply wp_get. cbn [fst]. rewrite Hid.
  destruct (pair_initiator _) as [hs|] eqn:Ei; [|apply fail_link_wp].
  destruct (hs_write hs _) as [hs' [m|]] eqn:Ew; [|apply fail_link_wp].
  assert (shakes c0 ev l PairHandshake hs [] None) as Hsh by (by eapply shakes_pair).
  apply wp_bind, wp_emit; [by eapply shake_emit|].
  apply wp_upd; [|done]. apply step_early_link. left. by exists PairHandshake, hs, [], m.
Qed.

Lemma on_link_up_wp l at_ d out : ev = LinkUp l at_ d -> wp (on_link_up now l at_ d) (λ _ _, True) (c0, out).
Proof.
  intros Hev. unfold on_link_up. do 2 apply wp_get. cbn [fst].
  match goal with |- wp (match ?o with _ => _ end) _ _ => destruct o as [[? ?]|] end.
  - apply wp_bind, wp_upd; [by apply step_free|]. by eapply start_pairing_wp.
  - apply wp_get. match goal with |- wp (match ?o with _ => _ end) _ _ => destruct o as [[? ?]|] end.
    + apply wp_bind, wp_upd; [by apply step_free|]. by eapply start_session_initiator_wp.
    + apply wp_upd; [|done]. apply step_early_link. left. by exists at_, d.
Qed.

(** ** Sessions *)

Lemma check_freshness_Ok h wall seen seen' :
  check_freshness h wall seen = Ok seen' ->
  seen < seen' /\ wall <= seen' + MAX_SKEW_MS /\ seen' <= wall + MAX_SKEW_MS.
Proof.
  unfold check_freshness, u64_abs_diff, MAX_SKEW_MS. cbv zeta.
  destruct (N.ltb_spec 60000 ((wall - hello_ts_ms h) + (hello_ts_ms h - wall))); [done|].
  destruct (N.leb_spec (hello_ts_ms h) seen); [done|]. intros [= <-]. lia.
Qed.

(** The state a session comes up in: the peer's record is refreshed. *)
Definition refreshed (l : LinkId) (peer : DeviceId) (rec : PeerRecord) : Core :=
  (taken_out l) <| peers ::= insert peer rec |>.

Lemma accept_hello_wp l msg peer payload hs attrs answers out :
  ev = LinkRecv l msg -> greets c0 l msg peer payload hs attrs answers ->
  wp (accept_hello peer payload)
    (λ ok s', ok = true ->
       ∃ hello rec0 seen, greeted c0 ev l peer hs attrs answers hello rec0 seen /\
         s'.1 = refreshed l peer (refresh_record rec0 seen hello)) (taken_out l, out).
Proof.
  intros Hev Hg. unfold accept_hello.
  destruct (cbor_decode payload) as [hello|] eqn:Ed;
    [|apply wp_bind, wp_emit; [done|by apply wp_ret]].
  apply wp_get. cbn [fst]. change (peers (taken_out l)) with (peers c0).
  destruct (peers c0 !! peer) as [rec|] eqn:Ep; [|by apply wp_ret].
  apply wp_get. cbn [fst]. change (wall_ms (taken_out l)) with (wall_ms c0).
  destruct (check_freshness _ _ _) as [seen|e] eqn:Ef.
  - destruct (to_vec_total (refresh_record rec seen hello)) as [b Hb].
    assert (greeted c0 ev l peer hs attrs answers hello rec seen) as Hgr by (by exists msg, payload).
    eapply wp_fuse; [|by apply (step_refresh _ _ _ l peer hs attrs answers hello rec seen b)|].
    { unfold bind, upd, modify. cbn [fst snd]. rewrite (persist_peer_run _ b _ _ Hb). reflexivity. }
    apply wp_ret. intros _. by exists hello, rec, seen.
  - apply wp_bind, wp_emit; [done|]. by apply wp_ret.
Qed.

Lemma finish_session_wp l peer hs attrs answers hello rec0 seen hs' out :
  (∀ u, links c0 !! l <> Some (Up u)) ->
  greeted c0 ev l peer hs attrs answers hello rec0 seen -> concluded c0 answers hs hs' ->
  wp (finish_session now l hs' attrs peer) (λ _ _, True) (refreshed l peer (refresh_record rec0 seen hello), out).
Proof.
  intros Hl Hg Hc. unfold finish_session. cbv zeta.
  destruct (into_session hs' attrs) as [session|] eqn:Es; [|apply fail_link_wp].
  destruct (into_session_ok _ _ _ Es) as (Hdone & _).
  assert (∃ hash, handshake_hash hs' = Ok hash) as [hash Eh] by (unfold handshake_hash; rewrite Hdone; by eexists).
  rewrite Eh. apply wp_get. cbn. rewrite lookup_insert_eq. do 2 apply wp_get. cbn [fst].
  assert (comes_up c0 now ev l (session_link c0 now session hash peer attrs hello) (refresh_record rec0 seen hello)) as Hup
    by (split; [done|]; by exists peer, hs, attrs, answers, hello, rec0, seen, hs', hash, session).
  apply wp_bind, wp_upd; [by apply (step_link_up _ _ _ l _ (refresh_record rec0 seen hello)); [|apply lookup_insert_eq]|].
  apply wp_bind, wp_upd; [by apply step_free|].
  apply wp_bind, wp_emit; [done|]. apply (tell_plugins_wp _ (λ _, True)); [done| |done].
  split; [done|]. do 3 eexists. split; [apply lookup_insert_eq|]. split; [done|exact Hup].
Qed.

(** ** Frames *)

Lemma answer_pairing_wp l msg body p out :
  ev = LinkRecv l msg -> split msg = Ok (PairHandshake, body) -> links c0 !! l = Some (Pending p) ->
  wp (answer_pairing now l p body) (λ _ _, True) (taken_out l, out).
Proof.
  intros Hev Hs Hl. unfold answer_pairing. apply wp_get. cbn [fst].
  destruct (why_not_pair now _) as [why|] eqn:Ew; [apply fail_link_wp|].
  apply wp_get. cbn [fst]. change (identity (taken_out l)) with (identity c0).
  destruct (pair_responder _) as [hs|] eqn:Er; [|apply fail_link_wp].
  destruct (hs_read hs body) as [hs' [pl|]] eqn:Erd.
  - apply my_hello_wp. intros hello Eh. destruct (hs_write hs' hello) as [hs'' [m|]] eqn:Ewr; [|apply fail_link_wp].
    assert (shakes c0 ev l PairHandshake hs' hello None) as Hsh by (by eapply shakes_pair_back).
    apply wp_bind. unfold begin_pairing. apply wp_get.
    apply wp_upd; [by apply step_pair_begin|].
    apply wp_bind, wp_emit; [by eapply shake_emit|]. apply wp_upd; [|done]. apply step_early_link.
    left. by exists PairHandshake, hs', hello, m.
  - apply wp_get. apply wp_bind, wp_upd; [by apply step_free|]. apply fail_link_wp.
Qed.

Lemma answer_session_wp l msg body p out :
  ev = LinkRecv l msg -> split msg = Ok (SessionHandshake, body) -> links c0 !! l = Some (Pending p) ->
  wp (answer_session now l p body) (λ _ _, True) (taken_out l, out).
Proof.
  intros Hev Hs Hl. unfold answer_session. apply wp_get. cbn [fst]. change (identity (taken_out l)) with (identity c0).
  destruct (session_identify _ _) as [pk|] eqn:Epk; [|apply fail_link_wp].
  apply wp_get. cbn [fst]. change (peers (taken_out l)) with (peers c0).
  destruct (peers c0 !! _) as [rec|] eqn:Er; [|apply fail_link_wp].
  destruct (session_psk_array rec) as [psk|] eqn:Eps; [|apply fail_link_wp].
  destruct (session_responder _ _) as [hs|] eqn:Ere; [|apply fail_link_wp].
  destruct (hs_read hs body) as [hs' [payload|]] eqn:Erd; [|apply fail_link_wp].
  assert (greets c0 l msg (DeviceId_of pk) payload hs' (pl_attrs p) true) as Hg by (by eapply greets_opener).
  apply wp_bind. eapply wp_mono; [|by eapply accept_hello_wp].
  intros ok [c1 out1] Hok. destruct ok; cbn [negb]; [|apply fail_link_wp].
  destruct Hok as (hello & rec0 & seen & Hgr & Hc1); [done|]. cbn [fst] in Hc1. subst c1.
  apply my_hello_wp. intros mine Em. destruct (hs_write hs' mine) as [hs'' [m|]] eqn:Ewr; [|apply fail_link_wp].
  assert (shakes c0 ev l SessionHandshake hs' mine (Some (DeviceId_of pk))) as Hsh by (by eapply shakes_answer).
  apply wp_bind, wp_emit; [by eapply shake_emit|].
  eapply finish_session_wp; [by rewrite Hl|done|]. by exists mine, m.
Qed.

Lemma handshake_over_wp l msg h0 h payload out :
  ev = LinkRecv l msg -> links c0 !! l = Some (Handshaking h0) ->
  pairing_flow h = pairing_flow h0 -> hl_attrs h = hl_attrs h0 -> hl_deadline h = hl_deadline h0 ->
  (is_complete (hl_hs h) = false -> early_ok c0 ev l (Handshaking h)) ->
  (is_complete (hl_hs h) = true -> pairing_flow h = true -> ∀ hash pk hello, handshake_hash (hl_hs h) = Ok hash ->
     peer_static (hl_hs h) = Some pk -> cbor_decode payload = Some hello ->
     paired_by c0 ev l (pairing_offer l pk hash hello (hl_via h))) ->
  (is_complete (hl_hs h) = true -> pairing_flow h = false -> ∀ peer, hl_expect h = Some peer ->
     greets c0 l msg peer payload (hl_hs h) (hl_attrs h) false) ->
  wp (handshake_over now l h payload) (λ _ _, True) (taken_out l, out).
Proof.
  intros Hev Hl Hf Hat Hdl He Hpb Hg. unfold handshake_over.
  destruct (is_complete _) eqn:Hc; cbn [negb].
  - destruct (pairing_flow h) eqn:Efl; [by apply (pairing_completed_wp l msg h0); auto|].
    destruct (hl_expect h) as [peer|]; [|apply fail_link_wp].
    apply wp_bind. eapply wp_mono; [|by eapply accept_hello_wp; auto].
    intros ok [c1 out1] Hok. destruct ok; cbn [negb]; [|apply fail_link_wp].
    destruct Hok as (hello & rec0 & seen & Hgr & Hc1); [done|]. cbn [fst] in Hc1. subst c1.
    by eapply finish_session_wp; [rewrite Hl|..].
  - apply wp_upd; [|done]. by apply step_early_link, He.
Qed.

Lemma on_handshake_frame_wp l msg h kind body out :
  ev = LinkRecv l msg -> split msg = Ok (kind, body) -> links c0 !! l = Some (Handshaking h) ->
  wp (on_handshake_frame now l h kind body) (λ _ _, True) (taken_out l, out).
Proof.
  intros Hev Hs Hl. unfold on_handshake_frame. cbv zeta.
  case_bool_decide as Hk; cbn [negb]; [|apply fail_link_wp].
  destruct (hs_read _ _) as [hs [payload|]] eqn:Erd;
    [|destruct (pairing_flow h); [apply pairing_failed_wp|apply fail_link_wp]].
  cbn. destruct (pairing_flow h) eqn:Ef; subst kind; cbn [andb].
  - destruct (is_my_turn hs) eqn:Et.
    + apply my_hello_wp. intros hello Eh. destruct (hs_write _ _) as [hs' [m|]] eqn:Ew; [|apply fail_link_wp].
      assert (shakes c0 ev l PairHandshake hs hello (hl_expect h)) as Hsh by (by eapply shakes_pair_last).
      apply wp_bind, wp_emit; [by eapply shake_emit|].
      eapply handshake_over_wp; try done; cbn; rewrite ?Ef; try done.
      * intros _. left. by exists PairHandshake, hs, hello, m.
      * intros Hc _ hash pk hello' Hh Hpk Hd. exists msg, body, h, hs, payload, hs', hash, pk, hello'.
        rewrite Et. split_and!; try done. by exists hello, m.
    + eapply handshake_over_wp; try done; cbn; rewrite ?Ef; try done.
      * intros Hc. right. exists msg, PairHandshake, body, h, payload. by split_and!.
      * intros Hc _ hash pk hello' Hh Hpk Hd. exists msg, body, h, hs, payload, hs, hash, pk, hello'.
        rewrite Et. by split_and!.
  - eapply handshake_over_wp; try done; cbn; rewrite ?Ef; try done.
    + intros Hc. right. exists msg, SessionHandshake, body, h, payload. by split_and!.
    + intros Hc _ peer Hx. by eapply greets_answer.
Qed.

Lemma plugin_for_Some cap c idx :
  plugin_for cap c = Some idx ->
  ∃ p, plugins c !! idx = Some p /\ handles (dyn_manifest p) cap = true.
Proof.
  unfold plugin_for. destruct (list_find _ _) as [[i p]|] eqn:E; [|done]. cbn. intros [= <-].
  apply list_find_Some in E as (Hp & Hh & _). by exists p.
Qed.

Lemma deliver_wp peer env c out :
  plugins c = plugins c0 ->
  (∀ p, handles (dyn_manifest p) (env_cap env) = true -> env_ty env <> "err" ->
        message_allowed c0 ev p peer env) ->
  wp (deliver now peer env) (λ _ _, True) (c, out).
Proof.
  intros Hpl Hall. unfold deliver. destruct (String.eqb_spec (env_ty env) "err"); [by apply wp_emit|].
  apply wp_get. cbn [fst]. destruct (plugin_for _ _) as [idx|] eqn:Ei;
    [|by apply (send_error_safe _ _ _ _ (λ _, True))].
  apply plugin_for_Some in Ei as (p & Hp & Hh).
  do 2 apply wp_get. cbn [fst]. apply wp_bind.
  eapply wp_mono; [|apply (run_plugin_wp _ _ _ (CMessage peer env) p (λ _, True)); try done].
  - intros [r|e] s' _; [by apply wp_ret|by apply (send_error_safe _ _ _ _ (λ _, True))].
  - apply dyn_on_message_call.
  - split; [by rewrite <- Hpl|by apply Hall].
Qed.

Lemma received_wrong kind body u : kind <> Transport -> received kind body u u.
Proof. intros Hk. unfold received, same_link. by rewrite bool_decide_eq_false_2. Qed.
Lemma received_right body u s r u' :
  session_decrypt (ul_session u) body = (s, r) -> same_link u u' -> ul_session u' = s -> received Transport body u u'.
Proof. intros E Hs Hu. unfold received. by rewrite bool_decide_eq_true_2, E. Qed.

Lemma on_transport_frame_wp l msg u kind body c :
  ev = LinkRecv l msg -> split msg = Ok (kind, body) -> links c0 !! l = Some (Up u) ->
  is_Some (peers c !! ul_peer u) -> plugins c = plugins c0 -> from_before c ->
  wp (on_transport_frame now l u kind body) (λ _ _, True) (c, []).
Proof.
  intros Hev Hs Hl Hp Hpl Hfrom. unfold on_transport_frame.
  case_bool_decide as Hk; cbn [negb]; [subst kind|by eapply fail_up_link_safe; [..|by apply received_wrong|exact Hp|exact Hfrom]].
  destruct (session_decrypt (ul_session u) body) as [s [plaintext|e]] eqn:Ed; cbv zeta;
    [|by eapply fail_up_link_safe; [..|by eapply received_right|exact Hp|exact Hfrom]].
  apply wp_bind, wp_upd; [by eapply step_link_back, Hp; [..|eapply received_right]|]. cbn [fst snd].
  destruct (cbor_decode plaintext) as [env|] eqn:Ee; [|by apply wp_emit].
  destruct (existsb _ _) eqn:Ec; cbn [negb]; [|by apply (send_error_safe _ _ _ _ (λ _, True))].
  apply deliver_wp; [done|]. intros p Hh Ht. exists l, msg, body, u, plaintext.
  split_and!; try done; [by rewrite Ed|]. cbn in Ec.
  apply existsb_exists in Ec as (x & Hx & <-%String.eqb_eq). by apply list_elem_of_In.
Qed.

Lemma on_link_recv_wp l msg :
  ev = LinkRecv l msg -> wp (on_link_recv now l msg) (λ _ _, True) (c0, []).
Proof.
  intros Hev. apply wp_inv. intros (_ & _ & HU). unfold on_link_recv.
  destruct (split msg) as [[kind body]|] eqn:Es; [|apply fail_link_wp].
  apply wp_get. cbn [fst]. apply wp_bind, wp_upd; [apply step_drop_link|].
  destruct (links c0 !! l) as [[p|h|u]|] eqn:El; [|..|apply fail_link_wp].
  - destruct kind; [by eapply answer_pairing_wp|by eapply answer_session_wp|apply fail_link_wp].
  - by eapply on_handshake_frame_wp.
  - eapply on_transport_frame_wp; [done..| |done|by apply from_before_drop, from_before_start].
    cbn. destruct (HU l u El) as [?|E]; [done|]. rewrite Hev in E. done.
Qed.

(** ** Local commands *)

Lemma wp_forget {A} id (k : M A) Q c out :
  ev = Local (Revoke id) ->
  wp k Q (c <| peers ::= delete id |> <| addrs ::= delete id |> <| dial_trouble ::= delete id |>,
          push (erased id) out) ->
  wp (upd peers (delete id) ;;! upd addrs (delete id) ;;! upd dial_trouble (delete id) ;;!
      emit (Persist ("peer/" +:+ did_str id) None Secret) ;;! k) Q (c, out).
Proof. intros Hev Hk. eapply (wp_fuse _ k); [|by apply step_forget|exact Hk]. reflexivity. Qed.

Lemma handle_revoke_wp peer c out :
  ev = Local (Revoke peer) -> from_before c -> wp (handle_revoke now peer) (λ _ _, True) (c, out).
Proof.
  intros Hev Hfrom. unfold handle_revoke. apply wp_get. cbn [fst].
  apply wp_forget; [done|].
  apply wp_get. cbn [fst]. apply wp_bind. eapply wp_mono; [|by apply end_links_safe].
  intros [] [c1 out1] _. apply wp_bind, wp_emit; [done|].
  match goal with |- wp (match ?o with _ => _ end) _ _ => destruct o as [fp|] end; [|by apply wp_ret].
  unfold announce_peer. apply wp_get.
  destruct (announcement _ _); [by apply wp_emit|by apply wp_ret].
Qed.

Lemma request_pairing_safe tr a : safe (request_pairing now tr a).
Proof.
  intros [c out] _. unfold request_pairing. apply wp_get. cbn [fst].
  destruct (why_not_pair now c) eqn:Ew; [by apply wp_emit|].
  apply wp_bind. unfold begin_pairing. apply wp_get. apply wp_upd; [by apply step_pair_begin|].
  apply wp_bind, wp_upd; [by apply step_free|]. apply wp_get.
  apply wp_bind, wp_upd; [by apply step_free|]. by apply wp_emit.
Qed.

Lemma local_plugin_wp peer cap ty body out :
  ev = Local (LocalPlugin peer cap ty body) ->
  wp (local_plugin now peer cap ty body) (λ _ _, True) (c0, out).
Proof.
  intros Hev. unfold local_plugin. apply wp_get. cbn [fst].
  destruct (plugin_for _ _) as [idx|] eqn:Ei; [|by apply wp_emit].
  apply plugin_for_Some in Ei as (p & Hp & Hh).
  do 2 apply wp_get. cbn [fst]. apply wp_bind.
  eapply wp_mono; [|apply (run_plugin_wp _ _ _ (CLocal peer ty body) p (λ _, True)); try done].
  - intros [r|e] [c1 out1] _; [by apply wp_ret|by apply wp_emit].
  - apply dyn_on_local_call.
  - split; [done|]. by exists cap.
Qed.

Lemma on_local_wp cmd out :
  ev = Local cmd -> wp (on_local_command now cmd) (λ _ _, True) (c0, out).
Proof.
  intros Hev. destruct cmd; cbn [on_local_command].
  - by apply request_pairing_safe.
  - by apply confirm_pairing_wp.
  - apply wp_get. case_bool_decide; [by apply (with_routes_safe _ _ (λ _, True))|by apply wp_emit].
  - by apply (connect_peer_safe _ _ (λ _, True)).
  - apply wp_get. apply (wp_for_each (λ _, True)); try done. intros. by apply connect_peer_safe.
  - apply wp_get. eapply wp_mono; [|apply end_links_safe]; [done|by apply from_before_start].
  - apply handle_revoke_wp; [done|by apply from_before_start].
  - by apply local_plugin_wp.
Qed.

(** ** The clock *)

Lemma lapse_pairing_waits : keeps (λ c, bulk_wait c = bulk_wait c0) (lapse_pairing now).
Proof.
  assert (∀ d, keeps (λ c, bulk_wait c = bulk_wait c0) (end_pairing now d)) as Hend.
  { intros d. unfold end_pairing. apply keeps_bind; [apply keeps_upd; [intros; apply step_pair_end|done]|intros _].
    apply keeps_get_bind. intros n. apply keeps_upd; [intros; by apply step_free|done]. }
  unfold lapse_pairing. apply keeps_get_bind. intros [w|]; [|apply keeps_ret].
  destruct (_ <=? _); [|apply keeps_ret].
  apply keeps_bind; [apply keeps_upd; [intros; apply step_pair_end|done]|intros _].
  apply keeps_bind; [|intros _].
  - destruct (awaiting w); [|apply keeps_ret].
    apply keeps_bind; [by apply keeps_emit|intros _; by apply upd_delete_link].
  - apply keeps_bind; [apply Hend|intros _; apply keeps_ui].
Qed.

Lemma give_up_bulk_wp c out :
  ev = Tick -> bulk_wait c = bulk_wait c0 -> wp (give_up_bulk now) (λ _ _, True) (c, out).
Proof.
  intros Hev Hw. unfold give_up_bulk. apply wp_get. cbn [fst]. apply (wp_for_each (λ _, True)); [|done|done].
  intros t Ht [c1 out1] _.
  assert (∃ d, bulk_wait c0 !! t = Some d /\ d <= now) as Hd.
  { apply list_elem_of_In, in_map_iff in Ht as ([t' d] & E & Hin). cbn in E. subst t'.
    apply filter_In in Hin as [Hin Hle]. apply list_elem_of_In, elem_of_bt_iter in Hin.
    exists d. split; [by rewrite <- Hw|by apply N.leb_le]. }
  apply wp_bind, wp_upd; [by apply step_free|]. apply wp_bind, wp_emit; [done|]. apply wp_bind.
  eapply wp_mono; [|apply (dispatch_to_transfer_owner_wp _ _ (λ _, True)); [done..|]].
  - intros [] [c2 out2] _. apply wp_upd; [apply step_disown_bulk|done].
  - intros idx p Hi Hp. split; [done|]. by right.
Qed.

Lemma drop_stale_links_safe : safe (drop_stale_links now).
Proof.
  unfold drop_stale_links. apply keeps_get_bind. intros ls. apply keeps_for_each. intros l.
  apply keeps_get_bind. intros was. apply keeps_bind; [by apply upd_delete_link|intros _].
  apply keeps_bind; [by apply keeps_emit|intros _].
  destruct was as [[|h|]|]; try apply keeps_ret.
  destruct (hl_fallback h); [by apply try_next_route_safe|apply keeps_ret].
Qed.

Lemma expire_dials_safe : safe (expire_dials now).
Proof.
  unfold expire_dials. apply keeps_get_bind. intros ds. apply keeps_for_each. intros d.
  apply keeps_get_bind. intros [[? p]|]; [|apply keeps_ret].
  apply keeps_bind; [by apply keeps_free|intros _; by apply try_next_route_safe].
Qed.

Lemma retry_peers_safe : safe (retry_peers now).
Proof.
  unfold retry_peers. apply keeps_get_bind. intros at_.
  match goal with |- keeps _ (if ?b then _ else _) => destruct b end; [|apply keeps_ret].
  apply keeps_get_bind. intros every. apply keeps_bind; [by apply keeps_free|intros _].
  apply keeps_get_bind. intros l. apply keeps_for_each. intros id. by apply connect_peer_safe.
Qed.

Lemma wake_plugins_safe : ev = Tick -> safe (wake_plugins now).
Proof.
  intros Hev [c out] _. unfold wake_plugins. apply wp_get. cbn [fst].
  destruct (plugin_wake c) as [w|] eqn:Ew; [|by apply wp_ret].
  destruct (N.leb_spec w now); [|by apply wp_ret].
  eapply wp_fuse; [|by eapply step_tick|].
  { unfold bind, upd, modify. cbn [fst snd]. apply tell_plugins_run. }
  by apply (drain_cx_safe _ (λ _, True)).
Qed.

Lemma on_tick_wp : ev = Tick -> wp (on_tick_event now) (λ _ _, True) (c0, []).
Proof.
  intros Hev. unfold on_tick_event. apply wp_bind. eapply wp_mono; [|by apply lapse_pairing_waits].
  intros [] [c out] Hw. apply wp_bind. eapply wp_mono; [|by apply give_up_bulk_wp]. intros [] s _.
  enough (safe (drop_stale_links now ;;! expire_dials now ;;! retry_peers now ;;! wake_plugins now)) as Hs by by apply Hs.
  apply keeps_bind; [apply drop_stale_links_safe|intros _].
  apply keeps_bind; [apply expire_dials_safe|intros _].
  apply keeps_bind; [apply retry_peers_safe|intros _]. by apply wake_plugins_safe.
Qed.

(** ** Discovery and dials *)

Lemma announce_peer_safe fp : safe (announce_peer fp).
Proof.
  unfold announce_peer. apply keeps_get_bind. intros [e|]; [apply keeps_ui|apply keeps_ret].
Qed.

Lemma on_discovered_safe tr p : safe (on_discovered now tr p).
Proof.
  unfold on_discovered. destruct (dp_fingerprint p) as [fp|]; [|apply keeps_ret].
  apply keeps_bind; [by apply keeps_free|intros _]. apply keeps_get_bind.
  intros [id|]; [|apply announce_peer_safe].
  apply keeps_bind; [by apply with_routes_safe|intros _; by apply connect_peer_safe].
Qed.

Lemma on_undiscovered_safe tr a : safe (on_undiscovered tr a).
Proof.
  unfold on_undiscovered. apply keeps_get_bind. intros gone.
  apply keeps_bind; [by apply keeps_free|intros _]. apply keeps_for_each. intros fp.
  apply keeps_bind; [by apply keeps_free|intros _]. apply keeps_get_bind.
  intros [|]; [apply keeps_ret|apply keeps_ui].
Qed.

Lemma on_dial_failed_safe d r : safe (on_dial_failed now d r).
Proof.
  unfold on_dial_failed. apply keeps_get_bind. intros p.
  apply keeps_bind; [by apply keeps_free|intros _]. destruct p.
  - apply keeps_bind; [apply keeps_upd; [intros; apply step_pair_end|done]|intros _; apply keeps_ui].
  - apply keeps_get_bind. intros q. apply keeps_bind; [by apply keeps_free|intros _].
    destruct q as [[? ?]|]; [by apply try_next_route_safe|apply keeps_ret].
Qed.

(** ** The entry point *)

Lemma on_event_wp e : ev = e -> wp (on_event now e) (λ _ _, True) (c0, []).
Proof.
  intros Hev. destruct e; cbn [on_event].
  - by apply on_link_up_wp.
  - by apply on_link_recv_wp.
  - eapply wp_mono; [|apply (on_link_down_safe _ from_before)]; [done|apply from_before_stable|..|done|done|].
    + intros. by apply from_before_drop.
    + by apply from_before_start.
  - by apply on_dial_failed_safe.
  - by apply on_discovered_safe.
  - by apply on_undiscovered_safe.
  - by apply on_tick_wp.
  - apply (dispatch_to_transfer_owner_wp _ _ (λ _, True)); done.
  - apply wp_upd; [by apply step_free|done].
  - apply wp_bind.
    eapply wp_mono; [|apply (dispatch_to_transfer_owner_wp _ _ (λ _, True)); [done..|]].
    + intros [] [c1 out1] _. apply wp_bind, wp_upd; [apply step_disown_bulk|].
      apply wp_upd; [by apply step_free|done].
    + intros idx p Hi Hp. split; [done|]. by left.
  - by apply on_local_wp.
  - by apply on_effect_done_wp.
Qed.
End refines.

(** [handle] from a state that satisfies the invariant does not panic, keeps it
    while the event lasts, and only takes the steps the event allows. *)
Lemma handle_steps `{ExternsLaws} nw e c :
  Inv e c ->
  ∃ o c', handle nw e c = Some (o, c') /\
    rtc (step (c <| wall_ms := now_wall_ms nw |>) (monotonic_ms nw) e)
      (c <| wall_ms := now_wall_ms nw |>, []) (c', actions o) /\ Inv e c' /\
    next_deadline_ms o = next_deadline c'.
Proof.
  intros HI. unfold handle.
  destruct (on_event_wp (c <| wall_ms := now_wall_ms nw |>) (monotonic_ms nw) e e eq_refl)
    as (a & [c' out] & E & Hr & HI' & _); [done|].
  rewrite E. by exists (mkOutcome out (next_deadline c')), c'.
Qed.

(** The same, of a frame on an established link: the link is taken out of the
    table first. *)
Lemma handle_recv_steps `{ExternsLaws} nw l msg kind body u c :
  Inv (LinkRecv l msg) c -> split msg = Ok (kind, body) -> links c !! l = Some (Up u) ->
  ∃ o c', handle nw (LinkRecv l msg) c = Some (o, c') /\
    rtc (step (c <| wall_ms := now_wall_ms nw |>) (monotonic_ms nw) (LinkRecv l msg))
      (c <| wall_ms := now_wall_ms nw |> <| links ::= delete l |>, []) (c', actions o) /\
    Inv (LinkRecv l msg) c'.
Proof.
  intros HI Hs Hl. unfold handle. cbn [on_event]. unfold on_link_recv, bind at 1 2, get, upd, modify. rewrite Hs.
  cbn [fst snd]. pose (c1 := c <| wall_ms := now_wall_ms nw |>). change (links (c <| wall_ms := now_wall_ms nw |>)) with (links c).
  rewrite Hl. fold c1. pose (c2 := c1 <| links ::= delete l |>). fold c2.
  assert (Inv (LinkRecv l msg) c2) as HI2
    by (apply (step_inv c1 (monotonic_ms nw) (LinkRecv l msg) (c1, []) (c2, [])); [apply step_drop_link|done]).
  assert (is_Some (peers c2 !! ul_peer u)) as Hp by (destruct HI as (_ & _ & HU); by destruct (HU l u Hl)).
  assert (from_before c1 c2) as Hfrom by (by apply from_before_drop, from_before_start).
  destruct (on_transport_frame_wp c1 (monotonic_ms nw) (LinkRecv l msg) l msg u kind body c2 eq_refl Hs Hl Hp eq_refl Hfrom HI2)
    as (a & [c' out] & E & Hr & HI' & _).
  rewrite E. by exists (mkOutcome out (next_deadline c')), c'.
Qed.
