(* ===== verification/CoreTheorems.v ===== *)
(** * What [Core] guarantees

    Theorems about [handle], from the steps it refines ([CoreSteps]). *)

From S2P Require Import Prelude Externals Ids Frame Hello Envelope PairingKeys Bulk Link Peer.
From S2P Require Import Vocab Noise Plugin CoreState CoreQueries CoreOps CoreHandle CoreSteps CoreRefines.
Local Open Scope N_scope.

Section theorems.
  Context `{Externs}.

(** ** Facts about any sequence of steps *)

Section steps.
  Variables (c0 : Core) (now : u64) (ev : Event).

(** An invariant of the single steps is one of the sequences. *)
Lemma steps_ind (J : St -> Prop) s s' :
  (∀ s s', step c0 now ev s s' -> J s -> J s') -> rtc (step c0 now ev) s s' -> J s -> J s'.
Proof. intros Hs Hr. induction Hr; eauto. Qed.

(** What becomes of the trust store, a record at a time. *)
Definition record_kept (r r' : PeerRecord) : Prop :=
  pr_public_key r' = pr_public_key r /\ pr_session_psk r' = pr_session_psk r /\
  pr_device_id r' = pr_device_id r /\ pr_greatest_seen r <= pr_greatest_seen r'.

Definition confirmed (id : DeviceId) (r : PeerRecord) : Prop :=
  ev = Local (ConfirmPairing true) /\
  ∃ w a, pairing c0 = Some w /\ awaiting w = Some a /\ r = aw_record a /\
         record_id (aw_record a) = Some id.

Definition trust_evolves (c' : Core) : Prop :=
  (∀ id r', peers c' !! id = Some r' ->
     (∃ r, peers c0 !! id = Some r /\ record_kept r r') \/ confirmed id r') /\
  (∀ id r, peers c0 !! id = Some r -> peers c' !! id = None -> ev = Local (Revoke id)).

Lemma record_kept_refl r : record_kept r r.
Proof. unfold record_kept. split_and!; done. Qed.

Lemma step_trust_evolves s s' :
  step c0 now ev s s' -> trust_evolves s.1 -> trust_evolves s'.1.
Proof.
  unfold trust_evolves. intros Hs [HA HB].
  destruct Hs; cbn [fst] in *; try (split; [exact HA|exact HB]).
  - apply guarded_eq in H0 as (_&_&->&_). done.
  - split.
    + cbn. intros id' r' [[<- <-]|[Hne Hr']]%lookup_insert_Some; [|eauto].
      destruct H0 as (msg & pl & Hev & _ & _ & _ & Hf).
      destruct (HA peer rec H1) as [(r & Hr & K1 & K2 & K3 & K4)|(E & _)];
        [|rewrite Hev in E; done].
      left. exists r. split; [done|]. unfold record_kept, refresh_record. cbn.
      apply check_freshness_Ok in Hf as [Hlt _].
      split_and!; [done..|]. etrans; [exact K4|by apply N.lt_le_incl].
    + cbn. intros id' r Hr [? _]%lookup_insert_None. eauto.
  - split.
    + cbn. intros id' r' [[<- <-]|[Hne Hr']]%lookup_insert_Some; [|eauto].
      right. split; [done|]. eauto 8.
    + cbn. intros id' r Hr [? ?]%lookup_insert_None. eauto.
  - split.
    + cbn. intros id' r' [Hne Hr']%lookup_delete_Some. eauto.
    + cbn. intros id' r Hr. rewrite lookup_delete_None. intros [<-|?]; eauto.
Qed.

(** The same link later: its session has sealed and opened some messages. *)
Definition continues (u0 u : UpLink) : Prop :=
  same_link u0 u /\ rtc session_move (ul_session u0) (ul_session u).

(** Where an established link comes from: it was there before, or this event's
    frame established it, from the hello that refreshed its peer's record. *)
Definition link_from (l : LinkId) (u : UpLink) : Prop :=
  (∃ u0, links c0 !! l = Some (Up u0) /\ continues u0 u) \/
  (∃ u0 rec, comes_up c0 now ev l u0 rec /\ continues u0 u).
Definition link_origin (c' : Core) : Prop :=
  ∀ l u, links c' !! l = Some (Up u) ->
    (∃ u0, links c0 !! l = Some (Up u0) /\ continues u0 u) \/
    (∃ u0 rec, comes_up c0 now ev l u0 rec /\ continues u0 u /\ peers c' !! ul_peer u = Some rec).

Lemma continues_refl u : continues u u.
Proof. split; [apply same_link_refl|done]. Qed.
Lemma continues_seal u v pt s r :
  session_encrypt (ul_session v) pt = (s, r) -> continues u v -> continues u (v <| ul_session := s |>).
Proof.
  intros E [Hs Hm]. split; [exact Hs|]. eapply rtc_r; [exact Hm|]. cbn.
  pose proof (move_seal (ul_session v) pt) as Hv. by rewrite E in Hv.
Qed.

(** The identity, the configuration, the capabilities and the clock do not change
    while an event is handled. *)
Definition same_device (c' : Core) : Prop :=
  identity c' = identity c0 /\ config c' = config c0 /\ caps_out c' = caps_out c0 /\ caps_in c' = caps_in c0 /\
  wall_ms c' = wall_ms c0 /\ serves c' = serves c0 /\ length (plugins c') = length (plugins c0).

Lemma step_same_device s s' : step c0 now ev s s' -> same_device s.1 -> same_device s'.1.
Proof.
  unfold same_device. intros Hs HA.
  destruct Hs; cbn [fst] in *; try exact HA; cbn;
    rewrite ?length_insert, ?length_call_each; try exact HA.
  apply guarded_eq in H0 as (->&->&_&_&_&->&_&_&->&->&_&->&->&_). done.
Qed.

(** A hello is accepted once: the record it refreshed is not refreshed again. *)
Lemma greeted_once l peer hs attrs an hello rec0 seen l' u rec :
  greeted c0 ev l peer hs attrs an hello rec0 seen -> comes_up c0 now ev l' u rec -> ul_peer u = peer ->
  rec <> rec0.
Proof.
  intros (? & ? & _ & _ & _ & Hr & _) (_ & p & ? & ? & ? & h & r & s & ? & ? & ? & Hg & _ & _ & _ & -> & ->) <- E.
  destruct Hg as (? & ? & _ & _ & _ & Hr' & Hf). cbn in Hr. rewrite Hr in Hr'. injection Hr' as <-.
  apply check_freshness_Ok in Hf as [Hlt _]. apply (f_equal pr_greatest_seen) in E. cbn in E. lia.
Qed.

Lemma comes_up_recv l u rec : comes_up c0 now ev l u rec -> ∃ msg, ev = LinkRecv l msg.
Proof. intros (_ & ? & ? & ? & ? & ? & ? & ? & ? & ? & ? & (msg & ? & -> & _) & _). by exists msg. Qed.

Lemma step_link_origin s s' : step c0 now ev s s' -> link_origin s.1 -> link_origin s'.1.
Proof.
  unfold link_origin. intros Hs HA.
  destruct Hs; cbn [fst] in *; try exact HA; cbn.
  - apply guarded_eq in H0 as (_&_&->&->&_). done.
  - intros l' u [_ ?]%lookup_delete_Some. eauto.
  - intros l' u [[_ ->]|[_ ?]]%up_after_insert; [done|eauto].
  - intros l' v [[-> [= <-]]|[_ ?]]%up_after_insert; [|eauto].
    right. exists u, rec. split_and!; [done|apply continues_refl|done].
  - intros l' v [[-> [= <-]]|[_ ?]]%up_after_insert; [|eauto]. left. exists u0.
    split; [done|]. destruct H3 as [Hsame Hses]. split; [done|]. rewrite Hses.
    case_bool_decide; [|done]. apply rtc_once, move_open.
  - intros l' v [[-> [= <-]]|[_ ?]]%up_after_insert; [|eauto].
    destruct H1 as (pt & r & _ & _ & He & _).
    destruct (HA _ _ H0) as [(u0 & ? & ?)|(u0 & rec & ? & ? & ?)];
      [left; exists u0|right; exists u0, rec]; split_and!; try done; by eapply continues_seal.
  - intros l' v Hv%up_after_adopt. eauto.
  - intros l' v Hv. destruct (HA _ _ Hv) as [?|(u0 & rec' & Hup & Hc & Hp)]; [by left|]. right.
    exists u0, rec'. split_and!; [done..|]. rewrite lookup_insert_ne; [done|]. intros ->.
    rewrite Hp in H1. injection H1 as ->. eapply (greeted_once l _ hs attrs answers hello rec seen l' u0 rec); [done..| |done].
    by destruct Hc as [[-> _] _].
  - intros l' v Hv. destruct (HA _ _ Hv) as [?|(u0 & rec' & Hup & _)]; [by left|].
    apply comes_up_recv in Hup as [msg E]. by rewrite E in H0.
  - intros l' v Hv. destruct (HA _ _ Hv) as [?|(u0 & rec' & Hup & _)]; [by left|].
    apply comes_up_recv in Hup as [msg E]. by rewrite E in H0.
Qed.

(** The fate of a confirmation somebody is looking at. *)
Definition same_confirmation (c' : Core) : Prop :=
  ∀ w a, pairing c0 = Some w -> awaiting w = Some a ->
    pairing c' = None \/ ∃ w', pairing c' = Some w' /\ (awaiting w' = None \/ awaiting w' = Some a).

Definition pairing_origin (c' : Core) : Prop :=
  ∀ w' a', pairing c' = Some w' -> awaiting w' = Some a' ->
    (∃ w, pairing c0 = Some w /\ awaiting w = Some a') \/
    (∃ w l, pairing c0 = Some w /\ awaiting w = None /\ paired_by c0 ev l a').

Lemma step_pairing_origin s s' :
  step c0 now ev s s' -> pairing_origin s.1 -> pairing_origin s'.1.
Proof.
  unfold pairing_origin. intros Hs HA.
  destruct Hs; cbn [fst] in *; try exact HA; cbn.
  - apply guarded_eq in H0 as (_&_&_&_&->&_). done.
  - by intros w' a' [= <-].
  - done.
  - by intros w' a' [= <-].
  - intros w' a' [= <-] [= <-]. right. by exists w, l.
Qed.

(** Every action was allowed where it was put out. *)
Definition actions_justified (s : St) : Prop :=
  Forall (λ a, ∃ s1, rtc (step c0 now ev) (c0, []) s1 /\ action_ok c0 ev s1.1 a) s.2.

Lemma steps_actions s : rtc (step c0 now ev) (c0, []) s -> actions_justified s.
Proof.
  intros Hr. enough (rtc (step c0 now ev) (c0, []) s /\ actions_justified s) by tauto.
  eapply (steps_ind (λ s, rtc (step c0 now ev) (c0, []) s /\ actions_justified s)
    (c0, []) s); [|exact Hr|].
  - intros s1 s2 Hs [Hr1 HJ]. split; [by eapply rtc_r|].
    assert (rtc (step c0 now ev) (c0, []) s2) as Hr2 by (by eapply rtc_r).
    unfold actions_justified in *. destruct Hs; try exact HJ.
    + apply Forall_push. split; [exact HJ|]. exists (c, out). split; [done|by apply emit_action_ok].
    + apply Forall_push. split; [exact HJ|]. eexists. split; [exact Hr1|by eapply seals_action_ok].
    + apply Forall_push. split; [exact HJ|]. eexists. split; [exact Hr2|]. split; [done|].
      eexists. split_and!; [done..|]. exists peer. cbn. by rewrite lookup_insert_eq.
    + cbn [snd]; rewrite !Forall_push. split_and!; [exact HJ|..]; (eexists; split; [exact Hr2|]); [|done].
      split; [done|]. eexists. split_and!; [done..|]. exists id. cbn. by rewrite lookup_insert_eq.
    + apply Forall_push. split; [exact HJ|]. eexists. split; [exact Hr2|]. split; [done|].
      exists id. split_and!; [done..|]. cbn. by rewrite lookup_delete_eq.
  - split; [apply rtc_refl|]. by apply Forall_nil.
Qed.
End steps.

Lemma steps_trust_evolves c0 now ev s :
  rtc (step c0 now ev) (c0, []) s -> trust_evolves c0 ev s.1.
Proof.
  intros Hr. eapply (steps_ind c0 now ev (λ s, trust_evolves c0 ev s.1)); [|exact Hr|].
  - intros. by eapply step_trust_evolves.
  - split; [|intros id r E1 E2; cbn in E2; congruence].
    intros id r ?. left. exists r. split; [done|apply record_kept_refl].
Qed.

Lemma steps_link_origin c0 now ev s :
  rtc (step c0 now ev) (c0, []) s -> same_device c0 s.1 /\ link_origin c0 now ev s.1.
Proof.
  intros Hr. eapply (steps_ind c0 now ev (λ s, same_device c0 s.1 /\ link_origin c0 now ev s.1));
    [|exact Hr|].
  - intros s1 s2 Hs [? ?]. split; [by eapply step_same_device|by eapply step_link_origin].
  - split; [done|]. intros l u Hu. left. exists u. split; [done|apply continues_refl].
Qed.

Lemma steps_pairing_origin c0 now ev s :
  rtc (step c0 now ev) (c0, []) s -> pairing_origin c0 ev s.1.
Proof.
  intros Hr. eapply (steps_ind c0 now ev (λ s, pairing_origin c0 ev s.1)); [|exact Hr|].
  - intros. by eapply step_pairing_origin.
  - intros w a ? ?. left. eauto.
Qed.

(** ** The invariant between events *)

(** Effects and transfers are owned by plugins that exist, every record is filed
    under the id of its own key, and live sessions are with trusted devices. *)
Definition Good (c : Core) : Prop :=
  owners_in_range c /\ filed_by_key c /\
  ∀ l u, links c !! l = Some (Up u) -> is_Some (peers c !! ul_peer u).

Lemma Good_Inv ev c : Good c -> Inv ev c.
Proof. intros (?&?&HU). split_and!; [done..|]. intros l u Hu. left. eauto. Qed.

Lemma Inv_Good ev c : (∀ p, ev <> Local (Revoke p)) -> Inv ev c -> Good c.
Proof.
  intros Hne (?&?&HU). split_and!; [done..|]. intros l u Hu.
  destruct (HU l u Hu) as [?|?]; [done|by edestruct Hne].
Qed.

(** ** What a core is built with *)

(** What a built core advertises is the union of what its plugins declare,
    by direction and whatever the host can carry out, sorted and without
    repetition; what it is said to serve is what the plugins handle whose every
    effect the host carries out. *)
Theorem build_capabilities b cap :
  (cap ∈ caps_out (build_core b) <->
     ∃ p, p ∈ cb_plugins b /\ cap ∈ pm_outgoing (dyn_manifest p)) /\
  (cap ∈ caps_in (build_core b) <->
     ∃ p, p ∈ cb_plugins b /\ cap ∈ pm_incoming (dyn_manifest p)) /\
  (cap ∈ caps_served (build_core b) <->
     ∃ p, p ∈ cb_plugins b /\ cap ∈ pm_incoming (dyn_manifest p) /\
          ∀ k, k ∈ pm_requires (dyn_manifest p) -> k ∈ cb_effects b) /\
  NoDup (caps_out (build_core b)) /\ StronglySorted string_leb_prop (caps_out (build_core b)) /\
  NoDup (caps_in (build_core b)) /\ StronglySorted string_leb_prop (caps_in (build_core b)).
Proof.
  assert (∀ (f : DynPlugin -> list string) l, cap ∈ concat (map f l) <-> ∃ p, p ∈ l /\ cap ∈ f p) as Hc.
  { intros f l. induction l as [|p l IH]; cbn; [set_solver|]. rewrite elem_of_app, IH. set_solver. }
  cbn [build_core caps_out caps_in caps_served]. rewrite !elem_of_dedup_sort, !Hc.
  split_and!; try apply dedup_sort_NoDup; try apply dedup_sort_sorted; try done.
  unfold served_by. split.
  - intros (p & Hp & Hin). destruct (forallb _ _) eqn:E; [|by apply elem_of_nil in Hin].
    exists p. split_and!; [done..|]. intros k Hk. rewrite forallb_forall in E.
    by apply list_elem_of_In, E, bool_decide_eq_true in Hk.
  - intros (p & Hp & Hin & Hk). exists p. split; [done|].
    assert (forallb (λ k, bool_decide (k ∈ cb_effects b)) (pm_requires (dyn_manifest p)) = true) as ->;
      [|done].
    apply forallb_forall. intros k Hkin. apply bool_decide_eq_true, Hk. by apply list_elem_of_In.
Qed.

Context `{!ExternsLaws}.

(** *** Revoking *)

Lemma revoke_no_new_up c0 now p s s' l u :
  rtc (step c0 now (Local (Revoke p))) s s' -> links s'.1 !! l = Some (Up u) ->
  ∃ u0, links s.1 !! l = Some (Up u0) /\ ul_peer u0 = ul_peer u.
Proof.
  intros Hr. revert l u.
  eapply (steps_ind c0 now (Local (Revoke p)) (λ s', ∀ l u, links s'.1 !! l = Some (Up u) ->
    ∃ u0, links s.1 !! l = Some (Up u0) /\ ul_peer u0 = ul_peer u)); [|exact Hr|eauto].
  clear. intros s1 s2 Hs HA. destruct Hs; cbn [fst] in *; try exact HA; try done; cbn.
  - apply guarded_eq in H0 as (_&_&_&->&_). done.
  - intros l' u [_ ?]%lookup_delete_Some. eauto.
  - intros l' u [[_ ->]|[_ ?]]%up_after_insert; [done|eauto].
  - by apply comes_up_recv in H0 as [msg ?].
  - intros l' v [[<- [= <-]]|[_ ?]]%up_after_insert; [by apply (HA _ _ H0)|eauto].
  - intros l' v Hv%up_after_adopt. eauto.
Qed.

Lemma wp_steps {A} c0 now ev (m : M A) Q s :
  wp c0 now ev m Q s -> wp c0 now ev m (λ a s', Q a s' /\ rtc (step c0 now ev) s s') s.
Proof. intros Hm HI. destruct (Hm HI) as (a & s' & ? & ? & ? & ?). by exists a, s'. Qed.

(** The established links with [p] are among [ls]. *)
Definition ups_among (p : DeviceId) (ls : list LinkId) (c : Core) : Prop :=
  ∀ l u, links c !! l = Some (Up u) -> ul_peer u = p -> l ∈ ls.

Lemma revoke_loop c0 now p ls s :
  peers s.1 !! p = None -> from_before c0 s.1 -> ups_among p ls s.1 ->
  wp c0 now (Local (Revoke p))
    (for_each ls (λ l, emit (Close l (Protocol NotPaired)) ;;! on_link_down now l))
    (λ _ s', peers s'.1 !! p = None /\ ups_among p [] s'.1) s.
Proof.
  revert s. induction ls as [|l ls IH]; intros s Hp Hfrom Hu; cbn [for_each]; [by apply wp_ret|].
  apply wp_bind, wp_bind. destruct s as [c out]. apply wp_emit; [done|].
  rewrite on_link_down_eq. apply wp_get, wp_bind, wp_upd; [apply step_drop_link|].
  eapply wp_mono; [|apply wp_steps, (link_ended_safe _ _ _ _ (λ c, peers c !! p = None /\ from_before c0 c))].
  - intros [] s' [[Hp' Hfrom'] Hr]. apply IH; [done|done|]. intros l' u Hl' Hpu.
    apply (revoke_no_new_up _ _ _ _ _ _ _ Hr) in Hl' as (u0 & Hl0 & E). cbn in Hl0.
    apply lookup_delete_Some in Hl0 as [Hne Hl0]. rewrite <- Hpu, <- E in *.
    specialize (Hu l' u0 Hl0 eq_refl). apply elem_of_cons in Hu as [->|?]; done.
  - intros d d' Hl Hpe Hpa Hw Hk [Hd Hf]. split; [by rewrite Hpe|by eapply from_before_stable].
  - done.
  - intros u Hu'. by apply (Hfrom l).
  - split; [done|by apply from_before_drop].
Qed.

Lemma handle_revoke_wp_strong c0 now p s :
  links s.1 = links c0 ->
  wp c0 now (Local (Revoke p)) (handle_revoke now p)
    (λ _ s', peers s'.1 !! p = None /\ ups_among p [] s'.1) s.
Proof.
  intros E. destruct s as [c out]. unfold handle_revoke. apply wp_get. cbn [fst].
  apply wp_forget; [done|].
  apply wp_get. cbn [fst]. apply wp_bind.
  eapply wp_mono; [|apply revoke_loop].
  - intros [] [c1 out1] HQ. apply wp_bind, wp_emit; [done|].
    match goal with |- wp _ _ _ (match ?o with _ => _ end) _ _ => destruct o as [fp|] end;
      [|by apply wp_ret].
    unfold announce_peer. apply wp_get.
    destruct (announcement _ _); [by apply wp_emit|by apply wp_ret].
  - cbn. apply lookup_delete_eq.
  - by apply from_before_start.
  - intros l u Hl Hu. cbn in Hl. apply elem_of_up_links_with. eauto.
Qed.

Lemma handle_revoke_result nw p c :
  Good c ->
  ∃ o c', handle nw (Local (Revoke p)) c = Some (o, c') /\ Inv (Local (Revoke p)) c' /\
    peers c' !! p = None /\ ups_among p [] c'.
Proof.
  intros HG. unfold handle. cbn [on_event on_local_command].
  destruct (handle_revoke_wp_strong (c <| wall_ms := now_wall_ms nw |>) (monotonic_ms nw) p
    (c <| wall_ms := now_wall_ms nw |>, []) eq_refl) as (a & [c' out] & E & _ & HI' & HQ).
  { by apply (Good_Inv (Local (Revoke p)) c). }
  rewrite E. eexists _, c'. done.
Qed.

Lemma is_revoke ev : (∃ p, ev = Local (Revoke p)) \/ (∀ p, ev <> Local (Revoke p)).
Proof. destruct ev as [| | | | | | | | | |[]|]; try (by right); left; eauto. Qed.

(** ** The life of a core *)

Fixpoint run (evs : list (Now * Event)) (c : Core) : option (list Outcome * Core) :=
  match evs with
  | [] => Some ([], c)
  | (nw, ev) :: evs =>
      match handle nw ev c with
      | Some (o, c) => match run evs c with
                       | Some (os, c) => Some (o :: os, c)
                       | None => None
                       end
      | None => None
      end
  end.

Lemma build_peers_filed b : filed_by_key (build_core b).
Proof.
  unfold filed_by_key, build_core. cbn [peers].
  assert (∀ l (m : gmap DeviceId PeerRecord), map_Forall (λ id r, record_id r = Some id) m ->
    map_Forall (λ id r, record_id r = Some id)
      (fold_left (λ m r, match record_id r with Some id => <[id := r]> m | None => m end) l m)) as Hl.
  { induction l as [|r l IH]; intros m Hm; cbn [fold_left]; [done|]. apply IH.
    destruct (record_id r) eqn:E; [|done]. by apply map_Forall_insert_2. }
  apply Hl, map_Forall_empty.
Qed.

Lemma build_good b : Good (build_core b).
Proof.
  split_and!; [split; apply map_Forall_empty|apply build_peers_filed|].
  intros l u Hl. cbn in Hl. by apply lookup_empty_Some in Hl.
Qed.

Lemma handle_good_event nw ev c :
  Good c -> ∃ o c', handle nw ev c = Some (o, c') /\ Good c'.
Proof.
  intros HG. destruct (is_revoke ev) as [[p ->]|Hne].
  - destruct (handle_revoke_result nw p c HG) as (o & c' & E & (HO & HF & HU) & Hp & Hu).
    exists o, c'. split; [done|]. split_and!; [done..|]. intros l u Hl.
    destruct (HU l u Hl) as [?|[= ->]]; [done|].
    specialize (Hu l u Hl eq_refl). by apply elem_of_nil in Hu.
  - destruct (handle_steps nw ev c (Good_Inv ev c HG)) as (o & c' & E & _ & HI & _).
    exists o, c'. split; [done|]. by eapply Inv_Good.
Qed.

Lemma handle_keeps_good nw ev c o c' : Good c -> handle nw ev c = Some (o, c') -> Good c'.
Proof.
  intros HG E. destruct (handle_good_event nw ev c HG) as (o1 & c1 & E1 & ?).
  rewrite E in E1. by injection E1 as <- <-.
Qed.

Lemma run_good_from evs c : Good c -> ∃ os c', run evs c = Some (os, c') /\ Good c'.
Proof.
  revert c. induction evs as [|[nw ev] evs IH]; intros c HG; cbn [run]; [eauto|].
  destruct (handle_good_event nw ev c HG) as (o & c1 & -> & HG1).
  destruct (IH c1 HG1) as (os & c' & -> & ?). eauto.
Qed.

(** The steps of an event, from a handled one. *)
Lemma handle_inversion nw ev c o c' :
  Good c -> handle nw ev c = Some (o, c') ->
  rtc (step (c <| wall_ms := now_wall_ms nw |>) (monotonic_ms nw) ev)
    (c <| wall_ms := now_wall_ms nw |>, []) (c', actions o).
Proof.
  intros HG E. destruct (handle_steps nw ev c (Good_Inv ev c HG)) as (o1 & c1 & E1 & Hr & _).
  rewrite E in E1. by injection E1 as <- <-.
Qed.

(** C1 (invariant): (invariant, no panic): from a good state every event is handled without a
    panic, whatever peers, discovery, the host and the plugins do, and leaves a
    good state: no effect or transfer is owned by a plugin that does not exist,
    every trusted record is filed under the device id of its own key, and every
    live session is with a device that is trusted. *)
Theorem handle_good nw ev c :
  Good c -> ∃ o c', handle nw ev c = Some (o, c') /\ Good c'.
Proof. apply handle_good_event. Qed.

(** A core built from any configuration, plugins and stored
    records answers any sequence of events without a panic. *)
Theorem run_never_panics b evs :
  ∃ os c', run evs (build_core b) = Some (os, c') /\ Good c'.
Proof. apply run_good_from, build_good. Qed.


(** C6 (safety): the trust store gains or replaces a record only when a person
    here accepts a pairing, and then exactly the one whose digits were shown,
    filed under its own id; it loses one only when that peer is revoked; any
    other event leaves every key, secret and id alone and never moves a replay
    watermark back. *)
Theorem trust_store_evolves nw ev c o c' :
  Good c -> handle nw ev c = Some (o, c') -> trust_evolves c ev c'.
Proof. intros HG E. apply (steps_trust_evolves _ _ _ _ (handle_inversion nw ev c o c' HG E)). Qed.

(** C9 (safety): in a good state, a confirmation somebody may be looking at is never replaced: one
    that is there after an event was there before it, unchanged, or none was
    waiting in the pairing window then open, and this event's frame is the last of the
    pairing handshake its link was in: read there (and answered with this
    device's hello where it is our turn) it completes that handshake, and the
    confirmation is of that link, with the peer key the handshake proved, the
    secret and the digits of the handshake's hash, the name, platform and
    capabilities of the hello it carried, and the address the link was dialled
    at. *)
Theorem confirmation_not_replaced nw ev c o c' w' a' :
  Good c -> handle nw ev c = Some (o, c') ->
  pairing c' = Some w' -> awaiting w' = Some a' ->
  (∃ w, pairing c = Some w /\ awaiting w = Some a') \/
  (∃ w l msg body h hs payload hs' hash pk hello,
     pairing c = Some w /\ awaiting w = None /\
     ev = LinkRecv l msg /\ split msg = Ok (PairHandshake, body) /\
     links c !! l = Some (Handshaking h) /\ pairing_flow h = true /\
     hs_read (hl_hs h) body = (hs, Ok payload) /\
     concluded (c <| wall_ms := now_wall_ms nw |>) (is_my_turn hs) hs hs' /\
     is_complete hs' = true /\ handshake_hash hs' = Ok hash /\ peer_static hs' = Some pk /\
     cbor_decode payload = Some hello /\ a' = pairing_offer l pk hash hello (hl_via h)).
Proof.
  intros HG E Hw Ha.
  destruct (steps_pairing_origin _ _ _ _ (handle_inversion nw ev c o c' HG E) w' a' Hw Ha)
    as [?|(w & l & Hp & Hn & msg & body & h & hs & pl & hs' & hash & pk & hello & Hby)]; [by left|right].
  by exists w, l, msg, body, h, hs, pl, hs', hash, pk, hello.
Qed.

(** C7 (safety): in a good state, a session that is live after an event was live before it, on the
    same link with the same peer and nothing but its cipher's position and the
    time it was last heard changed; or the link was not established and this
    event's frame is the opener or the answer of a session handshake on it, made
    for a device that was trusted, carrying a hello newer than every one
    accepted from that device and within a minute of this device's clock; what
    may be sent and accepted over it is the intersection, by direction, of what
    this device and that very hello declare, its key material is that of the
    handshake the frame concluded, and the device's stored record is now the old
    one refreshed by that hello, watermark included. *)
Theorem session_origin nw ev c o c' l u :
  Good c -> handle nw ev c = Some (o, c') -> links c' !! l = Some (Up u) ->
  let c1 := c <| wall_ms := now_wall_ms nw |> in
  (∃ u0, links c !! l = Some (Up u0) /\ continues u0 u) \/
  ((∀ u0, links c !! l <> Some (Up u0)) /\
   ∃ peer hs attrs answers hello rec0 seen hs' hash session,
     greeted c1 ev l peer hs attrs answers hello rec0 seen /\
     peers c !! peer = Some rec0 /\ pr_greatest_seen rec0 < seen /\ seen = hello_ts_ms hello /\
     now_wall_ms nw <= seen + MAX_SKEW_MS /\ seen <= now_wall_ms nw + MAX_SKEW_MS /\
     concluded c1 answers hs hs' /\ handshake_hash hs' = Ok hash /\ into_session hs' attrs = Ok session /\
     continues (session_link c1 (monotonic_ms nw) session hash peer attrs hello) u /\
     can_send u = negotiate (caps_out c) (hello_caps_in hello) /\
     can_recv u = negotiate (hello_caps_out hello) (caps_in c) /\
     peers c' !! peer = Some (refresh_record rec0 seen hello)).
Proof.
  intros HG E Hl c1.
  destruct (steps_link_origin _ _ _ _ (handle_inversion nw ev c o c' HG E)) as [_ HL].
  destruct (HL l u Hl) as [?|(u0 & rec & (Hno & Hup) & Hc & Hp)]; [by left|right]. split; [done|].
  destruct Hup as (peer & hs & attrs & an & hello & rec0 & seen & hs' & hash & session & Hg & Hcon & Hh & Hs & -> & ->).
  pose proof Hg as (msg & pl & _ & _ & _ & Hr & Hf). pose proof (check_freshness_Ok _ _ _ _ Hf) as (? & ? & ?).
  assert (seen = hello_ts_ms hello) as Hts.
  { revert Hf. unfold check_freshness. cbv zeta. by repeat case_match; intros [= <-]. }
  pose proof Hc as [(Hpe & _ & _ & _ & _ & _ & Hsd & Hrv) _]. cbn in Hpe, Hsd, Hrv. rewrite <- Hpe in Hp.
  exists peer, hs, attrs, an, hello, rec0, seen, hs', hash, session. by split_and!.
Qed.

(** C8 (safety): in a good state, everything put on a link is either the next
    message of the handshake that link is in, made from this device's identity, the
    trusted record or the frame that arrived there, and saying nothing or this
    device's hello; or the sealing of an envelope, by the session that is live on
    that very link at that moment (one that was live when the event came, or the
    one the event's frame established there), of a capability that was negotiated
    for sending on it and in a frame no longer than the link takes. *)
Theorem sends_negotiated_and_bounded nw ev c o c' l msg :
  Good c -> handle nw ev c = Some (o, c') -> LinkSend l msg ∈ actions o ->
  let c1 := c <| wall_ms := now_wall_ms nw |> in
  shake_ok c1 ev l msg \/
  ∃ u env plaintext s ct,
    link_from c1 (monotonic_ms nw) ev l u /\
    env_cap env ∈ can_send u /\ to_vec env = Some plaintext /\
    session_encrypt (ul_session u) plaintext = (s, Ok ct) /\ msg = join Transport ct /\
    len msg <= ul_max_message u.
Proof.
  intros HG E Hin. pose proof (handle_inversion nw ev c o c' HG E) as Hr.
  pose proof (steps_actions _ _ _ _ Hr) as HJ. unfold actions_justified in HJ. rewrite Forall_forall in HJ.
  destruct (HJ _ Hin) as ([c2 out2] & Hr1 & [?|(u & Hl & env & pt & s & ct & Hf)]); [by left|right].
  exists u, env, pt, s, ct. split; [|done].
  destruct (steps_link_origin _ _ _ _ Hr1) as [_ HL].
  destruct (HL l u Hl) as [?|(u0 & rec & ? & ? & _)]; [by left|right]. by exists u0, rec.
Qed.

(** C11 (safety): what is written to the host's store is the secret record of a
    device that was trusted before, under its own name and with the keys and
    secret it had, or of the one a person here just confirmed; what is erased
    is the record of a device that is being revoked. *)
Theorem store_writes_justified nw ev c o c' k v s :
  Good c -> handle nw ev c = Some (o, c') -> Persist k v s ∈ actions o ->
  s = Secret /\
  match v with
  | None => ∃ peer, ev = Local (Revoke peer) /\ k = "peer/" +:+ did_str peer
  | Some b => ∃ rec, k = "peer/" +:+ pr_device_id rec /\ to_vec rec = Some b /\
      ((∃ id r, peers c !! id = Some r /\ record_kept r rec) \/
       (ev = Local (ConfirmPairing true) /\
        ∃ w a, pairing c = Some w /\ awaiting w = Some a /\ aw_record a = rec))
  end.
Proof.
  intros HG E Hin. pose proof (handle_inversion nw ev c o c' HG E) as Hr.
  apply steps_actions in Hr. unfold actions_justified in Hr. rewrite Forall_forall in Hr.
  destruct (Hr _ Hin) as ([c1 out1] & Hr1 & -> & Hv). split; [done|].
  destruct v as [b|]; [|destruct Hv as (peer & ? & ? & _); by exists peer].
  destruct Hv as (rec & Hk & Hb & Hv). exists rec. split_and!; [done..|].
  destruct Hv as [id Hid].
  destruct (steps_trust_evolves _ _ _ _ Hr1) as [HA _].
  destruct (HA id rec Hid) as [(r & ? & ?)|(? & w & a & ? & ? & ? & _)]; [left; by exists id, r|right].
  subst. eauto 6.
Qed.

(** Revoking a device always goes through, and ends every session with
    it and forgets its record. *)
Theorem revoke_forgets nw p c :
  Good c ->
  ∃ o c', handle nw (Local (Revoke p)) c = Some (o, c') /\ peers c' !! p = None /\
    ∀ l u, links c' !! l = Some (Up u) -> ul_peer u <> p.
Proof.
  intros HG. destruct (handle_revoke_result nw p c HG) as (o & c' & E & _ & Hp & Hu).
  exists o, c'. split_and!; [done..|]. intros l u Hl Hul. by apply (Hu l u Hl), elem_of_nil in Hul.
Qed.
End theorems.
