(* ===== verification/CoreBehaviour.v ===== *)
(** * What [Core] does with particular events

    Capability enforcement on what arrives, the way back of an effect's result,
    the keys of the bulk channel, and the walk along a peer's routes. *)

From S2P Require Import Prelude Externals Ids Frame Hello Envelope PairingKeys Bulk Link Peer.
From S2P Require Import Vocab Noise Plugin CoreState CoreQueries CoreOps CoreHandle CoreSteps CoreRefines CoreTheorems.
Local Open Scope N_scope.

Section behaviour.
  Context `{Externs}.

(** ** Sending disturbs nothing *)

Definition only_talks (a : Action) : Prop :=
  match a with LinkSend _ _ | Ui _ => True | _ => False end.

Lemma dispatch_send_result n s c out :
  ∃ c' acts, dispatch_send n s (c, out) = Some (tt, (c', out ++ acts)) /\
    plugins c' = plugins c /\ peers c' = peers c /\ effect_owner c' = effect_owner c /\
    bulk_owner c' = bulk_owner c /\ pairing c' = pairing c /\
    (length acts <= 1)%nat /\ Forall only_talks acts.
Proof.
  assert (∀ c' a, only_talks a -> plugins c' = plugins c -> peers c' = peers c ->
    effect_owner c' = effect_owner c -> bulk_owner c' = bulk_owner c -> pairing c' = pairing c ->
    ∃ c'' acts, emit a (c', out) = Some (tt, (c'', out ++ acts)) /\
    plugins c'' = plugins c /\ peers c'' = peers c /\ effect_owner c'' = effect_owner c /\
    bulk_owner c'' = bulk_owner c /\ pairing c'' = pairing c /\
    (length acts <= 1)%nat /\ Forall only_talks acts) as Hone.
  { intros c' a Ha ?????. exists c', [a]. split_and!; try done. by apply Forall_singleton. }
  assert (∀ c', plugins c' = plugins c -> peers c' = peers c ->
    effect_owner c' = effect_owner c -> bulk_owner c' = bulk_owner c -> pairing c' = pairing c ->
    ∃ c'' acts, ret tt (c', out) = Some (tt, (c'', out ++ acts)) /\
    plugins c'' = plugins c /\ peers c'' = peers c /\ effect_owner c'' = effect_owner c /\
    bulk_owner c'' = bulk_owner c /\ pairing c'' = pairing c /\
    (length acts <= 1)%nat /\ Forall only_talks acts) as Hnone.
  { intros c' ?????. exists c', []. rewrite app_nil_r. split_and!; try done. cbn. lia. }
  unfold dispatch_send, bind, get. cbn [fst].
  destruct (best_link (ps_peer s) c) as [[link u']|]; [|by apply Hone]. cbn [fst].
  destruct (links c !! link) as [[| |u]|]; try by apply Hnone.
  destruct (negb _); [by apply Hone|]. unfold upd, modify. cbn [fst snd].
  destruct (to_vec _); [|by apply Hnone]. destruct (session_encrypt _ _) as [ses r]. cbn [fst snd].
  destruct r; [|by apply Hone]. destruct (_ <? _); by apply Hone.
Qed.

Lemma send_error_result n peer env code c out :
  ∃ c' acts, send_error n peer env code (c, out) = Some (tt, (c', out ++ acts)) /\
    plugins c' = plugins c /\ peers c' = peers c /\ effect_owner c' = effect_owner c /\
    bulk_owner c' = bulk_owner c /\ pairing c' = pairing c /\
    (length acts <= 1)%nat /\ Forall only_talks acts.
Proof. apply dispatch_send_result. Qed.

(** C10 (safety): a message of a capability that was not negotiated for receiving reaches no
    plugin and causes no effect, transfer or change of trust: at most one answer
    or notice comes of it. *)
Theorem unnegotiated_stops nw c l u body s plaintext env :
  links c !! l = Some (Up u) -> session_decrypt (ul_session u) body = (s, Ok plaintext) ->
  cbor_decode plaintext = Some env -> env_cap env ∉ can_recv u ->
  ∃ o c', handle nw (LinkRecv l (join Transport body)) c = Some (o, c') /\
    plugins c' = plugins c /\ peers c' = peers c /\ effect_owner c' = effect_owner c /\
    bulk_owner c' = bulk_owner c /\ pairing c' = pairing c /\
    (length (actions o) <= 1)%nat /\ Forall only_talks (actions o).
Proof.
  intros Hl Hd He Hcap. unfold handle. cbn [on_event]. unfold on_link_recv.
  rewrite split_join_id. unfold bind at 1, get. cbn [fst].
  change (links (c <| wall_ms := now_wall_ms nw |>)) with (links c). rewrite Hl.
  unfold bind at 1, upd at 1, modify. cbn [fst snd]. unfold on_transport_frame.
  rewrite bool_decide_eq_true_2 by done. cbn [negb]. rewrite Hd. cbv zeta.
  unfold bind at 1, upd at 1, modify. cbn [fst snd]. rewrite He.
  match goal with |- context [existsb ?f ?x] => destruct (existsb f x) eqn:Ex end.
  { cbn in Ex. apply existsb_exists in Ex as (x & Hx%list_elem_of_In & Heq).
    apply String.eqb_eq in Heq. congruence. }
  cbn [negb].
  match goal with |- context [send_error ?n ?p ?e ?k (?c1, ?o1)] =>
    destruct (send_error_result n p e k c1 o1) as (c' & acts & E & ?) end.
  rewrite E. by eexists _, c'.
Qed.

(** ** Messages too long, and frames that are none *)

Lemma existsb_eqb_In c l : c ∈ l -> existsb (String.eqb c) l = true.
Proof.
  intros Hc. apply existsb_exists. exists c. split; [by apply list_elem_of_In|apply String.eqb_refl].
Qed.

(** A message too long for its link is refused after it was sealed: the
    person is told, nothing is sent, and the session keeps the state the
    sealing left it in, one nonce ahead of what the peer will see. *)
Theorem oversized_send_spends_nonce nw ps l u c out pt s' ct :
  best_link (ps_peer ps) c = Some (l, u) -> links c !! l = Some (Up u) ->
  ps_cap ps ∈ can_send u ->
  to_vec (mkEnvelope WIRE_VERSION (wrap32 (next_msg_id c + 1)) (ps_re ps) (ps_cap ps) (ps_ty ps)
            (ps_body ps) 0 None) = Some pt ->
  session_encrypt (ul_session u) pt = (s', Ok ct) -> ul_max_message u < len (join Transport ct) ->
  ∃ c' detail,
    dispatch_send nw ps (c, out) =
      Some (tt, (c', push (Ui (UiError (Some (ul_peer u)) TooLarge detail)) out)) /\
    links c' !! l = Some (Up (u <| ul_session := s' |>)).
Proof.
  intros Hb Hl Hc Ht He Hlen. unfold dispatch_send, bind, get. cbn [fst]. rewrite Hb. cbn [fst].
  rewrite Hl, existsb_eqb_In by done. cbn [negb]. unfold upd, modify, ui, emit. cbn [fst snd].
  match goal with |- context [to_vec ?x] => replace (to_vec x) with (Some pt) by (symmetry; exact Ht) end.
  rewrite He. cbn [fst snd]. cbv zeta.
  destruct (N.ltb_spec (ul_max_message u) (len (join Transport ct))); [|lia].
  eexists _, _. split; [done|]. cbn. apply lookup_insert_eq.
Qed.

(** A frame that is no frame, on an established link, closes it
    without a word to the plugins, to the person or to the reconnection: the
    only things put out are the closing and the error, and nothing of the core
    changes but the table of links. *)
Theorem malformed_frame_drops_silently nw l u msg e c :
  links c !! l = Some (Up u) -> split msg = Err e ->
  ∃ o c', handle nw (LinkRecv l msg) c = Some (o, c') /\
    actions o = [Close l (Protocol NotAllowed);
                 Ui (UiError (Some (ul_peer u)) NotAllowed "malformed frame")] /\
    links c' = delete l (links c) /\ plugins c' = plugins c /\ reconnect_at c' = reconnect_at c.
Proof.
  intros Hl Hs. unfold handle. cbn [on_event]. unfold on_link_recv. rewrite Hs.
  unfold fail_link, bind, get, upd, modify, ui, emit. cbn. rewrite Hl. by eexists _, _.
Qed.
Context `{!ExternsLaws}.

(** ** The way back of an effect's result *)

(** The result of an effect goes to the plugin that asked for it and to no
    other; a result nobody waits for changes nothing and is answered by
    nothing. *)
Theorem effect_answers_its_plugin nw t r c :
  Good c ->
  ∃ o c', handle nw (EffectDone t r) c = Some (o, c') /\
    match effect_owner c !! t with
    | None => plugins c' = plugins c /\ actions o = []
    | Some idx => ∃ p, plugins c !! idx = Some p /\
        plugins c' = <[idx := (dyn_call (CEffectResult t r) p
          (Cx_new (monotonic_ms nw) (next_token c) (next_transfer c) (serves c))).1]> (plugins c)
    end.
Proof.
  intros HG. pose proof HG as [[HE _] _]. unfold handle. cbn [on_event].
  set (c1 := c <| wall_ms := now_wall_ms nw |>).
  unfold on_effect_done. unfold bind at 1, get at 1. cbn [fst].
  change (effect_owner c1) with (effect_owner c).
  unfold bind at 1, upd at 1, modify. cbn [fst snd].
  destruct (effect_owner c !! t) as [idx|] eqn:Eo.
  2: { eexists _, _. split; [done|]. done. }
  destruct (lookup_lt_is_Some_2 (plugins c) idx) as [p Hp]; [by apply (HE t)|].
  unfold bind at 1, new_cx, get at 1. cbn [fst].
  set (c2 := c1 <| effect_owner ::= delete t |>).
  set (cx := Cx_new _ _ _ _).
  assert (Inv (EffectDone t r) c2) as HI.
  { destruct HG as ([HE' HB'] & HF & HU). split_and!; [split|done|].
    - cbn. by apply map_Forall_delete.
    - done.
    - intros l u Hl. left. by apply (HU l u). }
  destruct (run_plugin_wp c1 (monotonic_ms nw) (EffectDone t r) idx
    (no_result (dyn_call (CEffectResult t r))) cx (CEffectResult t r) p
    (λ d, plugins d = <[idx := (dyn_call (CEffectResult t r) p cx).1]> (plugins c)) c2 [])
    as (a & [c' out] & E & _ & _ & HQ); try done.
  { intros d d' -> _ _ _ ?. done. }
  rewrite E. eexists _, c'. split; [done|]. exists p. done.
Qed.

(** ** The keys of the bulk channel *)

(** The two ends of a transfer derive one key without agreeing on anything:
    the sender names itself and its own number, the receiver names the sender
    and the number it was offered under, and both take the session they share. *)
Theorem bulk_keys_agree now_a now_b (a b : Core) hash t ours ep size outa outb :
  handshake_hash_for (core_device_id b) a = Some hash ->
  handshake_hash_for (core_device_id a) b = Some hash ->
  bulk_support_for (core_device_id b) a <> Some BulkNone ->
  bulk_support_for (core_device_id a) b <> Some BulkNone ->
  let k := key hash (did_str (core_device_id a)) t in
  ∃ a' b',
    dispatch_bulk now_a (BrSend (core_device_id b) t ep) (a, outa)
      = Some (tt, (a', push (BulkSend t ep k) outa)) /\
    dispatch_bulk now_b (BrListen (core_device_id a) ours t size) (b, outb)
      = Some (tt, (b', push (BulkListen ours t k size) outb)) /\
    bulk_wait b' !! ours = Some (now_b +u64 BULK_DIAL_WAIT_MS).
Proof.
  intros Ha Hb Sa Sb k. unfold dispatch_bulk, bind, get, upd, modify, emit. cbn [fst snd].
  rewrite !bool_decide_eq_false_2 by done. cbn [fst snd]. rewrite Ha, Hb. cbn [fst snd].
  eexists _, _. split_and!; [done|done|]. cbn. apply lookup_insert_eq.
Qed.

(** A side channel is only opened under a key derived from the
    session that is live with the device it is opened to, and from that
    device's own name and number. *)
Theorem bulk_key_of_session nw ev c o c' t as_ k n :
  Good c -> handle nw ev c = Some (o, c') -> BulkListen t as_ k n ∈ actions o ->
  ∃ l u, k = key (ul_handshake_hash u) (did_str (ul_peer u)) as_ /\
    link_from (c <| wall_ms := now_wall_ms nw |>) (monotonic_ms nw) ev l u.
Proof.
  intros HG E Hin. pose proof (handle_inversion nw ev c o c' HG E) as Hr.
  apply steps_actions in Hr. unfold actions_justified in Hr. rewrite Forall_forall in Hr.
  destruct (Hr _ Hin) as ([c1 out1] & Hr1 & (peer & hash & Hh & Hs & Hk)). cbn in Hh.
  unfold handshake_hash_for in Hh.
  destruct (best_link peer c1) as [[l u]|] eqn:Eb; [|done].
  cbn in Hh. injection Hh as <-. apply best_link_Some in Eb as [Hl <-].
  exists l, u. split; [done|].
  destruct (steps_link_origin _ _ _ _ Hr1) as [_ HL].
  destruct (HL l u Hl) as [?|(u0 & rec & ? & ? & _)]; [by left|right]. by exists u0, rec.
Qed.

(** ** The walk along a peer's routes *)

(** [Event::DialFailed] for each dial in turn. *)
Fixpoint fail_dials (nw : Now) (why : string) (n : nat) (c : Core) : option (list Action * Core) :=
  match n with
  | O => Some ([], c)
  | S n =>
      match handle nw (DialFailed (next_dial c) why) c with
      | Some (o, c) =>
          match fail_dials nw why n c with
          | Some (acts, c) => Some (actions o ++ acts, c)
          | None => None
          end
      | None => None
      end
  end.

(** The dials of a list of routes, numbered on from [d]. *)
Fixpoint dials_from (d : DialToken) (routes : list (TransportId * string)) : list Action :=
  match routes with
  | [] => []
  | (tr, a) :: routes => Dial tr a (d + 1) :: dials_from (d + 1) routes
  end.

(** The tokens a core will hand out next are not those of a dial to pair. *)
Definition fresh_dials (c : Core) : Prop := ∀ d, next_dial c <= d -> pending_pair_dials c !! d = None.

(** A dial to a peer there is no session with fails: the next route is dialled,
    or the walk is over. *)
Lemma dial_failed_step nw why c dl peer routes hand :
  fresh_dials c -> best_link peer c = None -> next_dial c + 1 <= u64_max ->
  pending_peer_dials c !! next_dial c = Some (dl, mkPeerDial peer routes hand) ->
  ∃ o c', handle nw (DialFailed (next_dial c) why) c = Some (o, c') /\
    fresh_dials c' /\ best_link peer c' = None /\ pending_peer_dials c' !! next_dial c = None /\
    match routes with
    | [] => next_dial c' = next_dial c /\ dial_trouble c' !! peer = Some why /\
        actions o = if hand then [Ui (UiPeerUnreachable peer)] else []
    | (tr, a) :: routes => next_dial c' = next_dial c + 1 /\
        (∃ dl', pending_peer_dials c' !! next_dial c' = Some (dl', mkPeerDial peer routes hand)) /\
        actions o = [Dial tr a (next_dial c')]
    end.
Proof.
  intros Hf Hb Hn Hp. unfold handle. cbn [on_event]. unfold on_dial_failed.
  set (d0 := next_dial c) in *.
  unfold bind, get, upd, modify. cbn [fst snd].
  change (pending_pair_dials (c <| wall_ms := now_wall_ms nw |>)) with (pending_pair_dials c).
  rewrite (Hf d0) by done. cbn [fst snd]. cbn. rewrite Hp.
  unfold try_next_route, bind, get. cbn [fst snd pd_peer pd_routes].
  match goal with |- context [best_link peer ?x] =>
    change (best_link peer x) with (best_link peer c) end.
  rewrite Hb, bool_decide_eq_false_2 by (by intros [? ?]).
  assert (∀ c' : Core, pending_pair_dials c' = delete d0 (pending_pair_dials c) ->
    d0 <= next_dial c' -> fresh_dials c') as Hfr.
  { intros c' E Hle d Hd. rewrite E. apply lookup_delete_None. right. apply Hf. fold d0. lia. }
  destruct routes as [|[tr a] routes]; cbn [by_hand].
  - unfold upd, modify. destruct hand; cbn [fst snd]; eexists _, _; (split; [done|]); cbn;
      (split_and!; [by apply Hfr|done|apply lookup_delete_eq|done|apply lookup_insert_eq|done]).
  - unfold dial, bind, get, upd, modify, emit. cbn [fst snd]. cbn.
    fold d0. rewrite (u64_add_small d0 1) by done.
    eexists _, _. split; [done|]. cbn. fold d0. rewrite (u64_add_small d0 1) by done. split_and!; try done.
    + apply Hfr; cbn; [done|]. fold d0. rewrite (u64_add_small d0 1) by done. lia.
    + rewrite lookup_insert_ne by lia. apply lookup_delete_eq.
    + eexists. rewrite lookup_insert_eq. done.
Qed.

(** C17 (termination): a peer that cannot be reached is dialled once on each of the
    routes left, in order, and no more; then the walk is over, the reason of the
    last failure is kept, and a person who asked is told. *)
Theorem route_walk_ends nw why routes c dl peer hand :
  fresh_dials c -> best_link peer c = None -> next_dial c + N.of_nat (S (length routes)) <= u64_max ->
  pending_peer_dials c !! next_dial c = Some (dl, mkPeerDial peer routes hand) ->
  ∃ c', fail_dials nw why (S (length routes)) c =
      Some (dials_from (next_dial c) routes ++ (if hand then [Ui (UiPeerUnreachable peer)] else []), c') /\
    pending_peer_dials c' !! next_dial c' = None /\ dial_trouble c' !! peer = Some why /\
    next_dial c' = next_dial c + N.of_nat (length routes).
Proof.
  revert c dl. induction routes as [|[tr a] routes IH]; intros c dl Hf Hb Hn Hp.
  - destruct (dial_failed_step nw why c dl peer [] hand Hf Hb) as (o & c' & E & _ & _ & Hnone & Hd & Ht & Ha);
      [lia|done|].
    exists c'. cbn [length fail_dials dials_from app]. rewrite E, Ha, app_nil_r, Hd.
    split_and!; [done|done|done|lia].
  - destruct (dial_failed_step nw why c dl peer ((tr, a) :: routes) hand Hf Hb)
      as (o & c1 & E & Hf1 & Hb1 & _ & Hd & (dl' & Hp1) & Ha); [lia|done|].
    destruct (IH c1 dl' Hf1 Hb1) as (c' & E' & ? & ? & Hd'); [rewrite Hd; cbn [length] in Hn; lia|done|].
    exists c'. change (length ((tr, a) :: routes)) with (S (length routes)).
    change (fail_dials nw why (S (S (length routes))) c) with
      (match handle nw (DialFailed (next_dial c) why) c with
      | Some (o, c) =>
          match fail_dials nw why (S (length routes)) c with
          | Some (acts, c) => Some (actions o ++ acts, c)
          | None => None
          end
      | None => None
      end).
    rewrite E, E', Ha. cbn [dials_from]. rewrite <- Hd. split_and!; [done..|]. lia.
Qed.
End behaviour.
