(* ===== verification/CoreClock.v ===== *)
(** * What the clock leaves behind

    Nothing of [Core] but the plugins' own alarm is overdue once a tick has
    been handled, so a host that sleeps until the deadline it is handed makes
    progress.  The proof follows the deadlines alone: it says what each method
    a tick calls does to the four tables that hold one. *)

From S2P Require Import Prelude Externals Ids Frame Envelope Link Peer Vocab Noise Plugin.
From S2P Require Import CoreState CoreQueries CoreOps CoreHandle CoreSteps CoreRefines CoreTheorems.
Local Open Scope N_scope.

(** A history of calls starts and ends at one time. *)
Lemma cx_grows_now c c' : cx_grows c c' -> cx_now_ms c' = cx_now_ms c.
Proof. intros H. by apply cx_grows_readonly in H as (-> & _). Qed.

Lemma call_each_now k ps cx : cx_now_ms (call_each k ps cx).2 = cx_now_ms cx.
Proof.
  revert cx. induction ps as [|p ps IH]; intros cx; [done|]. cbn [call_each].
  pose proof (cx_grows_now _ _ (dyn_call_grows k p cx)) as E. destruct (dyn_call k p cx) as [p' cx1].
  specialize (IH cx1). destruct (call_each k ps cx1) as [ps' cx2]. cbn in *. congruence.
Qed.

Section clock.
  Context `{Externs}.

(** ** Results of a method, when it returns *)

Definition post {A} (m : M A) (Q : A -> Core -> Prop) (c : Core) : Prop :=
  ∀ out a c' out', m (c, out) = Some (a, (c', out')) -> Q a c'.

Lemma post_ret {A} (a : A) Q c : Q a c -> post (ret a) Q c.
Proof. intros HQ out b c' out' [= <- <- _]. done. Qed.
Lemma post_panic {A} (Q : A -> Core -> Prop) c : post panic Q c.
Proof. done. Qed.
Lemma post_bind {A B} (m : M A) (k : A -> M B) Q c :
  post m (λ a, post (k a) Q) c -> post (bind m k) Q c.
Proof.
  intros Hm out b c' out' E. unfold bind in E. destruct (m (c, out)) as [[a [c1 out1]]|] eqn:E1; [|done].
  by apply (Hm _ _ _ _ E1) in E.
Qed.
Lemma post_get {A B} (f : Core -> A) (k : A -> M B) Q c : post (k (f c)) Q c -> post (bind (get f) k) Q c.
Proof. intros Hk. apply post_bind. intros out a c' out' [= <- <- _]. done. Qed.
Lemma post_emit a Q c : Q tt c -> post (emit a) Q c.
Proof. intros HQ out b c' out' [= <- <- _]. done. Qed.
Lemma post_modify f Q c : Q tt (f c) -> post (modify f) Q c.
Proof. intros HQ out b c' out' [= <- <- _]. done. Qed.
Lemma post_mono {A} (m : M A) (Q Q' : A -> Core -> Prop) c :
  (∀ a c, Q a c -> Q' a c) -> post m Q c -> post m Q' c.
Proof. intros HQ Hm out a c' out' E. by eapply HQ, Hm. Qed.

(** ** What may be overdue *)

Variables (t : u64) (cfg : CoreConfig).
Hypothesis bulk_later : t < t +u64 BULK_DIAL_WAIT_MS.
Hypothesis dial_later : t < t +u64 dial_timeout_ms cfg.

(** Of links, transfers and dials, those of [A], [B] and [D]. *)
Record due_in (A : LinkId -> Prop) (B : TransferId -> Prop) (D : DialToken -> Prop)
    (w : option PairingWindow) (r : option u64) (c : Core) : Prop := {
  due_config : config c = cfg;
  due_pairing : pairing c = w;
  due_reconnect : reconnect_at c = r;
  due_links : ∀ l st d, links c !! l = Some st -> link_deadline st = Some d -> d <= t -> A l;
  due_bulk : ∀ x d, bulk_wait c !! x = Some d -> d <= t -> B x;
  due_dials : ∀ x d p, pending_peer_dials c !! x = Some (d, p) -> d <= t -> D x;
}.

(** The tables that hold a deadline. *)
Definition timed (c : Core) :=
  (config c, pairing c, reconnect_at c, links c, bulk_wait c, pending_peer_dials c).

Section keeping.
  Variables (A : LinkId -> Prop) (B : TransferId -> Prop) (D : DialToken -> Prop).
  Variables (w : option PairingWindow) (r : option u64).
  Local Abbreviation due := (due_in A B D w r).

Definition on_time {X} (m : M X) : Prop := ∀ c, due c -> post m (λ _, due) c.

Lemma due_same c c' : timed c' = timed c -> due c -> due c'.
Proof.
  unfold timed. intros [= E1 E2 E3 E4 E5 E6] []. constructor; rewrite ?E1, ?E2, ?E3, ?E4, ?E5, ?E6; done.
Qed.

Lemma on_time_ret {X} (x : X) : on_time (ret x).
Proof. intros c Hc. by apply post_ret. Qed.
Lemma on_time_bind {X Y} (m : M X) (k : X -> M Y) : on_time m -> (∀ x, on_time (k x)) -> on_time (bind m k).
Proof. intros Hm Hk c Hc. apply post_bind. eapply post_mono; [|by apply Hm]. intros x c'. apply Hk. Qed.
Lemma on_time_get {X Y} (f : Core -> X) (k : X -> M Y) : (∀ x, on_time (k x)) -> on_time (bind (get f) k).
Proof. intros Hk c Hc. apply post_get. by apply Hk. Qed.
Lemma on_time_emit a : on_time (emit a).
Proof. intros c Hc. by apply post_emit. Qed.
Lemma on_time_modify f : (∀ c, timed (f c) = timed c) -> on_time (modify f).
Proof. intros Hf c Hc. apply post_modify. apply (due_same c); [apply Hf|done]. Qed.
Lemma on_time_for_each {X} (l : list X) f : (∀ x, on_time (f x)) -> on_time (for_each l f).
Proof.
  intros Hf. induction l as [|x l IH]; cbn [for_each]; [apply on_time_ret|].
  apply on_time_bind; [apply Hf|intros _; apply IH].
Qed.

Lemma on_time_ui e : on_time (ui e).
Proof. apply on_time_emit. Qed.

(** An established link is never overdue. *)
Lemma on_time_up l u : on_time (upd links (insert l (Up u))).
Proof.
  intros c []. apply post_modify. constructor; cbn; try done.
  intros l' st d [[_ <-]|[_ ?]]%lookup_insert_Some Hd; [done|eauto].
Qed.

Lemma on_time_drop_link l : on_time (upd links (delete l)).
Proof.
  intros c []. apply post_modify. constructor; cbn; try done.
  intros l' st d [_ ?]%lookup_delete_Some; eauto.
Qed.

Lemma on_time_wait x : on_time (upd bulk_wait (insert x (t +u64 BULK_DIAL_WAIT_MS))).
Proof.
  intros c []. apply post_modify. constructor; cbn; try done.
  intros x' d [[_ <-]|[_ ?]]%lookup_insert_Some Hd; [lia|eauto].
Qed.

(** ** The methods a tick calls *)

Lemma dispatch_send_on_time n s : on_time (dispatch_send n s).
Proof.
  unfold dispatch_send. apply on_time_get. intros [[l u]|]; [|apply on_time_ui].
  apply on_time_get. intros [[| |v]|]; try apply on_time_ret.
  destruct (negb _); [apply on_time_ui|].
  apply on_time_bind; [by apply on_time_modify|intros _]. apply on_time_get. intros id. cbv zeta.
  destruct (to_vec _); [|apply on_time_ret]. destruct (session_encrypt _ _) as [session r'].
  apply on_time_bind; [apply on_time_up|intros _].
  destruct r'; [|apply on_time_ui]. destruct (_ <? _); [apply on_time_ui|apply on_time_emit].
Qed.

Lemma dispatch_bulk_on_time b : on_time (dispatch_bulk t b).
Proof.
  unfold dispatch_bulk. destruct b; [..|apply on_time_emit].
  all: apply on_time_get; intros support; case_bool_decide;
    [apply on_time_bind; [apply on_time_ui|intros _];
     apply on_time_bind; [apply on_time_emit|intros _]; by apply on_time_modify|].
  all: apply on_time_get; intros [hash|]; [|apply on_time_ui]; apply on_time_get; intros me; cbv zeta.
  - apply on_time_bind; [apply on_time_wait|intros _; apply on_time_emit].
  - apply on_time_emit.
Qed.

Lemma drain_cx_on_time cx : cx_now_ms cx = t -> on_time (drain_cx cx).
Proof.
  intros E. unfold drain_cx. rewrite E. repeat (apply on_time_bind; [|intros _]).
  - apply on_time_for_each. intros e. apply on_time_ui.
  - apply on_time_for_each. intros [k e]. apply on_time_emit.
  - apply on_time_for_each. intros b. apply dispatch_bulk_on_time.
  - apply on_time_for_each. intros b. apply dispatch_send_on_time.
  - destruct (cx_wake_at cx); [by apply on_time_modify|apply on_time_ret].
Qed.

Lemma remember_owner_on_time cx idx : on_time (remember_owner cx idx).
Proof.
  unfold remember_owner. apply on_time_bind; [|intros _]; apply on_time_for_each.
  - intros [k e]. by apply on_time_modify.
  - intros []; [by apply on_time_modify..|apply on_time_ret].
Qed.

Lemma take_counters_on_time cx : on_time (take_counters cx).
Proof. unfold take_counters. apply on_time_bind; [|intros _]; by apply on_time_modify. Qed.

(** What plugins are called with starts at [t]. *)
Lemma on_time_new_cx {X} (k : Cx -> M X) :
  (∀ cx, cx_now_ms cx = t -> on_time (k cx)) -> on_time (bind (new_cx t) k).
Proof. intros Hk c Hc. apply post_get. by apply Hk. Qed.

Lemma run_call_on_time idx k cx : cx_now_ms cx = t -> on_time (run_plugin idx (no_result (dyn_call k)) cx).
Proof.
  intros E. unfold run_plugin, on_plugin, no_result.
  intros c Hc. apply post_bind, post_get. destruct (plugins c !! idx) as [p|]; [|apply post_panic].
  pose proof (cx_grows_now _ _ (dyn_call_grows k p cx)) as En. destruct (dyn_call k p cx) as [p' cx'].
  apply post_bind, post_modify, post_ret. revert Hc. intros Hc.
  assert (on_time (take_counters cx' ;;! remember_owner cx' idx ;;! drain_cx cx' ;;! ret tt)) as Ho.
  { apply on_time_bind; [apply take_counters_on_time|intros _].
    apply on_time_bind; [apply remember_owner_on_time|intros _].
    apply on_time_bind; [apply drain_cx_on_time; cbn in En; congruence|intros _]. apply on_time_ret. }
  apply Ho. by apply (due_same c).
Qed.

Lemma tell_plugins_on_time k : on_time (tell_plugins t k).
Proof.
  unfold tell_plugins. apply on_time_new_cx. intros cx E c Hc. apply post_bind.
  unfold all_plugins. apply post_get.
  pose proof (call_each_now k (plugins c) cx) as En. destruct (call_each k (plugins c) cx) as [ps cx'].
  apply post_bind, post_modify, post_ret.
  assert (on_time (take_counters cx' ;;! drain_cx cx')) as Ho.
  { apply on_time_bind; [apply take_counters_on_time|intros _]. apply drain_cx_on_time.
    cbn in En. congruence. }
  apply Ho. by apply (due_same c).
Qed.

Lemma transfer_owner_on_time x k : on_time (dispatch_to_transfer_owner t x k).
Proof.
  unfold dispatch_to_transfer_owner. apply on_time_get. intros [idx|]; [|apply on_time_ret].
  apply on_time_new_cx. intros cx. apply run_call_on_time.
Qed.

Lemma dial_on_time tr a d : on_time (dial t tr a d).
Proof.
  unfold dial. apply on_time_bind; [by apply on_time_modify|intros _]. apply on_time_get. intros n.
  intros c Hc. apply post_get. apply post_bind, post_modify, post_emit.
  destruct Hc. constructor; cbn; try done.
  intros x d' p [[_ [= <- <-]]|[_ ?]]%lookup_insert_Some Hd; [|eauto]. rewrite due_config0 in Hd. lia.
Qed.

Lemma try_next_route_on_time d why : on_time (try_next_route t d why).
Proof.
  unfold try_next_route. apply on_time_get. intros best. case_bool_decide; [apply on_time_ret|].
  destruct (pd_routes d) as [|[tr a] routes]; [|apply dial_on_time].
  apply on_time_bind; [by apply on_time_modify|intros _].
  destruct (by_hand d); [apply on_time_ui|apply on_time_ret].
Qed.

Lemma dial_first_on_time peer routes : on_time (dial_first t peer routes false).
Proof.
  unfold dial_first. destruct routes as [|[tr a] routes]; [|apply dial_on_time].
  apply on_time_bind; [by apply on_time_modify|intros _]. apply on_time_ret.
Qed.

Lemma connect_peer_on_time peer : on_time (connect_peer t peer false).
Proof.
  unfold connect_peer. apply on_time_get. intros busy. destruct (_ && _); [apply on_time_ret|].
  apply on_time_get. intros routes. apply on_time_get. intros [].
  - apply dial_first_on_time.
  - apply on_time_ret.
  - apply on_time_get. intros [current|]; [|apply on_time_ret]. cbv zeta.
    case_bool_decide; [apply on_time_ret|apply dial_first_on_time].
Qed.
End keeping.

(** ** The loops of a tick *)

Definition nothing {X} (_ : X) : Prop := False.

(** One pass over [xs], each round of which settles one of them. *)
Lemma settle_all {X} (xs : list X) (f : X -> M unit) (J : (X -> Prop) -> Core -> Prop) c :
  (∀ P P' c, (∀ x, P x -> P' x) -> J P c -> J P' c) ->
  (∀ x (P : X -> Prop) c, J (λ y, y = x \/ P y) c -> post (f x) (λ _, J P) c) ->
  J (λ y, y ∈ xs) c -> post (for_each xs f) (λ _, J nothing) c.
Proof.
  intros HW Hf. revert c. induction xs as [|x xs IH]; intros c HJ; cbn [for_each].
  - apply post_ret. eapply HW; [|exact HJ]. intros y Hy. by apply elem_of_nil in Hy.
  - apply post_bind. eapply post_mono; [|apply (Hf x (λ y, y ∈ xs))].
    + intros [] c'. apply IH.
    + eapply HW; [|exact HJ]. intros y Hy. by apply elem_of_cons in Hy.
Qed.

Lemma give_up_bulk_settles A D w r c :
  due_in A (λ _, True) D w r c -> post (give_up_bulk t) (λ _, due_in A nothing D w r) c.
Proof.
  intros Hc. unfold give_up_bulk. apply post_get.
  apply (settle_all _ _ (λ B, due_in A B D w r)).
  - intros P P' c' HP Hp. destruct Hp. constructor; eauto.
  - intros x P c' Hc'. apply post_bind, post_modify.
    assert (on_time A P D w r (emit (BulkCancel x) ;;!
      dispatch_to_transfer_owner t x (CBulkFinished x false "the sender never connected") ;;!
      upd bulk_owner (delete x))) as Ho.
    { apply on_time_bind; [apply on_time_emit|intros _].
      apply on_time_bind; [apply transfer_owner_on_time|intros _]. by apply on_time_modify. }
    apply Ho. destruct Hc'. constructor; cbn; try done.
    intros y d [Hne Hy]%lookup_delete_Some Hd. by destruct (due_bulk0 y d Hy Hd) as [->|?].
  - destruct Hc. constructor; try done. intros x d Hx Hd. apply list_elem_of_fmap.
    exists (x, d). split; [done|]. apply list_elem_of_In, filter_In.
    split; [by apply list_elem_of_In, elem_of_bt_iter|by apply N.leb_le].
Qed.

Lemma drop_stale_links_settles B D w r c :
  due_in (λ _, True) B D w r c -> post (drop_stale_links t) (λ _, due_in nothing B D w r) c.
Proof.
  intros Hc. unfold drop_stale_links. apply post_get.
  apply (settle_all _ _ (λ A, due_in A B D w r)).
  - intros P P' c' HP Hp. destruct Hp. constructor; eauto.
  - intros l P c' Hc'. apply post_get, post_bind, post_modify.
    match goal with |- post ?m _ ?c1 => enough (on_time P B D w r m) as Ho end.
    + apply Ho. destruct Hc'. constructor; cbn; try done.
      intros y st d [Hne Hy]%lookup_delete_Some Ed Hd. by destruct (due_links0 y st d Hy Ed Hd) as [->|?].
    + apply on_time_bind; [apply on_time_emit|intros _].
      destruct (links c' !! l) as [[|h|]|]; try apply on_time_ret.
      destruct (hl_fallback h); [apply try_next_route_on_time|apply on_time_ret].
  - destruct Hc. constructor; try done. intros l st d Hl Ed Hd. apply list_elem_of_fmap.
    exists (l, st). split; [done|]. apply list_elem_of_In, filter_In.
    split; [by apply list_elem_of_In, elem_of_bt_iter|]. unfold expired_link. rewrite Ed. by apply N.leb_le.
Qed.

Lemma expire_dials_settles A B w r c :
  due_in A B (λ _, True) w r c -> post (expire_dials t) (λ _, due_in A B nothing w r) c.
Proof.
  intros Hc. unfold expire_dials. apply post_get.
  apply (settle_all _ _ (λ D, due_in A B D w r)).
  - intros P P' c' HP Hp. destruct Hp. constructor; eauto.
  - intros x P c' Hc'. apply post_get. destruct (pending_peer_dials c' !! x) as [[d0 p0]|] eqn:Ex.
    + apply post_bind, post_modify. apply try_next_route_on_time.
      destruct Hc'. constructor; cbn; try done.
      intros y d p [Hne Hy]%lookup_delete_Some Hd. by destruct (due_dials0 y d p Hy Hd) as [->|?].
    + apply post_ret. destruct Hc'. constructor; try done.
      intros y d p Hy Hd. destruct (due_dials0 y d p Hy Hd) as [->|?]; [congruence|done].
  - destruct Hc. constructor; try done. intros x d p Hx Hd. apply list_elem_of_fmap.
    exists (x, (d, p)). split; [done|]. apply list_elem_of_In, filter_In.
    split; [by apply list_elem_of_In, elem_of_bt_iter|by apply N.leb_le].
Qed.

(** A pairing window that outlives [t], or none. *)
Definition open_still (w : option PairingWindow) : Prop := ∀ x, w = Some x -> t < pw_deadline x.

Lemma lapse_pairing_settles c :
  config c = cfg ->
  post (lapse_pairing t) (λ _ c', config c' = cfg /\ open_still (pairing c')) c.
Proof.
  intros Hc. unfold lapse_pairing. apply post_get. destruct (pairing c) as [w|] eqn:Ew.
  2: { apply post_ret. split; [done|]. intros x Hx. congruence. }
  destruct (N.leb_spec (pw_deadline w) t).
  2: { apply post_ret. split; [done|]. intros x Hx. rewrite Ew in Hx. by injection Hx as <-. }
  apply post_bind, post_modify, post_bind.
  eapply (post_mono _ (λ _ c', config c' = cfg)).
  - intros [] c1 Hc1. apply post_bind. unfold end_pairing.
    apply post_bind, post_modify, post_get, post_modify, post_emit. by split.
  - destruct (awaiting w) as [a|]; [|by apply post_ret]. by apply post_bind, post_emit, post_modify.
Qed.

Hypothesis retry_later : t < t +u64 reconnect_every_ms cfg.

(** After the retry of peers a next one is due, if at all, later. *)
Lemma retry_peers_settles w r c :
  due_in nothing nothing nothing w r c ->
  post (retry_peers t) (λ _ c', ∃ r', due_in nothing nothing nothing w r' c' /\
    ∀ d, r' = Some d -> t < d) c.
Proof.
  intros Hc. unfold retry_peers. apply post_get.
  destruct (match reconnect_at c with Some at_ => at_ <=? t | None => true end) eqn:Er.
  - apply post_get, post_bind, post_modify, post_get. rewrite (due_config _ _ _ _ _ _ Hc).
    set (r' := Some (t +u64 reconnect_every_ms cfg)).
    eapply (post_mono _ (λ _, due_in nothing nothing nothing w r')).
    + intros _ c' Hc'. exists r'. split; [done|]. by intros d [= <-].
    + apply on_time_for_each; [intros peer; apply connect_peer_on_time|].
      destruct Hc. by constructor.
  - apply post_ret. exists r. split; [done|]. intros d ->. rewrite (due_reconnect _ _ _ _ _ _ Hc) in Er.
    by apply N.leb_gt.
Qed.

(** *** The alarm of the plugins *)

(** Methods that leave it as it is. *)
Definition still {X} (m : M X) : Prop := ∀ c, post m (λ _ c', plugin_wake c' = plugin_wake c) c.

Lemma still_ret {X} (x : X) : still (ret x).
Proof. intros c. by apply post_ret. Qed.
Lemma still_emit a : still (emit a).
Proof. intros c. by apply post_emit. Qed.
Lemma still_modify f : (∀ c, plugin_wake (f c) = plugin_wake c) -> still (modify f).
Proof. intros Hf c. by apply post_modify. Qed.
Lemma still_bind {X Y} (m : M X) (k : X -> M Y) : still m -> (∀ x, still (k x)) -> still (bind m k).
Proof.
  intros Hm Hk c. apply post_bind. eapply post_mono; [|apply Hm]. intros x c' E.
  eapply post_mono; [|apply Hk]. intros y c2 ->. done.
Qed.
Lemma still_get {X Y} (f : Core -> X) (k : X -> M Y) : (∀ x, still (k x)) -> still (bind (get f) k).
Proof. intros Hk c. by apply post_get, Hk. Qed.
Lemma still_for_each {X} (l : list X) f : (∀ x, still (f x)) -> still (for_each l f).
Proof.
  intros Hf. induction l as [|x l IH]; cbn [for_each]; [apply still_ret|].
  apply still_bind; [apply Hf|intros _; apply IH].
Qed.

Lemma dispatch_send_still n s : still (dispatch_send n s).
Proof.
  unfold dispatch_send. apply still_get. intros [[l u]|]; [|apply still_emit].
  apply still_get. intros [[| |v]|]; try apply still_ret.
  destruct (negb _); [apply still_emit|].
  apply still_bind; [by apply still_modify|intros _]. apply still_get. intros id. cbv zeta.
  destruct (to_vec _); [|apply still_ret]. destruct (session_encrypt _ _) as [session r'].
  apply still_bind; [by apply still_modify|intros _].
  destruct r'; [|apply still_emit]. destruct (_ <? _); apply still_emit.
Qed.

Lemma dispatch_bulk_still n b : still (dispatch_bulk n b).
Proof.
  unfold dispatch_bulk. destruct b; [..|apply still_emit].
  all: apply still_get; intros support; case_bool_decide;
    [apply still_bind; [apply still_emit|intros _];
     apply still_bind; [apply still_emit|intros _]; by apply still_modify|].
  all: apply still_get; intros [hash|]; [|apply still_emit]; apply still_get; intros me; cbv zeta.
  - apply still_bind; [by apply still_modify|intros _; apply still_emit].
  - apply still_emit.
Qed.

Lemma drain_cx_wake cx c :
  post (drain_cx cx) (λ _ c', plugin_wake c' =
    match cx_wake_at cx with Some w => sooner w (plugin_wake c) | None => plugin_wake c end) c.
Proof.
  unfold drain_cx.
  assert (∀ X (m : M X) (k : M unit) c, still m ->
    (∀ c', plugin_wake c' = plugin_wake c -> post k (λ _ c2, plugin_wake c2 =
      match cx_wake_at cx with Some w => sooner w (plugin_wake c) | None => plugin_wake c end) c') ->
    post (m ;;! k) (λ _ c2, plugin_wake c2 =
      match cx_wake_at cx with Some w => sooner w (plugin_wake c) | None => plugin_wake c end) c) as Hseq.
  { intros X m k c0 Hm Hk. apply post_bind. eapply post_mono; [|apply Hm]. intros ? c'. apply Hk. }
  apply Hseq; [apply still_for_each; intros; apply still_emit|intros c1 <-].
  apply Hseq; [apply still_for_each; intros [? ?]; apply still_emit|intros c2 <-].
  apply Hseq; [apply still_for_each; intros; apply dispatch_bulk_still|intros c3 <-].
  apply Hseq; [apply still_for_each; intros; apply dispatch_send_still|intros c4 <-].
  destruct (cx_wake_at cx); [by apply post_modify|by apply post_ret].
Qed.

(** The earliest time the plugins asked to be woken at when, their alarm having
    come and been taken away, they were told so in [c]. *)
Definition asked_when_told (c : Core) : option u64 :=
  w ← plugin_wake c;
  if w <=? t then
    cx_wake_at (call_each CTick (plugins c) (Cx_new t (next_token c) (next_transfer c) (serves c))).2
  else None.

Lemma wake_plugins_asks c d :
  post (wake_plugins t) (λ _ c', plugin_wake c' = Some d -> d <= t -> asked_when_told c = Some d) c.
Proof.
  unfold wake_plugins, asked_when_told. apply post_get. destruct (plugin_wake c) as [w|] eqn:Ew; cbn [mbind option_bind].
  2: { apply post_ret. congruence. }
  destruct (N.leb_spec w t).
  2: { apply post_ret. rewrite Ew. intros [= ->]. lia. }
  apply post_bind, post_modify. intros out a c' out' E. rewrite (tell_plugins_run t) in E.
  apply drain_cx_wake in E. cbn in E. intros Hd _. rewrite <- Hd, E. by destruct (cx_wake_at _).
Qed.

Lemma wake_plugins_on_time A B D w r : on_time A B D w r (wake_plugins t).
Proof.
  unfold wake_plugins. apply on_time_get. intros [d|]; [|apply on_time_ret].
  destruct (_ <=? _); [|apply on_time_ret].
  apply on_time_bind; [by apply on_time_modify|intros _; apply tell_plugins_on_time].
Qed.

(** A tick up to the plugins' alarm. *)
Definition before_alarm : M unit :=
  lapse_pairing t ;;! give_up_bulk t ;;! drop_stale_links t ;;! expire_dials t ;;! retry_peers t.

Lemma on_tick_split s : on_tick_event t s = (before_alarm ;;! wake_plugins t) s.
Proof.
  unfold on_tick_event, before_alarm, bind.
  destruct (lapse_pairing t s) as [[? s1]|]; [|done]. destruct (give_up_bulk t s1) as [[? s2]|]; [|done].
  destruct (drop_stale_links t s2) as [[? s3]|]; [|done]. by destruct (expire_dials t s3) as [[? s4]|].
Qed.

(** All that can be overdue after a tick is an alarm a plugin asked for when it was
    told that its last had come. *)
Lemma before_alarm_settles c :
  config c = cfg -> post before_alarm (λ _ c', ∃ w r, due_in nothing nothing nothing w r c' /\
    open_still w /\ ∀ d, r = Some d -> t < d) c.
Proof.
  intros Hc. unfold before_alarm. apply post_bind.
  eapply post_mono; [|by apply lapse_pairing_settles]. intros [] c1 [Hc1 Hw].
  assert (due_in (λ _, True) (λ _, True) (λ _, True) (pairing c1) (reconnect_at c1) c1) as Hd1 by done.
  apply post_bind. eapply post_mono; [|by apply give_up_bulk_settles]. intros [] c2 Hd2.
  apply post_bind. eapply post_mono; [|by apply drop_stale_links_settles]. intros [] c3 Hd3.
  apply post_bind. eapply post_mono; [|by apply expire_dials_settles]. intros [] c4 Hd4.
  eapply post_mono; [|by eapply retry_peers_settles]. intros [] c5 (r & Hd5 & Hr). by exists (pairing c1), r.
Qed.

Lemma on_tick_settles c out c' out' :
  config c = cfg -> on_tick_event t (c, out) = Some (tt, (c', out')) ->
  ∃ c1 out1, before_alarm (c, out) = Some (tt, (c1, out1)) /\
    ∀ d, due_at d c' -> d <= t -> plugin_wake c' = Some d /\ asked_when_told c1 = Some d.
Proof.
  intros Hc E. rewrite on_tick_split in E. unfold bind in E.
  destruct (before_alarm (c, out)) as [[[] [c1 out1]]|] eqn:Eb; [|done]. exists c1, out1. split; [done|].
  destruct (before_alarm_settles c Hc _ _ _ _ Eb) as (w & r & Hd5 & Hw & Hr).
  pose proof (wake_plugins_on_time _ _ _ _ _ c1 Hd5 _ _ _ _ E) as [_ Ep Er El Ebw Ed].
  intros d Hdue Hle. assert (plugin_wake c' = Some d) as Ha.
  { destruct Hdue as [?|[Hd|[(x & p & Hd)|[(x & Hx & Hd)|[(x & Hd)|(l & st & Hl & Hd)]]]]]; [done|exfalso..].
    - rewrite Er in Hd. apply Hr in Hd. lia.
    - by eapply Ed.
    - rewrite Ep in Hx. apply Hw in Hx. lia.
    - by eapply Ebw.
    - by eapply El. }
  split; [done|]. by apply (wake_plugins_asks c1 d _ _ _ _ E).
Qed.
End clock.

Section tick.
  Context `{!Externs} `{!ExternsLaws}.

(** What a tick leaves due, and the deadline that follows. *)
Lemma tick_settles nw c :
  Good c ->
  let now := monotonic_ms nw in
  now < now +u64 BULK_DIAL_WAIT_MS ->
  now < now +u64 dial_timeout_ms (config c) ->
  now < now +u64 reconnect_every_ms (config c) ->
  ∃ o c' c1 out1, handle nw Tick c = Some (o, c') /\
    before_alarm now (c <| wall_ms := now_wall_ms nw |>, []) = Some (tt, (c1, out1)) /\
    (∀ d, due_at d c' -> d <= now -> plugin_wake c' = Some d /\ asked_when_told now c1 = Some d) /\
    ∀ d, next_deadline_ms o = Some d -> now < d \/ plugin_wake c' = Some d /\ asked_when_told now c1 = Some d.
Proof.
  intros HG now Hb Hd Hr. destruct (handle_good_event nw Tick c HG) as (o & c' & E & _).
  unfold handle in E.
  destruct (on_event _ _ _) as [[[] [c2 out]]|] eqn:Ee; [|done]. injection E as <- <-. pose proof Ee as E2.
  cbn [on_event] in Ee. apply (on_tick_settles now (config c)) in Ee as (c1 & out1 & E1 & Hs); [|done..].
  exists (mkOutcome out (next_deadline c2)), c2, c1, out1. split; [unfold handle; by rewrite E2|].
  split_and!; [done|exact Hs|]. cbn. intros d Hn. pose proof (next_deadline_due c2) as Hmin. rewrite Hn in Hmin.
  destruct Hmin as [Hdue _]. destruct (N.le_gt_cases d now); [right; by apply Hs|by left].
Qed.

(** C16 (liveness): when a tick has been handled in a good state, nothing the core waits on is
    overdue: every pairing, transfer, link and dial whose time had come has
    been given up, the next retry of peers lies ahead, and the deadline handed
    to the host is later than now, but for the plugins' alarm, and for that only
    if the plugins, told in this very tick that their alarm had come (it was
    taken away first), asked to be woken at a time that is not later than now:
    an alarm from before the tick never stays overdue.  The configured waits
    must not be so long that they wrap around the clock. *)
Theorem tick_leaves_nothing_due nw c :
  Good c ->
  let now := monotonic_ms nw in
  now < now +u64 BULK_DIAL_WAIT_MS ->
  now < now +u64 dial_timeout_ms (config c) ->
  now < now +u64 reconnect_every_ms (config c) ->
  ∃ o c' c1 out1, handle nw Tick c = Some (o, c') /\
    before_alarm now (c <| wall_ms := now_wall_ms nw |>, []) = Some (tt, (c1, out1)) /\
    (∀ d, due_at d c' -> d <= now -> plugin_wake c' = Some d /\ asked_when_told now c1 = Some d) /\
    ∀ d, next_deadline_ms o = Some d -> now < d \/ plugin_wake c' = Some d /\ asked_when_told now c1 = Some d.
Proof. apply tick_settles. Qed.
End tick.
