(* ===== verification/Delivery.v ===== *)
(** * Two cores over one link: messages arrive, in order and unaltered

    [CoreRefines] shows that between the frame that arrives and the next event a
    link's cipher is used only to seal what is put out on that link.  Here that
    is followed through every step, and then through two cores that talk over
    a link that keeps the order of its frames: what one end seals is what the
    other end opens, as long as the link is up at both and nothing was lost for
    its size. *)

From S2P Require Import Prelude Externals Ids Frame Hello Envelope PairingKeys Bulk Link Peer.
From S2P Require Import Vocab Noise Plugin CoreState CoreQueries CoreOps CoreHandle CoreSteps CoreRefines CoreTheorems.
From S2P Require Import CoreBehaviour.
Local Open Scope N_scope.

(** What is put out on one link, in order. *)
Definition frame_on (l : LinkId) (a : Action) : option bytes :=
  match a with LinkSend l' m => if l' =? l then Some m else None | _ => None end.
Definition frames_on (l : LinkId) (out : list Action) : list bytes := omap (frame_on l) out.

Lemma frames_on_push l a out :
  frames_on l (push a out) = frames_on l out ++ match frame_on l a with Some m => [m] | None => [] end.
Proof.
  unfold frames_on, push. by rewrite omap_app.
Qed.

(** An event that neither brings a link up nor a frame on it. *)
Definition quiet (l : LinkId) (ev : Event) : Prop :=
  match ev with LinkUp l' _ _ | LinkRecv l' _ => l' <> l | _ => True end.

Section delivery.
  Context `{Externs} {XL : ExternsLaws} {EL : CborLaws Envelope} {SL : SnowLaws} {SC : SnowChannel}.

(** An envelope that was sealed: its encoding and the sealed message. *)
Record Sealing := mkSealing { sl_env : Envelope; sl_plain : bytes; sl_cipher : bytes }.
Definition frame_of (x : Sealing) : bytes := join Transport (sl_cipher x).

(** Envelopes sealed for a link one after the other, from one state of its session
    to another. *)
Inductive sealed (u : UpLink) (s0 : Session) : list Sealing -> Session -> Prop :=
| sealed_nil : sealed u s0 [] s0
| sealed_snoc sent s1 env plain ct s2 :
    sealed u s0 sent s1 -> env_cap env ∈ can_send u -> to_vec env = Some plain ->
    session_encrypt s1 plain = (s2, Ok ct) -> sealed u s0 (sent ++ [mkSealing env plain ct]) s2.

(** ** One event *)

Section tracked.
  Variables (l : LinkId) (u0 : UpLink) (s0 : Session) (before : list bytes).

(** Unless a message was lost, the link, if it is still established, has sealed
    just what was put out on it after [before], starting from [s0]. *)
Definition tracked (st : St) : Prop :=
  (∃ a, a ∈ st.2 /\ lost (ul_peer u0) a) \/
  ∀ u, links st.1 !! l = Some (Up u) ->
    same_link u0 u /\ ∃ sent, frames_on l st.2 = before ++ map frame_of sent /\ sealed u0 s0 sent (ul_session u).

Context (c0 : Core) (now : u64) (ev : Event).
Hypothesis not_up : ∀ attrs d, ev <> LinkUp l attrs d.
Hypothesis from_frame : ∀ f, ev = LinkRecv l f ->
  before = [] /\ links c0 !! l = Some (Up u0) /\
  ∃ body, split f = Ok (Transport, body) /\ s0 = (session_decrypt (ul_session u0) body).1.

Lemma tracked_links c c' out a :
  (∀ u, links c' !! l = Some (Up u) -> links c !! l = Some (Up u)) -> frame_on l a = None ->
  tracked (c, out) -> tracked (c', push a out).
Proof.
  intros Hl Ha [(b & Hb & Hlost)|HT]; [left; exists b; split; [|done]; apply elem_of_app; by left|].
  right. cbn [fst snd] in *. intros u Hu. rewrite frames_on_push, Ha, app_nil_r. by apply HT, Hl.
Qed.
Lemma tracked_same c c' out :
  (∀ u, links c' !! l = Some (Up u) -> links c !! l = Some (Up u)) -> tracked (c, out) -> tracked (c', out).
Proof. intros Hl [?|HT]; [by left|]. right. intros u Hu. by apply HT, Hl. Qed.

Lemma shakes_not_up kind hs payload expect : shakes c0 ev l kind hs payload expect -> False.
Proof.
  destruct 1 as [? ? ? E|? ? ? ? ? ? ? ? E|? ? ? ? ? ? ? E _ Hp|? ? ? ? ? ? E _ Hp|? ? ? ? ? ? ? (? & ? & E & Hg & _)];
    [by apply not_up in E..| | |]; apply from_frame in E as (_ & E & _); [congruence..|]. inversion Hg; congruence.
Qed.

Lemma step_tracked s s' : step c0 now ev s s' -> tracked s -> tracked s'.
Proof.
  intros Hs HT. destruct Hs.
  - apply (tracked_links c); [done| |done]. destruct a; try done. cbn. destruct (N.eqb_spec link l) as [->|]; [|done].
    by destruct H0 as (? & ? & ? & ? & ? & ? & ?%shakes_not_up & _).
  - apply (tracked_same c); [|done]. apply guarded_eq in H0 as (_&_&_&->&_). done.
  - apply (tracked_same c); [|done]. cbn. by intros u [_ ?]%lookup_delete_Some.
  - apply (tracked_same c); [|done]. cbn. intros u [[_ ->]|[_ ?]]%up_after_insert; done.
  - apply (tracked_same c); [|done]. cbn. intros v [[-> _]|[_ ?]]%up_after_insert; [|done].
    pose proof H0 as [Hn _]. apply comes_up_recv in H0 as [f E]. apply from_frame in E as (_ & E & _). by apply Hn in E.
  - destruct HT as [?|HT]; [by left|]. right. cbn [fst snd] in *. intros v [[-> [= <-]]|[_ Hv]]%up_after_insert; [|by apply HT].
    destruct (from_frame _ H0) as (-> & Hl & b & Hb & ->). rewrite Hl in H2. injection H2 as ->.
    rewrite Hb in H1. injection H1 as <- <-. destruct H3 as [Hsame Hses].
    split; [done|]. exists []. split; [done|]. rewrite bool_decide_eq_true_2 in Hses by done. rewrite Hses. constructor.
  - destruct HT as [(b & Hb & Hlost)|HT]; [left; exists b; split; [apply elem_of_app; by left|done]|].
    destruct H1 as (plain & r & Hcap & Hto & Henc & Ha). cbn [fst snd] in HT.
    destruct (decide (l0 = l)) as [->|Hne].
    + destruct (HT u H0) as [Hsame (sent & Hf & Hsl)].
      destruct Ha as [Hlost|(ct & -> & -> & Hlen)].
      { left. exists a. split; [apply elem_of_app; right; by left|]. destruct Hsame as (-> & _). done. }
      right. cbn [fst snd]. intros v [[_ [= <-]]|[? _]]%up_after_insert; [|done]. split; [exact Hsame|].
      exists (sent ++ [mkSealing env plain ct]). rewrite frames_on_push, Hf, map_app, app_assoc. cbn [frame_on]. rewrite N.eqb_refl.
      split; [done|]. eapply sealed_snoc; [done| |done|done]. destruct Hsame as (_&_&_&_&_&_&->&_). done.
    + right. cbn [fst snd]. intros v [[? _]|[_ Hv]]%up_after_insert; [done|]. rewrite frames_on_push.
      assert (frame_on l a = None) as ->; [|rewrite app_nil_r; by apply HT].
      destruct Ha as [(? & ? & -> & _)|(? & _ & -> & _)]; [done|]. cbn. by destruct (N.eqb_spec l0 l).
  - apply (tracked_same c); [|done]. cbn. by intros v Hv%up_after_adopt.
  - by apply (tracked_same c).
  - by apply (tracked_same c).
  - by apply (tracked_same c).
  - by apply (tracked_same c).
  - by apply (tracked_links c).
  - apply (tracked_links c); [done|done|]. by apply (tracked_links c).
  - by apply (tracked_links c).
  - by apply (tracked_same c).
  - by apply (tracked_same c).
  - by apply (tracked_same c).
  - by apply (tracked_same c).
  - by apply (tracked_same c).
  - by apply (tracked_same c).
Qed.

Lemma steps_tracked s s' : rtc (step c0 now ev) s s' -> tracked s -> tracked s'.
Proof. induction 1; eauto using step_tracked. Qed.
End tracked.

Lemma tracked_start l u0 s0 c out :
  (∀ u, links c !! l = Some (Up u) -> u = u0) -> ul_session u0 = s0 ->
  tracked l u0 s0 (frames_on l out) (c, out).
Proof.
  intros Hl <-. right. cbn. intros u ->%Hl. split; [apply same_link_refl|].
  exists []. rewrite app_nil_r. split; [done|constructor].
Qed.

(** An event of something else leaves the session to the messages it sends. *)
Lemma quiet_tracked nw ev c o c' l u0 :
  Good c -> links c !! l = Some (Up u0) -> quiet l ev -> handle nw ev c = Some (o, c') ->
  tracked l u0 (ul_session u0) [] (c', actions o).
Proof.
  intros HG Hl Hq E.
  eapply (steps_tracked l u0 _ [] (c <| wall_ms := now_wall_ms nw |>) (monotonic_ms nw) ev).
  - intros attrs d ->. by apply Hq.
  - intros f ->. by destruct Hq.
  - by apply handle_inversion.
  - apply (tracked_start l u0 _ _ []); [|done]. cbn. rewrite Hl. by intros u [= <-].
Qed.

(** A frame is opened first; what is sent in answer is sealed after it. *)
Lemma frame_tracked nw f body c o c' l u0 :
  Good c -> links c !! l = Some (Up u0) -> split f = Ok (Transport, body) ->
  handle nw (LinkRecv l f) c = Some (o, c') ->
  tracked l u0 (session_decrypt (ul_session u0) body).1 [] (c', actions o).
Proof.
  intros HG Hl Hs E.
  destruct (handle_recv_steps nw l f Transport body u0 c (Good_Inv _ _ HG) Hs Hl) as (o1 & c1 & E1 & Hr & _).
  rewrite E in E1. injection E1 as <- <-. eapply steps_tracked; [..|exact Hr|].
  - done.
  - intros ? [= <-]. split_and!; [done..|]. by exists body.
  - right. cbn. intros u. by rewrite lookup_delete_eq.
Qed.

(** ** What a frame opens to *)

Definition opened (u : UpLink) (frame : bytes) : option Envelope :=
  match split frame with
  | Ok (Transport, body) =>
      match (session_decrypt (ul_session u) body).2 with
      | Ok plaintext =>
          env ← cbor_decode plaintext; if bool_decide (env_cap env ∈ can_recv u) then Some env else None
      | Err _ => None
      end
  | _ => None
  end.

(** The state in which the plugins see what a frame held. *)
Definition taken (now_ms : u64) (l : LinkId) (u : UpLink) (frame : bytes) (c : Core) : Core :=
  match split frame with
  | Ok (_, body) =>
      c <| links ::= delete l |>
        <| links ::= insert l (Up (u <| ul_session := (session_decrypt (ul_session u) body).1 |>
                                     <| ul_last_recv_ms := now_ms |>)) |>
  | Err _ => c
  end.

Lemma opened_delivered nw l u frame env c :
  links c !! l = Some (Up u) -> opened u frame = Some env ->
  on_event (monotonic_ms nw) (LinkRecv l frame) (c, []) =
  deliver (monotonic_ms nw) (ul_peer u) env (taken (monotonic_ms nw) l u frame c, []).
Proof.
  intros Hl. unfold opened, taken. cbn [on_event]. unfold on_link_recv.
  destruct (split frame) as [[kind body]|]; [|done]. destruct kind; try done.
  unfold bind at 1, get. cbn [fst]. rewrite Hl. unfold bind at 1, upd at 1, modify. cbn [fst snd].
  unfold on_transport_frame. rewrite bool_decide_eq_true_2 by done. cbn [negb].
  destruct (session_decrypt (ul_session u) body) as [s [pt|]] eqn:Hd; [|done]. cbv zeta. cbn [fst snd].
  destruct (cbor_decode pt) as [e|] eqn:He; [|done]. cbn [mbind option_bind].
  destruct (bool_decide_reflect (env_cap e ∈ can_recv u)) as [Hc|]; [|done]. intros [= <-].
  unfold bind at 1, upd at 1, modify. cbn [fst snd]. 
  match goal with |- context [existsb ?f ?x] => replace (existsb f x) with true; [done|] end.
  symmetry. apply existsb_exists. exists (env_cap e). split; [by apply list_elem_of_In|apply String.eqb_refl].
Qed.

(** ** Two ends of a link that keeps order *)

(** One end: its core, the frames it put on the link so far, and what each frame
    that arrived on it opened to. *)
Record End := mkEnd { e_core : Core; e_put : list bytes; e_heard : list (option Envelope) }.

(** The established link with an id, if it is one. *)
Definition up_at (l : LinkId) (c : Core) : option UpLink :=
  match links c !! l with Some (Up u) => Some u | _ => None end.

Lemma up_at_Some l c u : up_at l c = Some u <-> links c !! l = Some (Up u).
Proof.
  unfold up_at. split; [|by intros ->]. destruct (links c !! l) as [[| |v]|]; [done..| |done]. by intros [= ->].
Qed.

(** The link is still established, and no message was lost for its size. *)
Definition link_kept (l : LinkId) (c c' : Core) (o : Outcome) : Prop :=
  is_Some (up_at l c') /\
  ∀ u a, up_at l c = Some u -> a ∈ actions o -> ~ lost (ul_peer u) a.

(** An end handles any event of something else, or the next frame the other put
    on the link. *)
Inductive moves (l : LinkId) (theirs : list bytes) (e : End) : End -> Prop :=
| moves_event nw ev o c' :
    quiet l ev -> handle nw ev (e_core e) = Some (o, c') -> link_kept l (e_core e) c' o ->
    moves l theirs e (mkEnd c' (e_put e ++ frames_on l (actions o)) (e_heard e))
| moves_frame nw frame u o c' :
    theirs !! length (e_heard e) = Some frame -> up_at l (e_core e) = Some u ->
    handle nw (LinkRecv l frame) (e_core e) = Some (o, c') -> link_kept l (e_core e) c' o ->
    moves l theirs e
      (mkEnd c' (e_put e ++ frames_on l (actions o)) (e_heard e ++ [opened u frame])).

Inductive sys_step (la lb : LinkId) : End * End -> End * End -> Prop :=
| sys_left a b a' : moves la (e_put b) a a' -> sys_step la lb (a, b) (a', b)
| sys_right a b b' : moves lb (e_put a) b b' -> sys_step la lb (a, b) (a, b').

(** Two ends that just agreed on a session, before anything was sent on it: the
    ciphers belong together, and what one may send the other takes. *)
Definition coupled (la lb : LinkId) (a b : Core) : Prop :=
  Good a /\ Good b /\
  ∃ u v, up_at la a = Some u /\ up_at lb b = Some v /\
    channel (s_state (ul_session u)) [] (s_state (ul_session v)) /\
    channel (s_state (ul_session v)) [] (s_state (ul_session u)) /\
    (∀ c, c ∈ can_send u -> c ∈ can_recv v) /\ (∀ c, c ∈ can_send v -> c ∈ can_recv u).

(** ** The invariant *)

(** An envelope that may be sent on a link, sealed in some state of its session. *)
Definition genuine (u : UpLink) (x : Sealing) : Prop :=
  env_cap (sl_env x) ∈ can_send u /\ to_vec (sl_env x) = Some (sl_plain x) /\
  ∃ s s', session_encrypt s (sl_plain x) = (s', Ok (sl_cipher x)).
Definition in_flight (x : Sealing) : bytes * bytes := (sl_plain x, sl_cipher x).

(** From [a], whose link is [u], to [b], whose link is [v]. *)
Definition flows (a b : End) (u v : UpLink) : Prop :=
  ∃ heard flight,
    e_put a = map frame_of (heard ++ flight) /\ Forall (genuine u) (heard ++ flight) /\
    e_heard b = map (λ x, Some (sl_env x)) heard /\
    channel (s_state (ul_session u)) (map in_flight flight) (s_state (ul_session v)) /\
    ∀ c, c ∈ can_send u -> c ∈ can_recv v.

Definition in_step (la lb : LinkId) (s : End * End) : Prop :=
  Good (e_core s.1) /\ Good (e_core s.2) /\
  ∃ u v, up_at la (e_core s.1) = Some u /\ up_at lb (e_core s.2) = Some v /\
    flows s.1 s.2 u v /\ flows s.2 s.1 v u.

Lemma coupled_in_step la lb a b :
  coupled la lb a b -> in_step la lb (mkEnd a [] [], mkEnd b [] []).
Proof.
  intros (?&?&u&v&?&?&?&?&?&?). split_and!; [done..|]. exists u, v.
  split_and!; [done..|exists [], []; done|exists [], []; done].
Qed.

Lemma genuine_same u v x : same_link u v -> genuine u x -> genuine v x.
Proof. intros (_&_&_&_&_&_&E&_). unfold genuine. by rewrite E. Qed.

Lemma sealed_genuine u s0 sent s1 : sealed u s0 sent s1 -> Forall (genuine u) sent.
Proof.
  induction 1; [constructor|]. apply Forall_app. split; [done|]. apply Forall_singleton. split_and!; eauto.
Qed.

Lemma session_encrypt_write s p s' m :
  session_encrypt s p = (s', Ok m) -> ts_write_message (s_state s) p MAX_NOISE_MESSAGE = (s_state s', Ok m).
Proof. unfold session_encrypt. destruct (ts_write_message _ _ _) as [st []]; [|done]. by intros [= <- <-]. Qed.

(** The sealed messages join those in flight; those that come the other way are
    not disturbed. *)
Lemma sealed_channel u s0 sent s1 q b :
  sealed u s0 sent s1 -> channel (s_state s0) q b -> channel (s_state s1) (q ++ map in_flight sent) b.
Proof.
  intros Hs Hc. induction Hs as [|sent s1 env plain ct s2 _ IH _ _ He]; [by rewrite app_nil_r|].
  rewrite map_app, app_assoc. eapply channel_write; [exact IH|]. by apply session_encrypt_write.
Qed.
Lemma sealed_channel_back u s0 sent s1 q a :
  sealed u s0 sent s1 -> channel a q (s_state s0) -> channel a q (s_state s1).
Proof.
  intros Hs Hc. induction Hs as [|sent s1 env plain ct s2 _ IH _ _ He]; [done|].
  eapply channel_reader_writes; [exact IH|]. by apply session_encrypt_write.
Qed.

Lemma flows_sealed a b u u' v sent c' :
  same_link u u' -> sealed u (ul_session u) sent (ul_session u') -> flows a b u v -> flows b a v u ->
  flows (mkEnd c' (e_put a ++ map frame_of sent) (e_heard a)) b u' v /\
  flows b (mkEnd c' (e_put a ++ map frame_of sent) (e_heard a)) v u'.
Proof.
  intros Hsame Hs (h & q & Hput & Hg & Hh & Hc & Hcap) (h' & q' & Hput' & Hg' & Hh' & Hc' & Hcap').
  pose proof Hsame as (_&_&_&_&_&_&Esend&Erecv). split.
  - exists h, (q ++ sent). cbn. rewrite Hput, app_assoc, (map_app frame_of (h ++ q)), map_app.
    split_and!; [done| |done|rewrite map_app; by eapply sealed_channel|by rewrite <- Esend].
    eapply Forall_impl; [|intros x; by apply genuine_same].
    apply Forall_app. split; [done|by eapply sealed_genuine].
  - exists h', q'. split_and!; [done..| |by rewrite <- Erecv]. by eapply sealed_channel_back.
Qed.

(** The next frame opens to the envelope that was sealed in it. *)
Lemma next_opens u v x q :
  genuine v x -> (∀ c, c ∈ can_send v -> c ∈ can_recv u) ->
  channel (s_state (ul_session v)) (map in_flight (x :: q)) (s_state (ul_session u)) ->
  opened u (frame_of x) = Some (sl_env x) /\
  ∃ st, session_decrypt (ul_session u) (sl_cipher x) = (mkSession st (s_sent (ul_session u)), Ok (sl_plain x)) /\
    ts_read_message (s_state (ul_session u)) (sl_cipher x) MAX_NOISE_MESSAGE = (st, Ok (sl_plain x)) /\
    channel (s_state (ul_session v)) (map in_flight q) st.
Proof.
  intros (Hx & Hto & s & s' & He) Hcap Hc. pose proof (session_encrypt_bound _ _ _ _ He) as Hlen.
  destruct (channel_read _ _ _ _ _ _ Hc Hlen) as (st & Hr & Hc2).
  assert (session_decrypt (ul_session u) (sl_cipher x) = (mkSession st (s_sent (ul_session u)), Ok (sl_plain x))) as Hd.
  { unfold session_decrypt. rewrite Hr. destruct (N.ltb_spec MAX_NOISE_MESSAGE (len (sl_cipher x))); [lia|done]. }
  split; [|by exists st].
  unfold opened, frame_of. rewrite split_join_id, Hd. cbn [snd]. rewrite (cbor_decode_to_vec _ _ Hto). cbn.
  rewrite bool_decide_eq_true_2; [done|by apply Hcap].
Qed.

Lemma flows_read a b u v frame :
  flows a b u v -> flows b a v u -> e_put b !! length (e_heard a) = Some frame ->
  ∃ ct, split frame = Ok (Transport, ct) /\
    let u' := u <| ul_session := (session_decrypt (ul_session u) ct).1 |> in
    flows a b u' v /\ flows b (mkEnd (e_core a) (e_put a) (e_heard a ++ [opened u frame])) v u'.
Proof.
  intros (h & q & Hput & Hg & Hh & Hc & Hcap) (h' & q' & Hput' & Hg' & Hh' & Hc' & Hcap') Hf.
  rewrite Hput', Hh', length_map, list_lookup_fmap, lookup_app_r, Nat.sub_diag in Hf by done.
  destruct q' as [|x q']; [done|]. cbn in Hf. injection Hf as <-. pose proof Hg' as Hg0.
  apply Forall_app in Hg' as [_ [Hx _]%Forall_cons].
  destruct (next_opens u v x q' Hx Hcap' Hc') as (Ho & st & Hd & Hr & Hc2).
  exists (sl_cipher x). rewrite Ho, Hd. cbn zeta. cbn [fst]. split; [apply split_join_id|]. split.
  - exists h, q. split_and!; [done..| |done]. by eapply channel_writer_reads.
  - exists (h' ++ [x]), q'. rewrite <- app_assoc. cbn. split_and!; [done|done| |done|done].
    by rewrite Hh', map_app.
Qed.

(** ** Every move keeps it *)

Lemma kept_sealed l u0 s0 c c' o :
  up_at l c = Some u0 -> link_kept l c c' o -> tracked l u0 s0 [] (c', actions o) ->
  ∃ u sent, up_at l c' = Some u /\ same_link u0 u /\ frames_on l (actions o) = map frame_of sent /\
    sealed u0 s0 sent (ul_session u).
Proof.
  intros Hl [[u Hu] Hno] [(x & Hx & Hlost)|HT]; [by edestruct Hno|]. cbn [fst snd] in HT.
  destruct (HT u (proj1 (up_at_Some _ _ _) Hu)) as [Hsame (sent & Hf & Hs)]. by exists u, sent.
Qed.

Lemma sealed_cong u w s0 sent s1 : can_send u = can_send w -> sealed u s0 sent s1 -> sealed w s0 sent s1.
Proof. intros E. induction 1; [constructor|]. econstructor; [done|by rewrite <- E|done|done]. Qed.

Lemma moves_flows l a a' b u v :
  Good (e_core a) -> up_at l (e_core a) = Some u -> flows a b u v -> flows b a v u ->
  moves l (e_put b) a a' ->
  ∃ u', up_at l (e_core a') = Some u' /\ flows a' b u' v /\ flows b a' v u'.
Proof.
  intros HG Hu Hab Hba [nw ev o c' Hq E Hk|nw frame w o c' Hf Hw E Hk].
  - pose proof (quiet_tracked nw ev _ o c' l u HG (proj1 (up_at_Some _ _ _) Hu) Hq E) as HT.
    destruct (kept_sealed _ _ _ _ _ _ Hu Hk HT) as (u' & sent & Hu' & Hsame & -> & Hs).
    exists u'. split; [done|]. by apply (flows_sealed a b u u' v sent c').
  - rewrite Hu in Hw. injection Hw as <-.
    destruct (flows_read a b u v frame Hab Hba Hf) as (ct & Hs & Hab' & Hba').
    pose proof (frame_tracked nw frame ct _ o c' l u HG (proj1 (up_at_Some _ _ _) Hu) Hs E) as HT.
    destruct (kept_sealed _ _ _ _ _ _ Hu Hk HT) as (u' & sent & Hu' & Hsame & -> & Hse).
    exists u'. split; [done|]. cbn [e_core].
    apply (flows_sealed (mkEnd (e_core a) (e_put a) (e_heard a ++ [opened u frame])) b
             (u <| ul_session := (session_decrypt (ul_session u) ct).1 |>) u' v sent c'); [done| |done|done].
    by eapply sealed_cong; [|exact Hse].
Qed.

Lemma moves_good l theirs a a' : Good (e_core a) -> moves l theirs a a' -> Good (e_core a').
Proof. intros HG [nw ev o c' _ E _|nw frame w o c' _ _ E _]; by eapply handle_keeps_good. Qed.

Lemma sys_step_in_step la lb s s' : sys_step la lb s s' -> in_step la lb s -> in_step la lb s'.
Proof.
  intros [a b a' Hm|a b b' Hm] (Ha & Hb & u & v & Hu & Hv & Hab & Hba); cbn [fst snd] in *.
  - destruct (moves_flows la a a' b u v) as (u' & ? & ? & ?); [done..|].
    split_and!; [exact (moves_good _ _ _ _ Ha Hm)|done|]. by exists u', v.
  - destruct (moves_flows lb b b' a v u) as (v' & ? & ? & ?); [done..|].
    split_and!; [done|exact (moves_good _ _ _ _ Hb Hm)|]. by exists u, v'.
Qed.

Lemma reachable_in_step la lb s s' : rtc (sys_step la lb) s s' -> in_step la lb s -> in_step la lb s'.
Proof. induction 1; eauto using sys_step_in_step. Qed.

(** ** The theorem *)

(** What is sent at [a] and heard at [b], over [b]'s link [l]. *)
Definition carries (la l : LinkId) (a b : End) : Prop :=
  ∃ u v said, up_at la (e_core a) = Some u /\ up_at l (e_core b) = Some v /\
    e_put a = map frame_of said /\ Forall (genuine u) said /\
    (length (e_heard b) <= length said)%nat /\
    e_heard b = map (λ x, Some (sl_env x)) (take (length (e_heard b)) said) /\
    ∀ x nw, said !! length (e_heard b) = Some x ->
      let c := (e_core b) <| wall_ms := now_wall_ms nw |> in
      let now := monotonic_ms nw in
      ∃ c' out, deliver now (ul_peer v) (sl_env x) (taken now l v (frame_of x) c, []) = Some (tt, (c', out)) /\
        handle nw (LinkRecv l (frame_of x)) (e_core b) = Some (mkOutcome out (next_deadline c'), c').

Lemma flows_carries la lb a b u v :
  Good (e_core b) -> up_at la (e_core a) = Some u -> up_at lb (e_core b) = Some v ->
  flows a b u v -> carries la lb a b.
Proof.
  intros HG Hu Hv (h & q & Hput & Hg & Hh & Hc & Hcap).
  exists u, v, (h ++ q). rewrite Hh, length_map, take_app_length.
  split_and!; [done..|rewrite length_app; lia|done|]. intros x nw.
  rewrite lookup_app_r, Nat.sub_diag by done. destruct q as [|y q]; [done|]. intros [= ->] c now.
  apply Forall_app in Hg as [_ [Hx _]%Forall_cons].
  destruct (next_opens v u x q Hx Hcap Hc) as [Ho _].
  pose proof (opened_delivered nw lb v (frame_of x) (sl_env x) c (proj1 (up_at_Some _ _ _) Hv) Ho) as E.
  destruct (handle_good_event nw (LinkRecv lb (frame_of x)) _ HG) as (o & c' & Eh & _).
  unfold handle in Eh |- *. fold c now in Eh, E |- *. rewrite E in Eh |- *.
  destruct (deliver _ _ _ _) as [[[] [c2 out]]|]; [|done]. by exists c2, out.
Qed.

Lemma in_step_carries la lb a b : in_step la lb (a, b) -> carries la lb a b /\ carries lb la b a.
Proof. intros (? & ? & u & v & ? & ? & ? & ?). split; by eapply flows_carries. Qed.

(** C3 (safety): messages arrive in order and unaltered: over a link that keeps the
    order of its frames, whatever the two ends do meanwhile and however their
    steps interleave, as long as the link is up at both and no message was lost
    for its size, what each end opened is exactly what the other sealed, in the
    order it did, and the next frame on its way is handed to the plugins as the
    envelope that was sealed in it. *)
Theorem messages_in_order la lb a0 b0 a b :
  coupled la lb a0 b0 -> rtc (sys_step la lb) (mkEnd a0 [] [], mkEnd b0 [] []) (a, b) ->
  carries la lb a b /\ carries lb la b a.
Proof.
  intros H0 Hr. by apply in_step_carries, (reachable_in_step _ _ _ _ Hr), coupled_in_step.
Qed.
End delivery.
