(* ===== verification/Meeting.v ===== *)
(** * Two devices that trust each other meet

    From the link that one of them dialled to a session at both ends: the opener
    is accepted, so is its answer, and what each may send is what the other
    takes.  With [Delivery], everything they then say arrives in order. *)

From S2P Require Import Prelude Externals Ids Frame Hello Envelope PairingKeys Bulk Link Peer.
From S2P Require Import Vocab Noise Plugin CoreState CoreQueries CoreOps CoreHandle CoreSteps CoreRefines CoreTheorems.
From S2P Require Import CoreBehaviour Delivery.
Local Open Scope N_scope.

Section meeting.
  Context `{Externs} {XL : ExternsLaws} {EL : CborLaws Envelope} {HL : CborLaws Hello} {SL : SnowLaws}.
  Context {XP : X25519} {SC : SnowChannel} {SS : SnowSession}.

(** ** The handshake *)

Lemma session_initiator_ik id psk rs i :
  ik_initiator (prologue ModeSession) (id_private id) psk rs = Ok i ->
  session_initiator id psk rs = Ok (mkHandshake i ModeSession).
Proof.
  unfold session_initiator, build, ik_initiator, ik_builder.
  change (builder_new (mode_params ModeSession)) with (builder_new IK_PARAMS).
  change (mode_psk_index ModeSession) with 2.
  destruct (builder_prologue _ _) as [b1|]; [|done]. cbn [result_bind].
  destruct (builder_local_private_key _ _) as [b2|]; [|done]. cbn [result_bind].
  destruct (builder_psk _ _ _) as [b3|]; [|done]. cbn [result_bind].
  destruct (builder_remote_public_key _ _) as [b4|]; [|done]. cbn [result_bind]. by intros ->.
Qed.

Lemma session_responder_ik id psk r :
  ik_responder (prologue ModeSession) (id_private id) psk = Ok r ->
  session_responder id psk = Ok (mkHandshake r ModeSession).
Proof.
  unfold session_responder, build, ik_responder, ik_builder.
  change (builder_new (mode_params ModeSession)) with (builder_new IK_PARAMS).
  change (mode_psk_index ModeSession) with 2.
  destruct (builder_prologue _ _) as [b1|]; [|done]. cbn [result_bind].
  destruct (builder_local_private_key _ _) as [b2|]; [|done]. cbn [result_bind].
  destruct (builder_psk _ _ _) as [b3|]; [|done]. cbn [result_bind]. by intros ->.
Qed.

Lemma hs_passes_run mode a b a' b' p m : hs_passes a b a' b' p m ->
  hs_write (mkHandshake a mode) p = (mkHandshake a' mode, Ok m) /\
  hs_read (mkHandshake b mode) m = (mkHandshake b' mode, Ok p).
Proof.
  intros (Ha & Hb & Hw & Hr). unfold hs_write, hs_read, is_complete, MAX_NOISE_MESSAGE. cbn [hs_state hs_mode].
  rewrite Ha, Hb, Hw, Hr. pose proof (hs_write_bound _ _ _ _ _ Hw).
  by destruct (N.ltb_spec 65535 (len m)); [lia|].
Qed.

Lemma session_identify_ik id r r1 i i1 p m pk :
  ik_responder (prologue ModeSession) (id_private id) (replicate 32 Byte.x00) = Ok r ->
  hs_passes i r i1 r1 p m -> get_remote_static r1 = Some pk -> length pk = 32%nat ->
  session_identify id m = Ok pk.
Proof.
  intros Hr Hp Hs Hl. unfold session_identify. change (build ModeSession id (Some (replicate 32 Byte.x00)) None false)
    with (session_responder id (replicate 32 Byte.x00)). rewrite (session_responder_ik _ _ _ Hr). cbn [result_bind].
  destruct (hs_passes_run ModeSession _ _ _ _ _ _ Hp) as [_ ->]. cbn [result_bind]. unfold peer_static. cbn [hs_state].
  rewrite Hs. unfold len. by rewrite Hl.
Qed.

Lemma into_session_done a s attrs mode :
  is_handshake_finished a = true -> into_transport_mode a = Ok s -> supports_stateful_cipher attrs = true ->
  into_session (mkHandshake a mode) attrs = Ok (mkSession s 0).
Proof. intros Hf Hs Ha. unfold into_session, is_complete. cbn [hs_state]. by rewrite Hf, Ha, Hs. Qed.

(** ** The steps of a session that comes up *)

(** The record after a hello was accepted, and the link a session gets. *)
Definition new_link (now_ms : u64) (hs : Handshake) (s : Session) (attrs : LinkAttrs) (peer : DeviceId)
    (rec : PeerRecord) (c : Core) : UpLink := {|
  ul_session := s; ul_peer := peer;
  ul_handshake_hash := match handshake_hash hs with Ok h => h | Err _ => [] end;
  ul_bulk := la_bulk attrs; ul_max_message := la_max_message attrs; ul_last_recv_ms := now_ms;
  ul_transport := la_transport attrs; ul_kind := la_kind attrs;
  can_send := negotiate (caps_out c) (pr_caps_in rec);
  can_recv := negotiate (pr_caps_out rec) (caps_in c);
|}.

Lemma accept_hello_run peer payload hello rec seen b c out :
  cbor_decode payload = Some hello -> peers c !! peer = Some rec ->
  check_freshness hello (wall_ms c) (pr_greatest_seen rec) = Ok seen ->
  to_vec (refresh_record rec seen hello) = Some b ->
  accept_hello peer payload (c, out) =
  Some (true, (c <| peers ::= insert peer (refresh_record rec seen hello) |>,
               push (persisted (refresh_record rec seen hello) b) out)).
Proof.
  intros Hd Hp Hf Hb. unfold accept_hello. rewrite Hd. unfold bind, get. cbn [fst]. rewrite Hp. cbn [fst]. rewrite Hf.
  unfold upd, modify. cbn [fst snd]. by rewrite (persist_peer_run _ b _ _ Hb).
Qed.

Lemma finish_session_run now_ms l hs s attrs peer rec c out :
  into_session hs attrs = Ok s -> peers c !! peer = Some rec ->
  finish_session now_ms l hs attrs peer (c, out) =
  tell_plugins now_ms (CConnected peer)
    (c <| links ::= insert l (Up (new_link now_ms hs s attrs peer rec c)) |> <| dial_trouble ::= delete peer |>,
     push (Ui (UiPeerReachable peer (pr_name rec))) out).
Proof. intros Hs Hp. unfold finish_session. cbv zeta. rewrite Hs. unfold bind at 1, get. cbn [fst]. by rewrite Hp. Qed.

(** The plugins are told; the session is the new link's, and what they send at
    once is sealed on it. *)
Lemma told_plugins now_ms k l u c out :
  Inv Tick c -> links c !! l = Some (Up u) ->
  ∃ c' out', tell_plugins now_ms k (c, out) = Some (tt, (c', out')) /\ Inv Tick c' /\
    (∃ u', up_at l c' = Some u' /\ same_link u u') /\
    tracked l u (ul_session u) (frames_on l out) (c', out').
Proof.
  intros HI Hl.
  assert (stable (λ c, ∃ u', links c !! l = Some (Up u') /\ same_link u u')) as Hst.
  { intros d d' _ _ _ _ [Hk _] (v & Hv & Hs). destruct (Hk l v Hv) as (v' & ? & ?). exists v'. split; [done|].
    by eapply same_link_trans. }
  assert (∃ u', links c !! l = Some (Up u') /\ same_link u u') as H0 by (exists u; split; [done|apply same_link_refl]).
  destruct (drain_cx_safe c now_ms Tick (call_each k (plugins c)
      (Cx_new now_ms (next_token c) (next_transfer c) (serves c))).2 _ (stable_quietly _ Hst) (told now_ms k c, out) H0)
    as ([] & [c' out'] & E & Hr & HI' & u' & Hu' & Hs).
  { destruct HI as (HO & HF & HU). split_and!; [|exact HF|exact HU]. by eapply owners_cong; [apply length_call_each|..]. }
  rewrite <- tell_plugins_run in E. exists c', out'. split_and!; [done|done|exists u'; by rewrite up_at_Some|].
  eapply steps_tracked; [| |exact Hr|]; [done|done|]. apply tracked_start; [|done].
  change (links (told now_ms k c)) with (links c). rewrite Hl. by intros v [= <-].
Qed.

Lemma dial_comes_up now_ms l attrs d t pd rec psk pk h h' hello m c :
  pending_pair_dials c !! d = None -> pending_peer_dials c !! d = Some (t, pd) ->
  peers c !! pd_peer pd = Some rec -> public_key_array rec = Some pk -> session_psk_array rec = Some psk ->
  session_initiator (identity c) psk pk = Ok h -> to_vec (core_hello c) = Some hello ->
  hs_write h hello = (h', Ok m) ->
  on_event now_ms (LinkUp l attrs (Some d)) (c, []) =
  Some (tt, (c <| pending_peer_dials ::= delete d |>
               <| links ::= insert l (Handshaking (mkHandshakingLink h' attrs
                    (now_ms +u64 handshake_timeout_ms (config c)) (Some (pd_peer pd)) false None (Some pd))) |>,
             [LinkSend l (join SessionHandshake m)])).
Proof.
  intros Hno Hd Hp Hpk Hpsk Hh Hello Hw. cbn [on_event]. unfold on_link_up.
  unfold bind at 1 2, get. cbn [fst mbind option_bind]. rewrite Hno. cbn [mbind option_bind].
  unfold bind at 1. cbn [fst mbind option_bind]. rewrite Hd. cbn [mbind option_bind snd].
  unfold bind at 1, upd at 1, modify. cbn [fst snd]. unfold start_session_initiator.
  unfold bind at 1, get at 1. cbn [fst]. change (peers (c <| pending_peer_dials ::= delete d |>)) with (peers c).
  rewrite Hp, Hpk, Hpsk. unfold bind at 1, get at 1. cbn [fst].
  change (identity (c <| pending_peer_dials ::= delete d |>)) with (identity c). rewrite Hh.
  unfold my_hello. unfold bind at 1 2, get, expect. cbn [fst].
  change (core_hello (c <| pending_peer_dials ::= delete d |>)) with (core_hello c). rewrite Hello. unfold ret at 1. cbv beta iota. by rewrite Hw.
Qed.

Lemma opener_answered now_ms l p m b rec psk pk h h1 h2 payload hello seen mine m2 s blob :
  links b !! l = Some (Pending p) -> session_identify (identity b) m = Ok pk ->
  peers b !! DeviceId_of pk = Some rec -> session_psk_array rec = Some psk ->
  session_responder (identity b) psk = Ok h -> hs_read h m = (h1, Ok payload) ->
  cbor_decode payload = Some hello -> check_freshness hello (wall_ms b) (pr_greatest_seen rec) = Ok seen ->
  to_vec (refresh_record rec seen hello) = Some blob -> to_vec (core_hello b) = Some mine ->
  hs_write h1 mine = (h2, Ok m2) -> into_session h2 (pl_attrs p) = Ok s ->
  let peer := DeviceId_of pk in
  let rec' := refresh_record rec seen hello in
  on_event now_ms (LinkRecv l (join SessionHandshake m)) (b, []) =
  tell_plugins now_ms (CConnected peer)
    (b <| links ::= delete l |> <| peers ::= insert peer rec' |>
       <| links ::= insert l (Up (new_link now_ms h2 s (pl_attrs p) peer rec' b)) |> <| dial_trouble ::= delete peer |>,
     [persisted rec' blob; LinkSend l (join SessionHandshake m2); Ui (UiPeerReachable peer (pr_name rec'))]).
Proof.
  intros Hl Hid Hp Hpsk Hh Hr Hd Hf Hb Hm Hw Hs peer rec'. cbn [on_event]. unfold on_link_recv. rewrite split_join_id.
  unfold bind at 1, get at 1. cbn [fst]. rewrite Hl. unfold bind at 1, upd at 1, modify. cbn [fst snd on_first_frame].
  set (b1 := b <| links ::= delete l |>). unfold answer_session, bind at 1, get at 1. cbn [fst].
  change (identity b1) with (identity b). rewrite Hid. cbv zeta. unfold bind at 1, get at 1. cbn [fst].
  change (peers b1) with (peers b). rewrite Hp, Hpsk, Hh, Hr. unfold bind at 1.
  rewrite (accept_hello_run _ _ hello rec seen blob b1 []) by done. cbn [negb].
  unfold my_hello. unfold bind at 1 2, get, expect. cbn [fst].
  match goal with |- context [core_hello ?x] => change (core_hello x) with (core_hello b) end.
  rewrite Hm. unfold ret at 1. cbv beta iota. rewrite Hw. unfold bind at 1, emit, modify. cbn [fst snd].
  erewrite finish_session_run; [|done|apply lookup_insert_eq]. done.
Qed.

Lemma answer_accepted now_ms l hl m c peer rec h payload hello seen s blob :
  links c !! l = Some (Handshaking hl) -> pairing_flow hl = false -> hl_expect hl = Some peer ->
  hs_read (hl_hs hl) m = (h, Ok payload) -> is_complete h = true -> cbor_decode payload = Some hello ->
  peers c !! peer = Some rec -> check_freshness hello (wall_ms c) (pr_greatest_seen rec) = Ok seen ->
  to_vec (refresh_record rec seen hello) = Some blob -> into_session h (hl_attrs hl) = Ok s ->
  let rec' := refresh_record rec seen hello in
  on_event now_ms (LinkRecv l (join SessionHandshake m)) (c, []) =
  tell_plugins now_ms (CConnected peer)
    (c <| links ::= delete l |> <| peers ::= insert peer rec' |>
       <| links ::= insert l (Up (new_link now_ms h s (hl_attrs hl) peer rec' c)) |> <| dial_trouble ::= delete peer |>,
     [persisted rec' blob; Ui (UiPeerReachable peer (pr_name rec'))]).
Proof.
  intros Hl Hf Hx Hr Hdone Hd Hp Hfr Hb Hs rec'. cbn [on_event]. unfold on_link_recv. rewrite split_join_id.
  unfold bind at 1, get at 1. cbn [fst]. rewrite Hl. unfold bind at 1, upd at 1, modify. cbn [fst snd].
  set (c1 := c <| links ::= delete l |>). unfold on_handshake_frame. rewrite Hf. cbv zeta. cbn [negb andb].
  rewrite bool_decide_eq_true_2 by done. cbn [negb]. rewrite Hr. unfold handshake_over.
  change (hl_hs (hl <| hl_hs := h |>)) with h. rewrite Hdone. cbn [negb].
  change (pairing_flow (hl <| hl_hs := h |>)) with (pairing_flow hl). rewrite Hf.
  change (hl_expect (hl <| hl_hs := h |>)) with (hl_expect hl). rewrite Hx.
  change (hl_attrs (hl <| hl_hs := h |>)) with (hl_attrs hl). cbn [andb]. unfold bind at 1.
  rewrite (accept_hello_run _ _ hello rec seen blob c1 []) by done. cbn [negb].
  erewrite finish_session_run; [|done|apply lookup_insert_eq]. done.
Qed.

(** ** The session at one end *)

Lemma met_inv c l u peer rec seen hello :
  Good c -> peers c !! peer = Some rec -> ul_peer u = peer ->
  Inv Tick (c <| links ::= delete l |> <| peers ::= insert peer (refresh_record rec seen hello) |>
              <| links ::= insert l (Up u) |> <| dial_trouble ::= delete peer |>).
Proof.
  intros (HO & HF & HU) Hp <-. split_and!; [done| |].
  - unfold filed_by_key. cbn. apply map_Forall_insert_2; [|done]. rewrite record_id_refresh. by apply HF.
  - intros l' v. cbn. intros [[_ [= <-]]|[_ [_ Hv]%lookup_delete_Some]]%up_after_insert; left.
    + rewrite lookup_insert_eq. by eexists.
    + apply lookup_insert_is_Some'. right. by eapply HU.
Qed.

(** A handled event whose last part tells the plugins that a peer is there. *)
Lemma session_begun nw ev k l u c c1 out :
  on_event (monotonic_ms nw) ev (c <| wall_ms := now_wall_ms nw |>, []) =
    tell_plugins (monotonic_ms nw) k (c1, out) ->
  Inv Tick c1 -> links c1 !! l = Some (Up u) ->
  ∃ o c', handle nw ev c = Some (o, c') /\ Good c' /\
    (∃ u', up_at l c' = Some u' /\ same_link u u') /\
    tracked l u (ul_session u) (frames_on l out) (c', actions o).
Proof.
  intros E HI Hl. destruct (told_plugins (monotonic_ms nw) k l u c1 out HI Hl) as (c' & out' & E' & HI' & Hu & HT).
  exists (mkOutcome out' (next_deadline c')), c'. unfold handle. rewrite E, E'. split_and!; [done| |done|done].
  by apply (Inv_Good Tick).
Qed.

(** Two fresh sessions that belong together, and what each end sealed at once. *)
Lemma flows_begin a b u v u' v' sa sb :
  same_link u u' -> same_link v v' ->
  channel (s_state (ul_session u)) [] (s_state (ul_session v)) ->
  (∀ c, c ∈ can_send u -> c ∈ can_recv v) ->
  e_put a = map frame_of sa -> e_heard b = [] ->
  sealed u (ul_session u) sa (ul_session u') -> sealed v (ul_session v) sb (ul_session v') ->
  flows a b u' v'.
Proof.
  intros Hsu Hsv Hc Hcap Hput Hheard Ha Hb. exists [], sa. cbn [app map].
  split_and!; [done| |done| |].
  - eapply Forall_impl; [by eapply sealed_genuine|]. intros x. by apply genuine_same.
  - eapply sealed_channel_back; [exact Hb|]. by apply (sealed_channel u _ sa _ []  _ Ha).
  - destruct Hsu as (_&_&_&_&_&_&<-&_), Hsv as (_&_&_&_&_&_&_&<-). done.
Qed.

(** ** Who may meet *)

(** An identity as it is loaded: the public half is that of the private one. *)
Definition own_keys (i : Identity) : Prop :=
  length (id_private i) = 32%nat /\ length (id_public i) = 32%nat /\ id_public i = x25519_public (id_private i).

(** A device trusts another: it has its key, the secret they share, and the time
    of its last greeting. *)
Definition trusts (c : Core) (other : Identity) (psk : bytes) (seen : u64) : Prop :=
  ∃ rec, peers c !! identity_device_id other = Some rec /\ pr_public_key rec = id_public other /\
    pr_session_psk rec = psk /\ pr_greatest_seen rec = seen.

(** A device at a moment of its wall clock. *)
Definition at_wall (wall : u64) (c : Core) : Core := c <| wall_ms := wall |>.

(** What a device says of itself at a moment fits in a handshake message. *)
Definition hello_fits (room : usize) (c : Core) (wall : u64) : Prop :=
  ∃ b, to_vec (core_hello (at_wall wall c)) = Some b /\ len b <= room.

(** A greeting said at one moment and heard at another is newer than the last and
    not a minute off. *)
Definition timely (said heard seen : u64) : Prop :=
  seen < said /\ heard <= said + MAX_SKEW_MS /\ said <= heard + MAX_SKEW_MS.

Lemma timely_fresh c said heard seen : timely said heard seen ->
  check_freshness (core_hello (at_wall said c)) heard seen = Ok said.
Proof.
  intros (H1 & H2 & H3). unfold check_freshness, u64_abs_diff, MAX_SKEW_MS in *. cbv zeta. cbn [hello_ts_ms core_hello].
  change (wall_ms (at_wall said c)) with said.
  destruct (N.ltb_spec 60000 ((heard - said) + (said - heard))); [lia|].
  destruct (N.leb_spec said seen); [lia|done].
Qed.

(** Both devices are in a good state and trust each other; the first has dialled
    the second, where the link is up and nothing has been said on it. *)
Record meeting (a b : Core) (attrs : LinkAttrs) (lb : LinkId) (d : DialToken) (psk : bytes)
    (nw1 nw2 nw3 : Now) : Prop := {
  mt_good : Good a /\ Good b;
  mt_keys : own_keys (identity a) /\ own_keys (identity b) /\ length psk = 32%nat;
  mt_dial : pending_pair_dials a !! d = None /\
    ∃ t pd, pending_peer_dials a !! d = Some (t, pd) /\ pd_peer pd = core_device_id b;
  mt_ordered : supports_stateful_cipher attrs = true;
  mt_link : ∃ p, links b !! lb = Some (Pending p) /\ supports_stateful_cipher (pl_attrs p) = true;
  mt_first : ∃ seen, trusts b (identity a) psk seen /\ hello_fits ik_room a (now_wall_ms nw1) /\
    timely (now_wall_ms nw1) (now_wall_ms nw2) seen;
  mt_second : ∃ seen, trusts a (identity b) psk seen /\ hello_fits ik_room b (now_wall_ms nw2) /\
    timely (now_wall_ms nw2) (now_wall_ms nw3) seen;
}.

(** The link of a session that just came up, at [mine], with [theirs]. *)
Definition fresh_link (mine theirs : Core) (hs : HandshakeState) (t : TransportState) (u : UpLink) : Prop :=
  s_state (ul_session u) = t /\ ul_peer u = core_device_id theirs /\ ul_handshake_hash u = get_handshake_hash hs /\
  can_send u = negotiate (caps_out mine) (caps_in theirs) /\
  can_recv u = negotiate (caps_out theirs) (caps_in mine).

Lemma new_link_fresh now_ms mine c theirs wall hs t attrs rec seen :
  is_handshake_finished hs = true -> caps_out c = caps_out mine -> caps_in c = caps_in mine ->
  fresh_link mine theirs hs t
    (new_link now_ms (mkHandshake hs ModeSession) (mkSession t 0) attrs (core_device_id theirs)
       (refresh_record rec seen (core_hello (at_wall wall theirs))) c).
Proof.
  intros Hf Ho Hi. unfold fresh_link, new_link, handshake_hash, is_complete. cbn [hs_state ul_handshake_hash]. rewrite Hf.
  cbn. rewrite Ho, Hi. done.
Qed.

Section met.
  Context (a b : Core) (la lb : LinkId) (attrs : LinkAttrs) (d : DialToken) (psk : bytes) (nw1 nw2 nw3 : Now).
  Hypothesis HM : meeting a b attrs lb d psk nw1 nw2 nw3.

(** What the first device wrote and where it stands: anyone with the key it was
    meant for can read it, and the one with the secret can answer. *)
Definition opened_with (i i1 : HandshakeState) (p m : bytes) : Prop :=
  ∀ psk', length psk' = 32%nat ->
    ∃ r r1, ik_responder (prologue ModeSession) (id_private (identity b)) psk' = Ok r /\ hs_passes i r i1 r1 p m /\
      get_remote_static r1 = Some (id_public (identity a)) /\
      (psk' = psk -> ∀ q, len q <= ik_room -> ∃ r2 i2 m2, hs_passes r1 i1 r2 i2 q m2 /\ hs_done i2 r2).

Lemma meeting_opens :
  ∃ i i1 p m o1 a1 hl, to_vec (core_hello (at_wall (now_wall_ms nw1) a)) = Some p /\
    opened_with i i1 p m /\
    handle nw1 (LinkUp la attrs (Some d)) a = Some (o1, a1) /\
    actions o1 = [LinkSend la (join SessionHandshake m)] /\
    peers a1 = peers a /\ caps_out a1 = caps_out a /\ caps_in a1 = caps_in a /\
    links a1 !! la = Some (Handshaking hl) /\ hl_hs hl = mkHandshake i1 ModeSession /\ hl_attrs hl = attrs /\
    pairing_flow hl = false /\ hl_expect hl = Some (core_device_id b).
Proof.
  destruct HM as [_ ((Hka & _ & Hpa) & (Hkb & Hlb & Hpb) & Hpsk) (Hno & t & pd & Hd & Hpd) _ _ (_ & _ & (p & Hp & Hfit) & _)
    (_ & (rec & Hrec & Hkey & Hsec & _) & _)].
  destruct (ik_session (prologue ModeSession) _ _ _ p Hka Hkb Hpsk Hfit) as (i & i1 & m & Hi & Hr).
  rewrite <- Hpa in Hr. rewrite <- Hpb in Hi.
  destruct (Hr psk Hpsk) as (r & r1 & _ & Hpass & _).
  destruct (hs_passes_run ModeSession _ _ _ _ _ _ Hpass) as [Hw _].
  eexists i, i1, p, m, _, _, _. split; [done|]. split; [exact Hr|]. split_and!.
  - unfold handle. erewrite (dial_comes_up (monotonic_ms nw1) la attrs d t pd rec psk _ _ _ p m).
    + reflexivity.
    + exact Hno.
    + exact Hd.
    + cbn. by rewrite Hpd.
    + apply array32_Some. rewrite Hkey. done.
    + apply array32_Some. rewrite Hsec. done.
    + rewrite Hkey. exact (session_initiator_ik _ _ _ _ Hi).
    + exact Hp.
    + exact Hw.
  - done.
  - done.
  - done.
  - done.
  - apply lookup_insert_eq.
  - done.
  - done.
  - done.
  - cbn. by rewrite Hpd.
Qed.

Lemma meeting_answered i i1 p m :
  to_vec (core_hello (at_wall (now_wall_ms nw1) a)) = Some p -> opened_with i i1 p m ->
  ∃ q m2 i2 r2 s t v o2 b1, to_vec (core_hello (at_wall (now_wall_ms nw2) b)) = Some q /\
    hs_read (mkHandshake i1 ModeSession) m2 = (mkHandshake i2 ModeSession, Ok q) /\ hs_done i2 r2 /\
    into_transport_mode i2 = Ok s /\ channel s [] t /\ channel t [] s /\ fresh_link b a r2 t v /\
    handle nw2 (LinkRecv lb (join SessionHandshake m)) b = Some (o2, b1) /\ Good b1 /\
    (∃ v', up_at lb b1 = Some v' /\ same_link v v') /\
    tracked lb v (ul_session v) [join SessionHandshake m2] (b1, actions o2).
Proof.
  intros Hp Hopen.
  destruct HM as [[_ HG] ((_ & Hla & _) & _ & Hpsk) _ _ (pl & Hl & Hord) (seen & (rec & Hrec & Hkey & Hsec & Hseen) & _ & Htime)
    (_ & _ & (q & Hq & Hfit) & _)].
  destruct (Hopen (replicate 32 Byte.x00) eq_refl) as (r0 & r01 & Hr0 & Hpass0 & Hst0 & _).
  destruct (Hopen psk Hpsk) as (r & r1 & Hr & Hpass & _ & Hans).
  destruct (Hans eq_refl q Hfit) as (r2 & i2 & m2 & Hpass2 & Hdone).
  pose proof Hdone as (Hfi & Hfr & _ & s & t & Hs & Ht & Hst & Hts).
  destruct (hs_passes_run ModeSession _ _ _ _ _ _ Hpass) as [_ Hread].
  destruct (hs_passes_run ModeSession _ _ _ _ _ _ Hpass2) as [Hwrite2 Hread2].
  assert (session_psk_array rec = Some psk) as Hsecret by (apply array32_Some; by rewrite Hsec).
  assert (check_freshness (core_hello (at_wall (now_wall_ms nw1) a)) (wall_ms (at_wall (now_wall_ms nw2) b))
    (pr_greatest_seen rec) = Ok (now_wall_ms nw1)) as Hfresh by (rewrite Hseen; by apply (timely_fresh a)).
  destruct (to_vec_total (refresh_record rec (now_wall_ms nw1) (core_hello (at_wall (now_wall_ms nw1) a)))) as [blob Hb].
  pose proof (opener_answered (monotonic_ms nw2) lb pl m (at_wall (now_wall_ms nw2) b) rec psk (id_public (identity a))
    _ _ _ p (core_hello (at_wall (now_wall_ms nw1) a)) (now_wall_ms nw1) q m2 (mkSession t 0) blob
    Hl (session_identify_ik _ _ _ _ _ _ _ _ Hr0 Hpass0 Hst0 Hla) Hrec
    Hsecret (session_responder_ik _ _ _ Hr) Hread (cbor_decode_to_vec _ _ Hp) Hfresh Hb Hq Hwrite2 (into_session_done _ _ _ _ Hfr Ht Hord)) as E.
  cbv zeta in E.
  match type of E with context [Up ?u] =>
    destruct (session_begun nw2 _ _ lb u b _ _ E) as (o & b1 & Eh & HG' & Hup & HT) end;
    [by apply (met_inv (at_wall (now_wall_ms nw2) b))|apply lookup_insert_eq|].
  eexists q, m2, i2, r2, s, t, _, o, b1. split_and!; [done..| |done|done|done|].
  - by apply new_link_fresh.
  - revert HT. cbn [frames_on omap list_omap frame_on persisted]. by rewrite N.eqb_refl.
Qed.

(** The answer arrives at the first device. *)
Lemma meeting_concludes i1 i2 q m2 s c hl :
  Good c -> peers c = peers a -> caps_out c = caps_out a -> caps_in c = caps_in a ->
  links c !! la = Some (Handshaking hl) -> hl_hs hl = mkHandshake i1 ModeSession -> hl_attrs hl = attrs ->
  pairing_flow hl = false -> hl_expect hl = Some (core_device_id b) ->
  to_vec (core_hello (at_wall (now_wall_ms nw2) b)) = Some q ->
  hs_read (mkHandshake i1 ModeSession) m2 = (mkHandshake i2 ModeSession, Ok q) ->
  is_handshake_finished i2 = true -> into_transport_mode i2 = Ok s ->
  ∃ u o3 a2, handle nw3 (LinkRecv la (join SessionHandshake m2)) c = Some (o3, a2) /\ Good a2 /\
    fresh_link a b i2 s u /\ (∃ u', up_at la a2 = Some u' /\ same_link u u') /\
    tracked la u (ul_session u) [] (a2, actions o3).
Proof.
  intros HG Hpeers Ho Hi Hl Hhs <- Hflow Hx Hq Hread Hf Hs.
  destruct HM as [_ _ _ Hord _ _ (seen & (rec & Hrec & Hkey & Hsec & Hseen) & _ & Htime)].
  rewrite <- Hpeers in Hrec.
  assert (check_freshness (core_hello (at_wall (now_wall_ms nw2) b)) (wall_ms (at_wall (now_wall_ms nw3) c))
    (pr_greatest_seen rec) = Ok (now_wall_ms nw2)) as Hfresh by (rewrite Hseen; by apply (timely_fresh b)).
  destruct (to_vec_total (refresh_record rec (now_wall_ms nw2) (core_hello (at_wall (now_wall_ms nw2) b)))) as [blob Hb].
  rewrite <- Hhs in Hread.
  pose proof (answer_accepted (monotonic_ms nw3) la hl m2 (at_wall (now_wall_ms nw3) c) _ rec _ q
    (core_hello (at_wall (now_wall_ms nw2) b)) (now_wall_ms nw2) (mkSession s 0) blob
    Hl Hflow Hx Hread Hf (cbor_decode_to_vec _ _ Hq) Hrec Hfresh Hb (into_session_done _ _ _ _ Hf Hs Hord)) as E.
  cbv zeta in E.
  match type of E with context [Up ?u] =>
    exists u; destruct (session_begun nw3 _ _ la u c _ _ E) as (o & a2 & Eh & HG' & Hup & HT) end;
    [by apply (met_inv (at_wall (now_wall_ms nw3) c))|apply lookup_insert_eq|].
  exists o, a2. split_and!; [done|done|by apply (new_link_fresh _ a)|done|done].
Qed.
End met.

(** ** What follows *)

(** Neither device lost a message for its size while it was told of the other. *)
Definition nothing_lost (peer : DeviceId) (o : Outcome) : Prop := ∀ x, x ∈ actions o -> ~ lost peer x.

Lemma tracked_sealed l u s0 before o c' :
  tracked l u s0 before (c', actions o) -> nothing_lost (ul_peer u) o ->
  ∀ u', up_at l c' = Some u' ->
    same_link u u' /\ ∃ sent, frames_on l (actions o) = before ++ map frame_of sent /\ sealed u s0 sent (ul_session u').
Proof.
  intros [(x & Hx & Hlost)|HT] Hno u' Hu'; [by edestruct Hno|]. by apply HT, up_at_Some.
Qed.

(** What an end may do with its link left to its fate: any event of something else,
    or the next frame the other put on the link. *)
Inductive does (l : LinkId) (theirs : list bytes) (e : End) : Outcome -> End -> Prop :=
| does_event nw ev o c' :
    quiet l ev -> handle nw ev (e_core e) = Some (o, c') ->
    does l theirs e o (mkEnd c' (e_put e ++ frames_on l (actions o)) (e_heard e))
| does_frame nw frame u o c' :
    theirs !! length (e_heard e) = Some frame -> up_at l (e_core e) = Some u ->
    handle nw (LinkRecv l frame) (e_core e) = Some (o, c') ->
    does l theirs e o
      (mkEnd c' (e_put e ++ frames_on l (actions o)) (e_heard e ++ [opened u frame])).

(** It ends the link, or loses a message that does not fit it. *)
Definition broken (l : LinkId) (e : End) (o : Outcome) (e' : End) : Prop :=
  up_at l (e_core e') = None \/
  ∃ u x, up_at l (e_core e) = Some u /\ x ∈ actions o /\ lost (ul_peer u) x.

Inductive any_step (la lb : LinkId) : End * End -> End * End -> Prop :=
| any_left a b o a' : does la (e_put b) a o a' -> any_step la lb (a, b) (a', b)
| any_right a b o b' : does lb (e_put a) b o b' -> any_step la lb (a, b) (a, b').
Inductive breaks (la lb : LinkId) : End * End -> End * End -> Prop :=
| breaks_left a b o a' : does la (e_put b) a o a' -> broken la a o a' -> breaks la lb (a, b) (a', b)
| breaks_right a b o b' : does lb (e_put a) b o b' -> broken lb b o b' -> breaks la lb (a, b) (a, b').

#[local] Instance lost_dec peer x : Decision (lost peer x).
Proof.
  destruct x as [| | | | | | | | | |e]; try (right; by intros (? & ? & ? & _)).
  destruct e; try (right; by intros (? & ? & ? & _)).
  destruct (decide (peer0 = Some peer /\ (code = TooLarge \/ code = Internal))) as [[-> ?]|Hn]; [left; by do 2 eexists|].
  right. intros (c & d & [= -> -> ->] & ?). by apply Hn.
Qed.

Lemma kept_or_broken l e o e' : link_kept l (e_core e) (e_core e') o \/ broken l e o e'.
Proof.
  unfold broken, link_kept. destruct (up_at l (e_core e')) as [u'|]; [|by right; left].
  destruct (up_at l (e_core e)) as [u|]; [|left; split; [by eexists|done]].
  destruct (decide (Exists (lost (ul_peer u)) (actions o))) as [HE|HE].
  - right. right. apply Exists_exists in HE as (x & Hx & Hl). by exists u, x.
  - left. split; [by eexists|]. intros v x [= <-] Hx Hl. apply HE, Exists_exists. by exists x.
Qed.

Lemma does_moves l theirs e o e' : does l theirs e o e' -> link_kept l (e_core e) (e_core e') o -> moves l theirs e e'.
Proof. destruct 1; intros Hk; [by eapply moves_event|by eapply moves_frame]. Qed.

Lemma any_sys_or_breaks la lb s s' : any_step la lb s s' -> sys_step la lb s s' \/ breaks la lb s s'.
Proof.
  destruct 1 as [a b o a' Hd|a b o b' Hd].
  - destruct (kept_or_broken la a o a') as [Hk|Hb]; [left; by eapply sys_left, does_moves|right; by eapply breaks_left].
  - destruct (kept_or_broken lb b o b') as [Hk|Hb]; [left; by eapply sys_right, does_moves|right; by eapply breaks_right].
Qed.

Lemma sys_any la lb s s' : sys_step la lb s s' -> any_step la lb s s'.
Proof.
  destruct 1 as [a b a' [nw ev o c' Hq E _|nw fr u o c' Hf Hu E _]|a b b' [nw ev o c' Hq E _|nw fr u o c' Hf Hu E _]].
  - by eapply any_left, does_event.
  - by eapply any_left, does_frame.
  - by eapply any_right, does_event.
  - by eapply any_right, does_frame.
Qed.

(** A run keeps the link at both ends, or there is a first step that does not. *)
Lemma any_run la lb s s' : rtc (any_step la lb) s s' ->
  rtc (sys_step la lb) s s' \/
  ∃ s1 s2, rtc (sys_step la lb) s s1 /\ breaks la lb s1 s2 /\ rtc (any_step la lb) s2 s'.
Proof.
  induction 1 as [s|s s1 s' Hs Hr IH]; [by left|].
  destruct (any_sys_or_breaks la lb s s1 Hs) as [Hk|Hb]; [|right; by exists s, s1].
  destruct IH as [IH|(s2 & s3 & Hr1 & Hb & Hr2)]; [left; by eapply rtc_l|].
  right. exists s2, s3. split_and!; [by eapply rtc_l|done|done].
Qed.

(** C4 (liveness): two devices that trust each other, each with the other's key and their one
    secret on record, meet: when both are in a good state, one of them has dialled
    the other, the other's end of the link is up and silent so far, both ends keep
    the order of their frames, each device's hello fits
    in a handshake message and is newer than the last the other accepted and
    within a minute of its clock, the opener the first sends is answered, the
    answer is accepted and a session is up at both ends, with each other, under
    one handshake hash, each sending just what the other takes.  From then on
    (provided none of the messages their plugins sent at once was lost for its
    size), whatever the two devices are made to do and however it interleaves,
    what each seals arrives at the other in order and unaltered, up to the first
    step in which one of them ends the link or loses a message that does not fit
    it, if there is one. *)
Theorem trusted_devices_meet a b la lb attrs d psk nw1 nw2 nw3 :
  meeting a b attrs lb d psk nw1 nw2 nw3 ->
  ∃ f1 o1 a1, handle nw1 (LinkUp la attrs (Some d)) a = Some (o1, a1) /\ actions o1 = [LinkSend la f1] /\
  ∃ f2 said o2 b1, handle nw2 (LinkRecv lb f1) b = Some (o2, b1) /\
  ∃ o3 a2, handle nw3 (LinkRecv la f2) a1 = Some (o3, a2) /\
    (∃ u v, up_at la a2 = Some u /\ up_at lb b1 = Some v /\
       ul_peer u = core_device_id b /\ ul_peer v = core_device_id a /\ ul_handshake_hash u = ul_handshake_hash v /\
       can_send u = can_recv v /\ can_send v = can_recv u) /\
    (nothing_lost (core_device_id a) o2 -> nothing_lost (core_device_id b) o3 ->
     frames_on lb (actions o2) = f2 :: said /\
     let start := (mkEnd a2 (frames_on la (actions o3)) [], mkEnd b1 said []) in
     ∀ x y, rtc (any_step la lb) start (x, y) ->
       carries la lb x y /\ carries lb la y x \/
       ∃ x1 y1 s2, rtc (any_step la lb) start (x1, y1) /\ carries la lb x1 y1 /\ carries lb la y1 x1 /\
         breaks la lb (x1, y1) s2 /\ rtc (any_step la lb) s2 (x, y)).
Proof.
  intros HM.
  destruct (meeting_opens a b la lb attrs d psk nw1 nw2 nw3 HM)
    as (i & i1 & p & m & o1 & a1 & hl & Hp & Hopen & E1 & Hact & Hpe & Ho & Hi & Hl & Hhs & Hat & Hfl & Hx).
  destruct (meeting_answered a b lb attrs d psk nw1 nw2 nw3 HM i i1 p m Hp Hopen)
    as (q & m2 & i2 & r2 & s & t & v & o2 & b1 & Hq & Hread & Hdone & Hs & Hst & Hts & Hv & E2 & HGb & (v' & Hv' & Hsv) & HTb).
  pose proof Hdone as (Hf & _ & Hhash & _).
  pose proof HM as [[HG0 _] _ _ _ _ _ _]. pose proof (handle_keeps_good _ _ _ _ _ HG0 E1) as HGa1.
  destruct (meeting_concludes a b la lb attrs d psk nw1 nw2 nw3 HM i1 i2 q m2 s a1 hl)
    as (u & o3 & a2 & E3 & HGa & Hu & (u' & Hu' & Hsu) & HTa); [done..|].
  exists (join SessionHandshake m), o1, a1. split; [done|]. split; [done|].
  exists (join SessionHandshake m2), (drop 1 (frames_on lb (actions o2))), o2, b1. split; [done|].
  exists o3, a2. split; [done|].
  destruct Hu as (Eu & Pu & Hu1 & Su & Ru), Hv as (Ev & Pv & Hv1 & Sv & Rv). split.
  - exists u', v'. pose proof Hsu as (<- & <- & _ & _ & _ & _ & <- & <-). pose proof Hsv as (<- & <- & _ & _ & _ & _ & <- & <-).
    split_and!; congruence.
  - rewrite <- Pv, <- Pu. intros Hnb Hna.
    destruct (tracked_sealed _ _ _ _ _ _ HTa Hna u' Hu') as (_ & sa & Hfa & Hsa).
    destruct (tracked_sealed _ _ _ _ _ _ HTb Hnb v' Hv') as (_ & sb & Hfb & Hsb).
    rewrite Hfa, Hfb. cbn [app drop]. split; [done|]. intros x y Hr.
    assert (in_step la lb (mkEnd a2 (map frame_of sa) [], mkEnd b1 (map frame_of sb) [])) as H0.
    { split_and!; [done|done|]. exists u', v'. split_and!; [done|done| |].
      - apply (flows_begin _ _ u v u' v' sa sb); try done; [by rewrite Eu, Ev|]. rewrite Su, Rv. done.
      - apply (flows_begin _ _ v u v' u' sb sa); try done; [by rewrite Eu, Ev|]. rewrite Sv, Ru. done. }
    destruct (any_run la lb _ _ Hr) as [Hk|([x1 y1] & s2 & Hr1 & Hb & Hr2)].
    + left. by apply (in_step_carries la lb x y), (reachable_in_step _ _ _ _ Hk).
    + right. exists x1, y1, s2. pose proof (in_step_carries la lb x1 y1 (reachable_in_step _ _ _ _ Hr1 H0)) as [? ?].
      split_and!; [|done..]. eapply (rtc_subrel (sys_step la lb)); [|exact Hr1].
      intros ? ? Hstep. by apply sys_any.
Qed.
End meeting.
