(* ===== verification/Pairing.v ===== *)
(** * Two devices that never met pair

    From the link one of them dialled to pair, through the three messages of the
    handshake and the two confirmations: both screens show the same digits, and
    afterwards each trusts the other, with one secret.  [Meeting] goes on from
    there. *)

From S2P Require Import Prelude Externals Ids Frame Hello Envelope PairingKeys Bulk Link Peer.
From S2P Require Import Vocab Noise Plugin CoreState CoreQueries CoreOps CoreHandle CoreSteps CoreRefines CoreTheorems.
From S2P Require Import CoreBehaviour Delivery Meeting.
Local Open Scope N_scope.

Section pairing.
  Context `{Externs} {XL : ExternsLaws} {HL : CborLaws Hello} {SL : SnowLaws} {KL : HkdfLaws}.
  Context {XP : X25519} {SP : SnowPairing}.

(** ** The handshake *)

Lemma pair_initiator_xx id i :
  (try! b := xx_builder (prologue ModePair) (id_private id) in build_initiator b) = Ok i ->
  pair_initiator id = Ok (mkHandshake i ModePair).
Proof.
  unfold pair_initiator, build, xx_builder.
  change (builder_new (mode_params ModePair)) with (builder_new XX_PARAMS).
  destruct (builder_prologue _ _) as [b1|]; [|done]. cbn [result_bind].
  destruct (builder_local_private_key _ _) as [b2|]; [|done]. cbn [result_bind]. by intros ->.
Qed.
Lemma pair_responder_xx id r :
  (try! b := xx_builder (prologue ModePair) (id_private id) in build_responder b) = Ok r ->
  pair_responder id = Ok (mkHandshake r ModePair).
Proof.
  unfold pair_responder, build, xx_builder.
  change (builder_new (mode_params ModePair)) with (builder_new XX_PARAMS).
  destruct (builder_prologue _ _) as [b1|]; [|done]. cbn [result_bind].
  destruct (builder_local_private_key _ _) as [b2|]; [|done]. cbn [result_bind]. by intros ->.
Qed.

(** ** The steps *)

Lemma pair_dial_comes_up now_ms l attrs d via h h' m c :
  pending_pair_dials c !! d = Some via -> pair_initiator (identity c) = Ok h -> hs_write h [] = (h', Ok m) ->
  on_event now_ms (LinkUp l attrs (Some d)) (c, []) =
  Some (tt, (c <| pending_pair_dials ::= delete d |>
               <| links ::= insert l (Handshaking (mkHandshakingLink h' attrs
                    (now_ms +u64 handshake_timeout_ms (config c)) None true (Some via) None)) |>,
             [LinkSend l (join PairHandshake m)])).
Proof.
  intros Hd Hh Hw. cbn [on_event]. unfold on_link_up.
  unfold bind at 1 2, get. cbn [fst mbind option_bind]. rewrite Hd. cbn [mbind option_bind].
  unfold bind at 1, upd at 1, modify. cbn [fst snd]. unfold start_pairing, bind at 1, get at 1. cbn [fst].
  change (identity (c <| pending_pair_dials ::= delete d |>)) with (identity c). by rewrite Hh, Hw.
Qed.

Lemma pair_opener_answered now_ms l p m b h h1 h2 payload mine m2 :
  links b !! l = Some (Pending p) -> why_not_pair now_ms b = None ->
  pair_responder (identity b) = Ok h -> hs_read h m = (h1, Ok payload) ->
  to_vec (core_hello b) = Some mine -> hs_write h1 mine = (h2, Ok m2) ->
  on_event now_ms (LinkRecv l (join PairHandshake m)) (b, []) =
  Some (tt, (b <| links ::= delete l |>
               <| pairing := Some (mkPairingWindow (now_ms +u64 pairing_window_ms (config b)) None) |>
               <| links ::= insert l (Handshaking (mkHandshakingLink h2 (pl_attrs p) (pl_deadline p) None true None None)) |>,
             [LinkSend l (join PairHandshake m2)])).
Proof.
  intros Hl Hwhy Hh Hr Hm Hw. cbn [on_event]. unfold on_link_recv. rewrite split_join_id.
  unfold bind at 1, get at 1. cbn [fst]. rewrite Hl. unfold bind at 1, upd at 1, modify. cbn [fst snd on_first_frame].
  set (b1 := b <| links ::= delete l |>). unfold answer_pairing, bind at 1, get at 1. cbn [fst].
  change (why_not_pair now_ms b1) with (why_not_pair now_ms b). rewrite Hwhy.
  unfold bind at 1, get at 1. cbn [fst]. change (identity b1) with (identity b). rewrite Hh, Hr.
  unfold my_hello. unfold bind at 1 2, get at 1, expect. cbn [fst].
  change (core_hello b1) with (core_hello b). rewrite Hm. unfold ret at 1. cbv beta iota. by rewrite Hw.
Qed.

(** What a finished handshake tells of the other device. *)
Definition paired_record (pk hash : bytes) (hello : Hello) : PeerRecord := {|
  pr_device_id := did_str (DeviceId_of pk); pr_public_key := pk;
  pr_name := hello_name hello; pr_platform := hello_platform hello; pr_session_psk := session_psk hash;
  pr_greatest_seen := 0; pr_caps_out := hello_caps_out hello; pr_caps_in := hello_caps_in hello;
|}.

Lemma pairing_completed_run now_ms l h pk payload hello w c out :
  is_complete (hl_hs h) = true -> peer_static (hl_hs h) = Some pk -> cbor_decode payload = Some hello ->
  pairing c = Some w -> awaiting w = None ->
  let hash := get_handshake_hash (hs_state (hl_hs h)) in
  let rec := paired_record pk hash hello in
  pairing_completed now_ms l h payload (c, out) =
  Some (tt, (c <| links ::= insert l (Pending (mkPendingLink (hl_attrs h) (hl_deadline h))) |>
               <| pairing := Some (mkPairingWindow (now_ms +u64 pairing_window_ms (config c))
                    (Some (mkAwaitingConfirm l rec (sas hash) (hl_via h)))) |>,
             push (Ui (UiPairingSas (pr_name rec) (Fingerprint_of pk) (sas hash))) out)).
Proof.
  intros Hf Hpk Hd Hw Haw hash rec. unfold pairing_completed, handshake_hash. rewrite Hf, Hpk, Hd. cbn [negb]. cbv zeta.
  unfold bind at 1, upd at 1, modify. cbn [fst snd]. unfold bind at 1, get at 1. cbn [fst].
  match goal with |- context [pairing ?x] => change (pairing x) with (pairing c) end. rewrite Hw, Haw. done.
Qed.

(** The last message of the first device goes out as it is done. *)
Lemma pair_answer_read now_ms l hl m c h h' pk payload hello mine m3 w :
  links c !! l = Some (Handshaking hl) -> pairing_flow hl = true ->
  hs_read (hl_hs hl) m = (h, Ok payload) -> is_my_turn h = true ->
  to_vec (core_hello c) = Some mine -> hs_write h mine = (h', Ok m3) ->
  is_complete h' = true -> peer_static h' = Some pk -> cbor_decode payload = Some hello ->
  pairing c = Some w -> awaiting w = None ->
  let hash := get_handshake_hash (hs_state h') in
  let rec := paired_record pk hash hello in
  on_event now_ms (LinkRecv l (join PairHandshake m)) (c, []) =
  Some (tt, (c <| links ::= delete l |> <| links ::= insert l (Pending (mkPendingLink (hl_attrs hl) (hl_deadline hl))) |>
               <| pairing := Some (mkPairingWindow (now_ms +u64 pairing_window_ms (config c))
                    (Some (mkAwaitingConfirm l rec (sas hash) (hl_via hl)))) |>,
             [LinkSend l (join PairHandshake m3); Ui (UiPairingSas (pr_name rec) (Fingerprint_of pk) (sas hash))])).
Proof.
  intros Hl Hf Hr Hturn Hm Hw Hdone Hpk Hd Hpair Haw hash rec. cbn [on_event]. unfold on_link_recv. rewrite split_join_id.
  unfold bind at 1, get at 1. cbn [fst]. rewrite Hl. unfold bind at 1, upd at 1, modify. cbn [fst snd].
  set (c1 := c <| links ::= delete l |>). unfold on_handshake_frame. rewrite Hf. cbv zeta.
  rewrite bool_decide_eq_true_2 by done. cbn [negb]. rewrite Hr.
  change (pairing_flow (hl <| hl_hs := h |>)) with (pairing_flow hl). change (hl_hs (hl <| hl_hs := h |>)) with h.
  rewrite Hf, Hturn. cbn [andb]. unfold my_hello. unfold bind at 1 2, get at 1, expect. cbn [fst].
  change (core_hello c1) with (core_hello c). rewrite Hm. unfold ret at 1. cbv beta iota. rewrite Hw.
  unfold bind at 1, emit, modify. cbn [fst snd]. unfold handshake_over.
  set (h3 := hl <| hl_hs := h |> <| hl_hs := h' |>).
  change (hl_hs h3) with h'. change (pairing_flow h3) with (pairing_flow hl). rewrite Hdone, Hf. cbn [negb].
  rewrite (pairing_completed_run now_ms l h3 pk payload hello w c1) by done. done.
Qed.

(** The second device reads it, and is done. *)
Lemma pair_last_read now_ms l hl m c h pk payload hello w :
  links c !! l = Some (Handshaking hl) -> pairing_flow hl = true ->
  hs_read (hl_hs hl) m = (h, Ok payload) -> is_complete h = true -> peer_static h = Some pk ->
  cbor_decode payload = Some hello -> pairing c = Some w -> awaiting w = None ->
  let hash := get_handshake_hash (hs_state h) in
  let rec := paired_record pk hash hello in
  on_event now_ms (LinkRecv l (join PairHandshake m)) (c, []) =
  Some (tt, (c <| links ::= delete l |> <| links ::= insert l (Pending (mkPendingLink (hl_attrs hl) (hl_deadline hl))) |>
               <| pairing := Some (mkPairingWindow (now_ms +u64 pairing_window_ms (config c))
                    (Some (mkAwaitingConfirm l rec (sas hash) (hl_via hl)))) |>,
             [Ui (UiPairingSas (pr_name rec) (Fingerprint_of pk) (sas hash))])).
Proof.
  intros Hl Hf Hr Hdone Hpk Hd Hpair Haw hash rec. cbn [on_event]. unfold on_link_recv. rewrite split_join_id.
  unfold bind at 1, get at 1. cbn [fst]. rewrite Hl. unfold bind at 1, upd at 1, modify. cbn [fst snd].
  set (c1 := c <| links ::= delete l |>). unfold on_handshake_frame. rewrite Hf. cbv zeta.
  rewrite bool_decide_eq_true_2 by done. cbn [negb]. rewrite Hr.
  change (pairing_flow (hl <| hl_hs := h |>)) with (pairing_flow hl). change (hl_hs (hl <| hl_hs := h |>)) with h.
  unfold is_my_turn. rewrite Hf, Hdone. cbn [andb negb]. unfold handshake_over.
  set (h3 := hl <| hl_hs := h |>).
  change (hl_hs h3) with h. change (pairing_flow h3) with (pairing_flow hl). rewrite Hdone, Hf. cbn [negb].
  rewrite (pairing_completed_run now_ms l h3 pk payload hello w c1) by done. done.
Qed.

(** A person here says yes: the record is trusted as it was shown. *)
Lemma accepted c w aw id now_ms :
  pairing c = Some w -> awaiting w = Some aw -> record_id (aw_record aw) = Some id ->
  ∃ c' out, on_event now_ms (Local (ConfirmPairing true)) (c, []) = Some (tt, (c', out)) /\
    peers c' = <[id := aw_record aw]> (peers c) /\ identity c' = identity c /\
    Ui (UiPairingComplete id (pr_name (aw_record aw))) ∈ out.
Proof.
  intros Hp Ha Hid. cbn [on_event on_local_command]. unfold confirm_pairing.
  unfold bind at 1, get at 1. cbn [fst]. rewrite Hp. unfold bind at 1, upd at 1, modify. cbn [fst snd].
  rewrite Ha. cbn [negb]. rewrite Hid. destruct (to_vec_total (aw_record aw)) as [blob Hb].
  set (c1 := c <| pairing := Some (w <| awaiting := None |>) |>).
  match goal with |- context [bind ?routes _] => assert (∃ c2, routes (c1, []) = Some (tt, (c2, [])) /\
    peers c2 = peers c /\ identity c2 = identity c) as (c2 & E & Ep & Ei) end.
  { destruct (aw_via aw) as [[tr a]|]; [by eexists|]. unfold bind, get. cbn [fst].
    destruct (_ ≫= _) as [via|]; by eexists. }
  unfold bind at 1. rewrite E. unfold bind at 1. rewrite (persist_peer_run _ blob _ _ Hb).
  eexists _, _. split; [reflexivity|]. cbn. rewrite Ep. split_and!; [done|done|]. set_solver.
Qed.

(** ** Who may pair *)

(** The first device was asked to pair and has dialled the second, which takes
    requests; the link is up and nothing has been said on it. *)
Record strangers (a b : Core) (lb : LinkId) (d : DialToken) (nw2 nw3 : Now) : Prop := {
  st_good : Good a /\ Good b;
  st_keys : own_keys (identity a) /\ own_keys (identity b);
  st_dial : is_Some (pending_pair_dials a !! d);
  st_asked : ∃ w, pairing a = Some w /\ awaiting w = None;
  st_link : ∃ p, links b !! lb = Some (Pending p);
  st_free : why_not_pair (monotonic_ms nw2) b = None;
  st_fits : hello_fits xx_room b (now_wall_ms nw2) /\ hello_fits xx_room a (now_wall_ms nw3);
}.

(** Both sides of the handshake, from the first message to the end. *)
Definition handshakes (i i1 i2 i3 r r1 r2 r3 : HandshakeState) (m1 q m2 p m3 : bytes) : Prop :=
  hs_passes i r i1 r1 [] m1 /\ hs_passes r1 i1 r2 i2 q m2 /\ hs_is_my_turn i2 = true /\ hs_passes i2 r2 i3 r3 p m3 /\
  is_handshake_finished i3 = true /\ is_handshake_finished r3 = true /\
  get_handshake_hash i3 = get_handshake_hash r3.

Lemma strangers_shake ida idb q p :
  own_keys ida -> own_keys idb -> len q <= xx_room -> len p <= xx_room ->
  ∃ i i1 i2 i3 r r1 r2 r3 m1 m2 m3,
    pair_initiator ida = Ok (mkHandshake i ModePair) /\ pair_responder idb = Ok (mkHandshake r ModePair) /\
    handshakes i i1 i2 i3 r r1 r2 r3 m1 q m2 p m3 /\
    peer_static (mkHandshake i3 ModePair) = Some (id_public idb) /\
    peer_static (mkHandshake r3 ModePair) = Some (id_public ida).
Proof.
  intros (Ha & Hla & Hpa) (Hb & Hlb & Hpb) Hq Hp.
  destruct (xx_pairing (prologue ModePair) _ _ Ha Hb) as (i & r & i1 & r1 & m1 & Hi & Hr & H1 & Hk).
  destruct (Hk q Hq) as (i2 & r2 & m2 & H2 & Hturn & Hk2).
  destruct (Hk2 p Hp) as (i3 & r3 & m3 & H3 & Hfi & Hfr & Hh & Hsi & Hsr).
  exists i, i1, i2, i3, r, r1, r2, r3, m1, m2, m3. rewrite <- Hpa in Hsr. rewrite <- Hpb in Hsi.
  split_and!; [by apply pair_initiator_xx|by apply pair_responder_xx|done| |];
    unfold peer_static, len; cbn [hs_state]; [rewrite Hsi, Hlb|rewrite Hsr, Hla]; done.
Qed.

(** An event whose whole run is known. *)
Lemma handle_run nw ev c c' out :
  on_event (monotonic_ms nw) ev (at_wall (now_wall_ms nw) c, []) = Some (tt, (c', out)) ->
  handle nw ev c = Some (mkOutcome out (next_deadline c'), c').
Proof. unfold handle, at_wall. by intros ->. Qed.

(** The answer to the digits. *)
Lemma says_yes nw c w aw other psk :
  Good c -> pairing c = Some w -> awaiting w = Some aw -> length (id_public other) = 32%nat ->
  pr_public_key (aw_record aw) = id_public other -> pr_session_psk (aw_record aw) = psk ->
  pr_greatest_seen (aw_record aw) = 0 ->
  ∃ o c', handle nw (Local (ConfirmPairing true)) c = Some (o, c') /\ Good c' /\ identity c' = identity c /\
    trusts c' other psk 0.
Proof.
  intros HG Hw Ha Hl Hk Hp Hs.
  assert (record_id (aw_record aw) = Some (identity_device_id other)) as Hid.
  { unfold record_id, public_key_array. by rewrite Hk, (proj2 (array32_Some _ _) (conj eq_refl Hl)). }
  destruct (accepted (at_wall (now_wall_ms nw) c) w aw _ (monotonic_ms nw) Hw Ha Hid) as (c' & out & E & Hpe & Hi & _).
  pose proof (handle_run nw _ c c' out E) as Eh. eexists _, c'. split; [exact Eh|].
  split; [by eapply handle_keeps_good|]. split; [done|]. exists (aw_record aw). rewrite Hpe, lookup_insert_eq. done.
Qed.

(** What a pairing leaves alone until somebody says yes. *)
Definition as_before (c c' : Core) : Prop :=
  peers c' = peers c /\ identity c' = identity c /\ config c' = config c /\
  caps_out c' = caps_out c /\ caps_in c' = caps_in c.

Lemma same_hello c c' wall : as_before c c' -> core_hello (at_wall wall c') = core_hello (at_wall wall c).
Proof.
  intros (_ & Ei & Ec & Eo & En). unfold core_hello, core_device_id, at_wall. cbn. by rewrite Ei, Ec, Eo, En.
Qed.

(** A device in the middle of a pairing, with its half of the handshake. *)
Definition shaking_hands (l : LinkId) (hs : HandshakeState) (c : Core) : Prop :=
  Good c /\ (∃ hl, links c !! l = Some (Handshaking hl) /\ hl_hs hl = mkHandshake hs ModePair /\ pairing_flow hl = true) /\
  ∃ w, pairing c = Some w /\ awaiting w = None.

(** A device that shows the digits of a finished handshake. *)
Definition shows (hs : HandshakeState) (pk : bytes) (hello : Hello) (c : Core) : Prop :=
  Good c /\ ∃ w aw, pairing c = Some w /\ awaiting w = Some aw /\
    aw_record aw = paired_record pk (get_handshake_hash hs) hello.

Lemma pairing_dialled nw l attrs d via a i i1 m :
  Good a -> pending_pair_dials a !! d = Some via -> (∃ w, pairing a = Some w /\ awaiting w = None) ->
  pair_initiator (identity a) = Ok (mkHandshake i ModePair) ->
  hs_write (mkHandshake i ModePair) [] = (mkHandshake i1 ModePair, Ok m) ->
  ∃ o c, handle nw (LinkUp l attrs (Some d)) a = Some (o, c) /\ actions o = [LinkSend l (join PairHandshake m)] /\
    as_before a c /\ shaking_hands l i1 c.
Proof.
  intros HG Hd Hw Hi Hm.
  pose proof (handle_run nw _ a _ _
    (pair_dial_comes_up (monotonic_ms nw) l attrs d via _ _ m (at_wall (now_wall_ms nw) a) Hd Hi Hm)) as E.
  do 2 eexists. split; [exact E|]. split; [done|]. split; [done|].
  split; [by eapply handle_keeps_good|]. split; [|exact Hw]. eexists. split; [apply lookup_insert_eq|done].
Qed.

Lemma pairing_answered nw l p b r r1 r2 m payload q m2 :
  Good b -> links b !! l = Some (Pending p) -> why_not_pair (monotonic_ms nw) b = None ->
  pair_responder (identity b) = Ok (mkHandshake r ModePair) ->
  hs_read (mkHandshake r ModePair) m = (mkHandshake r1 ModePair, Ok payload) ->
  to_vec (core_hello (at_wall (now_wall_ms nw) b)) = Some q ->
  hs_write (mkHandshake r1 ModePair) q = (mkHandshake r2 ModePair, Ok m2) ->
  ∃ o c, handle nw (LinkRecv l (join PairHandshake m)) b = Some (o, c) /\
    actions o = [LinkSend l (join PairHandshake m2)] /\ as_before b c /\ shaking_hands l r2 c.
Proof.
  intros HG Hl Hfree Hr Hread Hq Hw.
  pose proof (handle_run nw _ b _ _
    (pair_opener_answered (monotonic_ms nw) l p m (at_wall (now_wall_ms nw) b) _ _ _ _ q m2 Hl Hfree Hr Hread Hq Hw)) as E.
  do 2 eexists. split; [exact E|]. split; [done|]. split; [done|].
  split; [by eapply handle_keeps_good|]. split; [|by eexists]. eexists. split; [apply lookup_insert_eq|done].
Qed.

Lemma pairing_third nw l c i1 i2 i3 m payload hello p m3 pk :
  shaking_hands l i1 c -> hs_read (mkHandshake i1 ModePair) m = (mkHandshake i2 ModePair, Ok payload) ->
  is_handshake_finished i2 = false -> hs_is_my_turn i2 = true ->
  to_vec (core_hello (at_wall (now_wall_ms nw) c)) = Some p ->
  hs_write (mkHandshake i2 ModePair) p = (mkHandshake i3 ModePair, Ok m3) ->
  is_handshake_finished i3 = true -> peer_static (mkHandshake i3 ModePair) = Some pk ->
  cbor_decode payload = Some hello ->
  ∃ o c', handle nw (LinkRecv l (join PairHandshake m)) c = Some (o, c') /\
    actions o = [LinkSend l (join PairHandshake m3);
                 Ui (UiPairingSas (hello_name hello) (Fingerprint_of pk) (sas (get_handshake_hash i3)))] /\
    as_before c c' /\ shows i3 pk hello c'.
Proof.
  intros (HG & (hl & Hl & Hhs & Hf) & w & Hw & Haw) Hread Hnf Hturn Hp Hwrite Hdone Hpk Hd.
  rewrite <- Hhs in Hread.
  assert (is_my_turn (mkHandshake i2 ModePair) = true) as Ht by (unfold is_my_turn, is_complete; cbn; by rewrite Hnf, Hturn).
  pose proof (handle_run nw _ c _ _ (pair_answer_read (monotonic_ms nw) l hl m (at_wall (now_wall_ms nw) c) _ _ pk payload
    hello p m3 w Hl Hf Hread Ht Hp Hwrite Hdone Hpk Hd Hw Haw)) as E.
  do 2 eexists. split; [exact E|]. split; [done|]. split; [done|].
  split; [by eapply handle_keeps_good|]. by do 2 eexists.
Qed.

Lemma pairing_last nw l c r2 r3 m payload hello pk :
  shaking_hands l r2 c -> hs_read (mkHandshake r2 ModePair) m = (mkHandshake r3 ModePair, Ok payload) ->
  is_handshake_finished r3 = true -> peer_static (mkHandshake r3 ModePair) = Some pk ->
  cbor_decode payload = Some hello ->
  ∃ o c', handle nw (LinkRecv l (join PairHandshake m)) c = Some (o, c') /\
    actions o = [Ui (UiPairingSas (hello_name hello) (Fingerprint_of pk) (sas (get_handshake_hash r3)))] /\
    as_before c c' /\ shows r3 pk hello c'.
Proof.
  intros (HG & (hl & Hl & Hhs & Hf) & w & Hw & Haw) Hread Hdone Hpk Hd. rewrite <- Hhs in Hread.
  pose proof (handle_run nw _ c _ _ (pair_last_read (monotonic_ms nw) l hl m (at_wall (now_wall_ms nw) c) _ pk payload
    hello w Hl Hf Hread Hdone Hpk Hd Hw Haw)) as E.
  do 2 eexists. split; [exact E|]. split; [done|]. split; [done|].
  split; [by eapply handle_keeps_good|]. by do 2 eexists.
Qed.

(** C5 (functional): two devices that never met pair: the three messages of the
    handshake go through, both screens show the same digits, each with the name
    and the fingerprint of the other, and nothing is trusted before; once both
    people say yes each device trusts the other, under its own key, and with the
    same secret on both sides. *)
Theorem strangers_pair a b la lb attrs d nw1 nw2 nw3 nw4 :
  strangers a b lb d nw2 nw3 ->
  ∃ digits psk f1 o1 a1, length psk = 32%nat /\
    handle nw1 (LinkUp la attrs (Some d)) a = Some (o1, a1) /\ actions o1 = [LinkSend la f1] /\
  ∃ f2 o2 b1, handle nw2 (LinkRecv lb f1) b = Some (o2, b1) /\ actions o2 = [LinkSend lb f2] /\
  ∃ f3 o3 a2, handle nw3 (LinkRecv la f2) a1 = Some (o3, a2) /\ peers a2 = peers a /\
    actions o3 = [LinkSend la f3; Ui (UiPairingSas (cfg_name (config b)) (core_fingerprint b) digits)] /\
  ∃ o4 b2, handle nw4 (LinkRecv lb f3) b1 = Some (o4, b2) /\ peers b2 = peers b /\
    actions o4 = [Ui (UiPairingSas (cfg_name (config a)) (core_fingerprint a) digits)] /\
  ∀ nw5 nw6,
    (∃ o5 a3, handle nw5 (Local (ConfirmPairing true)) a2 = Some (o5, a3) /\ Good a3 /\
       identity a3 = identity a /\ trusts a3 (identity b) psk 0) /\
    (∃ o6 b3, handle nw6 (Local (ConfirmPairing true)) b2 = Some (o6, b3) /\ Good b3 /\
       identity b3 = identity b /\ trusts b3 (identity a) psk 0).
Proof.
  intros [[HGa HGb] [Ka Kb] [via Hvia] Hw (pl & Hl) Hfree [(q & Hq & Hlq) (p & Hp & Hlp)]].
  destruct (strangers_shake _ _ q p Ka Kb Hlq Hlp)
    as (i & i1 & i2 & i3 & r & r1 & r2 & r3 & m1 & m2 & m3 & Hi & Hr & (P1 & P2 & Hturn & P3 & Hfi & Hfr & Hh) & Hsi & Hsr).
  pose proof P3 as (Hnf & _). apply (hs_passes_run ModePair) in P1 as [W1 R1], P2 as [W2 R2], P3 as [W3 R3].
  destruct (pairing_dialled nw1 la attrs d via a i i1 m1) as (o1 & a1 & E1 & A1 & B1 & S1); [done..|].
  destruct (pairing_answered nw2 lb pl b r r1 r2 m1 [] q m2) as (o2 & b1 & E2 & A2 & B2 & S2); [done..|].
  destruct (pairing_third nw3 la a1 i1 i2 i3 m2 q (core_hello (at_wall (now_wall_ms nw2) b)) p m3 (id_public (identity b)))
    as (o3 & a2 & E3 & A3 & B3 & HGa2 & w3 & aw3 & P3 & W3' & Rec3); [done|done|done|done|by rewrite (same_hello _ _ _ B1)|done|done|done|by apply cbor_decode_to_vec|].
  destruct (pairing_last nw4 lb b1 r2 r3 m3 p (core_hello (at_wall (now_wall_ms nw3) a)) (id_public (identity a)))
    as (o4 & b2 & E4 & A4 & B4 & HGb2 & w4 & aw4 & P4 & W4' & Rec4); [done..|by apply cbor_decode_to_vec|].
  exists (sas (get_handshake_hash i3)), (session_psk (get_handshake_hash i3)), (join PairHandshake m1), o1, a1.
  split; [apply hkdf_length; lia|]. split; [done|]. split; [done|].
  exists (join PairHandshake m2), o2, b1. split; [done|]. split; [done|].
  exists (join PairHandshake m3), o3, a2. split; [done|].
  destruct B1 as (Pa1 & Ia1 & _), B2 as (Pb1 & Ib1 & _), B3 as (Pa2 & Ia2 & _), B4 as (Pb2 & Ib2 & _).
  split; [congruence|]. split; [exact A3|]. exists o4, b2. split; [done|]. split; [congruence|].
  split; [by rewrite A4, Hh|]. intros nw5 nw6. split.
  - destruct (says_yes nw5 a2 w3 aw3 (identity b) (session_psk (get_handshake_hash i3))) as (o & c & E & ? & Ei & ?);
      [done|done|done|apply Kb|by rewrite Rec3|by rewrite Rec3|by rewrite Rec3|]. exists o, c. split_and!; congruence || done.
  - destruct (says_yes nw6 b2 w4 aw4 (identity a) (session_psk (get_handshake_hash i3))) as (o & c & E & ? & Ei & ?);
      [done|done|done|apply Ka|by rewrite Rec4|by rewrite Rec4, Hh|by rewrite Rec4|]. exists o, c. split_and!; congruence || done.
Qed.
End pairing.
