(* ===== verification/Toy.v ===== *)
(** * A concrete instance of every interface of [Externals]

    The theorems are about any implementation of the third-party crates.  This
    file gives one, small enough to compute with, on which the hypotheses of
    the theorems can be seen to hold: a codec that writes each field after the
    other, and a symbolic Noise whose messages carry in the open what the real
    ones carry encrypted, and whose readers check what the real ones would
    fail to decrypt.  It offers no security, and nothing else depends on it. *)

From S2P Require Import Prelude Externals Ids Frame Hello Envelope PairingKeys.
From S2P Require Import Link Peer Vocab Noise Plugin CoreState Command.
From S2P Require Import Wol Touchpad Session Media Clipboard Share.
Local Open Scope N_scope.

(** ** Hashes *)

#[global] Instance toy_sha256 : Sha256 := λ m, take 32 (reverse m ++ replicate 32 Byte.x00).
#[global] Instance toy_sha256_laws : Sha256Laws.
Proof.
  intros m. unfold sha256, toy_sha256. rewrite length_take, length_app, length_replicate. lia.
Qed.

#[global] Instance toy_hkdf : Hkdf := λ ikm info n, take n (ikm ++ info ++ replicate n Byte.x00).
#[global] Instance toy_hkdf_laws : HkdfLaws.
Proof.
  intros ikm info n _. unfold hkdf_expand, toy_hkdf.
  rewrite length_take, !length_app, length_replicate. lia.
Qed.

(** ** The cipher of the bulk channel: key and nonce after the message *)

#[global] Instance toy_aead : Aead := {
  aead_encrypt k n m := Some (m ++ k ++ n);
  aead_decrypt k n c :=
    let l := (length c - length (k ++ n))%nat in
    if bool_decide (drop l c = k ++ n) then Some (take l c) else None;
}.
#[global] Instance toy_aead_laws : AeadLaws.
Proof.
  intros k n m c [= <-]. unfold aead_decrypt, toy_aead. cbv zeta.
  rewrite length_app, Nat.add_sub. rewrite drop_app_length, take_app_length.
  by rewrite bool_decide_eq_true_2.
Qed.

(** ** A codec *)

Class Ser (T : Type) := {
  ser : T -> bytes;
  des : bytes -> option (T * bytes);
  des_ser : ∀ x rest, des (ser x ++ rest) = Some (x, rest);
}.

(** A number, bit by bit, with an end mark. *)
Fixpoint ser_pos (p : positive) : bytes :=
  match p with
  | xH => [Byte.x02]
  | xO p => Byte.x00 :: ser_pos p
  | xI p => Byte.x01 :: ser_pos p
  end.
Fixpoint des_pos (b : bytes) : option (positive * bytes) :=
  match b with
  | Byte.x02 :: r => Some (xH, r)
  | Byte.x00 :: r => '(p, r) ← des_pos r; Some (xO p, r)
  | Byte.x01 :: r => '(p, r) ← des_pos r; Some (xI p, r)
  | _ => None
  end.
Lemma des_ser_pos p rest : des_pos (ser_pos p ++ rest) = Some (p, rest).
Proof. induction p as [p IH|p IH|]; cbn; [by rewrite IH..|done]. Qed.

Definition ser_num (n : N) : bytes := ser_pos (N.succ_pos n).
Definition des_num (b : bytes) : option (N * bytes) :=
  match des_pos b with Some (p, r) => Some (Pos.pred_N p, r) | None => None end.
Lemma des_ser_num n rest : des_num (ser_num n ++ rest) = Some (n, rest).
Proof. unfold des_num, ser_num. rewrite des_ser_pos. by rewrite N.pos_pred_succ. Qed.
#[global] Instance ser_N : Ser N := {| des_ser := des_ser_num |}.

Definition des_one (b : bytes) : option (byte * bytes) :=
  match b with x :: r => Some (x, r) | [] => None end.
#[global] Instance ser_byte : Ser byte := {| ser b := [b]; des := des_one; des_ser _ _ := eq_refl |}.

Section combinators.
Context {A : Type} `{Ser A} {B : Type} `{Ser B}.

Fixpoint ser_list_go (l : list A) : bytes :=
  match l with [] => [Byte.x00] | x :: l => Byte.x01 :: ser x ++ ser_list_go l end.
Fixpoint des_list_go (fuel : nat) (b : bytes) : option (list A * bytes) :=
  match fuel, b with
  | S f, Byte.x00 :: r => Some ([], r)
  | S f, Byte.x01 :: r =>
      match des r with
      | Some (x, r) => match des_list_go f r with Some (l, r) => Some (x :: l, r) | None => None end
      | None => None
      end
  | _, _ => None
  end.
Lemma des_list_go_ser l rest fuel :
  (length l < fuel)%nat -> des_list_go fuel (ser_list_go l ++ rest) = Some (l, rest).
Proof.
  revert fuel; induction l as [|x l IH]; intros [|f] Hf; cbn in *; try lia; [done|].
  rewrite <- app_assoc, des_ser. by rewrite IH by lia.
Qed.
Lemma length_ser_list_go l rest : (length l < length (ser_list_go l ++ rest))%nat.
Proof.
  induction l as [|x l IH]; cbn; [lia|]. rewrite <- app_assoc, length_app. lia.
Qed.

Definition des_list (b : bytes) : option (list A * bytes) := des_list_go (length b) b.
Lemma des_ser_list l rest : des_list (ser_list_go l ++ rest) = Some (l, rest).
Proof. apply des_list_go_ser, length_ser_list_go. Qed.
#[global] Instance ser_list : Ser (list A) := {| des_ser := des_ser_list |}.

Definition ser_opt (o : option A) : bytes :=
  match o with None => [Byte.x00] | Some x => Byte.x01 :: ser x end.
Definition des_opt (b : bytes) : option (option A * bytes) :=
  match b with
  | Byte.x00 :: r => Some (None, r)
  | Byte.x01 :: r => match des r with Some (x, r) => Some (Some x, r) | None => None end
  | _ => None
  end.
Lemma des_ser_opt o rest : des_opt (ser_opt o ++ rest) = Some (o, rest).
Proof. destruct o as [x|]; cbn; [by rewrite des_ser|done]. Qed.
#[global] Instance ser_option : Ser (option A) := {| des_ser := des_ser_opt |}.

Definition ser_pair (p : A * B) : bytes := ser p.1 ++ ser p.2.
Definition des_pair (b : bytes) : option ((A * B) * bytes) :=
  match des b with
  | Some (x, r) => match des r with Some (y, r) => Some ((x, y), r) | None => None end
  | None => None
  end.
Lemma des_ser_pair p rest : des_pair (ser_pair p ++ rest) = Some (p, rest).
Proof.
  destruct p as [x y]. unfold des_pair, ser_pair. cbn.
  by rewrite <- app_assoc, des_ser, des_ser.
Qed.
#[global] Instance ser_prod : Ser (A * B) := {| des_ser := des_ser_pair |}.

(** A type that reads back from another. *)
Definition des_iso (from : A -> B) (b : bytes) : option (B * bytes) :=
  match des b with Some (y, r) => Some (from y, r) | None => None end.
Lemma des_ser_iso (to : B -> A) (from : A -> B) (Hft : ∀ x, from (to x) = x) x rest :
  des_iso from (ser (to x) ++ rest) = Some (x, rest).
Proof. unfold des_iso. by rewrite des_ser, Hft. Qed.
Definition ser_iso (to : B -> A) (from : A -> B) (Hft : ∀ x, from (to x) = x) : Ser B :=
  {| ser x := ser (to x); des := des_iso from; des_ser := des_ser_iso to from Hft |}.
End combinators.

#[global] Instance ser_bool : Ser bool :=
  ser_iso (A := N) (λ b : bool, if b then 1 else 0) (λ n, negb (n =? 0)) ltac:(by intros []).
#[global] Instance ser_string : Ser string := ser_iso as_bytes of_bytes of_as_bytes.

(** A document: a mark for what kind of value it is, then the value. *)
Definition toy_cbor (mark : byte) {T} `{Ser T} : Cbor T := {|
  to_vec x := Some (mark :: ser x);
  cbor_decode b := match b with
                   | m :: r => if bool_decide (m = mark) then
                                 match des r with Some (x, []) => Some x | _ => None end
                               else None
                   | [] => None
                   end;
|}.

Lemma toy_cbor_laws mark {T} `{Ser T} : @CborLaws T (toy_cbor mark).
Proof.
  intros x b [= <-]. cbn. rewrite bool_decide_eq_true_2 by done.
  pose proof (des_ser x []) as E. rewrite app_nil_r in E. by rewrite E.
Qed.
Lemma toy_cbor_total mark {T} `{Ser T} : @CborTotal T (toy_cbor mark).
Proof. intros x. by eexists. Qed.

(** Text, and an array of fields. *)
Definition TEXT : byte := Byte.x60.
Definition ARRAY : byte := Byte.x80.

#[global] Instance ser_hello : Ser Hello := ser_iso
  (λ h, (hello_v h, hello_ts_ms h, hello_device_id h, hello_name h, hello_platform h,
         hello_caps_out h, hello_caps_in h))
  (λ '(a, b, c, d, e, f, g), mkHello a b c d e f g) ltac:(by intros []).
#[global] Instance ser_record : Ser PeerRecord := ser_iso
  (λ r, (pr_device_id r, pr_public_key r, pr_name r, pr_platform r, pr_session_psk r,
         pr_greatest_seen r, pr_caps_out r, pr_caps_in r))
  (λ '(a, b, c, d, e, f, g, h), mkPeerRecord a b c d e f g h) ltac:(by intros []).
#[global] Instance ser_envelope : Ser Envelope := ser_iso
  (λ e, (env_v e, env_id e, env_re e, env_cap e, env_ty e, env_body e, env_flags e, env_bulk e))
  (λ '(a, b, c, d, e, f, g, h), mkEnvelope a b c d e f g h) ltac:(by intros []).
#[global] Instance ser_error_body : Ser ErrorBody := ser_iso
  (λ e, (eb_code e, eb_message e)) (λ '(a, b), mkErrorBody a b) ltac:(by intros []).

#[global] Instance toy_cbor_hello : Cbor Hello := toy_cbor ARRAY.
#[global] Instance toy_cbor_record : Cbor PeerRecord := toy_cbor ARRAY.
#[global] Instance toy_cbor_envelope : Cbor Envelope := toy_cbor ARRAY.
#[global] Instance toy_cbor_error_body : Cbor ErrorBody := toy_cbor ARRAY.
#[global] Instance toy_cbor_text : Cbor string := toy_cbor TEXT.

(** ** Noise *)

#[global] Instance toy_x25519 : X25519 := λ private, private.

Record ToyBuilder := mkToyBuilder {
  tb_params : string; tb_prologue : bytes; tb_private : bytes;
  tb_psk : option bytes; tb_rs : option bytes;
}.

(** [th_pos] messages have been exchanged; [th_log] is all of them. *)
Record ToyHandshake := mkToyHandshake {
  th_xx : bool; th_initiator : bool; th_pos : nat; th_prologue : bytes; th_static : bytes;
  th_psk : bytes; th_rs : option bytes; th_log : bytes;
}.

(** The key of both directions, who writes with it, and a counter for each. *)
Record ToyTransport := mkToyTransport {
  tt_key : bytes; tt_initiator : bool; tt_sent : N; tt_received : N;
}.

(** What a handshake message shows: the prologue, the sender's static key where
    the pattern sends it, the recipient's where it is known (IK), the
    pre-shared key where it is mixed (the second message of IKpsk2), and the
    payload. *)
Abbreviation ToyMessage := (bytes * option bytes * option bytes * option bytes * bytes)%type.

Definition toy_length (xx : bool) : nat := if xx then 3 else 2.
Definition toy_finished (h : ToyHandshake) : bool := bool_decide (th_pos h = toy_length (th_xx h)).
Definition toy_my_turn (h : ToyHandshake) : bool := Bool.eqb (Nat.even (th_pos h)) (th_initiator h).
(** Whether the message at a position carries the sender's static key. *)
Definition toy_sends_static (xx : bool) (pos : nat) : bool :=
  if xx then negb (bool_decide (pos = 0%nat)) else bool_decide (pos = 0%nat).

Definition toy_next (h : ToyHandshake) (rs : option bytes) (m : bytes) : ToyHandshake :=
  mkToyHandshake (th_xx h) (th_initiator h) (S (th_pos h)) (th_prologue h) (th_static h)
    (th_psk h) rs (th_log h ++ m).

Definition bounded (m : bytes) (n : usize) : result bytes string :=
  if len m <=? n then Ok m else Err "input".

Definition toy_write (h : ToyHandshake) (payload : bytes) (n : usize)
    : ToyHandshake * result bytes string :=
  if negb (toy_my_turn h) then (h, Err "state")
  else
    let m : ToyMessage := (th_prologue h,
      if toy_sends_static (th_xx h) (th_pos h) then Some (th_static h) else None,
      if th_xx h || th_initiator h then th_rs h else None,
      if negb (th_xx h) && bool_decide (th_pos h = 1%nat) then Some (th_psk h) else None,
      payload) in
    match bounded (ser m) n with
    | Ok b => (toy_next h (th_rs h) b, Ok b)
    | Err e => (h, Err e)
    end.

Definition toy_read (h : ToyHandshake) (msg : bytes) (n : usize)
    : ToyHandshake * result bytes string :=
  if toy_my_turn h then (h, Err "state")
  else match des (T:=ToyMessage) msg with
  | Some ((pro, static, target, psk, payload), []) =>
      if negb (bool_decide (pro = th_prologue h)) then (h, Err "decrypt")
      else if negb (th_xx h) && negb (th_initiator h) && negb (bool_decide (target = Some (th_static h)))
      then (h, Err "decrypt")
      else if negb (th_xx h) && bool_decide (th_pos h = 1%nat)
                && negb (bool_decide (psk = Some (th_psk h))) then (h, Err "decrypt")
      else match bounded payload n with
           | Ok p => (toy_next h (if toy_sends_static (th_xx h) (th_pos h) then static else th_rs h) msg,
                      Ok p)
           | Err e => (h, Err e)
           end
  | _ => (h, Err "decrypt")
  end.

Definition toy_transport_write (t : ToyTransport) (p : bytes) (n : usize)
    : ToyTransport * result bytes string :=
  match bounded (ser (tt_initiator t, tt_sent t, tt_key t, p)) n with
  | Ok m => (mkToyTransport (tt_key t) (tt_initiator t) (tt_sent t + 1) (tt_received t), Ok m)
  | Err e => (t, Err e)
  end.

Definition toy_transport_read (t : ToyTransport) (m : bytes) (n : usize)
    : ToyTransport * result bytes string :=
  match des (T := bool * N * bytes * bytes) m with
  | Some ((who, seq, k, p), []) =>
      if Bool.eqb who (negb (tt_initiator t)) && (seq =? tt_received t) && bool_decide (k = tt_key t)
      then match bounded p n with
           | Ok p => (mkToyTransport (tt_key t) (tt_initiator t) (tt_sent t) (tt_received t + 1), Ok p)
           | Err e => (t, Err e)
           end
      else (t, Err "decrypt")
  | _ => (t, Err "decrypt")
  end.

Definition toy_build (b : ToyBuilder) (initiator : bool) : result ToyHandshake string :=
  Ok (mkToyHandshake (tb_params b =s PAIR_PARAMS) initiator 0 (tb_prologue b) (tb_private b)
        (default [] (tb_psk b)) (tb_rs b) (tb_prologue b)).

#[global] Instance toy_snow : Snow := {
  SnowError := string;
  snow_error_to_string e := e;
  SnowBuilder := ToyBuilder;
  HandshakeState := ToyHandshake;
  TransportState := ToyTransport;
  builder_new p := mkToyBuilder p [] [] None None;
  builder_prologue b p := Ok (mkToyBuilder (tb_params b) (sha256 p) (tb_private b) (tb_psk b) (tb_rs b));
  builder_local_private_key b k :=
    Ok (mkToyBuilder (tb_params b) (tb_prologue b) k (tb_psk b) (tb_rs b));
  builder_psk b _ k := Ok (mkToyBuilder (tb_params b) (tb_prologue b) (tb_private b) (Some k) (tb_rs b));
  builder_remote_public_key b k :=
    Ok (mkToyBuilder (tb_params b) (tb_prologue b) (tb_private b) (tb_psk b) (Some k));
  build_initiator b := toy_build b true;
  build_responder b := toy_build b false;
  is_handshake_finished := toy_finished;
  hs_is_my_turn := toy_my_turn;
  hs_write_message := toy_write;
  hs_read_message := toy_read;
  get_remote_static := th_rs;
  get_handshake_hash h := sha256 (th_log h);
  into_transport_mode h := Ok (mkToyTransport (sha256 (th_log h)) (th_initiator h) 0 0);
  ts_write_message := toy_transport_write;
  ts_read_message := toy_transport_read;
  ts_rekey_outgoing t := t;
}.

Lemma bounded_Ok m n b : bounded m n = Ok b -> len b <= n.
Proof. unfold bounded. destruct (N.leb_spec (len m) n); [|done]. by intros [= <-]. Qed.

#[global] Instance toy_snow_laws : SnowLaws.
Proof.
  split.
  - intros s p n s' m. cbn. unfold toy_write. destruct (negb _); [done|]. cbv zeta.
    destruct (bounded _ n) eqn:E; [|done]. intros [= _ <-]. by eapply bounded_Ok.
  - intros s p n s' m. cbn. unfold toy_transport_write.
    destruct (bounded _ n) eqn:E; [|done]. intros [= _ <-]. by eapply bounded_Ok.
Qed.

(** What one end has written and the other has not read: the messages numbered
    from what the reader expects to what the writer is at. *)
Fixpoint toy_chain (who : bool) (k : bytes) (i : N) (q : list (bytes * bytes)) (j : N) : Prop :=
  match q with
  | [] => i = j
  | (p, m) :: q => m = ser (who, i, k, p) /\ toy_chain who k (i + 1) q j
  end.
Definition toy_channel (a : ToyTransport) (q : list (bytes * bytes)) (b : ToyTransport) : Prop :=
  tt_key b = tt_key a /\ tt_initiator b = negb (tt_initiator a) /\
  toy_chain (tt_initiator a) (tt_key a) (tt_received b) q (tt_sent a).

Lemma toy_chain_snoc who k i q j p m :
  toy_chain who k i q j -> m = ser (who, j, k, p) -> toy_chain who k i (q ++ [(p, m)]) (j + 1).
Proof.
  revert i. induction q as [|[p' m'] q IH]; intros i; cbn; [by intros -> ->|]. intros [-> Hq] Hm. split; [done|by apply IH].
Qed.

Lemma toy_transport_write_Ok t p n t' m : toy_transport_write t p n = (t', Ok m) ->
  t' = mkToyTransport (tt_key t) (tt_initiator t) (tt_sent t + 1) (tt_received t) /\
  m = ser (tt_initiator t, tt_sent t, tt_key t, p).
Proof.
  unfold toy_transport_write, bounded. destruct (_ <=? _); [|done]. by intros [= <- <-].
Qed.
Lemma toy_transport_read_Ok t m n t' p : toy_transport_read t m n = (t', Ok p) ->
  t' = mkToyTransport (tt_key t) (tt_initiator t) (tt_sent t) (tt_received t + 1).
Proof.
  unfold toy_transport_read. destruct (des m) as [[[[[who seq] k] q] []]|]; try done.
  destruct (_ && _); [|done]. destruct (bounded _ _); [|done]. by intros [= <- _].
Qed.

#[global] Instance toy_snow_channel : SnowChannel.
Proof.
  refine {| channel := toy_channel |}; cbn; unfold toy_channel.
  - intros a q b p n a' m (Hk & Hi & Hq) [-> ->]%toy_transport_write_Ok. cbn. split_and!; [done..|].
    by apply toy_chain_snoc.
  - intros a p m q b n (Hk & Hi & -> & Hq) Hn.
    exists (mkToyTransport (tt_key b) (tt_initiator b) (tt_sent b) (tt_received b + 1)). split; [|done].
    unfold toy_transport_read.
    pose proof (des_ser (tt_initiator a, tt_received b, tt_key a, p) []) as E. rewrite app_nil_r in E. rewrite E.
    rewrite Hi, negb_involutive, eqb_reflx, N.eqb_refl, bool_decide_eq_true_2 by done. cbn [andb].
    pose proof (length_ser_list_go p []) as Hl. rewrite app_nil_r in Hl.
    unfold bounded. destruct (N.leb_spec (len p) n) as [|Hlt]; [done|]. exfalso.
    revert Hn. cbn. unfold ser_pair, len. cbn. rewrite length_app. unfold len in Hlt. lia.
  - intros a q b p n b' m (Hk & Hi & Hq) [-> _]%toy_transport_write_Ok. done.
  - intros a q b m n a' p (Hk & Hi & Hq) ->%toy_transport_read_Ok. done.
Defined.

(** The sizes of what a handshake says. *)
Lemma length_ser_bytes (b : bytes) : length (ser b) = (2 * length b + 1)%nat.
Proof. induction b as [|x b IH]; [done|]. cbn in *. lia. Qed.
Lemma ser_fits (pro payload : bytes) (static target psk : option bytes) :
  length pro = 32%nat -> (from_option length 0 static <= 32)%nat -> (from_option length 0 target <= 32)%nat ->
  (from_option length 0%nat psk <= 32)%nat -> len payload <= 32000 ->
  bounded (ser (pro, static, target, psk, payload)) 65535 = Ok (ser (pro, static, target, psk, payload)).
Proof.
  intros Hp Hs Ht Hk Hl. unfold bounded.
  destruct (N.leb_spec (len (ser (pro, static, target, psk, payload))) 65535) as [|Hlt]; [done|]. exfalso.
  unfold len in *. change (ser (pro, static, target, psk, payload)) with
    ((((ser pro ++ ser static) ++ ser target) ++ ser psk) ++ ser payload) in Hlt.
  rewrite !length_app, !length_ser_bytes, Hp in Hlt.
  assert (∀ o : option bytes, (length (ser o) <= 2 * from_option length 0 o + 2)%nat) as Ho.
  { intros [o|]; cbn [from_option]; [|cbn; lia]. change (ser (Some o)) with (Byte.x01 :: ser o).
    cbn [length]. rewrite length_ser_bytes. lia. }
  pose proof (Ho static). pose proof (Ho target). pose proof (Ho psk). lia.
Qed.

Lemma des_message (x : ToyMessage) : des (ser x) = Some (x, []).
Proof. pose proof (des_ser x []) as E. by rewrite app_nil_r in E. Qed.

(** The first message of a session, and the second. *)
Lemma toy_opener pro ka kb psk psk' p :
  length ka = 32%nat -> length kb = 32%nat -> len p <= 32000 ->
  let h := mkToyHandshake false true 0 (sha256 pro) ka psk (Some kb) (sha256 pro) in
  let r := mkToyHandshake false false 0 (sha256 pro) kb psk' None (sha256 pro) in
  let m := ser (sha256 pro, Some ka, Some kb, @None bytes, p) in
  toy_write h p 65535 = (toy_next h (Some kb) m, Ok m) /\ toy_read r m 65535 = (toy_next r (Some ka) m, Ok p).
Proof.
  intros Ha Hb Hp h r m. unfold toy_write, toy_read. cbn [h r th_xx th_initiator th_pos th_prologue th_static th_rs].
  change (toy_my_turn h) with true. change (toy_my_turn r) with false. cbn [negb]. split.
  - change (toy_sends_static false 0) with true. cbn [orb andb negb]. rewrite bool_decide_eq_false_2 by done. cbv zeta.
    rewrite ser_fits; [done|apply sha256_length|cbn; lia|cbn; lia|cbn; lia|done].
  - unfold m. rewrite des_message. rewrite !bool_decide_eq_true_2 by done. cbn [negb andb].
    rewrite (bool_decide_eq_false_2 (0%nat = 1%nat)) by done. cbn [andb].
    unfold bounded. destruct (N.leb_spec (len p) 65535); [|lia]. done.
Qed.

Lemma toy_answer pro ka kb psk p l :
  length psk = 32%nat -> len p <= 32000 ->
  let h := mkToyHandshake false true 1 (sha256 pro) ka psk (Some kb) l in
  let r := mkToyHandshake false false 1 (sha256 pro) kb psk (Some ka) l in
  let m := ser (sha256 pro, @None bytes, @None bytes, Some psk, p) in
  toy_write r p 65535 = (toy_next r (Some ka) m, Ok m) /\ toy_read h m 65535 = (toy_next h (Some kb) m, Ok p).
Proof.
  intros Hk Hp h r m. unfold toy_write, toy_read. cbn [h r th_xx th_initiator th_pos th_prologue th_static th_rs th_psk].
  change (toy_my_turn r) with true. change (toy_my_turn h) with false. cbn [negb]. split.
  - change (toy_sends_static false 1) with false. cbn [orb andb negb]. rewrite bool_decide_eq_true_2 by done. cbv zeta.
    rewrite ser_fits; [done|apply sha256_length|cbn; lia|cbn; lia|cbn; lia|done].
  - unfold m. rewrite des_message. rewrite !bool_decide_eq_true_2 by done. cbn [negb andb].
    unfold bounded. destruct (N.leb_spec (len p) 65535); [|lia]. rewrite (bool_decide_eq_true_2 (Some psk = Some psk)), andb_false_r by done. done.
Qed.

#[global] Instance toy_snow_session : SnowSession.
Proof.
  refine {| ik_room := 32000 |}. intros pro ka kb psk p Ha Hb Hk Hp.
  destruct (toy_opener pro ka kb psk psk p Ha Hb Hp) as [Hw _].
  eexists _, _, _. split; [reflexivity|]. intros psk' Hk'.
  destruct (toy_opener pro ka kb psk psk' p Ha Hb Hp) as [_ Hr].
  eexists _, _. split; [reflexivity|]. split; [split_and!; [done|done|exact Hw|exact Hr]|]. split; [done|].
  intros -> q Hq. destruct (toy_answer pro ka kb psk q (sha256 pro ++ ser (sha256 pro, Some ka, Some kb, @None bytes, p)) Hk Hq)
    as [Hw2 Hr2].
  eexists _, _, _. split; [split_and!; [done|done|exact Hw2|exact Hr2]|].
  split_and!; [done|done|done|]. eexists _, _. split; [reflexivity|]. split; [reflexivity|]. split; done.
Defined.

(** One message of a pairing. *)
Lemma toy_xx_message ini pos pro ks ks' psk psk' rs rs' l p :
  length ks = 32%nat -> (from_option length 0 rs <= 32)%nat -> len p <= 32000 ->
  Bool.eqb (Nat.even pos) ini = true ->
  let h := mkToyHandshake true ini pos (sha256 pro) ks psk rs l in
  let r := mkToyHandshake true (negb ini) pos (sha256 pro) ks' psk' rs' l in
  let m := ser (sha256 pro, if toy_sends_static true pos then Some ks else None, rs, @None bytes, p) in
  toy_write h p 65535 = (toy_next h rs m, Ok m) /\
  toy_read r m 65535 = (toy_next r (if toy_sends_static true pos then Some ks else rs') m, Ok p).
Proof.
  intros Hk Hrs Hp Hturn h r m. unfold toy_write, toy_read. cbn [h r th_xx th_initiator th_pos th_prologue th_static th_rs].
  assert (toy_my_turn h = true) as -> by done.
  assert (toy_my_turn r = false) as ->.
  { unfold toy_my_turn. cbn. revert Hturn. by destruct (Nat.even pos), ini. }
  cbn [negb orb andb]. split.
  - cbv zeta. rewrite ser_fits; [done|apply sha256_length| |done|cbn; lia|done].
    destruct (toy_sends_static true pos); cbn; lia.
  - unfold m. rewrite des_message. rewrite bool_decide_eq_true_2 by done. cbn [negb].
    unfold bounded. destruct (N.leb_spec (len p) 65535); [|lia]. by destruct (toy_sends_static true pos).
Qed.

#[global] Instance toy_snow_pairing : SnowPairing.
Proof.
  refine {| xx_room := 32000 |}. intros pro ka kb Ha Hb.
  destruct (toy_xx_message true 0 pro ka kb [] [] None None (sha256 pro) []) as [W1 R1];
    [done|cbn; lia|done|done|].
  eexists _, _, _, _, _. split; [reflexivity|]. split; [reflexivity|]. split; [split_and!; [done|done|exact W1|exact R1]|].
  intros q Hq.
  pose proof (λ l, toy_xx_message false 1 pro kb ka [] [] None None l q Hb (Nat.le_0_l _) Hq eq_refl) as H2.
  eexists _, _, _. split; [split_and!; [done|done|exact (proj1 (H2 _))|exact (proj2 (H2 _))]|]. split; [done|].
  intros p Hp.
  pose proof (λ l, toy_xx_message true 2 pro ka kb [] [] (Some kb) None l p Ha (Nat.eq_le_incl _ _ Hb) Hp eq_refl) as H3.
  eexists _, _, _. split; [split_and!; [done|done|exact (proj1 (H3 _))|exact (proj2 (H3 _))]|]. done.
Defined.

#[global] Instance toy_externs : Externs := {}.
#[global] Instance toy_externs_laws : ExternsLaws.
Proof. split; apply toy_cbor_total. Qed.

(** ** The bodies of the plugins' messages *)

#[global] Instance ser_command_entry : Ser CommandEntry := ser_iso
  (λ c, (ce_id c, ce_name c, needs_confirm c)) (λ '(a, b, c), mkCommandEntry a b c) ltac:(by intros []).
#[global] Instance ser_command_list : Ser CommandList := ser_iso commands mkCommandList ltac:(by intros []).
#[global] Instance ser_run_request : Ser RunRequest := ser_iso rr_id mkRunRequest ltac:(by intros []).
#[global] Instance ser_wol_config : Ser WolConfig := ser_iso
  (λ c, (macs c, broadcast c, port c, last_ipv4 c)) (λ '(a, b, c, d), mkWolConfig a b c d)
  ltac:(by intros []).
#[global] Instance ser_relay : Ser RelayRequest := ser_iso mac mkRelayRequest ltac:(by intros []).
#[global] Instance ser_begin : Ser Begin := ser_iso
  (λ b, (w_mm b, h_mm b)) (λ '(a, b), mkBegin a b) ltac:(by intros []).
#[global] Instance ser_point : Ser Point := ser_iso
  (λ p, (pt_id p, pt_x p, pt_y p)) (λ '(a, b, c), mkPoint a b c) ltac:(by intros []).
#[global] Instance ser_frame : Ser TouchFrame := ser_iso
  (λ f, (tf_seq f, tf_points f, tf_t_us f)) (λ '(a, b, c), mkTouchFrame a b c) ltac:(by intros []).
#[global] Instance ser_clipboard_set : Ser ClipboardSet := ser_iso
  (λ c, (cs_mime c, cs_data c, cs_hash c)) (λ '(a, b, c), mkClipboardSet a b c) ltac:(by intros []).
#[global] Instance ser_offer : Ser Offer := ser_iso
  (λ o, (of_transfer o, of_name o, of_size o, of_mime o)) (λ '(a, b, c, d), mkOffer a b c d)
  ltac:(by intros []).
#[global] Instance ser_accept : Ser Accept := ser_iso
  (λ a, (ac_transfer a, ac_endpoint a)) (λ '(a, b), mkAccept a b) ltac:(by intros []).
#[global] Instance ser_finished : Ser Finished := ser_iso
  (λ f, (fin_transfer f, fin_ok f, fin_detail f)) (λ '(a, b, c), mkFinished a b c) ltac:(by intros []).

#[global] Instance ser_session_state : Ser SessionState := ser_iso
  (λ s, (ss_locked s, ss_session_id s, ss_kind s, ss_active s)) (λ '(a, b, c, d), mkSessionState a b c d)
  ltac:(by intros []).

#[global] Instance ser_media_player : Ser MediaPlayer := ser_iso
  (λ p, (mp_id p, mp_name p, mp_status p, mp_title p, mp_artist p, mp_album p,
     (mp_length_ms p, mp_position_ms p, mp_volume_percent p),
     (mp_can_go_next p, mp_can_go_previous p, mp_can_seek p, mp_can_control p)))
  (λ '(a, b, c, d, e, f, (g, h, i), (j, k, l, m)), mkMediaPlayer a b c d e f g h i j k l m) ltac:(by intros []).
#[global] Instance ser_media_state : Ser MediaState := ser_iso
  (λ s, (ms_players s, ms_active s, ms_system_volume s)) (λ '(a, b, c), mkMediaState a b c) ltac:(by intros []).

Lemma signed_back z :
  (λ p : bool * N, if p.1 then Z.opp (Z.of_N p.2) else Z.of_N p.2) ((z <? 0)%Z, Z.abs_N z) = z.
Proof. cbn. destruct (Z.ltb_spec z 0); lia. Qed.
#[global] Instance ser_Z : Ser Z := ser_iso (λ z, ((z <? 0)%Z, Z.abs_N z)) _ signed_back.
#[global] Instance ser_media_command : Ser MediaCommand := ser_iso
  (λ c, (mc_player c, mc_value c)) (λ '(a, b), mkMediaCommand a b) ltac:(by intros []).

#[global] Instance toy_cbor_body {T} `{Ser T} : Cbor T | 100 := toy_cbor ARRAY.
