(* ===== verification/PluginWitnesses.v ===== *)
(** * The theorems about the plugins, at work

    Each one applied to a history of messages on the codec of [Toy], where its
    hypotheses hold and something happens. *)

From S2P Require Import Prelude Externals B64 Ids Envelope Link Vocab Plugin.
From S2P Require Import Command Wol Touchpad Session Clipboard Share Toy .
Local Open Scope N_scope.

Definition phone : DeviceId := mkDeviceId "phone".
Definition laptop : DeviceId := mkDeviceId "laptop".
Definition all_served : EffectSet :=
  EffectSet_new [KSession; KClipboard; KCommand; KWol; KShare; KTouchpad].
Definition fresh_cx : Cx := Cx_new 0 0 0 all_served.

(** A message of [ty] with a body, as a plugin gets it. *)
Definition message (ty : string) {T} `{Cbor T} (body : T) : Envelope :=
  mkEnvelope 1 5 None "cap" ty (to_vec_or_default body) 0 None.

(** ** Commands *)

Definition catalogue : list CommandEntry := [mkCommandEntry "lock" "Lock the screen" false].
Definition run_calls : list Call :=
  [CMessage phone (message "run" (mkRunRequest "lock"));
   CMessage phone (message "run" (mkRunRequest "rm -rf /"))].

Lemma command_only_catalogue_witness :
  cx_effects (play run_calls (CommandPlugin_new catalogue) fresh_cx).2 = [(1, RunCommand "lock")] /\
  Forall (λ te, runs_listed catalogue te.2)
    (cx_effects (play run_calls (CommandPlugin_new catalogue) fresh_cx).2).
Proof. split; [vm_compute; reflexivity|]. apply command_only_catalogue. reflexivity. Defined.

(** ** Wake on LAN *)

Definition wol_config0 : WolConfig := mkWolConfig [] "192.168.1.255" 9 "".
Definition wol_calls : list Call :=
  [CMessage phone (message "relay" (mkRelayRequest "aa-bb-cc-dd-ee-ff"));
   CMessage phone (message "relay" (mkRelayRequest "00:00:00:00:00:00"))].
Definition wol_plugin0 : WolPlugin := WolPlugin_new wol_config0 ["AA:BB:CC:DD:EE:FF"%string].

Lemma wol_only_allowlisted_witness :
  len (cx_effects (play wol_calls wol_plugin0 fresh_cx).2) = 1 /\
  Forall (λ te, wakes_allowed wol_plugin0 te.2) (cx_effects (play wol_calls wol_plugin0 fresh_cx).2).
Proof. split; [vm_compute; reflexivity|]. apply wol_only_allowlisted. reflexivity. Defined.

(** ** The touchpad *)

Definition touch_calls : list Call :=
  [CMessage phone (message "begin" (mkBegin 100 60));
   CMessage phone (message "frame" (mkTouchFrame 1 [mkPoint 0 10 10] None));
   CMessage laptop (message "begin" (mkBegin 0 0));
   CDisconnected phone].

Lemma touchpad_numbered_witness :
  len (cx_effects (play touch_calls TouchpadPlugin_default fresh_cx).2) = 3 /\
  touch_effects (cx_effects (play touch_calls TouchpadPlugin_default fresh_cx).2).
Proof. split; [vm_compute; reflexivity|]. apply touchpad_numbered. reflexivity. Defined.

(** ** The clipboard *)

Definition copied : ClipboardSet :=
  mkClipboardSet TEXT_PLAIN (as_bytes "hello") (sha256 (as_bytes "hello")).
Definition clip_calls : list Call :=
  [CMessage phone (message "set" copied);
   CMessage phone (message "set" (mkClipboardSet "image/png" [] (sha256 [])))].

Lemma clipboard_writes_acceptable_witness :
  cx_effects (play clip_calls (ClipboardPlugin_new Directions_default) fresh_cx).2
    = [(1, ClipboardWrite TEXT_PLAIN (as_bytes "hello"))] /\
  Forall (λ te, clip_effect_ok Directions_default clip_calls te.2)
    (cx_effects (play clip_calls (ClipboardPlugin_new Directions_default) fresh_cx).2).
Proof. split; [vm_compute; reflexivity|]. apply clipboard_writes_acceptable. reflexivity. Defined.

Definition after_set : ClipboardPlugin :=
  (clipboard_on_message phone (message "set" copied) (ClipboardPlugin_new Directions_default) fresh_cx).2.1.

Lemma clipboard_no_echo_witness :
  last_remote after_set = Some (sha256 (as_bytes "hello")) /\
  clipboard_on_local phone "changed" (as_bytes "hello") after_set fresh_cx
    = (Ok tt, (after_set <| last_remote := None |>, fresh_cx)).
Proof.
  split; [vm_compute; reflexivity|].
  refine (clipboard_no_echo phone (message "set" copied) copied (ClipboardPlugin_new Directions_default)
    fresh_cx (as_bytes "hello") _ _ _ _ _ _ fresh_cx); vm_compute; reflexivity.
Defined.

(** ** Files *)

Definition offered_file : Offer := mkOffer 3 "notes.txt" 12 "text/plain".
Definition share_calls : list Call :=
  [CMessage phone (message "offer" offered_file);
   CLocal phone "accept" (to_vec_or_default (mkFinished (N.lor MINTED_HERE 1) true ""))].

Lemma share_bulk_justified_witness :
  cx_bulk (play share_calls SharePlugin_default (for_peer_link (Some SideChannel) fresh_cx)).2
    = [BrListen phone (N.lor MINTED_HERE 1) 3 12] /\
  Forall (bulk_justified (for_peer_link (Some SideChannel) fresh_cx) share_calls)
    (cx_bulk (play share_calls SharePlugin_default (for_peer_link (Some SideChannel) fresh_cx)).2).
Proof. split; [vm_compute; reflexivity|]. apply share_bulk_justified. reflexivity. Defined.

Definition waiting_offer : SharePlugin :=
  mkSharePlugin {[N.lor MINTED_HERE 1 := mkIncoming phone offered_file 5 3]}
    {[7 := mkOutgoing phone offered_file]}.

Lemma share_isolation_witness :
  offered (share_on_message laptop (message "finished" (mkFinished 3 true "")) waiting_offer
    (Cx_new 0 0 1 all_served)).2.1 !! N.lor MINTED_HERE 1 = Some (mkIncoming phone offered_file 5 3).
Proof.
  refine (proj1 (share_isolation laptop (message "finished" (mkFinished 3 true "")) waiting_offer
    (Cx_new 0 0 1 all_served) _) _ _ _ _); [|vm_compute; discriminate|reflexivity].
  split_and!; [vm_compute; reflexivity|..]; apply map_Forall_singleton.
  - exists 1. split; [vm_compute; discriminate|reflexivity].
  - vm_compute. reflexivity.
Defined.
