(* ===== verification/Scenario.v ===== *)
(** * Two cores talking, computed

    On the instance of [Toy]: two devices pair, open a session and exchange
    messages, by running [handle] on each with what the other puts out. *)

From S2P Require Import Prelude Externals Ids Frame Hello Envelope PairingKeys Bulk Link Peer Vocab.
From S2P Require Import Noise Plugin Ping Share CoreState CoreQueries CoreOps CoreHandle Toy .
Local Open Scope N_scope.

Definition alice : Identity := Identity_from_private (replicate 32 Byte.x41).
Definition bob : Identity := Identity_from_private (replicate 32 Byte.x42).
Definition carol : Identity := Identity_from_private (replicate 32 Byte.x43).

Definition device (id : Identity) : CoreBuilder :=
  with_plugins [Dyn (mkPingPlugin 0); Dyn SharePlugin_default]
    (with_effects [KShare] (CoreBuilder_new id CoreConfig_default)).

(** What a core put on a link, and what it said to its screen. *)
Definition sent_on (l : LinkId) (acts : list Action) : list bytes :=
  omap (λ a, match a with LinkSend k m => if k =? l then Some m else None | _ => None end) acts.
Definition shown (acts : list Action) : list UiEvent :=
  omap (λ a, match a with Ui e => Some e | _ => None end) acts.
Definition dials (acts : list Action) : list DialToken :=
  omap (λ a, match a with Dial _ _ d => Some d | _ => None end) acts.

(** One event at a time of the monotonic and the wall clock. *)
Definition at_time (t : u64) : Now := mkNow t (1000000 + t).

Definition tell (t : u64) (ev : Event) (c : Core) : option (list Action * Core) :=
  match handle (at_time t) ev c with Some (o, c) => Some (actions o, c) | None => None end.

(** Messages delivered one by one; what they cause is gathered. *)
Fixpoint deliver_all (t : u64) (l : LinkId) (ms : list bytes) (c : Core)
    : option (list Action * Core) :=
  match ms with
  | [] => Some ([], c)
  | m :: ms =>
      '(a, c) ← tell t (LinkRecv l m) c;
      '(b, c) ← deliver_all t l ms c;
      Some (a ++ b, c)
  end.

(** Both ends of one link, speaking in turns until nobody has anything to say. *)
Fixpoint converse (turns : nat) (t : u64) (l : LinkId) (ms : list bytes) (speaker listener : Core)
    : option (list Action * list Action * (Core * Core)) :=
  match turns, ms with
  | O, _ | _, [] => Some ([], [], (speaker, listener))
  | S turns, _ =>
      '(heard, listener) ← deliver_all t l ms listener;
      '(theirs, ours, (listener, speaker)) ← converse turns (t + 1) l (sent_on l heard) listener speaker;
      Some (ours, heard ++ theirs, (speaker, listener))
  end.

Definition wifi : LinkAttrs := tcp_lan 0.

(** The two shake hands on a link that [a] dialled with a token. *)
Definition meet (t : u64) (l : LinkId) (at_ : LinkAttrs) (d : DialToken) (a b : Core)
    : option (list Action * list Action * (Core * Core)) :=
  '(outb, b) ← tell t (LinkUp l at_ None) b;
  '(outa, a) ← tell t (LinkUp l at_ (Some d)) a;
  '(morea, moreb, (a, b)) ← converse 8 t l (sent_on l outa) a b;
  Some (outa ++ morea, outb ++ moreb, (a, b)).

(** Pairing, from the request to both confirmations; what each screen showed. *)
Definition pair_up (a b : Core) : option (list UiEvent * list UiEvent * (Core * Core)) :=
  '(outa, a) ← tell 1000 (Local (RequestPairing 0 "bob:4040")) a;
  d ← head (dials outa);
  '(sasa, sasb, (a, b)) ← meet 1001 7 wifi d a b;
  '(enda, a) ← tell 2000 (Local (ConfirmPairing true)) a;
  '(endb, b) ← tell 2001 (Local (ConfirmPairing true)) b;
  Some (shown (sasa ++ enda), shown (sasb ++ endb), (a, b)).

(** A session over the given link, dialled by the first. *)
Definition connect_up (t : u64) (l : LinkId) (at_ : LinkAttrs) (a b : Core)
    : option (list UiEvent * list UiEvent * (Core * Core)) :=
  '(outa, a) ← tell t Tick a;
  d ← head (dials outa);
  '(outa, outb, (a, b)) ← meet (t + 1) l at_ d a b;
  Some (shown outa, shown outb, (a, b)).

(** A message for the peer's plugin; what the peer's screen and ours show. *)
Definition say (t : u64) (l : LinkId) (peer : DeviceId) (body : bytes) (a b : Core)
    : option (list UiEvent * list UiEvent * (Core * Core)) :=
  '(outa, a) ← tell t (Local (LocalPlugin peer PING_CAP "ping" body)) a;
  '(morea, outb, (a, b)) ← converse 4 t l (sent_on l outa) a b;
  Some (shown (outa ++ morea), shown outb, (a, b)).

Definition id_of (i : Identity) : DeviceId := identity_device_id i.

(** The whole story: paired, connected, and one ping answered. *)
Definition story : option (list UiEvent * list UiEvent * (Core * Core)) :=
  '(p1, q1, (a, b)) ← pair_up (build_core (device alice)) (build_core (device bob));
  '(p2, q2, (a, b)) ← connect_up 3000 8 wifi a b;
  '(p3, q3, (a, b)) ← say 3010 8 (id_of bob) (as_bytes "hi") a b;
  Some (p1 ++ p2 ++ p3, q1 ++ q2 ++ q3, (a, b)).

(** Two devices that know nothing of each other pair, show the same digits
    to both people, open a session as trusted devices and get a ping
    answered; nothing else appears on either screen. *)
Theorem story_goes_well :
  (λ '(a, b, _), (a, b)) <$> story = Some (
    [UiPairingSas "acrylius" (identity_fingerprint bob) "000 256";
     UiPairingComplete (id_of bob) "acrylius"; UiPeerReachable (id_of bob) "acrylius";
     UiPlugin (id_of bob) PING_CAP "pong" (as_bytes "hi")],
    [UiPairingSas "acrylius" (identity_fingerprint alice) "000 256";
     UiPairingComplete (id_of alice) "acrylius"; UiPeerReachable (id_of alice) "acrylius"]).
Proof. vm_compute. reflexivity. Qed.
