(* ===== verification/Findings.v ===== *)
(** * Where the code and what is written about it part

    What [CoreBehaviour] shows of an oversized message, and three more cases in
    which the code does what its comments, the protocol document or its
    decoders describe otherwise, followed through to what a person sees on the
    devices of [Scenario]. *)

From S2P Require Import Prelude Externals Ids Frame Hello Envelope PairingKeys Bulk Link Peer.
From S2P Require Import Vocab Noise Plugin Ping CoreState CoreQueries CoreOps CoreHandle Toy Scenario.
Local Open Scope N_scope.

(** ** What a person sees *)

(** The fate of a conversation on a link of 16 KiB: an oversized ping, then an
    ordinary one. *)
Definition after_oversized : option (list UiEvent * list UiEvent * list UiEvent) :=
  '(_, _, (a, b)) ← pair_up (build_core (device alice)) (build_core (device bob));
  '(_, _, (a, b)) ← connect_up 3000 8 (ble_attrs 1) a b;
  '(refused, _, (a, b)) ← say 3010 8 (id_of bob) (replicate 10000 Byte.x41) a b;
  '(mine, theirs, (a, b)) ← say 3020 8 (id_of bob) (as_bytes "hi") a b;
  Some (refused, mine, theirs).

(** After a message that was too long, the next ordinary one is not
    understood by the peer, who ends the session. *)
Theorem oversized_message_ends_session :
  after_oversized = Some (
    [UiError (Some (id_of bob)) TooLarge "40184 bytes does not fit this link, which takes 16384"],
    [],
    [UiError (Some (id_of alice)) NotAllowed "noise: decrypt"; UiPeerUnreachable (id_of alice)]).
Proof. vm_compute. reflexivity. Qed.

(** A person asks to pair with a device that does not answer; the window lapses;
    when the pause after that is over another device pairs; then the host
    reports that the first dial failed. *)
Definition after_late_failure : option (bool * list Action * bool) :=
  '(acts, a) ← tell 1000 (Local (RequestPairing 0 "carol:4040")) (build_core (device alice));
  d ← head (dials acts);
  '(_, a) ← tell 121000 Tick a;
  '(acts, b) ← tell 160000 (Local (RequestPairing 0 "alice:4040")) (build_core (device bob));
  e ← head (dials acts);
  '(_, _, (b, a)) ← meet 160001 7 wifi e b a;
  let shown_before := bool_decide (is_Some (pending_sas a)) in
  '(acts, a) ← tell 170000 (DialFailed d "no route to host") a;
  Some (shown_before, acts, bool_decide (is_Some (pending_sas a))).

(** The late failure of a dial to pair takes away the confirmation of
    another device that somebody is looking at, and reports that one failed. *)
Theorem late_dial_failure_clears_confirmation :
  after_late_failure = Some (true, [Ui (UiPairingFailed "no route to host")], false).
Proof. vm_compute. reflexivity. Qed.

(** On the codec of [Toy], where a text and an array are told apart as
    in CBOR, the body of an error the core answers with never reads as the
    [ErrorBody] the protocol and every decoder of the repository expect. *)
Theorem core_error_body_unreadable code :
  cbor_decode (T := ErrorBody) (to_vec_or_default (error_code_str code)) = None.
Proof. by destruct code. Qed.
