(* ===== verification/Witnesses.v ===== *)
(** * The theorems about [Core], at work

    Each theorem with a hypothesis, applied on the instance of [Toy] to devices
    in the middle of what [Scenario] has them do. *)

From S2P Require Import Prelude Externals B64 Ids Frame Hello Envelope PairingKeys Bulk Link Peer Vocab Noise Plugin.
From S2P Require Import Ping CoreState CoreQueries CoreOps CoreHandle CoreSteps CoreRefines CoreTheorems CoreBehaviour CoreClock Delivery Meeting Pairing Share Toy Scenario.
Local Open Scope N_scope.

(** ** Every device of a scenario is in a good state *)

Lemma tell_good t ev c acts c' : Good c -> tell t ev c = Some (acts, c') -> Good c'.
Proof.
  intros HG. unfold tell. destruct (handle_good_event (at_time t) ev c HG) as (o & d & -> & ?).
  by intros [= _ <-].
Qed.

Lemma deliver_all_good t l ms c acts c' : Good c -> deliver_all t l ms c = Some (acts, c') -> Good c'.
Proof.
  revert c acts. induction ms as [|m ms IH]; intros c acts HG; cbn [deliver_all]; [by intros [= _ <-]|].
  intros ([a d] & E & ([b e] & E' & [= _ <-])%bind_Some)%bind_Some.
  eapply IH; [|exact E']. by eapply tell_good.
Qed.

Lemma converse_good n t l ms a b x y a' b' :
  Good a -> Good b -> converse n t l ms a b = Some (x, y, (a', b')) -> Good a' /\ Good b'.
Proof.
  revert t ms a b x y a' b'. induction n as [|n IH]; intros t ms a b x y a' b' Ha Hb; cbn [converse].
  { by intros [= _ _ <- <-]. }
  destruct ms as [|m ms]; [by intros [= _ _ <- <-]|].
  intros ([h b1] & E & ([[th ou] [b2 a2]] & E' & [= _ _ <- <-])%bind_Some)%bind_Some.
  apply deliver_all_good in E; [|done]. destruct (IH _ _ _ _ _ _ _ _ E Ha E'). done.
Qed.

Lemma meet_good t l at_ d a b x y a' b' :
  Good a -> Good b -> meet t l at_ d a b = Some (x, y, (a', b')) -> Good a' /\ Good b'.
Proof.
  intros Ha Hb. unfold meet.
  intros ([o1 b1] & E1 & ([o2 a1] & E2 & ([[m1 m2] [a2 b2]] & E3 & [= _ _ <- <-])%bind_Some)%bind_Some)%bind_Some.
  apply tell_good in E1; [|done]. apply tell_good in E2; [|done].
  eapply converse_good; [..|exact E3]; done.
Qed.

(** ** The devices at work *)

(** A pair of devices at some moment. *)
Abbreviation Pair := (Core * Core)%type.
Definition good_pair (p : Pair) : Prop := Good p.1 /\ Good p.2.

(** What became of [p], when it came about. *)
Definition after {X} (o : option (X * Pair)) (p : Pair) : Pair :=
  match o with Some (_, q) => q | None => p end.

Lemma after_good {X} (o : option (X * Pair)) p :
  good_pair p -> (∀ x q, o = Some (x, q) -> good_pair q) -> good_pair (after o p).
Proof. intros Hp Ho. destruct o as [[x q]|]; [by eapply Ho|done]. Qed.

(** They meet on a link the first asked for, to pair. *)
Definition shake (p : Pair) : option (list Action * list Action * Pair) :=
  '(outa, a) ← tell 1000 (Local (RequestPairing 0 "bob:4040")) p.1;
  d ← head (dials outa);
  meet 1001 7 wifi d a p.2.

Lemma shake_good p x q : good_pair p -> shake p = Some (x, q) -> good_pair q.
Proof.
  intros [Ha Hb] ([o a1] & E1 & (d & _ & E2)%bind_Some)%bind_Some.
  destruct x as [x y], q as [a b]. eapply meet_good; [..|exact E2]; [|exact Hb].
  eapply tell_good; [|exact E1]. exact Ha.
Qed.

(** Both agree. *)
Definition agree (p : Pair) : option (unit * Pair) :=
  '(_, a) ← tell 2000 (Local (ConfirmPairing true)) p.1;
  '(_, b) ← tell 2001 (Local (ConfirmPairing true)) p.2;
  Some (tt, (a, b)).

Lemma agree_good p x q : good_pair p -> agree p = Some (x, q) -> good_pair q.
Proof.
  intros [Ha Hb] ([o a1] & E1 & ([u b1] & E2 & [= _ <-])%bind_Some)%bind_Some.
  split; [exact (tell_good _ _ _ _ _ Ha E1)|exact (tell_good _ _ _ _ _ Hb E2)].
Qed.

(** One opens a link to the other; what it sends first. *)
Definition open_link (p : Pair) : option (list bytes * Pair) :=
  '(outa, a) ← tell 3000 Tick p.1;
  d ← head (dials outa);
  '(_, b) ← tell 3001 (LinkUp 8 wifi None) p.2;
  '(outa, a) ← tell 3001 (LinkUp 8 wifi (Some d)) a;
  Some (sent_on 8 outa, (a, b)).

Lemma open_link_good p x q : good_pair p -> open_link p = Some (x, q) -> good_pair q.
Proof.
  intros [Ha Hb] ([o a1] & E1 & (d & _ & ([u b1] & E2 & ([v a2] & E3 & [= _ <-])%bind_Some)%bind_Some)%bind_Some)%bind_Some.
  split; [|exact (tell_good _ _ _ _ _ Hb E2)].
  eapply tell_good; [|exact E3]. exact (tell_good _ _ _ _ _ Ha E1).
Qed.

(** Two devices just switched on, looking at the same digits, trusting each
    other, with a link between them, and in a session over it. *)
Definition new_pair : Pair := (build_core (device alice), build_core (device bob)).
Definition looking : Pair := after (shake new_pair) new_pair.
Definition paired : Pair := after (agree looking) looking.
Definition opening : Pair := after (open_link paired) paired.
Definition opener : bytes := match open_link paired with Some (m :: _, _) => m | _ => [] end.
Definition connected : Pair := after (converse 8 3001 8 [opener] opening.1 opening.2) opening.

Lemma new_pair_good : good_pair new_pair.
Proof. split; apply build_good. Qed.
Lemma looking_good : good_pair looking.
Proof. apply after_good; [apply new_pair_good|]. intros x q. apply shake_good, new_pair_good. Qed.
Lemma paired_good : good_pair paired.
Proof. apply after_good; [apply looking_good|]. intros x q. apply agree_good, looking_good. Qed.
Lemma opening_good : good_pair opening.
Proof. apply after_good; [apply paired_good|]. intros x q. apply open_link_good, paired_good. Qed.
Lemma connected_good : good_pair connected.
Proof.
  apply after_good; [apply opening_good|]. intros [x y] [a b]. apply converse_good; apply opening_good.
Qed.

(** One has offered the other a file, and it has arrived. *)
Definition file : Offer := mkOffer 3 "notes.txt" 12 "text/plain".
Definition offer_file (p : Pair) : option (unit * Pair) :=
  '(out, b) ← tell 3100 (Local (LocalPlugin (id_of alice) SHARE_CAP "offer" (to_vec_or_default file))) p.2;
  '(_, a) ← deliver_all 3101 8 (sent_on 8 out) p.1;
  Some (tt, (a, b)).
Lemma offer_file_good p x q : good_pair p -> offer_file p = Some (x, q) -> good_pair q.
Proof.
  intros [Ha Hb] ([o b1] & E1 & ([u a1] & E2 & [= _ <-])%bind_Some)%bind_Some.
  split; [exact (deliver_all_good _ _ _ _ _ _ Ha E2)|exact (tell_good _ _ _ _ _ Hb E1)].
Qed.

Definition offered_to : Pair := after (offer_file connected) connected.

Lemma offered_to_good : good_pair offered_to.
Proof. apply after_good; [apply connected_good|]. intros x q. apply offer_file_good, connected_good. Qed.

(** ** Reading a state *)

Definition holds {X} (o : option X) (f : X -> bool) : bool :=
  match o with Some x => f x | None => false end.
Definition leads (t : u64) (ev : Event) (c : Core) (f : Outcome -> Core -> bool) : bool :=
  holds (handle (at_time t) ev c) (λ '(o, c'), f o c').

Lemma holds_true {X} (o : option X) f : holds o f = true -> ∃ x, o = Some x /\ f x = true.
Proof. destruct o as [x|]; [by exists x|done]. Qed.

Lemma leads_true t ev c f :
  leads t ev c f = true -> ∃ o c', handle (at_time t) ev c = Some (o, c') /\ f o c' = true.
Proof. intros ([o c'] & E & Hf)%holds_true. by exists o, c'. Qed.

Lemma up_at_None l c u : holds (up_at l c) (λ _, true) = false -> links c !! l <> Some (Up u).
Proof. unfold up_at, holds. intros E El. by rewrite El in E. Qed.

(** The first of some actions of a kind. *)
Definition some_action {X} (f : Action -> option X) (o : Outcome) : option X := head (omap f (actions o)).

Lemma some_action_elem {X} (f : Action -> option X) o x :
  some_action f o = Some x -> ∃ a, a ∈ actions o /\ f a = Some x.
Proof.
  unfold some_action. intros E. destruct (omap f (actions o)) as [|y l] eqn:El; [done|].
  injection E as ->. apply list_elem_of_omap. rewrite El. by left.
Qed.

(** ** The theorems *)

Lemma ids_parse_of_witness :
  DeviceId_parse (did_str (id_of alice)) = Ok (id_of alice) /\
  Fingerprint_parse (did_str (id_of alice)) = Err (WrongSize FP_BYTES DID_BYTES).
Proof.
  destruct (ids_parse_of (id_public alice)) as (_ & H1 & _ & _ & H2 & _). split; [exact H1|exact H2].
Defined.

Lemma run_never_panics_witness :
  ∃ os c', run [(at_time 1, Tick); (at_time 2, LinkRecv 3 [Byte.x07])] (build_core (device alice))
    = Some (os, c') /\ Good c'.
Proof. apply run_never_panics. Defined.

(** Garbage on an established link. *)
Lemma handle_good_witness :
  holds (up_at 8 connected.1) (λ _, true) = true /\
  ∃ o c', handle (at_time 4000) (LinkRecv 8 [Byte.x03; Byte.x07]) connected.1 = Some (o, c') /\ Good c'.
Proof. split; [vm_compute; reflexivity|]. apply handle_good, connected_good. Defined.

(** A person says yes to the digits. *)
Lemma trust_store_evolves_witness :
  bool_decide (is_Some (peers looking.1 !! id_of bob)) = false /\
  ∃ o c', handle (at_time 2000) (Local (ConfirmPairing true)) looking.1 = Some (o, c') /\
    is_Some (peers c' !! id_of bob) /\
    trust_evolves looking.1 (Local (ConfirmPairing true)) c'.
Proof.
  split; [vm_compute; reflexivity|].
  assert (leads 2000 (Local (ConfirmPairing true)) looking.1
    (λ _ c', bool_decide (is_Some (peers c' !! id_of bob))) = true) as H by (vm_compute; reflexivity).
  apply leads_true in H as (o & c' & E & Hp%bool_decide_eq_true). exists o, c'. split_and!; [exact E|exact Hp|].
  exact (trust_store_evolves _ _ _ _ _ (proj1 looking_good) E).
Defined.

Lemma store_writes_justified_witness :
  ∃ o c' k b, handle (at_time 2000) (Local (ConfirmPairing true)) looking.1 = Some (o, c') /\
    Persist k (Some b) Secret ∈ actions o /\ ∃ rec, to_vec rec = Some b /\ k = "peer/" +:+ pr_device_id rec.
Proof.
  assert (leads 2000 (Local (ConfirmPairing true)) looking.1
    (λ o _, holds (some_action (λ a, match a with Persist k (Some b) Secret => Some (k, b) | _ => None end) o)
       (λ _, true)) = true) as H by (vm_compute; reflexivity).
  apply leads_true in H as (o & c' & E & ([k b] & (a & Ha & Hk)%some_action_elem & _)%holds_true).
  assert (a = Persist k (Some b) Secret) as ->
    by (clear - Hk; destruct a; try discriminate; repeat case_match; simplify_eq; reflexivity).
  exists o, c', k, b. split_and!; [exact E|exact Ha|].
  destruct (store_writes_justified _ _ _ _ _ _ _ _ (proj1 looking_good) E Ha) as (_ & rec & Hr & Hb & _).
  exists rec. split; [exact Hb|exact Hr].
Defined.

(** The opener of a session arrives. *)
Lemma session_origin_witness :
  ∃ o c' u, handle (at_time 3001) (LinkRecv 8 opener) opening.2 = Some (o, c') /\
    links c' !! 8 = Some (Up u) /\
    ∃ peer rec0 hello, peers opening.2 !! peer = Some rec0 /\ pr_greatest_seen rec0 < hello_ts_ms hello /\
      can_send u = negotiate (caps_out opening.2) (hello_caps_in hello) /\
      peers c' !! peer = Some (refresh_record rec0 (hello_ts_ms hello) hello).
Proof.
  assert (leads 3001 (LinkRecv 8 opener) opening.2 (λ _ c', holds (up_at 8 c') (λ _, true)) = true) as H
    by (vm_compute; reflexivity).
  apply leads_true in H as (o & c' & E & (u & Hu%up_at_Some & _)%holds_true).
  assert (holds (up_at 8 opening.2) (λ _, true) = false) as H0 by (vm_compute; reflexivity).
  exists o, c', u. split_and!; [exact E|exact Hu|].
  destruct (session_origin _ _ _ _ _ _ _ (proj2 opening_good) E Hu)
    as [(u0 & Hu0 & _)|(_ & peer & hs & at_ & an & hello & rec0 & seen & hs' & hash & se & _ & H1 & H2 & -> & _ & _ & _ & _ & _ & _ & H3 & _ & H4)].
  - destruct (up_at_None _ _ _ H0 Hu0).
  - exists peer, rec0, hello. split_and!; [exact H1|exact H2|exact H3|exact H4].
Defined.

(** A ping on its way out. *)
Lemma sends_negotiated_and_bounded_witness :
  ∃ o c' m, handle (at_time 4000) (Local (LocalPlugin (id_of bob) PING_CAP "ping" (as_bytes "hi")))
      connected.1 = Some (o, c') /\ LinkSend 8 m ∈ actions o /\
    (shake_ok (connected.1 <| wall_ms := 1004000 |>) (Local (LocalPlugin (id_of bob) PING_CAP "ping" (as_bytes "hi"))) 8 m \/
     ∃ u, link_from (connected.1 <| wall_ms := 1004000 |>) 4000
            (Local (LocalPlugin (id_of bob) PING_CAP "ping" (as_bytes "hi"))) 8 u /\ len m <= ul_max_message u).
Proof.
  assert (leads 4000 (Local (LocalPlugin (id_of bob) PING_CAP "ping" (as_bytes "hi"))) connected.1
    (λ o _, holds (some_action (λ a, match a with LinkSend l m => if l =? 8 then Some m else None | _ => None end) o)
       (λ _, true)) = true) as H by (vm_compute; reflexivity).
  apply leads_true in H as (o & c' & E & (m & (a & Ha & Hk)%some_action_elem & _)%holds_true).
  assert (a = LinkSend 8 m) as ->.
  { clear - Hk. destruct a; try discriminate. destruct (N.eqb_spec link 8); simplify_eq. reflexivity. }
  exists o, c', m. split_and!; [exact E|exact Ha|].
  destruct (sends_negotiated_and_bounded _ _ _ _ _ _ _ (proj1 connected_good) E Ha)
    as [Hm|(u & env & pt & s & ct & Hu & _ & _ & _ & _ & Hlen)]; [left; exact Hm|right; exists u; split; [exact Hu|exact Hlen]].
Defined.

(** Time passes while the digits are on the screen. *)
Lemma confirmation_not_replaced_witness :
  ∃ o c' w' a', handle (at_time 1500) Tick looking.1 = Some (o, c') /\
    pairing c' = Some w' /\ awaiting w' = Some a' /\
    ((∃ w, pairing looking.1 = Some w /\ awaiting w = Some a') \/
     (∃ w, pairing looking.1 = Some w /\ awaiting w = None)).
Proof.
  assert (leads 1500 Tick looking.1 (λ _ c', holds (pairing c') (λ w, holds (awaiting w) (λ _, true)))
    = true) as H by (vm_compute; reflexivity).
  apply leads_true in H as (o & c' & E & (w' & Hw & (a' & Ha & _)%holds_true)%holds_true).
  exists o, c', w', a'. split_and!; [exact E|exact Hw|exact Ha|].
  destruct (confirmation_not_replaced _ _ _ _ _ _ _ (proj1 looking_good) E Hw Ha)
    as [Hl|(w & _ & _ & _ & _ & _ & _ & _ & _ & _ & _ & H1 & H2 & _)]; [left; exact Hl|right; exists w; split; [exact H1|exact H2]].
Defined.

Lemma revoke_forgets_witness :
  bool_decide (is_Some (peers connected.1 !! id_of bob)) = true /\
  ∃ o c', handle (at_time 4000) (Local (Revoke (id_of bob))) connected.1 = Some (o, c') /\
    peers c' !! id_of bob = None /\
    ∀ l u, links c' !! l = Some (Up u) -> ul_peer u <> id_of bob.
Proof. split; [vm_compute; reflexivity|]. apply revoke_forgets, connected_good. Defined.

(** A file offered and accepted. *)
Lemma bulk_key_of_session_witness :
  ∃ o c' t n k, handle (at_time 3200)
      (Local (LocalPlugin (id_of bob) SHARE_CAP "accept"
        (to_vec_or_default (mkFinished (N.lor MINTED_HERE 1) true "")))) offered_to.1 = Some (o, c') /\
    BulkListen t 3 k n ∈ actions o /\
    ∃ u, k = key (ul_handshake_hash u) (did_str (ul_peer u)) 3.
Proof.
  assert (leads 3200 (Local (LocalPlugin (id_of bob) SHARE_CAP "accept"
        (to_vec_or_default (mkFinished (N.lor MINTED_HERE 1) true "")))) offered_to.1
    (λ o _, holds (some_action (λ a, match a with
       BulkListen t x k n => if x =? 3 then Some (t, n, k) else None | _ => None end) o)
       (λ _, true)) = true) as H by (vm_compute; reflexivity).
  apply leads_true in H as (o & c' & E & ([[t n] k] & (a & Ha & Hk)%some_action_elem & _)%holds_true).
  assert (a = BulkListen t 3 k n) as ->.
  { clear - Hk. destruct a as [| | | | | | |t' x k' n'| | |]; try discriminate.
    destruct (N.eqb_spec x 3); simplify_eq. reflexivity. }
  exists o, c', t, n, k. split_and!; [exact E|exact Ha|].
  destruct (bulk_key_of_session _ _ _ _ _ _ _ _ _ (proj1 offered_to_good) E Ha) as (_ & u & Hk' & _).
  exists u. exact Hk'.
Defined.

Lemma bulk_keys_agree_witness :
  ∃ hash a' b',
    dispatch_bulk 4000 (BrSend (core_device_id connected.2) 7 "host:1") (connected.1, [])
      = Some (tt, (a', push (BulkSend 7 "host:1" (key hash (did_str (core_device_id connected.1)) 7)) [])) /\
    dispatch_bulk 4001 (BrListen (core_device_id connected.1) 9 7 12) (connected.2, [])
      = Some (tt, (b', push (BulkListen 9 7 (key hash (did_str (core_device_id connected.1)) 7) 12) [])).
Proof.
  assert (holds (handshake_hash_for (core_device_id connected.2) connected.1) (λ h,
    holds (handshake_hash_for (core_device_id connected.1) connected.2) (λ h', bool_decide (h' = h)))
    = true) as H by (vm_compute; reflexivity).
  apply holds_true in H as (h & Ha & (h' & Hb & Heq%bool_decide_eq_true)%holds_true). rewrite Heq in Hb.
  destruct (bulk_keys_agree 4000 4001 connected.1 connected.2 h 7 9 "host:1" 12 [] [] Ha Hb)
    as (a' & b' & H1 & H2 & _); [vm_compute; discriminate..|].
  exists h, a', b'. split; [exact H1|exact H2].
Defined.

(** A message of a capability nobody declared, properly sealed by the peer. *)
Definition nope : Envelope := mkEnvelope 1 9 None "org.acrylius.nope/1" "x" [] 0 None.
Definition stray : bytes :=
  match up_at 8 connected.2 with
  | Some u => match session_encrypt (ul_session u) (to_vec_or_default nope) with
              | (_, Ok ct) => ct
              | _ => []
              end
  | None => []
  end.

(** Only computation is to look inside the states reached. *)
#[local] Opaque looking paired opening opener connected offered_to stray.

Lemma unnegotiated_stops_witness :
  ∃ o c', handle (at_time 4000) (LinkRecv 8 (join Transport stray)) connected.1 = Some (o, c') /\
    plugins c' = plugins connected.1 /\ (length (actions o) <= 1)%nat.
Proof.
  assert (holds (up_at 8 connected.1) (λ u, match session_decrypt (ul_session u) stray with
     | (_, Ok p) => bool_decide (p = to_vec_or_default nope) && bool_decide (env_cap nope ∉ can_recv u)
     | _ => false end) = true) as H by (vm_compute; reflexivity).
  apply holds_true in H as (u & Hu%up_at_Some & H).
  destruct (session_decrypt (ul_session u) stray) as [s [p|]] eqn:Ed; [|discriminate].
  apply andb_true_iff in H as [Hp%bool_decide_eq_true Hc%bool_decide_eq_true].
  assert (cbor_decode p = Some nope) as He by (rewrite Hp; vm_compute; reflexivity).
  pose proof (unnegotiated_stops (at_time 4000) connected.1 8 u stray s p nope) as Ht.
  specialize (Ht Hu Ed He Hc). destruct Ht as (o & c' & E & Hpl & _ & _ & _ & _ & Hn & _).
  exists o, c'. split_and!; [exact E|exact Hpl|exact Hn].
Defined.

Lemma own_effect_good c t idx :
  Good c -> (idx < length (plugins c))%nat -> Good (c <| effect_owner := {[t := idx]} |>).
Proof.
  intros [[HE HB] [HF HU]] Hi. split_and!; [split|exact HF|exact HU]; [|exact HB].
  by apply map_Forall_singleton.
Qed.

(** The first plugin waits for an effect. *)
Definition waiting : Core := connected.1 <| effect_owner := {[5 := 0%nat]} |>.

Lemma waiting_good : Good waiting.
Proof.
  apply own_effect_good; [apply connected_good|]. apply Nat.ltb_lt. vm_compute. reflexivity.
Qed.

Lemma effect_answers_its_plugin_witness :
  ∃ o c', handle (at_time 4000) (EffectDone 5 EffectUnsupported) waiting = Some (o, c') /\
    ∃ p, plugins waiting !! 0%nat = Some p /\
      plugins c' = <[0%nat := (dyn_call (CEffectResult 5 EffectUnsupported) p
        (Cx_new 4000 (next_token waiting) (next_transfer waiting) (serves waiting))).1]> (plugins waiting).
Proof.
  destruct (effect_answers_its_plugin (at_time 4000) 5 EffectUnsupported waiting waiting_good)
    as (o & c' & E & H).
  exists o, c'. split; [exact E|exact H].
Defined.

(** A peer with two more routes to try, and a person who asked. *)
Definition trying : Core := (build_core (device alice)) <| next_dial := 1 |>
  <| pending_peer_dials := {[1 := (9000, mkPeerDial (id_of bob) [(0, "a:1"); (1, "b:2")]%string true)]} |>.

Lemma route_walk_ends_witness :
  ∃ c', fail_dials (at_time 50) "refused" 3 trying = Some (
      [Dial 0 "a:1" 2; Dial 1 "b:2" 3; Ui (UiPeerUnreachable (id_of bob))], c') /\
    dial_trouble c' !! id_of bob = Some "refused"%string.
Proof.
  destruct (route_walk_ends (at_time 50) "refused" [(0, "a:1"); (1, "b:2")]%string trying 9000 (id_of bob) true)
    as (c' & E & _ & Ht & _).
  - intros d _. apply lookup_empty.
  - vm_compute. reflexivity.
  - vm_compute. discriminate.
  - apply lookup_singleton_eq.
  - exists c'. split; [exact E|exact Ht].
Defined.

(** A link that takes next to nothing. *)
Definition narrow : Core := connected.1 <| links ::= fmap (λ st,
  match st with Up u => Up (u <| ul_max_message := 10 |>) | _ => st end) |>.
Definition ping : PendingSend := mkPendingSend (id_of bob) PING_CAP "ping" (as_bytes "hi") None.
Definition ping_plaintext : bytes :=
  to_vec_or_default (mkEnvelope WIRE_VERSION (wrap32 (next_msg_id narrow + 1)) None PING_CAP "ping" (as_bytes "hi") 0 None).

Lemma oversized_send_spends_nonce_witness :
  ∃ u s' ct c' detail, best_link (id_of bob) narrow = Some (8, u) /\
    session_encrypt (ul_session u) ping_plaintext = (s', Ok ct) /\
    dispatch_send 4000 ping (narrow, []) =
      Some (tt, (c', [Ui (UiError (Some (ul_peer u)) TooLarge detail)])) /\
    links c' !! 8 = Some (Up (u <| ul_session := s' |>)).
Proof.
  assert (holds (best_link (id_of bob) narrow) (λ '(l, u), bool_decide (l = 8) &&
    bool_decide (PING_CAP ∈ can_send u) &&
    match session_encrypt (ul_session u) ping_plaintext with
    | (_, Ok ct) => ul_max_message u <? len (join Transport ct) | _ => false end) = true) as H
    by (vm_compute; reflexivity).
  apply holds_true in H as ([l u] & Hb & [[Hl Hc]%andb_true_iff H]%andb_true_iff).
  apply bool_decide_eq_true in Hl, Hc. subst l.
  destruct (session_encrypt (ul_session u) ping_plaintext) as [s' [ct|]] eqn:Es; [|discriminate].
  apply N.ltb_lt in H. pose proof (proj1 (best_link_Some _ _ _ _ Hb)) as Hl.
  destruct (oversized_send_spends_nonce 4000 ping 8 u narrow [] ping_plaintext s' ct Hb Hl Hc) as (c' & d & E & Hu).
  - vm_compute. reflexivity.
  - exact Es.
  - exact H.
  - exists u, s', ct, c', d. split_and!; [exact Hb|exact Es|exact E|exact Hu].
Defined.


(** The pairing window of a device that asked is over. *)
Lemma tick_leaves_nothing_due_witness :
  bool_decide (is_Some (pairing looking.1)) = true /\
  ∃ o c', handle (at_time 900000) Tick looking.1 = Some (o, c') /\
    (∀ d, due_at d c' -> d <= 900000 -> plugin_wake c' = Some d).
Proof.
  split; [vm_compute; reflexivity|].
  pose proof (tick_leaves_nothing_due (at_time 900000) looking.1 (proj1 looking_good)) as Ht.
  assert (monotonic_ms (at_time 900000) < monotonic_ms (at_time 900000) +u64 BULK_DIAL_WAIT_MS) as H1
    by (vm_compute; reflexivity).
  assert (monotonic_ms (at_time 900000) < monotonic_ms (at_time 900000) +u64 dial_timeout_ms (config looking.1)) as H2
    by (vm_compute; reflexivity).
  assert (monotonic_ms (at_time 900000) < monotonic_ms (at_time 900000) +u64 reconnect_every_ms (config looking.1)) as H3
    by (vm_compute; reflexivity).
  specialize (Ht H1 H2 H3). destruct Ht as (o & c' & c1 & out1 & E & _ & Hd & _). exists o, c'. split; [exact E|].
  intros d Hdue Hle. exact (proj1 (Hd d Hdue Hle)).
Defined.

#[local] Instance toy_envelope_laws : CborLaws Envelope := toy_cbor_laws ARRAY.
#[local] Instance toy_hello_laws : CborLaws Hello := toy_cbor_laws ARRAY.

(** Two connected devices; one pings the other, and the ping arrives. *)
Definition matched (x y : UpLink) : bool :=
  let a := s_state (ul_session x) in
  let b := s_state (ul_session y) in
  bool_decide (tt_key b = tt_key a) && Bool.eqb (tt_initiator b) (negb (tt_initiator a)) &&
  (tt_received b =? tt_sent a) && forallb (λ c, bool_decide (c ∈ can_recv y)) (can_send x).

Lemma matched_true x y : matched x y = true ->
  channel (s_state (ul_session x)) [] (s_state (ul_session y)) /\ ∀ c, c ∈ can_send x -> c ∈ can_recv y.
Proof.
  intros [[[Hk%bool_decide_eq_true Hi%eqb_prop]%andb_true_iff Hn%N.eqb_eq]%andb_true_iff Hc]%andb_true_iff.
  split; [done|]. intros c Hin%list_elem_of_In. rewrite forallb_forall in Hc. by eapply bool_decide_eq_true, Hc.
Qed.

Lemma connected_coupled : coupled 8 8 connected.1 connected.2.
Proof.
  split; [apply connected_good|]. split; [apply connected_good|].
  assert (holds (up_at 8 connected.1) (λ u, holds (up_at 8 connected.2) (λ v, matched u v && matched v u))
    = true) as H by (vm_compute; reflexivity).
  apply holds_true in H as (u & Hu & (v & Hv & [[? ?]%matched_true [? ?]%matched_true]%andb_true_iff)%holds_true).
  exists u, v. split_and!; assumption.
Qed.

Definition is_lost (a : Action) : bool :=
  match a with Ui (UiError _ TooLarge _) | Ui (UiError _ Internal _) => true | _ => false end.
Definition keeps (l : LinkId) (o : Outcome) (c' : Core) : bool :=
  bool_decide (is_Some (up_at l c')) && forallb (negb ∘ is_lost) (actions o).
Lemma keeps_true l c o c' : keeps l o c' = true -> link_kept l c c' o.
Proof.
  intros [Hu%bool_decide_eq_true Ha]%andb_true_iff. split; [done|]. rewrite forallb_forall in Ha.
  intros u a _ Hin%list_elem_of_In (code & d & -> & Hcode). specialize (Ha _ Hin). by destruct Hcode as [-> | ->].
Qed.

Definition greeting : Event := Local (LocalPlugin (id_of bob) PING_CAP "ping" (as_bytes "hi")).

Lemma messages_in_order_witness :
  ∃ a b, rtc (sys_step 8 8) (mkEnd connected.1 [] [], mkEnd connected.2 [] []) (a, b) /\
    (∃ env, e_heard b = [Some env] /\ env_cap env = PING_CAP) /\ carries 8 8 a b /\ carries 8 8 b a.
Proof.
  assert (leads 4000 greeting connected.1 (λ o c1, keeps 8 o c1 &&
    match frames_on 8 (actions o) with
    | [f] => leads 4001 (LinkRecv 8 f) connected.2 (λ o2 c2, keeps 8 o2 c2) &&
             holds (up_at 8 connected.2) (λ v, holds (opened v f) (λ env, env_cap env =s PING_CAP))
    | _ => false
    end) = true) as H by (vm_compute; reflexivity).
  apply leads_true in H as (o & c1 & E & [Hk H]%andb_true_iff).
  destruct (frames_on 8 (actions o)) as [|f []] eqn:Ef; [discriminate| |discriminate].
  apply andb_true_iff in H as [(o2 & c2 & E2 & Hk2)%leads_true (v & Hv & (env & Ho & Hc)%holds_true)%holds_true].
  pose (a := mkEnd c1 [f] []). pose (b := mkEnd c2 ([] ++ frames_on 8 (actions o2)) ([] ++ [opened v f])).
  assert (rtc (sys_step 8 8) (mkEnd connected.1 [] [], mkEnd connected.2 [] []) (a, b)) as Hr.
  { eapply rtc_l; [apply (sys_left _ _ _ _ a)|apply rtc_once, sys_right].
    - unfold a. rewrite <- Ef. exact (moves_event 8 [] (mkEnd connected.1 [] []) _ greeting _ _ I E (keeps_true _ _ _ _ Hk)).
    - exact (moves_frame 8 [f] (mkEnd connected.2 [] []) _ f v o2 c2 eq_refl Hv E2 (keeps_true _ _ _ _ Hk2)). }
  exists a, b. split; [exact Hr|]. split.
  - exists env. split; [unfold b; cbn [e_heard app]; rewrite Ho; reflexivity|exact (proj1 (String.eqb_eq _ _) Hc)].
  - exact (messages_in_order 8 8 _ _ a b connected_coupled Hr).
Defined.

(** Two devices that paired before; the first has dialled the second. *)
Definition dial_out (p : Pair) : option (list DialToken * Pair) :=
  '(out, a) ← tell 3000 Tick p.1;
  '(_, b) ← tell 3001 (LinkUp 8 wifi None) p.2;
  Some (dials out, (a, b)).
Lemma dial_out_good p x q : good_pair p -> dial_out p = Some (x, q) -> good_pair q.
Proof.
  intros [Ha Hb] ([o a1] & E1 & ([u b1] & E2 & [= _ <-])%bind_Some)%bind_Some.
  split; [exact (tell_good _ _ _ _ _ Ha E1)|exact (tell_good _ _ _ _ _ Hb E2)].
Qed.
Definition dialling : Pair := after (dial_out paired) paired.
Lemma dialling_good : good_pair dialling.
Proof. apply after_good; [apply paired_good|]. intros x q. apply dial_out_good, paired_good. Qed.

Definition shared : bytes := match peers paired.1 !! id_of bob with Some r => pr_session_psk r | None => [] end.

(** One of them knows the other, and what that one says fits and is heard in time. *)
Definition expects (c : Core) (other : Identity) (sender : Core) (said heard : u64) : bool :=
  holds (peers c !! identity_device_id other) (λ r,
    bool_decide (pr_public_key r = id_public other) && bool_decide (pr_session_psk r = shared) &&
    (pr_greatest_seen r <? said)) &&
  holds (to_vec (core_hello (at_wall said sender))) (λ b, len b <=? 32000) &&
  (heard <=? said + MAX_SKEW_MS) && (said <=? heard + MAX_SKEW_MS).

Lemma expects_true c other sender said heard : expects c other sender said heard = true ->
  ∃ seen, trusts c other shared seen /\ hello_fits ik_room sender said /\ timely said heard seen.
Proof.
  intros [[[(r & Hr & [[Hk%bool_decide_eq_true Hs%bool_decide_eq_true]%andb_true_iff Hlt%N.ltb_lt]%andb_true_iff)%holds_true
    (b & Hb & Hl%N.leb_le)%holds_true]%andb_true_iff H1%N.leb_le]%andb_true_iff H2%N.leb_le]%andb_true_iff.
  exists (pr_greatest_seen r). split; [exists r; split_and!; assumption || reflexivity|]. split; [exists b; split; assumption|].
  split_and!; assumption.
Qed.

#[local] Opaque dialling shared.

Lemma dialling_meets :
  meeting dialling.1 dialling.2 wifi 8 2 shared (at_time 3001) (at_time 3001) (at_time 3002).
Proof.
  constructor.
  - exact dialling_good.
  - unfold own_keys; split_and!; vm_compute; reflexivity.
  - split; [vm_compute; reflexivity|].
    assert (holds (pending_peer_dials dialling.1 !! 2) (λ '(_, pd), bool_decide (pd_peer pd = core_device_id dialling.2))
      = true) as H by (vm_compute; reflexivity).
    apply holds_true in H as ([t pd] & Hd & Hp%bool_decide_eq_true). exists t, pd. split; assumption.
  - reflexivity.
  - assert (holds (links dialling.2 !! 8) (λ st, match st with Pending p => supports_stateful_cipher (pl_attrs p) | _ => false end)
      = true) as H by (vm_compute; reflexivity).
    apply holds_true in H as ([p| |] & Hl & Hp); [|discriminate..]. exists p. split; assumption.
  - apply expects_true. vm_compute. reflexivity.
  - apply expects_true. vm_compute. reflexivity.
Qed.

Lemma trusted_devices_meet_witness :
  ∃ f1 o1 a1 f2 o2 b1 o3 a2 u v,
    handle (at_time 3001) (LinkUp 8 wifi (Some 2)) dialling.1 = Some (o1, a1) /\ actions o1 = [LinkSend 8 f1] /\
    handle (at_time 3001) (LinkRecv 8 f1) dialling.2 = Some (o2, b1) /\
    handle (at_time 3002) (LinkRecv 8 f2) a1 = Some (o3, a2) /\
    up_at 8 a2 = Some u /\ up_at 8 b1 = Some v /\ can_send u = can_recv v.
Proof.
  destruct (trusted_devices_meet _ _ 8 8 wifi 2 shared (at_time 3001) (at_time 3001) (at_time 3002) dialling_meets)
    as (f1 & o1 & a1 & E1 & Ha & f2 & said & o2 & b1 & E2 & o3 & a2 & E3 & (u & v & Hu & Hv & _ & _ & _ & Hs & _) & _).
  exists f1, o1, a1, f2, o2, b1, o3, a2, u, v. split_and!; assumption.
Defined.

(** Two new devices; one was asked to pair with the other and has dialled it. *)
Definition ask_to_pair (p : Pair) : option (unit * Pair) :=
  '(_, a) ← tell 1000 (Local (RequestPairing 0 "bob:4040")) p.1;
  '(_, b) ← tell 1001 (LinkUp 7 wifi None) p.2;
  Some (tt, (a, b)).
Lemma ask_to_pair_good p x q : good_pair p -> ask_to_pair p = Some (x, q) -> good_pair q.
Proof.
  intros [Ha Hb] ([o a1] & E1 & ([u b1] & E2 & [= _ <-])%bind_Some)%bind_Some.
  split; [exact (tell_good _ _ _ _ _ Ha E1)|exact (tell_good _ _ _ _ _ Hb E2)].
Qed.
Definition asking : Pair := after (ask_to_pair new_pair) new_pair.
Lemma asking_good : good_pair asking.
Proof. apply after_good; [apply new_pair_good|]. intros x q. apply ask_to_pair_good, new_pair_good. Qed.

Lemma fits_true c wall : holds (to_vec (core_hello (at_wall wall c))) (λ b, len b <=? 32000) = true ->
  hello_fits xx_room c wall.
Proof. intros (b & Hb & Hl%N.leb_le)%holds_true. exists b. split; assumption. Qed.

#[local] Opaque asking.

Lemma asking_strangers : strangers asking.1 asking.2 7 1 (at_time 1001) (at_time 1002).
Proof.
  constructor.
  - exact asking_good.
  - unfold own_keys. split_and!; vm_compute; reflexivity.
  - assert (bool_decide (is_Some (pending_pair_dials asking.1 !! 1)) = true) as Hd by (vm_compute; reflexivity).
    exact (proj1 (bool_decide_eq_true _) Hd).
  - assert (holds (pairing asking.1) (λ w, bool_decide (awaiting w = None)) = true) as Hw by (vm_compute; reflexivity).
    apply holds_true in Hw as (w & Hw & Ha%bool_decide_eq_true). exists w. split; assumption.
  - assert (holds (links asking.2 !! 7) (λ st, match st with Pending p => true | _ => false end) = true) as Hl
      by (vm_compute; reflexivity).
    apply holds_true in Hl as ([p| |] & Hl & Hp); [|discriminate..]. exists p. assumption.
  - vm_compute. reflexivity.
  - split; apply fits_true; vm_compute; reflexivity.
Qed.

Lemma strangers_pair_witness :
  ∃ a2 b2 digits psk o3 o4 f3 x3 x4,
    handle (at_time 1002) x3 a2.1 = Some (o3, a2.2) /\ handle (at_time 1003) x4 b2.1 = Some (o4, b2.2) /\
    actions o3 = [LinkSend 7 f3; Ui (UiPairingSas (cfg_name (config asking.2)) (core_fingerprint asking.2) digits)] /\
    actions o4 = [Ui (UiPairingSas (cfg_name (config asking.1)) (core_fingerprint asking.1) digits)] /\
    (∃ o a3, handle (at_time 2000) (Local (ConfirmPairing true)) a2.2 = Some (o, a3) /\
       trusts a3 (identity asking.2) psk 0) /\
    (∃ o b3, handle (at_time 2001) (Local (ConfirmPairing true)) b2.2 = Some (o, b3) /\
       trusts b3 (identity asking.1) psk 0).
Proof.
  destruct (strangers_pair _ _ 7 7 wifi 1 (at_time 1001) (at_time 1001) (at_time 1002) (at_time 1003) asking_strangers)
    as (digits & psk & f1 & o1 & a1 & _ & E1 & _ & f2 & o2 & b1 & E2 & _ & f3 & o3 & a2 & E3 & _ & A3 & o4 & b2 & E4 & _ & A4 & Hyes).
  destruct (Hyes (at_time 2000) (at_time 2001)) as [(o5 & a3 & E5 & _ & _ & T5) (o6 & b3 & E6 & _ & _ & T6)].
  exists (a1, a2), (b1, b2), digits, psk, o3, o4, f3, (LinkRecv 7 f2), (LinkRecv 7 f3).
  split_and!; [exact E3|exact E4|exact A3|exact A4|exists o5, a3; split; assumption|exists o6, b3; split; assumption].
Defined.
