(* ===== verification/Strs.v ===== *)
(** * Operations of [str] the host crates use

    A [str] is a [string] (its bytes).  Every pattern below is an ASCII
    character, which a byte of a longer UTF-8 sequence never equals, so
    working on bytes is working on characters. *)

From Stdlib Require Import Ascii.
From stdpp Require Import pretty.
From S2P Require Import Prelude.

(** ** Splitting *)

(** [s.split(c)]: always at least one piece. *)
Fixpoint str_split (c : ascii) (s : string) : list string :=
  match s with
  | EmptyString => [EmptyString]
  | String a s' =>
      if Ascii.eqb a c then EmptyString :: str_split c s'
      else match str_split c s' with
           | w :: ws => String a w :: ws
           | [] => [String a EmptyString]
           end
  end.

(** [pieces.join(c)]. *)
Fixpoint str_join (c : ascii) (ws : list string) : string :=
  match ws with
  | [] => EmptyString
  | [w] => w
  | w :: ws' => w +:+ String c (str_join c ws')
  end.

(** [s.split_once(c)] and [s.rsplit_once(c)]. *)
Fixpoint str_split_once (c : ascii) (s : string) : option (string * string) :=
  match s with
  | EmptyString => None
  | String a s' =>
      if Ascii.eqb a c then Some (EmptyString, s')
      else (λ '(l, r), (String a l, r)) <$> str_split_once c s'
  end.
Fixpoint str_rsplit_once (c : ascii) (s : string) : option (string * string) :=
  match s with
  | EmptyString => None
  | String a s' =>
      match str_rsplit_once c s' with
      | Some (l, r) => Some (String a l, r)
      | None => if Ascii.eqb a c then Some (EmptyString, s') else None
      end
  end.

(** [s.matches(c).count()], [s.starts_with(p)], [s.contains(sub)]. *)
Fixpoint str_count (c : ascii) (s : string) : nat :=
  match s with
  | EmptyString => 0
  | String a s' => (if Ascii.eqb a c then 1 else 0) + str_count c s'
  end.
Fixpoint str_starts_with (p s : string) : bool :=
  match p, s with
  | EmptyString, _ => true
  | String a p', String b s' => Ascii.eqb a b && str_starts_with p' s'
  | String _ _, EmptyString => false
  end.
Fixpoint str_contains (sub s : string) : bool :=
  str_starts_with sub s ||
  match s with EmptyString => false | String _ s' => str_contains sub s' end.

(** [s.strip_prefix(p)]. *)
Fixpoint str_strip_prefix (p s : string) : option string :=
  match p, s with
  | EmptyString, _ => Some s
  | String a p', String b s' => if Ascii.eqb a b then str_strip_prefix p' s' else None
  | String _ _, EmptyString => None
  end.

(** Printing an unsigned integer in decimal. *)
Definition fmt_u64 (n : N) : string := pretty n.

(** ** Lemmas *)

#[local] Arguments String.append !_ _ : simpl nomatch.

Lemma str_app_assoc (a b c : string) : (a +:+ b) +:+ c = a +:+ (b +:+ c).
Proof. induction a as [|x a IH]; [done|]. simpl. by rewrite IH. Qed.

Lemma str_length_app s t : String.length (s +:+ t) = (String.length s + String.length t)%nat.
Proof.
  induction s as [|c s IH]; [done|]. change (String c s +:+ t) with (String c (s +:+ t)).
  cbn [String.length]. by rewrite IH.
Qed.

Lemma str_app_nil_r (a : string) : a +:+ EmptyString = a.
Proof. induction a as [|x a IH]; [done|]. simpl. by rewrite IH. Qed.

Lemma str_app_inj_l (a b c : string) : a +:+ b = a +:+ c -> b = c.
Proof. induction a as [|x a IH]; [done|]. simpl. intros [= H]. by apply IH. Qed.

Lemma str_split_nonempty c s : str_split c s <> [].
Proof. destruct s as [|a s]; [done|]. cbn. repeat case_match; done. Qed.

Lemma str_count_app c a b : str_count c (a +:+ b) = (str_count c a + str_count c b)%nat.
Proof. induction a as [|x a IH]; [done|]. cbn. rewrite IH. lia. Qed.

(** A split puts back together. *)
Lemma str_join_split c s : str_join c (str_split c s) = s.
Proof.
  induction s as [|a s IH]; [done|]. cbn. destruct (Ascii.eqb_spec a c) as [->|H].
  - pose proof (str_split_nonempty c s). destruct (str_split c s) eqn:E; [done|].
    cbn. cbn in IH. by rewrite IH.
  - pose proof (str_split_nonempty c s). destruct (str_split c s) as [|w ws] eqn:E; [done|].
    destruct ws as [|w' ws']; cbn in *; by rewrite <- IH.
Qed.

(** No piece holds the separator, and joining such pieces splits back. *)
Lemma str_split_pieces c s : Forall (λ w, str_count c w = 0%nat) (str_split c s).
Proof.
  induction s as [|a s IH]; [by repeat constructor|]. cbn.
  destruct (Ascii.eqb a c) eqn:Ea; [by constructor|].
  destruct (str_split c s) as [|w ws]; [constructor; [cbn; by rewrite Ea|done]|].
  apply Forall_cons in IH as [Hw Hws]. constructor; [|done]. cbn. by rewrite Ea.
Qed.

Lemma str_split_none c s : str_count c s = 0%nat -> str_split c s = [s].
Proof.
  induction s as [|a s IH]; [done|]. cbn. destruct (Ascii.eqb a c); [done|].
  intros H. by rewrite IH.
Qed.

Lemma str_split_app c w s :
  str_count c w = 0%nat -> str_split c (w +:+ String c s) = w :: str_split c s.
Proof.
  induction w as [|a w IH]; cbn.
  - by rewrite Ascii.eqb_refl.
  - destruct (Ascii.eqb a c); [done|]. intros H. by rewrite IH.
Qed.

Lemma str_split_join c ws :
  ws <> [] -> Forall (λ w, str_count c w = 0%nat) ws -> str_split c (str_join c ws) = ws.
Proof.
  induction ws as [|w ws IH]; [done|]. intros _ [Hw Hws]%Forall_cons.
  destruct ws as [|w' ws']; [by apply str_split_none|].
  change (str_join c (w :: w' :: ws')) with (w +:+ String c (str_join c (w' :: ws'))).
  rewrite str_split_app by done. by rewrite IH.
Qed.

Lemma str_rsplit_once_spec c s l r :
  str_rsplit_once c s = Some (l, r) -> s = l +:+ String c r /\ str_count c r = 0%nat.
Proof.
  revert l r. assert (∀ s, str_rsplit_once c s = None -> str_count c s = 0%nat) as Hn.
  { clear. induction s as [|a s IH]; [done|]. cbn.
    destruct (str_rsplit_once c s) as [[]|]; [done|].
    destruct (Ascii.eqb a c); [done|]. intros _. by rewrite IH. }
  induction s as [|a s IH]; intros l r; [done|]. cbn.
  destruct (str_rsplit_once c s) as [[l' r']|] eqn:E.
  - intros [= <- <-]. destruct (IH l' r' eq_refl) as [-> Hc]. done.
  - destruct (Ascii.eqb_spec a c) as [->|]; [|done]. intros [= <- <-]. split; [done|by apply Hn].
Qed.

Lemma str_rsplit_once_none c s : str_rsplit_once c s = None <-> str_count c s = 0%nat.
Proof.
  induction s as [|a s IH]; [done|]. cbn.
  destruct (str_rsplit_once c s) as [[]|].
  - split; [done|]. intros H. assert (str_count c s = 0%nat) by lia. by apply IH in H0.
  - assert (str_count c s = 0%nat) as -> by by apply IH. by destruct (Ascii.eqb a c).
Qed.

Lemma str_rsplit_once_app c l r :
  str_count c r = 0%nat -> str_rsplit_once c (l +:+ String c r) = Some (l, r).
Proof.
  intros Hr. induction l as [|a l IH]; cbn.
  - apply str_rsplit_once_none in Hr. by rewrite Hr, Ascii.eqb_refl.
  - by rewrite IH.
Qed.

Lemma str_starts_with_spec p s : str_starts_with p s = true <-> ∃ r, s = p +:+ r.
Proof.
  revert s. induction p as [|a p IH]; intros s.
  - split; [by exists s|by destruct s].
  - destruct s as [|b s]; cbn; [split; [done|intros [? ?]; done]|].
    rewrite andb_true_iff, IH, Ascii.eqb_eq. split.
    + intros [-> [r ->]]. by exists r.
    + intros [r [= -> ->]]. split; [done|by exists r].
Qed.

Lemma str_strip_prefix_spec p s r : str_strip_prefix p s = Some r <-> s = p +:+ r.
Proof.
  revert s. induction p as [|a p IH]; intros s; cbn.
  - split; [by intros [= ->]|by intros ->].
  - destruct s as [|b s]; [done|]. destruct (Ascii.eqb_spec a b) as [->|H].
    + rewrite IH. split; [by intros ->|by intros [= ->]].
    + split; [done|]. intros [= ? ?]. congruence.
Qed.

(** Decimal printing determines the number. *)
Lemma fmt_u64_inj a b : fmt_u64 a = fmt_u64 b -> a = b.
Proof. apply (inj pretty). Qed.

Lemma str_contains_dots s : str_count "." s = 0%nat -> str_contains ".." s = false.
Proof.
  induction s as [|a s IH]; [done|]. cbn [str_count str_contains str_starts_with].
  rewrite (Ascii.eqb_sym "." a).
  destruct (Ascii.eqb a "."); [done|]. intros H. by rewrite IH.
Qed.

(** A character that is not a digit is in no printed number. *)
Lemma str_count_fmt_u64 c n : (∀ k, Ascii.eqb (pretty_N_char k) c = false) -> str_count c (fmt_u64 n) = 0%nat.
Proof.
  intros Hc. unfold fmt_u64, pretty, pretty_N. case_decide as Hn.
  - pose proof (Hc 0%N) as H0. cbn in H0. cbn. by rewrite H0.
  - clear Hn. assert (∀ s, str_count c (pretty_N_go n s) = str_count c s) as H; [|by rewrite H].
    induction (N.lt_wf_0 n) as [n _ IH]; intros s.
    destruct (decide (n = 0)%N) as [->|Hn]; [by rewrite pretty_N_go_0|].
    rewrite pretty_N_go_step by lia. rewrite IH by (apply N.div_lt; lia).
    cbn. by rewrite Hc.
Qed.

(** ** Numbers and words *)

Local Open Scope N_scope.

Definition digit_of (c : ascii) : option N :=
  let n := Byte.to_N (byte_of_ascii c) in
  if (48 <=? n) && (n <=? 57) then Some (n - 48) else None.
Fixpoint parse_digits (acc : N) (s : string) : option N :=
  match s with
  | EmptyString => Some acc
  | String c s' => d ← digit_of c; parse_digits (acc * 10 + d) s'
  end.
(** [str::parse] of an unsigned integer type whose greatest value is [max]: at
    least one digit, a plus sign before them at most. *)
Definition parse_uint (max : N) (s : string) : option N :=
  let s := match s with String "+" s' => s' | _ => s end in
  match s with
  | EmptyString => None
  | _ => n ← parse_digits 0 s; if n <=? max then Some n else None
  end.

(** [char::is_whitespace], of the characters below 0x80. *)
Definition is_space (c : ascii) : bool :=
  let n := Byte.to_N (byte_of_ascii c) in ((9 <=? n) && (n <=? 13)) || (n =? 32).
(** [str::split_whitespace], [str::trim] of text without other white space. *)
Fixpoint split_words (s : string) : list string :=
  match s with
  | EmptyString => []
  | String c s' =>
      if is_space c then split_words s'
      else match s' with
           | EmptyString => [String c EmptyString]
           | String c' _ =>
               if is_space c' then String c EmptyString :: split_words s'
               else match split_words s' with
                    | w :: ws => String c w :: ws
                    | [] => [String c EmptyString]
                    end
           end
  end.
Fixpoint trim_start (s : string) : string :=
  match s with String c s' => if is_space c then trim_start s' else s | EmptyString => s end.
Fixpoint trim_end (s : string) : string :=
  match s with
  | EmptyString => EmptyString
  | String c s' =>
      match trim_end s' with
      | EmptyString => if is_space c then EmptyString else String c EmptyString
      | t => String c t
      end
  end.
Definition str_trim (s : string) : string := trim_end (trim_start s).

(** [str::to_ascii_lowercase]. *)
Fixpoint str_lower (s : string) : string :=
  match s with
  | EmptyString => EmptyString
  | String c s' =>
      let n := Byte.to_N (byte_of_ascii c) in
      String (if (65 <=? n) && (n <=? 90) then ascii_of_byte (byte_of (n + 32)) else c) (str_lower s')
  end.
