(* ===== verification/Floats.v ===== *)
(** * [f64]

    Binary64 as the standard library of Rocq specifies it ([SpecFloat]), read
    from text and written to it as Rust does, and the wording of sizes that goes
    through it. *)

From Stdlib Require Import Ascii SpecFloat.
From S2P Require Import Prelude Strs.
Local Open Scope N_scope.

(** [f64]: binary64 as the standard library of Rocq specifies it. *)
Abbreviation f64 := spec_float.
Definition f64_one : f64 := S754_finite false 4503599627370496 (-52).
Definition f64_zero : f64 := S754_zero false.
Definition f64_hundred : f64 := S754_finite false 7036874417766400 (-46).
Definition f64_mul : f64 -> f64 -> f64 := SFmul 53 1024.
Definition f64_div : f64 -> f64 -> f64 := SFdiv 53 1024.

(** [n as f64], of an unsigned integer. *)
Definition f64_of_N (n : N) : f64 :=
  match n with 0 => f64_zero | Npos p => binary_round 53 1024 false p 0 end.

(** [f64::clamp]. *)
Definition f64_clamp (x lo hi : f64) : f64 :=
  let x := if SFltb x lo then lo else x in if SFltb hi x then hi else x.

(** [f64::round] then [as u8]: to the nearest integer, away from zero from the
    middle; what is outside the type goes to its nearest bound and a NaN to 0. *)
Definition f64_round_u8 (x : f64) : u8 :=
  match x with
  | S754_finite false m e =>
      let n := match e with
               | Z0 => Npos m
               | Zpos k => Npos m * 2 ^ Npos k
               | Zneg k => (Npos m + 2 ^ (Npos k - 1)) / 2 ^ Npos k
               end in N.min n 255
  | S754_infinity false => 255
  | _ => 0
  end.

(** A fraction as a percentage: [(v.clamp(0.0, 1.0) * 100.0).round() as u8]. *)
Definition f64_percent (v : f64) : u8 := f64_round_u8 (f64_mul (f64_clamp v f64_zero f64_one) f64_hundred).

(** The decimal digits at the head of a text, their value after [acc] and their
    number. *)
Fixpoint leading_digits (acc : N) (count : nat) (s : string) : N * nat * string :=
  match s with
  | String c s' =>
      match digit_of c with Some d => leading_digits (acc * 10 + d) (S count) s' | None => (acc, count, s) end
  | EmptyString => (acc, count, EmptyString)
  end.

(** [[+-]?digits], nothing after. *)
Definition parse_exponent (s : string) : option Z :=
  let '(neg, s) := match s with String "-" s' => (true, s') | String "+" s' => (false, s') | _ => (false, s) end in
  let '(n, count, rest) := leading_digits 0 0 s in
  match count, rest with
  | S _, EmptyString => Some (if neg : bool then - Z.of_N n else Z.of_N n)%Z
  | _, _ => None
  end.

(** The nearest [f64] to m * 10^e. *)
Definition f64_of_decimal (neg : bool) (m : N) (e : Z) : f64 :=
  match m with
  | 0 => S754_zero neg
  | Npos m =>
      match e with
      | Zneg k => SFdiv 53 1024 (S754_finite neg m 0) (S754_finite false (10 ^ k) 0)
      | Z0 => binary_round 53 1024 neg m 0
      | Zpos k => binary_round 53 1024 neg (m * 10 ^ k) 0
      end
  end.

(** [str::parse] of an [f64]. *)
Definition parse_f64 (s : string) : option f64 :=
  let '(neg, s) := match s with String "-" s' => (true, s') | String "+" s' => (false, s') | _ => (false, s) end in
  let word := str_lower s in
  if (word =s "inf") || (word =s "infinity") then Some (S754_infinity neg)
  else if word =s "nan" then Some S754_nan
  else
    let '(int, n_int, rest) := leading_digits 0 0 s in
    let '(all, n_frac, rest) :=
      match rest with String "." rest => leading_digits int 0 rest | _ => (int, 0%nat, rest) end in
    match (n_int + n_frac)%nat with
    | 0%nat => None
    | _ =>
        let exponent := match rest with
                        | EmptyString => Some 0%Z
                        | String "e" r | String "E" r => parse_exponent r
                        | _ => None
                        end in
        (λ e, f64_of_decimal neg all (e - Z.of_nat n_frac)) <$> exponent
    end.

(** [{:.1}], of a finite number that is not negative: to the nearest tenth, to
    the even digit from the middle. *)
Definition f64_tenths (x : f64) : N :=
  match x with
  | S754_finite _ m e =>
      match e with
      | Z0 => Npos m * 10
      | Zpos k => Npos m * 2 ^ Npos k * 10
      | Zneg k =>
          let d := 2 ^ Npos k in
          let q := Npos m * 10 / d in
          let r := Npos m * 10 mod d in
          match 2 * r ?= d with
          | Lt => q
          | Gt => q + 1
          | Eq => if N.even q then q else q + 1
          end
      end
  | _ => 0
  end.
Definition fmt_one_decimal (x : f64) : string :=
  let n := f64_tenths x in (fmt_u64 (n / 10) +:+ "." +:+ fmt_u64 (n mod 10))%string.

Definition f64_1024 : f64 := S754_finite false 4503599627370496 (-42).

(** Divided by 1024 as long as there is a unit for it. *)
Fixpoint scale (size : f64) (unit : string) (units : list string) : f64 * string :=
  match units with
  | next :: units => if SFleb f64_1024 size then scale (f64_div size f64_1024) next units else (size, unit)
  | [] => (size, unit)
  end.
(** A size in words, bytes as they are. *)
Definition size_in (units : list string) (bytes : u64) : string :=
  let '(size, unit) := scale (f64_of_N bytes) "B" units in
  if (unit =s "B")%string then (fmt_u64 bytes +:+ " B")%string
  else (fmt_one_decimal size +:+ " " +:+ unit)%string.
