(* ===== verification/Utf8.v ===== *)
(** * UTF-8

    A Rust [str] is the UTF-8 of its [char]s.  Where the code goes through a
    string's characters and builds one from characters again ([safe_name] and
    the paths made of its result), the two views meet here. *)

From Stdlib Require Import Ascii.
From S2P Require Import Prelude Strs Bulk.
Local Open Scope N_scope.

(** A Unicode scalar value lies below this; surrogates are no different here. *)
Definition CHAR_END : N := 0x110000.

(** [char::encode_utf8]. *)
Definition encode_char (c : N) : bytes :=
  if c <? 0x80 then [byte_of c]
  else if c <? 0x800 then [byte_of (0xC0 + c / 64); byte_of (0x80 + c mod 64)]
  else if c <? 0x10000 then
    [byte_of (0xE0 + c / 4096); byte_of (0x80 + c / 64 mod 64); byte_of (0x80 + c mod 64)]
  else [byte_of (0xF0 + c / 262144); byte_of (0x80 + c / 4096 mod 64);
        byte_of (0x80 + c / 64 mod 64); byte_of (0x80 + c mod 64)].
Definition of_chars (l : list N) : string := of_bytes (concat (map encode_char l)).

(** What [chars] takes any bytes at all to be. *)
Definition WIDE : N := 0x400000.

(** [str::chars], of bytes that are valid UTF-8. *)
Fixpoint decode_chars (b : bytes) : list N :=
  match b with
  | [] => []
  | x0 :: r0 =>
      let n0 := Byte.to_N x0 in
      if n0 <? 0x80 then n0 :: decode_chars r0
      else match r0 with
      | [] => []
      | x1 :: r1 =>
          let n1 := Byte.to_N x1 mod 64 in
          if n0 <? 0xE0 then ((n0 - 0xC0) * 64 + n1) :: decode_chars r1
          else match r1 with
          | [] => []
          | x2 :: r2 =>
              let n2 := Byte.to_N x2 mod 64 in
              if n0 <? 0xF0 then ((n0 - 0xE0) * 4096 + n1 * 64 + n2) :: decode_chars r2
              else match r2 with
              | [] => []
              | x3 :: r3 =>
                  ((n0 - 0xF0) * 262144 + n1 * 4096 + n2 * 64 + Byte.to_N x3 mod 64)
                  :: decode_chars r3
              end
          end
      end
  end.
Definition chars (s : string) : list N := decode_chars (as_bytes s).

Lemma ltb_true a b : a < b -> (a <? b) = true.
Proof. apply N.ltb_lt. Qed.
Lemma ltb_false a b : b <= a -> (a <? b) = false.
Proof. apply N.ltb_ge. Qed.

Lemma decode_encode_char c r : c < CHAR_END -> decode_chars (encode_char c ++ r) = c :: decode_chars r.
Proof.
  unfold CHAR_END. intros Hc. unfold encode_char.
  destruct (N.ltb_spec c 0x80); [|destruct (N.ltb_spec c 0x800); [|destruct (N.ltb_spec c 0x10000)]];
    cbn [app decode_chars]; rewrite !byte_of_small by divlia.
  - by rewrite ltb_true.
  - rewrite ltb_false, ltb_true by divlia. f_equal. divlia.
  - rewrite !ltb_false, ltb_true by divlia. f_equal. divlia.
  - rewrite !ltb_false by divlia. f_equal. divlia.
Qed.

(** What is put together from characters comes apart into them. *)
Lemma chars_of_chars l : Forall (λ c, c < CHAR_END) l -> chars (of_chars l) = l.
Proof.
  unfold chars, of_chars. rewrite as_of_bytes.
  induction 1 as [|c l Hc _ IH]; [done|]. cbn [map concat]. by rewrite decode_encode_char, IH.
Qed.

(** ** A character below 0x80 is in the string where it is in the list *)

Lemma str_count_of_bytes a b :
  str_count a (of_bytes b) = length (List.filter (λ x, Ascii.eqb a (ascii_of_byte x)) b).
Proof.
  induction b as [|x b IH]; [done|].
  change (of_bytes (x :: b)) with (String (ascii_of_byte x) (of_bytes b)). cbn [str_count List.filter].
  rewrite IH, (Ascii.eqb_sym a). by destruct (Ascii.eqb _ a).
Qed.

Lemma encode_char_high c x : 0x80 <= c -> c < WIDE -> x ∈ encode_char c -> 0x80 <= Byte.to_N x.
Proof.
  unfold WIDE. intros H1 H2. unfold encode_char. rewrite (ltb_false c 0x80) by done.
  destruct (N.ltb_spec c 0x800); [|destruct (N.ltb_spec c 0x10000)];
    rewrite !elem_of_cons, elem_of_nil; intros Hx; destruct_or?; subst; try done;
    rewrite byte_of_small by divlia; divlia.
Qed.

Lemma no_slash l :
  Forall (λ c, c < WIDE /\ c <> 47) l -> str_count "/" (of_chars l) = 0%nat.
Proof.
  intros Hl. unfold of_chars. rewrite str_count_of_bytes.
  assert (∀ x, x ∈ concat (map encode_char l) -> Ascii.eqb "/" (ascii_of_byte x) = false) as Hx.
  { intros x Hx. apply list_elem_of_In, in_concat in Hx as (e & He & Hx). apply in_map_iff in He as (c & <- & Hc).
    apply list_elem_of_In in Hc, Hx. rewrite Forall_forall in Hl. destruct (Hl c Hc) as [Hlt Hne].
    assert (Byte.to_N x <> 47) as Hn.
    { destruct (N.lt_ge_cases c 0x80) as [Hlow|Hhigh].
      - unfold encode_char in Hx. rewrite ltb_true in Hx by done.
        apply list_elem_of_singleton in Hx as ->. by rewrite byte_of_small by lia.
      - pose proof (encode_char_high c x Hhigh Hlt Hx). lia. }
    apply Ascii.eqb_neq. intros E. apply Hn.
    by destruct x. }
  induction (concat (map encode_char l)) as [|x b IH]; [done|]. cbn [List.filter].
  rewrite Hx by left. apply IH. intros y Hy. apply Hx. by right.
Qed.

Lemma of_chars_empty l : of_chars l = ""%string -> l = [].
Proof.
  destruct l as [|c l]; [done|]. intros E. apply (f_equal as_bytes) in E. unfold of_chars in E.
  rewrite as_of_bytes in E. cbn in E. unfold encode_char in E. by repeat case_match.
Qed.

(** ** A name made safe, as a path component *)

(** [bulk::safe_name], on a string. *)
Definition safe_component (offered : string) : string := of_chars (safe_name (chars offered)).

Lemma decode_chars_bound fuel b : (length b < fuel)%nat -> Forall (λ c, c < WIDE) (decode_chars b).
Proof.
  unfold WIDE.
  revert b. induction fuel as [|fuel IH]; intros b Hb; [lia|].
  destruct b as [|x0 b]; [constructor|]. cbn [decode_chars]. pose proof (byte_to_N_lt x0).
  destruct (N.ltb_spec (Byte.to_N x0) 0x80); [constructor; [divlia|apply IH; cbn in Hb; lia]|].
  destruct b as [|x1 b]; [constructor|]. pose proof (byte_to_N_lt x1).
  destruct (N.ltb_spec (Byte.to_N x0) 0xE0); [constructor; [divlia|apply IH; cbn in Hb; lia]|].
  destruct b as [|x2 b]; [constructor|]. pose proof (byte_to_N_lt x2).
  destruct (N.ltb_spec (Byte.to_N x0) 0xF0); [constructor; [divlia|apply IH; cbn in Hb; lia]|].
  destruct b as [|x3 b]; [constructor|]. pose proof (byte_to_N_lt x3).
  constructor; [divlia|apply IH; cbn in Hb; lia].
Qed.

Lemma safe_name_incl offered c : c ∈ safe_name offered -> c ∈ offered \/ c ∈ str_chars "received".
Proof.
  destruct (safe_name_cases offered) as [-> | (d & s & -> & [k Hk] & _)]; [by right|].
  intros Hc. left. assert (c ∈ trimmed_name offered) as H by (rewrite Hk; apply elem_of_app; by left).
  unfold trimmed_name in H. apply trim_incl, trim_start_by_incl, trim_incl in H.
  apply list_elem_of_In, filter_In in H as [H _]. by apply list_elem_of_In, rsplit_last_incl in H as [H _].
Qed.

(** It is not empty and holds no slash. *)
Lemma safe_component_ok offered :
  safe_component offered <> ""%string /\ str_count "/" (safe_component offered) = 0%nat.
Proof.
  unfold safe_component. destruct (safe_name_safe (chars offered)) as (Hs & Hne & _). split.
  - by intros ?%of_chars_empty.
  - apply no_slash, Forall_forall. intros c Hc. split.
    + apply safe_name_incl in Hc as [Hc|Hc].
      * assert (Forall (λ c, c < WIDE) (chars offered)) as Hw by (apply (decode_chars_bound (S (length (as_bytes offered)))); lia).
        rewrite Forall_forall in Hw. by apply Hw.
      * revert c Hc. apply Forall_forall. repeat constructor.
    + rewrite Forall_forall in Hs. destruct (Hs c Hc) as [Hsep _]. intros ->. done.
Qed.

(** ** [String::from_utf8_lossy] *)

(** U+FFFD. *)
Definition REPLACEMENT : bytes := [byte_of 0xEF; byte_of 0xBF; byte_of 0xBD].
Definition within (lo hi : N) (x : Byte.byte) : bool := (lo <=? Byte.to_N x) && (Byte.to_N x <=? hi).
Definition is_cont : Byte.byte -> bool := within 0x80 0xBF.
(** What may follow the first byte of three and of four: no overlong form, no
    surrogate, nothing past the last character. *)
Definition second_of_3 (n0 : N) : Byte.byte -> bool :=
  within (if n0 =? 0xE0 then 0xA0 else 0x80) (if n0 =? 0xED then 0x9F else 0xBF).
Definition second_of_4 (n0 : N) : Byte.byte -> bool :=
  within (if n0 =? 0xF0 then 0x90 else 0x80) (if n0 =? 0xF4 then 0x8F else 0xBF).

(** Each longest piece that starts no character becomes one replacement. *)
Fixpoint lossy (b : bytes) : bytes :=
  match b with
  | [] => []
  | x0 :: r0 =>
      let n0 := Byte.to_N x0 in
      if n0 <? 0x80 then x0 :: lossy r0
      else match r0 with
      | [] => REPLACEMENT
      | x1 :: r1 =>
          if (0xC2 <=? n0) && (n0 <? 0xE0) && is_cont x1 then x0 :: x1 :: lossy r1
          else if (0xE0 <=? n0) && (n0 <? 0xF0) && second_of_3 n0 x1 then
            match r1 with
            | [] => REPLACEMENT
            | x2 :: r2 => if is_cont x2 then x0 :: x1 :: x2 :: lossy r2 else REPLACEMENT ++ lossy r1
            end
          else if (0xF0 <=? n0) && (n0 <? 0xF5) && second_of_4 n0 x1 then
            match r1 with
            | [] => REPLACEMENT
            | x2 :: r2 =>
                if is_cont x2 then
                  match r2 with
                  | [] => REPLACEMENT
                  | x3 :: r3 =>
                      if is_cont x3 then x0 :: x1 :: x2 :: x3 :: lossy r3 else REPLACEMENT ++ lossy r2
                  end
                else REPLACEMENT ++ lossy r1
            end
          else REPLACEMENT ++ lossy r0
      end
  end.
Definition from_utf8_lossy (b : bytes) : string := of_bytes (lossy b).

Definition is_scalar (c : N) : Prop := c < 0xD800 \/ (0xE000 <= c /\ c < CHAR_END).

Lemma within_true lo hi n : n < 256 -> lo <= n -> n <= hi -> within lo hi (byte_of n) = true.
Proof.
  intros Hn H1 H2. unfold within. rewrite byte_of_small by done.
  by rewrite (proj2 (N.leb_le _ _) H1), (proj2 (N.leb_le _ _) H2).
Qed.
Lemma is_cont_mod n : is_cont (byte_of (0x80 + n mod 64)) = true.
Proof. apply within_true; divlia. Qed.

(** What starts a character of one, two, three and four bytes is kept. *)
Lemma lossy_1 x0 r : Byte.to_N x0 < 0x80 -> lossy (x0 :: r) = x0 :: lossy r.
Proof. intros H. cbn [lossy]. by rewrite ltb_true. Qed.
Lemma lossy_2 x0 x1 r :
  0xC2 <= Byte.to_N x0 -> Byte.to_N x0 < 0xE0 -> is_cont x1 = true -> lossy (x0 :: x1 :: r) = x0 :: x1 :: lossy r.
Proof.
  intros H1 H2 H3. unfold lossy at 1. fold lossy. rewrite (ltb_false (Byte.to_N x0) 0x80), (ltb_true (Byte.to_N x0) 0xE0), H3 by lia.
  by rewrite (proj2 (N.leb_le _ _) H1).
Qed.
Lemma lossy_3 x0 x1 x2 r :
  0xE0 <= Byte.to_N x0 -> Byte.to_N x0 < 0xF0 -> second_of_3 (Byte.to_N x0) x1 = true -> is_cont x2 = true ->
  lossy (x0 :: x1 :: x2 :: r) = x0 :: x1 :: x2 :: lossy r.
Proof.
  intros H1 H2 H3 H4. unfold lossy at 1. fold lossy. rewrite (ltb_false (Byte.to_N x0) 0x80), (ltb_false (Byte.to_N x0) 0xE0) by lia.
  by rewrite (proj2 (N.leb_le _ _) H1), (ltb_true (Byte.to_N x0) 0xF0), H3, H4, andb_false_r by lia.
Qed.
Lemma lossy_4 x0 x1 x2 x3 r :
  0xF0 <= Byte.to_N x0 -> Byte.to_N x0 < 0xF5 -> second_of_4 (Byte.to_N x0) x1 = true ->
  is_cont x2 = true -> is_cont x3 = true ->
  lossy (x0 :: x1 :: x2 :: x3 :: r) = x0 :: x1 :: x2 :: x3 :: lossy r.
Proof.
  intros H1 H2 H3 H4 H5. unfold lossy at 1. fold lossy.
  rewrite (ltb_false (Byte.to_N x0) 0x80), (ltb_false (Byte.to_N x0) 0xE0), (ltb_false (Byte.to_N x0) 0xF0) by lia.
  by rewrite (proj2 (N.leb_le _ _) H1), (ltb_true (Byte.to_N x0) 0xF5), H3, H4, H5, !andb_false_r by lia.
Qed.

Lemma lossy_char c r : is_scalar c -> lossy (encode_char c ++ r) = encode_char c ++ lossy r.
Proof.
  unfold is_scalar, CHAR_END. intros Hc. unfold encode_char.
  destruct (N.ltb_spec c 0x80); [|destruct (N.ltb_spec c 0x800); [|destruct (N.ltb_spec c 0x10000)]]; cbn [app].
  - apply lossy_1. rewrite byte_of_small; lia.
  - apply lossy_2; [rewrite byte_of_small; divlia..|apply is_cont_mod].
  - apply lossy_3; [rewrite byte_of_small; divlia..| |apply is_cont_mod].
    rewrite byte_of_small by divlia. apply within_true; [divlia| |].
    + destruct (N.eqb_spec (0xE0 + c / 4096) 0xE0); divlia.
    + destruct (N.eqb_spec (0xE0 + c / 4096) 0xED); divlia.
  - apply lossy_4; [rewrite byte_of_small; divlia..| |apply is_cont_mod|apply is_cont_mod].
    rewrite byte_of_small by divlia. apply within_true; [divlia| |].
    + destruct (N.eqb_spec (0xF0 + c / 262144) 0xF0); divlia.
    + destruct (N.eqb_spec (0xF0 + c / 262144) 0xF4); divlia.
Qed.

(** A text comes back from its bytes as it was. *)
Lemma lossy_text l : Forall is_scalar l -> from_utf8_lossy (as_bytes (of_chars l)) = of_chars l.
Proof.
  intros Hl. unfold from_utf8_lossy, of_chars. rewrite as_of_bytes. f_equal.
  induction Hl as [|c l Hc _ IH]; [done|]. cbn [map concat]. by rewrite lossy_char, IH.
Qed.
