(* ===== verification/Fs.v ===== *)
(** * The file system the hosts write to

    What [std::fs] and [tokio::fs] do for the source, as programs in a state
    and error monad over a disk.  A disk is a map from paths to inodes, the
    inodes, and what a power cut may bring back: every directory state since a
    directory was last synced is a state the disk may be found in, and a file
    that was not synced may be found with any contents.  Faults are part of
    the disk's state: any call may fail, and the machine may halt before any
    call, after which nothing happens any more.

    Paths are their components; the directories themselves are taken as
    present.  A file handle is an inode number, as a descriptor is. *)

From Stdlib Require Import Ascii.
From S2P Require Import Prelude Strs.
Local Open Scope N_scope.

(** ** [std::path] *)

Abbreviation path := (list string).

(** The components of a relative path: an empty one and [.] are normalised away. *)
Definition components (s : string) : path :=
  List.filter (λ c, negb (bool_decide (c = "" \/ c = ".")%string)) (str_split "/" s).

(** [Path::join]: an absolute argument replaces the path. *)
Definition path_join (p : path) (s : string) : path :=
  if str_starts_with "/" s then components s else p ++ components s.

(** [Path::parent], [Path::file_name], [Path::with_file_name]. *)
Definition parent (p : path) : path := removelast p.
Definition file_name (p : path) : option string :=
  match last p with
  | Some n => if bool_decide (n = "..")%string then None else Some n
  | None => None
  end.
Definition with_file_name (p : path) (n : string) : path :=
  path_join (match file_name p with Some _ => parent p | None => p end) n.

(** A name before and after its last dot; a name that only starts with a dot
    has no extension. *)
Definition split_at_dot (n : string) : string * option string :=
  match str_rsplit_once "." n with
  | None | Some (EmptyString, _) => (n, None)
  | Some (l, r) => (l, Some r)
  end.
Definition extension (p : path) : option string := file_name p ≫= λ n, (split_at_dot n).2.
(** [Path::with_extension], for an extension that is not empty. *)
Definition with_extension (p : path) (e : string) : path :=
  match file_name p with
  | None => p
  | Some n => parent p ++ [((split_at_dot n).1 +:+ String "." e)%string]
  end.

(** A path that ends in a name. *)
Definition named (p : path) : Prop := ∃ n, file_name p = Some n /\ n <> ""%string.

Lemma named_last q n : file_name q = Some n -> last q = Some n /\ n <> ".."%string.
Proof.
  unfold file_name. destruct (last q) as [m|]; [|done]. case_bool_decide; [done|].
  by intros [= ->].
Qed.

Lemma parent_snoc (q : path) n : parent (q ++ [n]) = q.
Proof. apply removelast_last. Qed.

Lemma parent_with_extension q e : named q -> parent (with_extension q e) = parent q.
Proof. intros (n & Hn & _). unfold with_extension. by rewrite Hn, parent_snoc. Qed.

(** The extension given is the extension found. *)
Lemma extension_with_extension q e :
  named q -> e <> ""%string -> str_count "." e = 0%nat ->
  extension (with_extension q e) = Some e.
Proof.
  intros (n & Hn & Hne) He Hc. unfold extension, with_extension. rewrite Hn.
  assert ((split_at_dot n).1 <> ""%string) as Hs.
  { unfold split_at_dot. destruct (str_rsplit_once "." n) as [[[|] ?]|]; done. }
  set (stem := (split_at_dot n).1) in *. clearbody stem.
  unfold file_name. rewrite last_snoc. rewrite bool_decide_eq_false_2; cbn.
  - unfold split_at_dot. rewrite str_rsplit_once_app by done. by destruct stem.
  - intros E. assert (str_count "." (stem +:+ String "." e) = 2%nat) as H2 by by rewrite E.
    destruct stem as [|a [|b stem]]; [done| |].
    + injection E as -> Ee. done.
    + injection E as _ _ E. by destruct stem.
Qed.

(** ** Disks *)

Inductive ErrorKind := NotFound | AlreadyExists | UnexpectedEof | InvalidInput | OtherError.
#[global] Instance ErrorKind_eq_dec : EqDecision ErrorKind.
Proof. solve_decision. Defined.

Abbreviation ino := N.
Record inode := mkInode { data : bytes; mode : N; synced : bool }.
#[global] Instance inode_eta : Eta inode := λ i, mkInode (data i) (mode i) (synced i).

(** What befalls the next call: it goes through, it fails after [progress]
    bytes of it took effect, or the machine halts. *)
Inductive fault := Fine | Fails (progress : nat) | Halts.

Record disk := mkDisk {
  dir : gmap path ino;
  inodes : gmap ino inode;
  fresh_ino : ino;
  past : list (gmap path ino);
  faults : list fault;
}.
#[global] Instance disk_eta : Eta disk := λ d,
  mkDisk (dir d) (inodes d) (fresh_ino d) (past d) (faults d).

Definition empty_disk : disk := mkDisk ∅ ∅ 0 [] [].

Definition read_back (d : disk) (p : path) : option bytes :=
  dir d !! p ≫= λ i, data <$> inodes d !! i.

(** ** Programs *)

Definition io (E A : Type) : Type := disk -> result A E * disk.
Definition io_ret {E A} (a : A) : io E A := λ d, (Ok a, d).
Definition io_lift {E A} (r : result A E) : io E A := λ d, (r, d).
Definition io_bind {E A B} (m : io E A) (k : A -> io E B) : io E B := λ d,
  match m d with
  | (Ok a, d') => k a d'
  | (Err e, d') => (Err e, d')
  end.
(** Looking at the outcome instead of leaving with the error. *)
Definition io_match {E F A B} (m : io E A) (k : result A E -> io F B) : io F B := λ d,
  let '(r, d') := m d in k r d'.
Definition io_map_err {E F A} (f : E -> F) (m : io E A) : io F A := λ d,
  let '(r, d') := m d in (map_err f r, d').

Notation "'do!' x ':=' m 'in' k" := (io_bind m (λ x, k))
  (at level 10, x pattern, m at level 100, k at level 200,
   format "'[v' 'do!'  x  ':='  m  'in' '/' k ']'") : acr_scope.

(** A call to the system, subject to the next fault. *)
Definition attempt {A} (op : io ErrorKind A) (partial : nat -> disk -> disk) : io ErrorKind A := λ d,
  match faults d with
  | [] => op d
  | Fine :: fs => op (d <| faults := fs |>)
  | Fails n :: fs => (Err OtherError, partial n (d <| faults := fs |>))
  | Halts :: _ => (Err OtherError, d)
  end.

Definition set_dir (f : gmap path ino -> gmap path ino) (d : disk) : disk :=
  d <| past ::= cons (dir d) |> <| dir ::= f |>.
Definition set_inode (i : ino) (f : inode -> inode) (d : disk) : disk :=
  d <| inodes ::= alter f i |>.
Definition new_file (p : path) (d : disk) : disk :=
  set_dir (<[p := fresh_ino d]>)
    (d <| inodes ::= <[fresh_ino d := mkInode [] 0x1B6 false]> |> <| fresh_ino ::= N.succ |>).
Definition append_to (bs : bytes) (i : inode) : inode :=
  i <| data ::= (λ b, b ++ bs) |> <| synced := false |>.

Definition mark_synced (i : inode) : inode := i <| synced := true |>.

(** [File::create]: an existing file is emptied. *)
Definition create (p : path) : io ErrorKind ino :=
  attempt (λ d,
    match dir d !! p with
    | Some i => (Ok i, set_inode i (λ n, n <| data := [] |> <| synced := false |>) d)
    | None => (Ok (fresh_ino d), new_file p d)
    end) (λ _ d, d).
(** [OpenOptions::new().write(true).create_new(true).open]. *)
Definition create_new (p : path) : io ErrorKind ino :=
  attempt (λ d,
    match dir d !! p with
    | Some _ => (Err AlreadyExists, d)
    | None => (Ok (fresh_ino d), new_file p d)
    end) (λ _ d, d).
Definition set_permissions (i : ino) (m : N) : io ErrorKind unit :=
  attempt (λ d, (Ok tt, set_inode i (λ n, n <| mode := m |>) d)) (λ _ d, d).
Definition write_all (i : ino) (bs : bytes) : io ErrorKind unit :=
  attempt (λ d, (Ok tt, set_inode i (append_to bs) d))
          (λ n d, set_inode i (append_to (take n bs)) d).
(** [flush] moves nothing the model keeps apart, but it can fail. *)
Definition flush (i : ino) : io ErrorKind unit := attempt (λ d, (Ok tt, d)) (λ _ d, d).
Definition sync_all (i : ino) : io ErrorKind unit :=
  attempt (λ d, (Ok tt, set_inode i mark_synced d)) (λ _ d, d).
Definition rename (a b : path) : io ErrorKind unit :=
  attempt (λ d,
    match dir d !! a with
    | Some i => (Ok tt, set_dir (λ m, <[b := i]> (delete a m)) d)
    | None => (Err NotFound, d)
    end) (λ _ d, d).
Definition remove_file (p : path) : io ErrorKind unit :=
  attempt (λ d,
    match dir d !! p with
    | Some _ => (Ok tt, set_dir (delete p) d)
    | None => (Err NotFound, d)
    end) (λ _ d, d).
Definition fs_read (p : path) : io ErrorKind bytes :=
  attempt (λ d, (ok_or (read_back d p) NotFound, d)) (λ _ d, d).

(** Syncing an open directory: what it holds now is what it will be found to
    hold, and no other directory is affected. *)
Definition pin (q : path) (now s : gmap path ino) : gmap path ino :=
  filter (λ '(p, _), parent p = q) now ∪ filter (λ '(p, _), parent p <> q) s.
Definition open_dir (q : path) : io ErrorKind unit := attempt (λ d, (Ok tt, d)) (λ _ d, d).
Definition sync_dir (q : path) : io ErrorKind unit :=
  attempt (λ d, (Ok tt, d <| past ::= map (pin q (dir d)) |>)) (λ _ d, d).

(** [read_dir] names the entries of a directory, in an order of its own. *)
Class ReadDir := read_dir : path -> gmap path ino -> list path.
Class ReadDirLaws `{ReadDir} :=
  read_dir_entries : ∀ q m,
    NoDup (read_dir q m) /\ ∀ p, p ∈ read_dir q m <-> parent p = q /\ is_Some (m !! p).

(** What may be found after the power was cut. *)
Definition survives (a b : inode) : Prop :=
  synced b = true /\ (synced a = true -> data b = data a /\ mode b = mode a).
Definition power_loss (d d' : disk) : Prop :=
  dir d' ∈ dir d :: past d /\ past d' = [] /\ fresh_ino d' = fresh_ino d /\
  ∀ i, option_relation survives (λ _, False) (λ _, False) (inodes d !! i) (inodes d' !! i).

(** ** Reasoning about programs

    [triple P m Q C]: run where [P] holds, [m] ends where [Q] of its result
    holds, or leaves with an error where [C] holds. *)
Definition triple {E A} (P : disk -> Prop) (m : io E A) (Q : A -> disk -> Prop)
    (C : disk -> Prop) : Prop :=
  ∀ d, P d -> match m d with (Ok a, d') => Q a d' | (Err _, d') => C d' end.

Lemma triple_bind {E A B} P (m : io E A) (k : A -> io E B) Q R C :
  triple P m Q C -> (∀ a, triple (Q a) (k a) R C) -> triple P (io_bind m k) R C.
Proof.
  intros Hm Hk d Hd. unfold io_bind. specialize (Hm d Hd).
  destruct (m d) as [[a|e] d']; [by apply Hk|done].
Qed.

Lemma triple_conseq {E A} (P P' : disk -> Prop) (m : io E A) (Q Q' : A -> disk -> Prop) (C C' : disk -> Prop) :
  triple P m Q C -> (∀ d, P' d -> P d) -> (∀ a d, Q a d -> Q' a d) -> (∀ d, C d -> C' d) ->
  triple P' m Q' C'.
Proof.
  intros Hm HP HQ HC d Hd. specialize (Hm d (HP d Hd)).
  destruct (m d) as [[a|e] d']; [by apply HQ|by apply HC].
Qed.

Lemma triple_ret {E A} (a : A) (Q : A -> disk -> Prop) C : triple (Q a) (io_ret (E := E) a) Q C.
Proof. by intros d Hd. Qed.

Lemma triple_lift {E A B} P (r : result A E) (k : A -> io E B) Q (C : disk -> Prop) :
  (∀ a, r = Ok a -> triple P (k a) Q C) -> (∀ d, P d -> C d) ->
  triple P (io_bind (io_lift r) k) Q C.
Proof.
  intros Hk HC d Hd. unfold io_bind, io_lift. destruct r as [a|e]; [by apply Hk|by apply HC].
Qed.

Lemma triple_map_err {E F A} (f : E -> F) P (m : io E A) Q C :
  triple P m Q C -> triple P (io_map_err f m) Q C.
Proof. intros Hm d Hd. unfold io_map_err. specialize (Hm d Hd). by destruct (m d) as [[a|e] d']. Qed.

(** Consuming a fault is the only thing [attempt] adds to its operation. *)
Lemma triple_attempt {A} (P : disk -> Prop) (op : io ErrorKind A) part Q C :
  (∀ d f, P d -> P (d <| faults := f |>)) ->
  triple P op Q C -> (∀ d, P d -> C d) -> (∀ n d, P d -> C (part n d)) ->
  triple P (attempt op part) Q C.
Proof.
  intros Hf Hop HC Hpart d Hd. unfold attempt.
  destruct (faults d) as [|[] fs]; [by apply Hop|apply Hop, Hf, Hd|apply Hpart, Hf, Hd|by apply HC].
Qed.

(** A disk on which no call fails. *)
Definition healthy (d : disk) : Prop := faults d = [].

Lemma attempt_healthy {A} (op : io ErrorKind A) part d : healthy d -> attempt op part d = op d.
Proof. unfold healthy, attempt. by intros ->. Qed.

(** ** Well-formed disks *)

(** Every directory state the disk may be found in. *)
Definition snapshots (d : disk) : list (gmap path ino) := dir d :: past d.

(** Entries name files that exist, no file has two names at once, and none
    ever moves to another directory. *)
Record wf (d : disk) : Prop := {
  wf_known s p i : s ∈ snapshots d -> s !! p = Some i -> i < fresh_ino d /\ is_Some (inodes d !! i);
  wf_inj s p q i : s ∈ snapshots d -> s !! p = Some i -> s !! q = Some i -> p = q;
  wf_stay s s' p q i : s ∈ snapshots d -> s' ∈ snapshots d ->
    s !! p = Some i -> s' !! q = Some i -> parent p = parent q;
}.

Lemma wf_faults d f : wf d -> wf (d <| faults := f |>).
Proof. intros [H1 H2 H3]. by split. Qed.

Lemma wf_set_inode i f d : wf d -> wf (set_inode i f d).
Proof.
  intros [H1 H2 H3]. split; [|exact H2|exact H3]. intros s p j Hs Hp.
  destruct (H1 s p j Hs Hp) as [Hl Hi]. split; [done|]. cbn.
  destruct (decide (i = j)) as [->|Hne].
  - rewrite lookup_alter_eq. by apply fmap_is_Some.
  - by rewrite lookup_alter_ne.
Qed.

(** A disk whose states all come from those of another, entry by entry, up to
    moves within a directory. *)
Lemma wf_new_dir d m :
  wf d ->
  (∀ p i, m !! p = Some i -> ∃ q, parent q = parent p /\ dir d !! q = Some i) ->
  (∀ p q i, m !! p = Some i -> m !! q = Some i -> p = q) ->
  wf (set_dir (λ _, m) d).
Proof.
  intros [H1 H2 H3] Hm Hinj.
  assert (∀ s p i, s ∈ snapshots (set_dir (λ _, m) d) -> s !! p = Some i ->
            ∃ s' q, s' ∈ snapshots d /\ s' !! q = Some i /\ parent q = parent p) as Hold.
  { intros s p i [->|Hs]%elem_of_cons Hp; cbn in Hp.
    - destruct (Hm p i Hp) as (q & Hq & Hd). exists (dir d), q. split_and!; [left|..]; done.
    - by exists s, p. }
  split.
  - intros s p i Hs Hp. destruct (Hold s p i Hs Hp) as (s' & q & Hs' & Hq & _).
    cbn. by apply (H1 s' q).
  - intros s p q i [->|Hs]%elem_of_cons; [by apply Hinj|by apply H2].
  - intros s s' p q i Hs Hs' Hp Hq.
    destruct (Hold s p i Hs Hp) as (t & p' & Ht & Hp' & <-).
    destruct (Hold s' q i Hs' Hq) as (t' & q' & Ht' & Hq' & <-).
    by apply (H3 t t' _ _ i).
Qed.

Lemma wf_set_dir f d : wf (set_dir (λ _, f (dir d)) d) -> wf (set_dir f d).
Proof. done. Qed.

Lemma wf_rename d a b i :
  wf d -> dir d !! a = Some i -> parent a = parent b ->
  wf (set_dir (λ m, <[b := i]> (delete a m)) d).
Proof.
  intros Hwf Ha Hab. apply wf_set_dir, wf_new_dir; [done|..].
  - intros p j [[<- <-]|[Hne Hp]]%lookup_insert_Some; [by exists a|].
    apply lookup_delete_Some in Hp as [_ Hp]. by exists p.
  - pose proof (wf_inj _ Hwf (dir d)) as Hinj. specialize (Hinj a) as Hia.
    intros p q j. rewrite !lookup_insert_Some, !lookup_delete_Some.
    assert (dir d ∈ snapshots d) by left.
    intros [[<- <-]|(? & ? & Hp)] [[<- ?]|(? & ? & Hq)]; try done;
      [by destruct (Hia q i)| |by eapply Hinj]; subst. by destruct (Hia p j).
Qed.

Lemma wf_delete d p : wf d -> wf (set_dir (delete p) d).
Proof.
  intros Hwf. apply wf_set_dir, wf_new_dir; [done|..].
  - intros q j [_ Hq]%lookup_delete_Some. by exists q.
  - intros q r j [_ Hq]%lookup_delete_Some [_ Hr]%lookup_delete_Some.
    apply (wf_inj _ Hwf (dir d) q r j); [left|done..].
Qed.

Lemma wf_new_file d p : wf d -> dir d !! p = None -> wf (new_file p d).
Proof.
  intros [H1 H2 H3] Hp.
  assert (∀ s q i, s ∈ snapshots (new_file p d) -> s !! q = Some i ->
    (s = <[p := fresh_ino d]> (dir d) /\ q = p /\ i = fresh_ino d) \/
    (∃ s', s' ∈ snapshots d /\ s' !! q = Some i /\ i < fresh_ino d /\ q <> p \/ s ∈ snapshots d /\ s !! q = Some i /\ i < fresh_ino d)) as Hc.
  { intros s q i [->|Hs]%elem_of_cons.
    - cbn. intros [[<- <-]|[Hne Hq]]%lookup_insert_Some; [by left|].
      right. exists (dir d). left. split_and!; [left|done|apply (H1 (dir d) q i); [left|done]|done].
    - intros Hq. right. exists s. right. split_and!; [done..|by apply (H1 s q i)]. }
  assert (∀ s q i, s ∈ snapshots (new_file p d) -> s !! q = Some i ->
    (q = p /\ i = fresh_ino d) \/
    (i < fresh_ino d /\ ∃ s', s' ∈ snapshots d /\ s' !! q = Some i)) as Hc'.
  { intros s q i Hs Hq. destruct (Hc s q i Hs Hq) as [(_&->&->)|(s'&[(?&?&?&?)|(?&?&?)])]; naive_solver. }
  split.
  - intros s q i Hs Hq. cbn.
    destruct (Hc' s q i Hs Hq) as [[-> ->]|(Hl & s' & Hs' & Hq')].
    + rewrite lookup_insert_eq. split; [lia|done].
    + rewrite lookup_insert_ne by lia. split; [lia|by apply (H1 s' q)].
  - intros s q r i [->|Hs]%elem_of_cons; [|by apply H2]. cbn.
    assert (∀ q, dir d !! q <> Some (fresh_ino d)) as Hf.
    { intros q' Hq'. assert (fresh_ino d < fresh_ino d) by (apply (H1 (dir d) q'); [left|done]). lia. }
    intros [[<- <-]|[? Hq]]%lookup_insert_Some [[<- ?]|[? Hr]]%lookup_insert_Some; subst; try done.
    + by apply Hf in Hr.
    + by apply Hf in Hq.
    + apply (H2 (dir d) q r i); [left|done..].
  - intros s s' q r i Hs Hs' Hq Hr.
    destruct (Hc' s q i Hs Hq) as [[-> ->]|(Hl & t & Ht & Htq)],
      (Hc' s' r _ Hs' Hr) as [[-> ?]|(Hl' & t' & Ht' & Htr)]; try done; try lia.
    by apply (H3 t t' q r i).
Qed.

Lemma pin_lookup q now s p :
  pin q now s !! p = if decide (parent p = q) then now !! p else s !! p.
Proof.
  unfold pin. rewrite lookup_union. case_decide as E.
  - destruct (now !! p) as [i|] eqn:Hn.
    + rewrite (map_lookup_filter_Some_2 _ now p i) by done.
      rewrite (map_lookup_filter_None_2 _ s p); [done|right; naive_solver].
    + rewrite !map_lookup_filter_None_2; [done|right; naive_solver|by left].
  - destruct (s !! p) as [i|] eqn:Hn.
    + rewrite (map_lookup_filter_Some_2 _ s p i) by done.
      rewrite (map_lookup_filter_None_2 _ now p); [done|right; naive_solver].
    + rewrite !map_lookup_filter_None_2; [done|by left|right; naive_solver].
Qed.

(** After a directory sync each entry is one the disk already had. *)
Lemma pin_snapshot d q s :
  s ∈ snapshots (d <| past ::= map (pin q (dir d)) |>) ->
  ∃ s', s' ∈ snapshots d /\
    ∀ p, s !! p = if decide (parent p = q) then dir d !! p else s' !! p.
Proof.
  intros [->|Hs]%elem_of_cons.
  - exists (dir d). split; [left|]. intros p. by case_decide.
  - apply list_elem_of_In, in_map_iff in Hs as (s' & <- & Hs').
    exists s'. split; [right; by apply list_elem_of_In|]. intros p. apply pin_lookup.
Qed.

Lemma wf_pin d q : wf d -> wf (d <| past ::= map (pin q (dir d)) |>).
Proof.
  intros [H1 H2 H3].
  assert (∀ s p i, s ∈ snapshots (d <| past ::= map (pin q (dir d)) |>) -> s !! p = Some i ->
            ∃ s', s' ∈ snapshots d /\ s' !! p = Some i) as Hold.
  { intros s p i Hs Hp. destruct (pin_snapshot d q s Hs) as (s' & Hs' & E).
    rewrite E in Hp. case_decide; [exists (dir d); split; [left|done]|by exists s']. }
  split.
  - intros s p i Hs Hp. destruct (Hold s p i Hs Hp) as (s' & Hs' & Hp'). by apply (H1 s' p).
  - intros s p r i Hs Hp Hr. destruct (Hold s p i Hs Hp) as (t & Ht & Htp).
    destruct (Hold s r i Hs Hr) as (t' & Ht' & Htr).
    assert (parent p = parent r) as Hpar by by apply (H3 t t' p r i).
    destruct (pin_snapshot d q s Hs) as (s' & Hs' & E). rewrite E in Hp, Hr.
    rewrite Hpar in Hp. case_decide.
    + apply (H2 (dir d) p r i); [left|done..].
    + by apply (H2 s' p r i).
  - intros s s' p r i Hs Hs' Hp Hr. destruct (Hold s p i Hs Hp) as (t & Ht & Htp).
    destruct (Hold s' r i Hs' Hr) as (t' & Ht' & Htr). by apply (H3 t t' p r i).
Qed.

Lemma wf_power_loss d d' : wf d -> power_loss d d' -> wf d'.
Proof.
  intros [H1 H2 H3] (Hd & Hp & Hf & Hi).
  assert (∀ s, s ∈ snapshots d' -> s ∈ snapshots d) as Hs.
  { intros s. unfold snapshots. rewrite Hp. by intros ->%list_elem_of_singleton. }
  split; [|by eauto..].
  intros s p i Hin%Hs E. destruct (H1 s p i Hin E) as [Hl [n En]]. rewrite Hf. split; [done|].
  specialize (Hi i). rewrite En in Hi. by destruct (inodes d' !! i).
Qed.

(** ** Writing one file and leaving the others alone

    [Kept t d0 d]: no path but [t] reads differently from what it did on [d0];
    [Filling t i bs d0 d]: moreover [t] is open as inode [i] and holds [bs]. *)
Definition Kept (t : path) (d0 d : disk) : Prop :=
  wf d /\ ∀ q, q <> t -> read_back d q = read_back d0 q.
Definition Holding (t : path) (i : ino) (bs : bytes) (d : disk) : Prop :=
  dir d !! t = Some i /\ data <$> inodes d !! i = Some bs.
Definition Filling (t : path) (i : ino) (bs : bytes) (d0 d : disk) : Prop :=
  Kept t d0 d /\ Holding t i bs d.

Lemma Kept_refl t d : wf d -> Kept t d d.
Proof. done. Qed.

Lemma Kept_faults t d0 d f : Kept t d0 d -> Kept t d0 (d <| faults := f |>).
Proof. intros [H1 H2]. split; [by apply wf_faults|done]. Qed.

Lemma Filling_faults t i bs d0 d f : Filling t i bs d0 d -> Filling t i bs d0 (d <| faults := f |>).
Proof. intros [H1 H2]. split; [by apply Kept_faults|done]. Qed.

Lemma Filling_Kept t i bs d0 d : Filling t i bs d0 d -> Kept t d0 d.
Proof. by intros []. Qed.

Lemma read_back_set_inode i f d q :
  dir d !! q <> Some i -> read_back (set_inode i f d) q = read_back d q.
Proof.
  intros H. unfold read_back. cbn. destruct (dir d !! q) as [j|]; [|done]. cbn.
  rewrite lookup_alter_ne; [done|congruence].
Qed.

Lemma Filling_touch t i bs bs' f d0 d :
  (∀ n, data n = bs -> data (f n) = bs') ->
  Filling t i bs d0 d -> Filling t i bs' d0 (set_inode i f d).
Proof.
  intros Hf [[H1 H2] [Ht Hi]]. split; [split; [by apply wf_set_inode|]|].
  - intros q Hq. rewrite read_back_set_inode; [by apply H2|].
    intros E. apply Hq. by apply (wf_inj _ H1 (dir d) q t i); [left|..].
  - split; [done|]. cbn. rewrite lookup_alter_eq. destruct (inodes d !! i) as [n|]; [|done].
    cbn in *. injection Hi as Hi. by rewrite (Hf n Hi).
Qed.

Lemma Filling_append t i bs more d0 d :
  Filling t i bs d0 d -> Filling t i (bs ++ more) d0 (set_inode i (append_to more) d).
Proof. apply Filling_touch. intros n E. cbn. by rewrite E. Qed.

Definition created (t : path) (d : disk) : result ino ErrorKind * disk :=
  match dir d !! t with
  | Some i => (Ok i, set_inode i (λ n, n <| data := [] |> <| synced := false |>) d)
  | None => (Ok (fresh_ino d), new_file t d)
  end.

Lemma created_fills t d0 d :
  Kept t d0 d -> ∃ i d', created t d = (Ok i, d') /\ Filling t i [] d0 d' /\ faults d' = faults d.
Proof.
  intros [Hwf Hk]. unfold created. destruct (dir d !! t) as [i|] eqn:E;
    eexists _, _; (split; [reflexivity|split; [|reflexivity]]).
  - destruct (wf_known _ Hwf (dir d) t i) as [_ [n Hn]]; [left|done|].
    apply Filling_touch with (data n); [done|]. split; [done|]. split; [done|]. by rewrite Hn.
  - split; [split; [by apply wf_new_file|]|].
    + intros q Hq. rewrite <- Hk by done. unfold read_back. cbn. rewrite lookup_insert_ne by done.
      destruct (dir d !! q) as [j|] eqn:Ej; [|done]. cbn.
      destruct (wf_known _ Hwf (dir d) q j) as [Hlt _]; [left|done|].
      rewrite lookup_insert_ne; [done|lia].
    + split; cbn; by rewrite lookup_insert_eq.
Qed.

Lemma create_keeps t d0 : triple (Kept t d0) (create t) (λ i, Filling t i [] d0) (Kept t d0).
Proof.
  apply triple_attempt; [by intros; apply Kept_faults| |done|by intros]. intros d Hd.
  destruct (created_fills t d0 d Hd) as (i & d' & E & HF & _). unfold created in E. by rewrite E.
Qed.

Lemma write_all_keeps t i bs more d0 :
  triple (Filling t i bs d0) (write_all i more) (λ _, Filling t i (bs ++ more) d0) (Kept t d0).
Proof.
  apply triple_attempt; [by intros; apply Filling_faults|..].
  - intros d Hd. by apply Filling_append.
  - apply Filling_Kept.
  - intros n d Hd. by apply (Filling_Kept t i (bs ++ take n more)), Filling_append.
Qed.

Lemma flush_keeps t i bs d0 :
  triple (Filling t i bs d0) (flush i) (λ _, Filling t i bs d0) (Kept t d0).
Proof.
  apply triple_attempt; [by intros; apply Filling_faults|by intros d|apply Filling_Kept|].
  intros _. apply Filling_Kept.
Qed.

(** Renamed over [q], the new contents are [q]'s and the name [t] is gone. *)
Definition Replaced (t q : path) (bs : bytes) (d0 d : disk) : Prop :=
  wf d /\ read_back d q = Some bs /\ read_back d t = None /\
  ∀ q', q' <> q -> q' <> t -> read_back d q' = read_back d0 q'.

Definition renamed (a b : path) (d : disk) : result unit ErrorKind * disk :=
  match dir d !! a with
  | Some i => (Ok tt, set_dir (λ m, <[b := i]> (delete a m)) d)
  | None => (Err NotFound, d)
  end.

Lemma renamed_replaces t q i bs d0 d :
  t <> q -> parent t = parent q -> Filling t i bs d0 d ->
  ∃ d', renamed t q d = (Ok tt, d') /\ Replaced t q bs d0 d' /\ faults d' = faults d.
Proof.
  intros Hne Hpar [[Hwf Hk] [Ht Hi]]. unfold renamed. rewrite Ht.
  eexists. split; [reflexivity|split; [|reflexivity]]. split_and!.
  - by apply wf_rename.
  - unfold read_back. cbn. by rewrite lookup_insert_eq.
  - unfold read_back. cbn. by rewrite lookup_insert_ne, lookup_delete_eq by done.
  - intros q' H1 H2. rewrite <- Hk by done. unfold read_back. cbn.
    by rewrite lookup_insert_ne, lookup_delete_ne by done.
Qed.

Lemma rename_replaces t q i bs d0 :
  t <> q -> parent t = parent q ->
  triple (Filling t i bs d0) (rename t q) (λ _, Replaced t q bs d0) (Kept t d0).
Proof.
  intros Hne Hpar. apply triple_attempt; [by intros; apply Filling_faults| |apply Filling_Kept|].
  - intros d Hd. destruct (renamed_replaces t q i bs d0 d Hne Hpar Hd) as (d' & E & HR & _).
    unfold renamed in E. by rewrite E.
  - intros _. apply Filling_Kept.
Qed.

Lemma remove_file_keeps t d0 :
  triple (Kept t d0) (remove_file t) (λ _ d, Kept t d0 d /\ read_back d t = None) (Kept t d0).
Proof.
  apply triple_attempt; [by intros; apply Kept_faults| |done|by intros]. intros d [Hwf Hk].
  destruct (dir d !! t) as [i|] eqn:E; [|done]. split; [split; [by apply wf_delete|]|].
  - intros q Hq. rewrite <- Hk by done. unfold read_back. cbn. by rewrite lookup_delete_ne.
  - unfold read_back. cbn. by rewrite lookup_delete_eq.
Qed.

Lemma fs_read_keeps t d0 p :
  triple (Kept t d0) (fs_read p) (λ bs d, Kept t d0 d /\ read_back d p = Some bs) (Kept t d0).
Proof.
  apply triple_attempt; [by intros; apply Kept_faults| |done|by intros]. intros d Hd.
  by destruct (read_back d p) as [bs|] eqn:E; cbn.
Qed.

(** ** Byte streams

    What [acrylius-rt] reads from: the bytes a connection delivers until it
    ends, and whether the peer closed it or it broke.  Both framings of the
    crate, of links and of bulk transfers, read from it. *)

(** What arrives, and whether the peer closed after it or the connection broke. *)
Record stream := mkStream { incoming : bytes; closed : bool }.

(** [AsyncReadExt::read_exact]. *)
Definition read_exact (n : nat) (s : stream) : result (bytes * stream) ErrorKind :=
  if (n <=? length (incoming s))%nat
  then Ok (take n (incoming s), mkStream (drop n (incoming s)) (closed s))
  else Err (if closed s then UnexpectedEof else OtherError).

Lemma read_exact_app b rest c :
  read_exact (length b) (mkStream (b ++ rest) c) = Ok (b, mkStream rest c).
Proof.
  unfold read_exact. cbn. rewrite length_app, (proj2 (Nat.leb_le _ _)) by lia.
  by rewrite take_app_length, drop_app_length.
Qed.

Lemma read_exact_inv n s b s' :
  read_exact n s = Ok (b, s') ->
  length b = n /\ incoming s = b ++ incoming s' /\ closed s' = closed s.
Proof.
  unfold read_exact. destruct (Nat.leb_spec n (length (incoming s))) as [Hn|]; [|done].
  intros [= <- <-]. cbn. rewrite length_take, take_drop. split_and!; [lia|done|done].
Qed.

Lemma read_exact_short n b c :
  (length b < n)%nat -> read_exact n (mkStream b c) = Err (if c then UnexpectedEof else OtherError).
Proof. intros H. unfold read_exact. cbn. by rewrite (proj2 (Nat.leb_gt _ _)). Qed.
