(* ===== verification/RtStore.v ===== *)
(** * [acrylius-rt/src/store.rs]: persistence

    Records in files, one per key, each written beside its place, synced and
    renamed over it; and the in-memory store that promises the same.  What a
    power cut in the middle may leave is the point of the write order. *)

From Stdlib Require Import Ascii.
From S2P Require Import Prelude Externals Ids Strs Fs Link Peer Vocab.
Local Open Scope N_scope.

(* src: crates/acrylius-rt/src/store.rs 15 17 FileStore *)
Record FileStore := mkFileStore { root : path }.

(* src: crates/acrylius-rt/src/store.rs 34 42 FileStore::path_for *)
Definition path_for (st : FileStore) (key : string) : result path ErrorKind :=
  if str_contains ".." key || str_starts_with "/" key || negb (str_count "/" key =? 1)%nat
  then Err InvalidInput
  else Ok (path_join (root st) key).

(* src: crates/acrylius-rt/src/store.rs 57 88 FileStore::put *)
Definition put (st : FileStore) (key : string) (value : option bytes) (sensitivity : Sensitivity) :
    io ErrorKind unit :=
  do! path := io_lift (path_for st key) in
  match value with
  | None =>
      io_match (remove_file path) (λ r,
        match r with Err NotFound => io_ret tt | other => io_lift other end)
  | Some bs =>
      let tmp := with_extension path "tmp" in
      do! file := create tmp in
      do! _ := match sensitivity with
               | Secret => set_permissions file 0x180
               | Ordinary => io_ret tt
               end in
      do! _ := write_all file bs in
      do! _ := sync_all file in
      do! _ := rename tmp path in
      io_match (open_dir (root st)) (λ r,
        match r with
        | Ok _ => io_match (sync_dir (root st)) (λ _, io_ret tt)
        | Err _ => io_ret tt
        end)
  end.

Section load.
  Context `{!ReadDir} `{!Cbor PeerRecord}.

Definition is_tmp (p : path) : bool := bool_decide (extension p = Some "tmp"%string).

(** The loop over the directory's entries. *)
(* src: crates/acrylius-rt/src/store.rs 93 108 FileStore::load_peers *)
Fixpoint load_entries (ps : list path) : io ErrorKind (list PeerRecord) :=
  match ps with
  | [] => io_ret []
  | p :: ps' =>
      if is_tmp p then load_entries ps'
      else
        do! bs := fs_read p in
        do! rest := load_entries ps' in
        io_ret (match cbor_decode bs with Some r => r :: rest | None => rest end)
  end.

(* src: crates/acrylius-rt/src/store.rs 90 93 FileStore::load_peers *)
Definition load_peers (st : FileStore) : io ErrorKind (list PeerRecord) :=
  let dir_path := path_join (root st) "peer" in
  do! _ := open_dir dir_path in
  λ d, load_entries (read_dir dir_path (dir d)) d.

(** ** The in-memory store *)

(* src: crates/acrylius-rt/src/store.rs 113 115 MemoryStore *)
Record MemoryStore := mkMemoryStore { entries : gmap string bytes }.

(* src: crates/acrylius-rt/src/store.rs 118 128 MemoryStore::put *)
Definition memory_put (key : string) (value : option bytes) (m : MemoryStore) : MemoryStore :=
  match value with
  | Some v => mkMemoryStore (<[key := v]> (entries m))
  | None => mkMemoryStore (delete key (entries m))
  end.

(* src: crates/acrylius-rt/src/store.rs 129 136 MemoryStore::load_peers *)
Definition memory_load_peers (m : MemoryStore) : list PeerRecord :=
  omap (λ '(_, v), cbor_decode v)
    (List.filter (λ '(k, _), str_starts_with "peer/" k) (bt_iter (entries m))).
End load.

(** ** What a power cut can leave

    [Stable p V d]: in whatever state the disk [d] may be found, the file [p]
    is absent or whole, with contents that [V] allows, and no temporary file
    shares its inode. *)
Section crash.
  Context (p : path) (p_not_tmp : is_tmp p = false).

Record Stable (V : option bytes -> Prop) (d : disk) : Prop := {
  st_wf : wf d;
  st_val s : s ∈ snapshots d ->
    match s !! p with
    | None => V None
    | Some i => ∃ n, inodes d !! i = Some n /\ synced n = true /\ V (Some (data n))
    end;
  st_tmp s i t : s ∈ snapshots d -> s !! p = Some i -> is_tmp t = true -> dir d !! t <> Some i;
}.

Lemma Stable_mono (V W : option bytes -> Prop) d :
  (∀ v, V v -> W v) -> Stable V d -> Stable W d.
Proof.
  intros HVW [H1 H2 H3]. split; [done| |done]. intros s Hs. specialize (H2 s Hs).
  destruct (s !! p) as [i|]; [destruct H2 as (n & ? & ? & ?); eauto|by apply HVW].
Qed.

Lemma Stable_faults V d f : Stable V d -> Stable V (d <| faults := f |>).
Proof. intros [H1 H2 H3]. split; [by apply wf_faults|exact H2|exact H3]. Qed.

(** Changing a temporary file's inode does not touch the record. *)
Lemma Stable_touch V d t i f :
  Stable V d -> is_tmp t = true -> dir d !! t = Some i -> Stable V (set_inode i f d).
Proof.
  intros [H1 H2 H3] Ht Hi. split; [by apply wf_set_inode| |exact H3].
  intros s Hs. specialize (H2 s Hs). destruct (s !! p) as [j|] eqn:Ej; [|done].
  destruct H2 as (n & Hn & Hr). exists n. split; [|done]. cbn.
  rewrite lookup_alter_ne; [done|]. intros ->. by apply (H3 s j t).
Qed.

Lemma Stable_new_file V d t :
  Stable V d -> is_tmp t = true -> dir d !! t = None -> Stable V (new_file t d).
Proof.
  intros HS Ht Hn. pose proof HS as [H1 H2 H3].
  assert (∀ s i, s ∈ snapshots d -> s !! p = Some i -> i < fresh_ino d) as Hlt.
  { intros s i Hs Hp. by apply (wf_known _ H1 s p). }
  assert (p <> t) as Hpt by congruence.
  assert (∀ s, s ∈ snapshots (new_file t d) -> ∃ s', s' ∈ snapshots d /\ s' !! p = s !! p) as Hold.
  { intros s [->|Hs]%elem_of_cons; [|by exists s].
    exists (dir d). split; [left|]. cbn. by rewrite lookup_insert_ne. }
  split; [by apply wf_new_file|..].
  - intros s Hs. destruct (Hold s Hs) as (s' & Hs' & E). specialize (H2 s' Hs').
    rewrite <- E. destruct (s' !! p) as [j|] eqn:Ej; [|done].
    destruct H2 as (n & Hn' & Hr). exists n. split; [|done]. cbn.
    rewrite lookup_insert_ne; [done|]. specialize (Hlt s' j Hs' Ej). lia.
  - intros s i u Hs Hi Hu. destruct (Hold s Hs) as (s' & Hs' & E). rewrite <- E in Hi.
    specialize (Hlt s' i Hs' Hi). cbn.
    intros [[<- <-]|[_ Hu']]%lookup_insert_Some; [lia|]. by apply (H3 s' i u).
Qed.

Lemma Stable_rename V d t q i n :
  Stable V d -> is_tmp t = true -> parent t = parent q -> dir d !! t = Some i ->
  inodes d !! i = Some n -> synced n = true -> (q = p -> V (Some (data n))) ->
  Stable V (set_dir (λ m, <[q := i]> (delete t m)) d).
Proof.
  intros [H1 H2 H3] Ht Hpar Hti Hn Hsy HV. assert (t <> p) as Htp by congruence.
  assert (dir d ∈ snapshots d) as Hnow by left.
  split; [by apply wf_rename|..].
  - intros s [->|Hs]%elem_of_cons; [|by apply H2]. cbn.
    destruct (decide (q = p)) as [->|Hq].
    + rewrite lookup_insert_eq. exists n. auto.
    + rewrite lookup_insert_ne, lookup_delete_ne by done. by apply H2.
  - intros s j u Hs Hj Hu Hdu. cbn in Hdu.
    assert (dir d !! u = Some j \/ (u = q /\ j = i)) as Hor.
    { apply lookup_insert_Some in Hdu as [[<- <-]|[_ Hdu]]; [by right|].
      apply lookup_delete_Some in Hdu as [_ Hdu]. by left. }
    apply elem_of_cons in Hs as [->|Hs].
    + cbn in Hj. destruct (decide (q = p)) as [->|Hq].
      * rewrite lookup_insert_eq in Hj. injection Hj as <-.
        assert (u <> p) as Hup by congruence.
        rewrite lookup_insert_ne in Hdu by done. apply lookup_delete_Some in Hdu as [Hut Hdu].
        destruct Hut. by apply (wf_inj _ H1 (dir d) _ _ i).
      * rewrite lookup_insert_ne, lookup_delete_ne in Hj by done.
        destruct Hor as [Hor|[-> ->]]; [by apply (H3 (dir d) j u)|by apply (H3 (dir d) i t)].
    + destruct Hor as [Hor|[-> ->]]; [by apply (H3 s j u)|by apply (H3 s i t)].
Qed.

Lemma Stable_delete V d q :
  Stable V d -> (q = p -> V None) -> Stable V (set_dir (delete q) d).
Proof.
  intros [H1 H2 H3] HV. assert (dir d ∈ snapshots d) as Hnow by left.
  split; [by apply wf_delete|..].
  - intros s [->|Hs]%elem_of_cons; [|by apply H2]. cbn.
    destruct (decide (q = p)) as [->|Hq]; [rewrite lookup_delete_eq; auto|].
    rewrite lookup_delete_ne by done. by apply H2.
  - intros s j u Hs Hj Hu Hdu. cbn in Hdu. apply lookup_delete_Some in Hdu as [_ Hdu].
    apply elem_of_cons in Hs as [->|Hs]; [|by apply (H3 s j u)].
    cbn in Hj. apply lookup_delete_Some in Hj as [_ Hj]. by apply (H3 (dir d) j u).
Qed.

Lemma Stable_pin V d q : Stable V d -> Stable V (d <| past ::= map (pin q (dir d)) |>).
Proof.
  intros [H1 H2 H3].
  assert (∀ s, s ∈ snapshots (d <| past ::= map (pin q (dir d)) |>) ->
            ∃ s', s' ∈ snapshots d /\ s !! p = s' !! p) as Hold.
  { intros s Hs. destruct (pin_snapshot d q s Hs) as (s' & Hs' & E). specialize (E p).
    case_decide; [exists (dir d); split; [left|done]|by exists s']. }
  split; [by apply wf_pin|..].
  - intros s Hs. destruct (Hold s Hs) as (s' & Hs' & ->). by apply H2.
  - intros s j u Hs Hj. destruct (Hold s Hs) as (s' & Hs' & E). rewrite E in Hj.
    by apply (H3 s' j u).
Qed.

Lemma Stable_power_loss V d d' : Stable V d -> power_loss d d' -> Stable V d'.
Proof.
  intros [H1 H2 H3] Hl. pose proof (wf_power_loss _ _ H1 Hl) as Hwf.
  destruct Hl as (Hd & Hp & Hf & Hi).
  assert (∀ s, s ∈ snapshots d' -> s = dir d' /\ s ∈ snapshots d) as Hs.
  { intros s. unfold snapshots. rewrite Hp. by intros ->%list_elem_of_singleton. }
  split; [done|..].
  - intros s [-> Hin]%Hs. specialize (H2 _ Hin). destruct (dir d' !! p) as [j|]; [|done].
    destruct H2 as (n & Hn & Hsy & HV). specialize (Hi j). rewrite Hn in Hi.
    destruct (inodes d' !! j) as [m|]; [|done]. destruct Hi as [Hm [Hdata _]]; [done|].
    exists m. by rewrite Hdata.
  - intros s i t [-> Hin]%Hs Hpi Ht Hti.
    assert (p = t) by by apply (wf_inj _ Hwf (dir d') p t i); [left|..]. congruence.
Qed.

(** The calls of [put], one by one.  Each keeps the disk stable wherever it
    stops. *)
Definition Making (V : option bytes -> Prop) (t : path) (i : ino) (bs : bytes) (d : disk) : Prop :=
  Stable V d /\ Holding t i bs d.

Lemma Making_Stable V t i bs d : Making V t i bs d -> Stable V d.
Proof. by intros []. Qed.
Hint Resolve Making_Stable Stable_faults : core.

Lemma Making_faults V t i bs d f : Making V t i bs d -> Making V t i bs (d <| faults := f |>).
Proof. intros [HS HH]. split; [by apply Stable_faults|exact HH]. Qed.
Hint Resolve Making_faults : core.

Lemma Making_touch V t i bs bs' f d :
  is_tmp t = true -> (∀ n, data n = bs -> data (f n) = bs') ->
  Making V t i bs d -> Making V t i bs' (set_inode i f d).
Proof.
  intros Ht Hf [HS [Hd Hi]]. split; [by apply Stable_touch with t|]. split; [done|].
  cbn. rewrite lookup_alter_eq. destruct (inodes d !! i) as [n|]; [|done].
  cbn in *. injection Hi as Hi. by rewrite (Hf n Hi).
Qed.

Lemma create_ok V t :
  is_tmp t = true ->
  triple (Stable V) (create t) (λ i, Making V t i []) (Stable V).
Proof.
  intros Ht. apply triple_attempt; auto. intros d HS. destruct (dir d !! t) as [i|] eqn:E.
  - split; [by apply Stable_touch with t|]. split; [done|]. cbn. rewrite lookup_alter_eq.
    destruct (wf_known _ (st_wf _ _ HS) (dir d) t i) as [_ [n ->]]; [left|done|done].
  - split; [by apply Stable_new_file|]. split; cbn; by rewrite lookup_insert_eq.
Qed.

Lemma set_permissions_ok V t i bs m :
  is_tmp t = true ->
  triple (Making V t i bs) (set_permissions i m) (λ _, Making V t i bs) (Stable V).
Proof.
  intros Ht. apply triple_attempt; eauto.
  intros d HM. by apply (Making_touch V t i bs).
Qed.

Lemma write_all_ok V t i bs more :
  is_tmp t = true ->
  triple (Making V t i bs) (write_all i more) (λ _, Making V t i (bs ++ more)) (Stable V).
Proof.
  intros Ht. apply triple_attempt; eauto.
  - intros d HM. apply (Making_touch V t i bs); [done| |done]. by intros n <-.
  - intros n d [HS [Hd _]]. by apply Stable_touch with t.
Qed.

Definition Made (V : option bytes -> Prop) (t : path) (i : ino) (bs : bytes) (d : disk) : Prop :=
  Stable V d /\ dir d !! t = Some i /\
  ∃ n, inodes d !! i = Some n /\ synced n = true /\ data n = bs.

Lemma sync_all_ok V t i bs :
  is_tmp t = true ->
  triple (Making V t i bs) (sync_all i) (λ _, Made V t i bs) (Stable V).
Proof.
  intros Ht. apply triple_attempt; eauto.
  intros d [HS [Hd Hi]]. split; [by apply Stable_touch with t|]. split; [done|].
  cbn. rewrite lookup_alter_eq. destruct (inodes d !! i) as [n|]; [|done].
  injection Hi as Hi. by eexists.
Qed.

Lemma rename_ok V t q i bs :
  is_tmp t = true -> parent t = parent q -> (q = p -> V (Some bs)) ->
  triple (Made V t i bs) (rename t q) (λ _, Stable V) (Stable V).
Proof.
  intros Ht Hpar HV. apply triple_attempt.
  - intros d f [HS HM]. split; [by apply Stable_faults|exact HM].
  - intros d (HS & Hd & n & Hn & Hsy & <-). rewrite Hd. by apply Stable_rename with n.
  - by intros d [].
  - by intros _ d [].
Qed.

Lemma sync_dir_ok V q : triple (Stable V) (sync_dir q) (λ _, Stable V) (Stable V).
Proof. apply triple_attempt; auto. intros d. apply Stable_pin. Qed.

Lemma open_dir_ok V q : triple (Stable V) (open_dir q) (λ _, Stable V) (Stable V).
Proof. apply triple_attempt; auto. by intros d. Qed.

Lemma remove_file_ok V q :
  (q = p -> V None) -> triple (Stable V) (remove_file q) (λ _, Stable V) (Stable V).
Proof.
  intros HV. apply triple_attempt; auto. intros d HS.
  destruct (dir d !! q); [|done]. by apply Stable_delete.
Qed.
End crash.

(** ** Any number of writes, faults and power cuts *)

Lemma is_tmp_with_extension q : named q -> is_tmp (with_extension q "tmp") = true.
Proof. intros Hq. apply bool_decide_eq_true_2. by apply extension_with_extension. Qed.

Definition names_a_file (st : FileStore) (key : string) : Prop :=
  ∀ q, path_for st key = Ok q -> named q.

Lemma put_ok p V st key value sens :
  is_tmp p = false -> names_a_file st key ->
  (path_for st key = Ok p -> V value) ->
  triple (Stable p V) (put st key value sens) (λ _, Stable p V) (Stable p V).
Proof.
  intros Hp Hk HV. unfold put.
  apply triple_lift; [|done]. intros q Hq.
  specialize (Hk q Hq). pose proof (is_tmp_with_extension q Hk) as Ht.
  pose proof (parent_with_extension q "tmp" Hk) as Hpar.
  assert (q = p -> V value) as HV' by (intros ->; by apply HV). destruct value as [bs|].
  - eapply triple_bind; [by apply create_ok|]. intros i.
    apply triple_bind with (Q := λ _, Making p V (with_extension q "tmp") i []).
    { destruct sens; [by apply set_permissions_ok|by intros d]. }
    intros []. eapply triple_bind; [by apply write_all_ok|]. intros [].
    eapply triple_bind; [by apply sync_all_ok|]. intros [].
    eapply triple_bind; [by apply rename_ok|]. intros [] d HS.
    unfold io_match. pose proof (open_dir_ok p V (root st) d HS) as H1.
    destruct (open_dir (root st) d) as [[[]|e] d1]; [|done].
    pose proof (sync_dir_ok p V (root st) d1 H1) as H2.
    by destruct (sync_dir (root st) d1) as [[[]|e] d2].
  - intros d HS. pose proof (remove_file_ok p V q HV' d HS) as H1. unfold io_match.
    by destruct (remove_file q d) as [[[]|[]] d1].
Qed.

Inductive happening :=
| Put (key : string) (value : option bytes) (sens : Sensitivity) (fs : list fault)
| PowerCut.

Inductive life (st : FileStore) : list happening -> disk -> disk -> Prop :=
| life_nil d : life st [] d d
| life_put key value sens fs hs d d' :
    life st hs (put st key value sens (d <| faults := fs |>)).2 d' ->
    life st (Put key value sens fs :: hs) d d'
| life_cut hs d d1 d' :
    power_loss d d1 -> life st hs d1 d' -> life st (PowerCut :: hs) d d'.

(** Every [Put] of a history satisfies [P]. *)
Definition puts_are (P : string -> option bytes -> Prop) (hs : list happening) : Prop :=
  Forall (λ h, match h with Put k v _ _ => P k v | PowerCut => True end) hs.

Lemma life_stable st p V hs d d' :
  is_tmp p = false ->
  puts_are (λ k v, names_a_file st k /\ (path_for st k = Ok p -> V v)) hs ->
  life st hs d d' -> Stable p V d -> Stable p V d'.
Proof.
  intros Hp Hhs Hl. revert Hhs.
  induction Hl as [d|k v se fs hs d d' Hl IH|hs d d1 d' Hc Hl IH]; intros Hhs HS; [done|..];
    apply Forall_cons in Hhs as [Hh Hhs]; apply IH; try done.
  - destruct Hh as [Hk HV].
    pose proof (put_ok p V st k v se Hp Hk HV _ (Stable_faults p V d fs HS)) as H.
    by destruct (put st k v se _) as [[[]|e] d1].
  - by apply Stable_power_loss with d.
Qed.

(** A record just as it is on a disk nothing was done to yet. *)
Definition at_rest (d : disk) (p : path) : Prop :=
  wf d /\ past d = [] /\
  ∀ i n, dir d !! p = Some i -> inodes d !! i = Some n -> synced n = true.

Lemma at_rest_stable d p :
  is_tmp p = false -> at_rest d p -> Stable p (λ v, v = read_back d p) d.
Proof.
  intros Hp (Hwf & Hpast & Hsy).
  assert (∀ s, s ∈ snapshots d -> s = dir d) as Hs.
  { intros s. unfold snapshots. rewrite Hpast. by intros ->%list_elem_of_singleton. }
  split; [done|..].
  - intros s ->%Hs. unfold read_back. destruct (dir d !! p) as [i|] eqn:Ei; [|done]. cbn.
    destruct (wf_known _ Hwf (dir d) p i) as [_ [n Hn]]; [left|done|].
    exists n. rewrite Hn. split_and!; [done|by apply (Hsy i)|done].
  - intros s i t ->%Hs Hi Ht Hti.
    assert (p = t) by (by apply (wf_inj _ Hwf (dir d) p t i); [left|..]). congruence.
Qed.

Lemma Stable_read p V d : Stable p V d -> V (read_back d p).
Proof.
  intros [_ H2 _]. specialize (H2 (dir d)). unfold read_back.
  destruct (dir d !! p) as [i|]; [|by apply H2; left].
  destruct H2 as (n & Hn & _ & HV); [left|]. cbn. by rewrite Hn.
Qed.

(** C22 (safety): However many writes, failing calls and power cuts, and wherever
    they fall, the record found under a key is whole: it is the one that was
    there at first or the value of one of the writes to that key, never a
    torn or an empty one. *)
Theorem store_never_torn st p hs d d' :
  is_tmp p = false -> puts_are (λ k _, names_a_file st k) hs -> at_rest d p ->
  life st hs d d' ->
  read_back d' p = read_back d p \/
  ∃ k s fs, Put k (read_back d' p) s fs ∈ hs /\ path_for st k = Ok p.
Proof.
  intros Hp Hhs Hd Hl.
  set (V := λ v, v = read_back d p \/ ∃ k s fs, Put k v s fs ∈ hs /\ path_for st k = Ok p).
  change (V (read_back d' p)). apply Stable_read. apply (life_stable st p V hs d d'); [done| |done|].
  - apply Forall_forall. intros h Hh. unfold puts_are in Hhs. rewrite Forall_forall in Hhs.
    specialize (Hhs h Hh). destruct h as [k v s fs|]; [|done]. split; [done|].
    intros Hk. right. by exists k, s, fs.
  - apply Stable_mono with (λ v, v = read_back d p); [by left|]. by apply at_rest_stable.
Qed.

(** ** Device records: what the core stores *)

(** A name that is one component and has no extension; a device id, which is
    strict base64url, is such a name. *)
Definition simple (id : string) : Prop :=
  id <> ""%string /\ str_count "/" id = 0%nat /\ str_count "." id = 0%nat.
Definition record_key (id : string) : string := "peer/" +:+ id.
Definition record_path (st : FileStore) (id : string) : path := root st ++ ["peer"; id]%string.

Lemma path_for_record st id :
  simple id -> path_for st (record_key id) = Ok (record_path st id).
Proof.
  intros (Hne & Hs & Hd). unfold path_for.
  change (record_key id) with
    (String "p" (String "e" (String "e" (String "r" (String "/" id)))))%string.
  set (key := String "p" _).
  assert (str_contains ".." key = false) as -> by (by apply str_contains_dots).
  assert (str_starts_with "/" key = false) as Ha by done. rewrite Ha.
  assert (str_count "/" key = 1%nat) as -> by (cbn; by rewrite Hs). cbn [orb negb Nat.eqb].
  unfold path_join. rewrite Ha. unfold record_path, components. do 2 f_equal.
  assert (str_split "/" key = ["peer"; id]%string) as ->
    by (cbn; by rewrite str_split_none by done).
  cbn [List.filter]. rewrite !bool_decide_eq_false_2; [done|..]; intros [E|E]; try done.
  by subst id.
Qed.

Lemma record_path_inj st a b : record_path st a = record_path st b -> a = b.
Proof. unfold record_path. intros E%app_inv_head. congruence. Qed.

Lemma file_name_record st id : simple id -> file_name (record_path st id) = Some id.
Proof.
  intros (Hne & Hs & Hd). unfold file_name, record_path.
  change ["peer"; id]%string with (["peer"%string] ++ [id]). rewrite app_assoc, last_snoc.
  rewrite bool_decide_eq_false_2; [done|]. by intros ->.
Qed.

Lemma named_record st id : simple id -> named (record_path st id).
Proof. intros Hid. exists id. split; [by apply file_name_record|by destruct Hid]. Qed.

Lemma parent_record st id : parent (record_path st id) = root st ++ ["peer"]%string.
Proof.
  unfold record_path. change ["peer"; id]%string with (["peer"%string] ++ [id]).
  rewrite app_assoc. apply parent_snoc.
Qed.

Lemma record_not_tmp st id : simple id -> is_tmp (record_path st id) = false.
Proof.
  intros Hid. apply bool_decide_eq_false_2. unfold extension.
  rewrite file_name_record by done. cbn. unfold split_at_dot.
  destruct Hid as (_ & _ & Hd). apply str_rsplit_once_none in Hd. by rewrite Hd.
Qed.

Lemma record_names_a_file st id : simple id -> names_a_file st (record_key id).
Proof.
  intros Hid q Hq. rewrite path_for_record in Hq by done. injection Hq as <-.
  by apply named_record.
Qed.

(** What a write does when every call goes through. *)
Record Wrote (d d' : disk) (q : path) (v : option bytes) : Prop := {
  wr_wf : wf d';
  wr_healthy : healthy d';
  wr_here : read_back d' q = v;
  wr_else q' : q' <> q -> is_tmp q' = false -> read_back d' q' = read_back d q';
}.

(** A step of building the temporary file [t], inode [i]. *)
Definition Building (d d' : disk) (t : path) (i : ino) (bs : bytes) : Prop :=
  Filling t i bs d d' /\ healthy d'.

Lemma Building_touch d d' t i bs bs' f :
  (∀ n, data n = bs -> data (f n) = bs') ->
  Building d d' t i bs -> Building d (set_inode i f d') t i bs'.
Proof. intros Hf [HF Hh]. split; [by apply Filling_touch with bs|done]. Qed.

Lemma create_healthy t d :
  wf d -> healthy d -> ∃ i d', create t d = (Ok i, d') /\ Building d d' t i [].
Proof.
  intros Hwf Hh. unfold create. rewrite attempt_healthy by done.
  destruct (created_fills t d d (Kept_refl t d Hwf)) as (i & d' & E & HF & Hf).
  exists i, d'. split; [exact E|]. split; [done|]. unfold healthy. by rewrite Hf.
Qed.

Lemma rename_healthy d d' t q i bs :
  Building d d' t i bs -> q <> t -> parent t = parent q -> is_tmp t = true ->
  ∃ d'', rename t q d' = (Ok tt, d'') /\ Wrote d d'' q (Some bs).
Proof.
  intros [HF Hh] Hq Hpar Htmp. unfold rename. rewrite attempt_healthy by done.
  destruct (renamed_replaces t q i bs d d') as (d'' & E & (HR1 & HR2 & HR3 & HR4) & Hf); [done..|].
  exists d''. split; [exact E|]. split; [done|unfold healthy; by rewrite Hf|done|].
  intros q' Hq' Hn. apply HR4; [done|congruence].
Qed.

Lemma Wrote_pin d d' q v r :
  Wrote d d' q v -> Wrote d (d' <| past ::= map (pin r (dir d')) |>) q v.
Proof. intros [H1 H2 H3 H4]. split; [by apply wf_pin|done..]. Qed.

Lemma put_healthy st key q v s d :
  path_for st key = Ok q -> named q -> is_tmp q = false -> wf d -> healthy d ->
  ∃ d', put st key v s d = (Ok tt, d') /\ Wrote d d' q v.
Proof.
  intros Hk Hn Hq Hwf Hh. unfold put. unfold io_bind at 1, io_lift at 1. rewrite Hk.
  pose proof (is_tmp_with_extension q Hn) as Ht. pose proof (parent_with_extension q "tmp" Hn) as Hp.
  destruct v as [bs|].
  - set (t := with_extension q "tmp") in *. clearbody t.
    destruct (create_healthy t d Hwf Hh) as (i & d1 & E1 & B1).
    unfold io_bind at 1. rewrite E1. cbv zeta.
    assert (∃ d2, (match s with Secret => set_permissions i 0x180 | Ordinary => io_ret tt end) d1
                  = (Ok tt, d2) /\ Building d d2 t i []) as (d2 & E2 & B2).
    { destruct s; [|by exists d1]. unfold set_permissions.
      rewrite attempt_healthy by apply B1. eexists. split; [reflexivity|].
      by apply Building_touch with []. }
    unfold io_bind at 1. rewrite E2. unfold io_bind at 1, write_all at 1.
    rewrite attempt_healthy by apply B2.
    assert (Building d (set_inode i (append_to bs) d2) t i bs) as B3
      by (apply Building_touch with []; [intros n E; cbn; by rewrite E|done]).
    unfold io_bind at 1, sync_all at 1. rewrite attempt_healthy by apply B3.
    pose proof (Building_touch _ _ _ _ _ bs mark_synced ltac:(intros n E; exact E) B3) as B4.
    destruct (rename_healthy _ _ t q i bs B4) as (d5 & E5 & W5); [congruence|done..|].
    unfold io_bind at 1. rewrite E5. unfold io_match at 1, open_dir at 1.
    rewrite attempt_healthy by apply W5. unfold io_match, sync_dir.
    rewrite attempt_healthy by apply W5. eexists. split; [reflexivity|]. by apply Wrote_pin.
  - unfold io_match, remove_file. rewrite attempt_healthy by done.
    destruct (dir d !! q) as [i|] eqn:E; eexists; (split; [reflexivity|]).
    + split; [by apply wf_delete|done|..]; unfold read_back; cbn.
      * by rewrite lookup_delete_eq.
      * intros q' Hq' _. by rewrite lookup_delete_ne.
    + split; [done..| |done]. unfold read_back. by rewrite E.
Qed.

(** ** The file store keeps what the in-memory store keeps *)

Section refinement.
  Context `{!ReadDir} `{!ReadDirLaws} `{!Cbor PeerRecord}.

(** The directory of records holds a file for each entry and nothing else but
    temporaries. *)
Record Mirror (st : FileStore) (d : disk) (m : MemoryStore) : Prop := {
  mi_wf : wf d;
  mi_healthy : healthy d;
  mi_keys k v : entries m !! k = Some v -> ∃ id, simple id /\ k = record_key id;
  mi_here id : simple id -> read_back d (record_path st id) = entries m !! record_key id;
  mi_only q v : parent q = root st ++ ["peer"%string] -> is_tmp q = false ->
    read_back d q = Some v -> ∃ id, simple id /\ q = record_path st id;
}.

Lemma record_key_inj a b : record_key a = record_key b -> a = b.
Proof. apply str_app_inj_l. Qed.

Lemma put_mirror st id v s d m :
  simple id -> Mirror st d m ->
  ∃ d', put st (record_key id) v s d = (Ok tt, d') /\ Mirror st d' (memory_put (record_key id) v m).
Proof.
  intros Hid [H1 H2 H3 H4 H5].
  destruct (put_healthy st (record_key id) (record_path st id) v s d) as (d' & E & W);
    auto using path_for_record, named_record, record_not_tmp.
  exists d'. split; [done|]. destruct W as [W1 W2 W3 W4]. split; [done|done|..].
  - intros k w. destruct v as [bs|]; cbn.
    + intros [[<- _]|[_ Hw]]%lookup_insert_Some; [by exists id|by eapply H3].
    + intros [_ Hw]%lookup_delete_Some. by eapply H3.
  - intros id' Hid'. destruct (decide (id' = id)) as [->|Hne].
    + rewrite W3. destruct v; cbn; by rewrite ?lookup_insert_eq, ?lookup_delete_eq.
    + assert (record_key id <> record_key id') by by intros ?%record_key_inj.
      rewrite W4, H4; [|done|by intros ?%record_path_inj|by apply record_not_tmp].
      destruct v; cbn; by rewrite ?lookup_insert_ne, ?lookup_delete_ne.
  - intros q w Hq Ht Hr. destruct (decide (q = record_path st id)) as [->|Hne]; [by exists id|].
    rewrite W4 in Hr by done. by apply (H5 q w).
Qed.

Definition file_entries (d : disk) (q : path) : option (path * bytes) :=
  if is_tmp q then None else (λ v, (q, v)) <$> read_back d q.
Definition decode_entry {A} (e : A * bytes) : option PeerRecord := cbor_decode e.2.

Lemma load_entries_healthy d ps :
  wf d -> healthy d -> (∀ p, p ∈ ps -> is_Some (dir d !! p)) ->
  load_entries ps d = (Ok (omap decode_entry (omap (file_entries d) ps)), d).
Proof.
  intros Hwf Hh. induction ps as [|p ps IH]; intros Hps; [done|].
  assert (∀ p, p ∈ ps -> is_Some (dir d !! p)) as Hps'.
  { intros q Hq. apply Hps. by right. }
  cbn [load_entries omap list_omap]. unfold file_entries at 1.
  destruct (is_tmp p) eqn:Et; [by apply IH|].
  destruct (Hps p) as [i Hi]; [left|].
  destruct (wf_known _ Hwf (dir d) p i) as [_ [n Hn]]; [left|done|].
  assert (read_back d p = Some (data n)) as Hr by (unfold read_back; rewrite Hi; cbn; by rewrite Hn).
  rewrite Hr. unfold io_bind, fs_read at 1. rewrite attempt_healthy, Hr by done. cbn.
  rewrite IH by done. unfold decode_entry at 3. cbn. by destruct (cbor_decode (data n)).
Qed.

Lemma NoDup_omap_inj {A B} (f : A -> option B) (l : list A) :
  (∀ x y z, f x = Some z -> f y = Some z -> x = y) -> NoDup l -> NoDup (omap f l).
Proof.
  intros Hinj. induction 1 as [|x l Hx Hl IH]; [constructor|]. cbn.
  destruct (f x) as [z|] eqn:Ez; [|done]. constructor; [|done].
  intros (y & Hy & Ey)%list_elem_of_omap. by rewrite (Hinj x y z Ez Ey) in Hx.
Qed.

Lemma bt_iter_NoDup {K V} `{Countable K, !KeyOrd K} (m : gmap K V) : NoDup (bt_iter m).
Proof. apply NoDup_fmap_1 with (f := fst), bt_keys_NoDup. Qed.

(** The records on the disk and those in memory are the same ones. *)
Lemma mirror_entries st d m :
  Mirror st d m ->
  omap (file_entries d) (read_dir (root st ++ ["peer"%string]) (dir d))
  ≡ₚ (λ '(k, v), (path_join (root st) k, v)) <$> bt_iter (entries m).
Proof.
  intros [H1 H2 H3 H4 H5]. destruct (read_dir_entries (root st ++ ["peer"%string]) (dir d)) as [Hnd Hel].
  assert (∀ id, simple id -> path_join (root st) (record_key id) = record_path st id) as Hj.
  { intros id Hid. pose proof (path_for_record st id Hid) as E. unfold path_for in E.
    destruct (_ || _); [done|]. by injection E. }
  apply NoDup_Permutation.
  - apply NoDup_omap_inj; [|done]. intros p q [r v]. unfold file_entries.
    destruct (is_tmp p), (is_tmp q), (read_back d p), (read_back d q); cbn; congruence.
  - apply NoDup_fmap_2_strong; [|apply bt_iter_NoDup].
    intros [k v] [k' v'] Hk%elem_of_bt_iter Hk'%elem_of_bt_iter [= E ->].
    destruct (H3 _ _ Hk) as (id & Hid & ->), (H3 _ _ Hk') as (id' & Hid' & ->).
    rewrite !Hj in E by done. by apply record_path_inj in E as ->.
  - intros [q v]. rewrite list_elem_of_omap, list_elem_of_fmap. split.
    + intros (p & [Hp Hs]%Hel & E). unfold file_entries in E.
      destruct (is_tmp p) eqn:Et; [done|]. destruct (read_back d p) as [w|] eqn:Er; [|done].
      injection E as -> ->. destruct (H5 q v Hp Et Er) as (id & Hid & ->).
      exists (record_key id, v). rewrite elem_of_bt_iter, Hj, <- H4 by done. done.
    + intros ([k w] & [= -> ->] & Hk%elem_of_bt_iter). destruct (H3 _ _ Hk) as (id & Hid & ->).
      rewrite Hj by done. exists (record_path st id).
      assert (read_back d (record_path st id) = Some w) as Hr by by rewrite H4.
      unfold file_entries. rewrite record_not_tmp, Hr by done. split; [|done].
      apply Hel. split; [apply parent_record|]. unfold read_back in Hr.
      by destruct (dir d !! record_path st id).
Qed.

Lemma load_peers_mirror st d m :
  Mirror st d m ->
  ∃ rs, load_peers st d = (Ok rs, d) /\ rs ≡ₚ memory_load_peers m.
Proof.
  intros HM. pose proof HM as [H1 H2 H3 H4 H5].
  pose proof (mirror_entries st d m HM) as HP.
  exists (omap decode_entry (omap (file_entries d) (read_dir (root st ++ ["peer"%string]) (dir d)))).
  split.
  - unfold load_peers. change (path_join (root st) "peer") with (root st ++ ["peer"%string]).
    unfold io_bind, open_dir. rewrite attempt_healthy by done. apply load_entries_healthy; [done..|].
    intros p Hp. by apply read_dir_entries in Hp as [_ Hp].
  - rewrite HP. unfold memory_load_peers.
    assert (List.filter (λ '(k, _), str_starts_with "peer/" k) (bt_iter (entries m))
            = bt_iter (entries m)) as ->.
    { assert (∀ l, (∀ k v, (k, v) ∈ l -> entries m !! k = Some v) ->
        List.filter (λ '(k, _), str_starts_with "peer/" k) l = l) as Hall.
      { intros l. induction l as [|[k v] l IH]; intros Hl; [done|]. cbn [List.filter].
        destruct (H3 k v) as (id & _ & ->); [apply Hl; left|].
        assert (str_starts_with "peer/" (record_key id) = true) as ->
          by (apply str_starts_with_spec; by exists id).
        f_equal. apply IH. intros k' v' Hk'. apply Hl. by right. }
      apply Hall. intros k v. apply elem_of_bt_iter. }
    apply reflexive_eq. clear HP. induction (bt_iter (entries m)) as [|[k v] l IH]; [done|].
    cbn. unfold decode_entry at 1. cbn. destruct (cbor_decode v); [f_equal|]; exact IH.
Qed.

Definition write := (string * option bytes * Sensitivity)%type.
Fixpoint put_all (st : FileStore) (ws : list write) : io ErrorKind unit :=
  match ws with
  | [] => io_ret tt
  | (id, v, s) :: ws' => do! _ := put st (record_key id) v s in put_all st ws'
  end.
Definition memory_put_all (ws : list write) (m : MemoryStore) : MemoryStore :=
  foldl (λ m '(id, v, _), memory_put (record_key id) v m) m ws.

(** C21 (refinement): While calls go through, the file store promises what the
    in-memory store does: after the same writes and removals of records both
    load the same peers, in whatever order the directory names them. *)
Theorem store_refines_memory st ws d m :
  Mirror st d m -> Forall (λ '(id, _, _), simple id) ws ->
  ∃ d' rs, put_all st ws d = (Ok tt, d') /\ load_peers st d' = (Ok rs, d') /\
    rs ≡ₚ memory_load_peers (memory_put_all ws m).
Proof.
  intros HM Hws. revert d m HM. induction Hws as [|[[id v] s] ws Hid Hws IH]; intros d m HM.
  - destruct (load_peers_mirror st d m HM) as (rs & E & HP). by exists d, rs.
  - destruct (put_mirror st id v s d m Hid HM) as (d1 & E & HM1).
    destruct (IH d1 _ HM1) as (d' & rs & E' & HP). exists d', rs.
    split; [|done]. cbn. unfold io_bind. by rewrite E.
Qed.
End refinement.

(** ** The trait, and what each store does whether or not its calls go through *)

(* src: crates/acrylius-rt/src/store.rs 10 13 Store *)
Class Store (T : Type) := {
  store_put : string -> option bytes -> Sensitivity -> T -> result unit ErrorKind * T;
  store_load : T -> result (list PeerRecord) ErrorKind * T;
}.

Section stores.
  Context `{!ReadDir} `{!ReadDirLaws} `{!Cbor PeerRecord}.

(* src: crates/acrylius-rt/src/store.rs 117 137 MemoryStore::put *)
#[global] Instance MemoryStore_Store : Store MemoryStore := {
  store_put k v _ m := (Ok tt, memory_put k v m);
  store_load m := (Ok (memory_load_peers m), m);
}.
(* src: crates/acrylius-rt/src/store.rs 55 110 FileStore::put *)
#[global] Instance FileStore_Store : Store (FileStore * disk) := {
  store_put k v sens s := let '(r, d) := put s.1 k v sens s.2 in (r, (s.1, d));
  store_load s := let '(r, d) := load_peers s.1 s.2 in (r, (s.1, d));
}.

Lemma set_permissions_keeps t i bs m d0 :
  triple (Filling t i bs d0) (set_permissions i m) (λ _, Filling t i bs d0) (Kept t d0).
Proof.
  apply triple_attempt; [by intros; apply Filling_faults| |apply Filling_Kept|].
  - intros d Hd. by apply (Filling_touch t i bs bs).
  - intros _. apply Filling_Kept.
Qed.
Lemma sync_all_keeps t i bs d0 :
  triple (Filling t i bs d0) (sync_all i) (λ _, Filling t i bs d0) (Kept t d0).
Proof.
  apply triple_attempt; [by intros; apply Filling_faults| |apply Filling_Kept|].
  - intros d Hd. by apply (Filling_touch t i bs bs).
  - intros _. apply Filling_Kept.
Qed.

Lemma Replaced_faults t q bs d0 d f : Replaced t q bs d0 d -> Replaced t q bs d0 (d <| faults := f |>).
Proof. intros (H1 & H2 & H3 & H4). split_and!; [by apply wf_faults|done..]. Qed.

(** What a write leaves: on success the value is there, on failure what was there
    still is; no other record is touched. *)
Definition put_leaves (q : path) (v : option bytes) (d : disk) (r : result unit ErrorKind) (d' : disk) : Prop :=
  wf d' /\ (∀ q', q' <> q -> is_tmp q' = false -> read_back d' q' = read_back d q') /\
  read_back d' q = match r with Ok _ => v | Err _ => read_back d q end.

Lemma put_bytes_leaves st key q bs s d :
  path_for st key = Ok q -> named q -> is_tmp q = false -> wf d ->
  let '(r, d') := put st key (Some bs) s d in put_leaves q (Some bs) d r d'.
Proof.
  intros Hk Hn Hq Hwf. pose proof (is_tmp_with_extension q Hn) as Ht. pose proof (parent_with_extension q "tmp" Hn) as Hp.
  set (t := with_extension q "tmp") in *. assert (t <> q) as Hne by congruence.
  assert (triple (Kept t d) (put st key (Some bs) s) (λ _, Replaced t q bs d) (Kept t d)) as HT.
  { unfold put. apply triple_lift; [|done]. intros q' E. rewrite Hk in E. injection E as <-. fold t.
    eapply triple_bind; [apply create_keeps|]. intros i.
    apply triple_bind with (Q := λ _, Filling t i [] d).
    { destruct s; [apply set_permissions_keeps|by intros ?]. }
    intros []. eapply triple_bind; [apply write_all_keeps|]. intros [].
    eapply triple_bind; [apply sync_all_keeps|]. intros [].
    eapply triple_bind; [by apply rename_replaces|]. intros [] d1 HR.
    assert (triple (Replaced t q bs d) (open_dir (root st)) (λ _, Replaced t q bs d) (Replaced t q bs d)) as Ho.
    { apply triple_attempt; [intros; by apply Replaced_faults|by intros ?|done|done]. }
    assert (triple (Replaced t q bs d) (sync_dir (root st)) (λ _, Replaced t q bs d) (Replaced t q bs d)) as Hs.
    { apply triple_attempt; [intros; by apply Replaced_faults| |done|done].
      intros d2 (H1 & H2 & H3 & H4). split_and!; [by apply wf_pin|done..]. }
    unfold io_match. specialize (Ho d1 HR). destruct (open_dir (root st) d1) as [[[]|e] d2]; [|done].
    specialize (Hs d2 Ho). by destruct (sync_dir (root st) d2) as [[[]|e] d3]. }
  specialize (HT d (Kept_refl t d Hwf)). destruct (put st key (Some bs) s d) as [[[]|e] d'].
  - destruct HT as (H1 & H2 & _ & H4). split_and!; [done| |done]. intros q' H5 H6. apply H4; [done|]. by intros ->; rewrite H6 in Ht.
  - destruct HT as [H1 H2]. split_and!; [done| |by apply H2]. intros q' H5 H6. apply H2. by intros ->; rewrite H6 in Ht.
Qed.

Lemma put_none_leaves st key q s d :
  path_for st key = Ok q -> wf d ->
  let '(r, d') := put st key None s d in put_leaves q None d r d'.
Proof.
  intros Hk Hwf. unfold put. unfold io_bind, io_lift. rewrite Hk. unfold io_match.
  assert (∀ f, wf (d <| faults := f |>)) as Hf by (intros; by apply wf_faults).
  assert (∀ f, let '(r, d') := match dir d !! q with
      | Some _ => (Ok tt, set_dir (delete q) (d <| faults := f |>)) | None => (Err NotFound, d <| faults := f |>) end in
      put_leaves q None d (match r with Err NotFound => Ok tt | r => r end) d') as Hgo.
  { intros f. destruct (dir d !! q) as [i|] eqn:E.
    - split_and!; [by apply wf_delete| |].
      + intros q' Hne _. unfold read_back. cbn. by rewrite lookup_delete_ne.
      + unfold read_back. cbn. by rewrite lookup_delete_eq.
    - split_and!; [done..|]. unfold read_back. cbn. by rewrite E. }
  unfold remove_file, attempt. destruct (faults d) as [|[] fs] eqn:Ef.
  - specialize (Hgo []). assert (d <| faults := [] |> = d) as Ed by (destruct d; cbn in Ef; by subst).
    rewrite Ed in Hgo. destruct (dir d !! q); done.
  - specialize (Hgo fs). change (dir (d <| faults := fs |>)) with (dir d). destruct (dir d !! q); done.
  - by split_and!.
  - by split_and!.
Qed.

(** The file a record's key names, whatever follows the prefix. *)
Lemma path_for_key st w q :
  path_for st (record_key w) = Ok q -> q = record_path st w \/ q = root st ++ ["peer"%string].
Proof.
  unfold path_for. destruct (_ || _) eqn:E; [done|]. intros [= <-].
  apply orb_false_iff in E as [_ E]. apply negb_false_iff, Nat.eqb_eq in E.
  change (record_key w) with
    (String "p" (String "e" (String "e" (String "r" (String "/" w)))))%string in *.
  cbn in E. injection E as E. unfold path_join. cbn [str_starts_with]. unfold components.
  match goal with |- context [str_split ?a ?b] =>
    assert (str_split a b = ["peer"; w]%string) as -> by (cbn; by rewrite str_split_none by done) end.
  cbn [List.filter]. rewrite bool_decide_eq_false_2 by (by intros [|]). cbn [negb].
  case_bool_decide; cbn [negb]; [by right|by left].
Qed.

(** Reading changes nothing but what may fail next, and returns what is there. *)
Definition same_files (d d' : disk) : Prop := dir d' = dir d /\ inodes d' = inodes d.

Lemma fs_read_same p d r d' :
  fs_read p d = (r, d') -> same_files d d' /\ ∀ bs, r = Ok bs -> read_back d p = Some bs.
Proof.
  assert (∀ (x : bytes), ok_or (read_back d p) NotFound = Ok x -> read_back d p = Some x) as Hok
    by (intros x; destruct (read_back d p); cbn; congruence).
  unfold fs_read, attempt. destruct (faults d) as [|[] fs]; intros [= <- <-]; (split; [done|]); try done; exact Hok.
Qed.

Lemma load_entries_Ok ps d rs d' :
  load_entries ps d = (Ok rs, d') -> rs = omap decode_entry (omap (file_entries d) ps).
Proof.
  revert d rs d'. induction ps as [|p ps IH]; intros d rs d' E; [by injection E as <- _|].
  cbn [load_entries omap list_omap] in *. unfold file_entries at 1. destruct (is_tmp p); [by eapply IH|].
  unfold io_bind at 1 in E. destruct (fs_read p d) as [[bs|] d1] eqn:Er; [|done].
  apply fs_read_same in Er as [[Hd Hi] Hr]. rewrite (Hr bs eq_refl). cbn.
  assert (∀ q, file_entries d1 q = file_entries d q) as Hfe by (intros q; unfold file_entries, read_back; by rewrite Hd, Hi).
  unfold io_bind in E. destruct (load_entries ps d1) as [[rest|] d2] eqn:El; [|done].
  apply IH in El. unfold io_ret in E. injection E as <- _. unfold decode_entry at 1. cbn [snd].
  assert (rest = omap decode_entry (omap (file_entries d) ps)) as ->.
  { rewrite El. f_equal. clear -Hfe. induction ps as [|x ps IH]; [done|]. cbn. by rewrite Hfe, IH. }
  by destruct (cbor_decode bs).
Qed.

Lemma load_peers_Ok st d rs d' r :
  load_peers st d = (Ok rs, d') ->
  r ∈ rs <-> ∃ q v, parent q = root st ++ ["peer"%string] /\ is_tmp q = false /\
    read_back d q = Some v /\ cbor_decode v = Some r.
Proof.
  unfold load_peers. change (path_join (root st) "peer") with (root st ++ ["peer"%string]).
  unfold io_bind. destruct (open_dir _ d) as [[[]|] d1] eqn:Eo; [|done].
  assert (dir d1 = dir d /\ inodes d1 = inodes d) as [Hd Hi].
  { unfold open_dir, attempt in Eo. by destruct (faults d) as [|[] fs]; simplify_eq. }
  intros E%load_entries_Ok. rewrite E, Hd. destruct (read_dir_entries (root st ++ ["peer"%string]) (dir d)) as [_ Hel].
  assert (∀ q, read_back d1 q = read_back d q) as Hrb by (intros q; unfold read_back; by rewrite Hd, Hi).
  rewrite list_elem_of_omap. split.
  - intros ([q v] & Hin & Hdec). apply list_elem_of_omap in Hin as (p & [Hp _]%Hel & Hf). unfold file_entries in Hf.
    destruct (is_tmp p) eqn:Et; [done|]. rewrite Hrb in Hf. destruct (read_back d p) as [w|] eqn:Ew; [|done].
    injection Hf as <- <-. by exists p, w.
  - intros (q & v & Hp & Ht & Hv & Hdec). exists (q, v). split; [|exact Hdec]. apply list_elem_of_omap. exists q. split.
    + apply Hel. split; [done|]. unfold read_back in Hv. by destruct (dir d !! q).
    + unfold file_entries. by rewrite Ht, Hrb, Hv.
Qed.
End stores.

(** ** A write that returned can be lost

    [put] syncs the store's root so that "the rename itself" is not lost, but
    a record is renamed within [root/peer], another directory. *)
Theorem put_ok_can_be_lost :
  let st := mkFileStore ["var"%string] in
  let p := record_path st "A" in
  ∃ d d',
    put st (record_key "A") (Some [Byte.x01]) Secret empty_disk = (Ok tt, d) /\
    read_back d p = Some [Byte.x01] /\ power_loss d d' /\ read_back d' p = None.
Proof.
  cbv zeta.
  set (d := (put (mkFileStore ["var"%string]) (record_key "A") (Some [Byte.x01]) Secret empty_disk).2).
  exists d, (mkDisk ∅ (inodes d) (fresh_ino d) [] []).
  split; [vm_compute; reflexivity|]. split; [vm_compute; reflexivity|].
  split; [|reflexivity]. split_and!; [|done..|].
  - right. apply list_elem_of_lookup_2 with 1%nat. vm_compute. reflexivity.
  - intros i. cbn [inodes].
    assert (inodes d = {[0 := mkInode [Byte.x01] 0x180 true]}) as -> by (vm_compute; reflexivity).
    destruct (decide (i = 0)) as [->|Hi]; [by rewrite lookup_singleton_eq|].
    by rewrite lookup_singleton_ne.
Qed.
