(* ===== verification/RtBulk.v ===== *)
(** * [acrylius-rt/src/bulk.rs]: moving a file over its own connection

    The bytes of a connection that has ended are a list and how it ended; the
    file system is [Fs]'s.  The sizes of successive reads of the file sent
    are the operating system's choice, so they are an argument. *)

From Stdlib Require Import Ascii.
From stdpp Require Import pretty.
From S2P Require Import Prelude Externals Strs Fs Bulk.
Local Open Scope N_scope.

(** What the code relies on of ChaCha20-Poly1305, besides [AeadLaws]: the tag
    takes 16 bytes; only one ciphertext opens to a plaintext under a key and
    nonce; anything the size of a chunk can be sealed. *)
Class AeadTag `{Aead} :=
  aead_tag : ∀ k n m c, aead_encrypt k n m = Some c -> len c = len m + 16.
Class AeadUnique `{Aead} :=
  aead_unique : ∀ k n m c, aead_decrypt k n c = Some m -> aead_encrypt k n m = Some c.
Class AeadTotal `{Aead} :=
  aead_total : ∀ k n m, len k = 32 -> len n = 12 -> len m <= CHUNK -> is_Some (aead_encrypt k n m).

Inductive BulkError :=
| Io (e : ErrorKind)
| FrameTooLong (n : u32)
| TryFromInt
| Chunk (e : ChunkError)
| Hello (e : HelloError)
| WrongTransfer (named expected : u64)
| MoreThanOffered
| Short (written expect_bytes : u64).

(** ** Frames *)

(** What goes onto the wire. *)
(* src: crates/acrylius-rt/src/bulk.rs 13 18 write_frame *)
Definition write_frame (frame : bytes) : result bytes BulkError :=
  if u32_max <? len frame then Err TryFromInt
  else Ok (to_be_bytes 4 (len frame) ++ frame).

(* src: crates/acrylius-rt/src/bulk.rs 20 35 read_frame *)
Definition read_frame (s : stream) : result (option bytes * stream) BulkError :=
  match read_exact 4 s with
  | Err UnexpectedEof => Ok (None, s)
  | Err e => Err (Io e)
  | Ok (hdr, s) =>
      let n := from_be_bytes hdr in
      if MAX_FRAME <? n then Err (FrameTooLong n)
      else try! (buf, s) := map_err Io (read_exact (N.to_nat n) s) in Ok (Some buf, s)
  end.

(* src: crates/acrylius-rt/src/bulk.rs 61 73 Listening::accept *)
Definition accept (transfer : u64) (s : stream) : result stream BulkError :=
  try! (greeting, s) := map_err Io (read_exact 12 s) in
  try! named := map_err Hello (read_hello greeting) in
  if negb (named =? transfer) then Err (WrongTransfer named transfer) else Ok s.

(* src: crates/acrylius-rt/src/bulk.rs 143 148 temp_beside *)
Definition temp_beside (dest : path) : path :=
  let name := match file_name dest with Some n => n | None => EmptyString end in
  with_file_name dest (name +:+ ".part").

Section transfer.
  Context `{!Aead}.

(** The loop of [receive]; a frame takes at least its header's four bytes, so
    the length of what is left is fuel enough. *)
(* src: crates/acrylius-rt/src/bulk.rs 86 95 Accepted::receive *)
Fixpoint receive_loop (fuel : nat) (key : bytes) (expect_bytes : u64) (file : ino)
    (seq written : u64) (s : stream) : io BulkError u64 :=
  match fuel with
  | O => io_lift (Err (Io OtherError))
  | S fuel =>
      do! (frame, s) := io_lift (read_frame s) in
      match frame with
      | None => io_ret written
      | Some frame =>
          do! plain := io_lift (map_err Chunk (open_chunk key seq frame)) in
          let seq := seq +u64 1 in
          let written := written +u64 len plain in
          if expect_bytes <? written then io_lift (Err MoreThanOffered)
          else
            do! _ := io_map_err Io (write_all file plain) in
            receive_loop fuel key expect_bytes file seq written s
      end
  end.

(* src: crates/acrylius-rt/src/bulk.rs 83 100 Accepted::receive *)
Definition receive_all (key : bytes) (expect_bytes : u64) (file : ino) (s : stream) :
    io BulkError u64 :=
  do! written := receive_loop (S (length (incoming s))) key expect_bytes file 0 0 s in
  do! _ := io_map_err Io (flush file) in
  if negb (written =? expect_bytes) then io_lift (Err (Short written expect_bytes))
  else io_ret written.

(* src: crates/acrylius-rt/src/bulk.rs 79 115 Accepted::receive *)
Definition receive (key : bytes) (expect_bytes : u64) (dest : path) (s : stream) : io BulkError u64 :=
  let tmp := temp_beside dest in
  do! file := io_map_err Io (create tmp) in
  io_match (receive_all key expect_bytes file s) (λ outcome,
    match outcome with
    | Ok written => do! _ := io_map_err Io (rename tmp dest) in io_ret written
    | Err e => io_match (remove_file tmp) (λ _, io_lift (Err e))
    end).

(** The frames of a file read in the pieces [reads], numbered from [seq]. *)
(* src: crates/acrylius-rt/src/bulk.rs 126 137 send *)
Fixpoint send_loop (key : bytes) (seq sent : u64) (reads : list bytes) : result (bytes * u64) BulkError :=
  match reads with
  | [] => Ok ([], sent)
  | buf :: reads' =>
      try! frame := map_err Chunk (seal key seq buf) in
      try! out := write_frame frame in
      try! (rest, sent) := send_loop key (seq +u64 1) (sent +u64 len buf) reads' in
      Ok (out ++ rest, sent)
  end.

(** What a sender that is not interrupted puts on the wire and returns. *)
(* src: crates/acrylius-rt/src/bulk.rs 118 141 send *)
Definition send (transfer : u64) (key : bytes) (reads : list bytes) : result (bytes * u64) BulkError :=
  try! (frames, sent) := send_loop key 0 0 reads in
  Ok (hello transfer ++ frames, sent).

(** The pieces a file of these contents can be read in. *)
Definition reads_of (content : bytes) (reads : list bytes) : Prop :=
  concat reads = content /\ Forall (λ b, 1 <= len b <= CHUNK) reads.
End transfer.

(** ** Choosing where a file goes *)

(* src: crates/acrylius-rt/src/bulk.rs 170 173 reserve_path *)
Definition stem_and_ext (name : string) : string * string :=
  match str_rsplit_once "." name with
  | Some (String a s, e) => (String a s, String "." e)
  | _ => (name, EmptyString)
  end.
(* src: crates/acrylius-rt/src/bulk.rs 175 175 reserve_path *)
Definition numbered_name (name : string) (n : N) : string :=
  let '(stem, ext) := stem_and_ext name in
  stem +:+ " (" +:+ fmt_u64 n +:+ ")" +:+ ext.

(** The loop over [2..10_000], [k] numbers of which are left from [n] on. *)
(* src: crates/acrylius-rt/src/bulk.rs 174 181 reserve_path *)
Fixpoint reserve_loop (k : nat) (n : N) (dir_path : path) (name : string) : io ErrorKind path :=
  match k with
  | O => io_lift (Err AlreadyExists)
  | S k =>
      let candidate := path_join dir_path (numbered_name name n) in
      io_match (create_new candidate) (λ r,
        match r with
        | Ok _ => io_ret candidate
        | Err AlreadyExists => reserve_loop k (n + 1) dir_path name
        | Err e => io_lift (Err e)
        end)
  end.

(* src: crates/acrylius-rt/src/bulk.rs 157 186 reserve_path *)
Definition reserve_path (dir_path : path) (name : string) : io ErrorKind path :=
  let candidate := path_join dir_path name in
  io_match (create_new candidate) (λ r,
    match r with
    | Ok _ => io_ret candidate
    | Err AlreadyExists => reserve_loop (N.to_nat 9998) 2 dir_path name
    | Err e => io_lift (Err e)
    end).

(** ** Reading frames *)

Lemma max_frame_u32 n : n <= MAX_FRAME -> n < 256 ^ N.of_nat 4.
Proof. intros H. eapply N.le_lt_trans; [exact H|]. by vm_compute. Qed.

(** A frame within the cap is read back as written, and what follows is left. *)
Lemma read_write_frame frame out rest c :
  len frame <= MAX_FRAME -> write_frame frame = Ok out ->
  read_frame (mkStream (out ++ rest) c) = Ok (Some frame, mkStream rest c).
Proof.
  intros Hl. unfold write_frame. destruct (_ <? _); [done|]. intros E.
  assert (out = to_be_bytes 4 (len frame) ++ frame) as -> by congruence.
  unfold read_frame. rewrite <- app_assoc.
  rewrite <- (length_to_be_bytes 4 (len frame)) at 1. rewrite read_exact_app.
  rewrite from_to_be_bytes by (by apply max_frame_u32).
  destruct (N.ltb_spec MAX_FRAME (len frame)) as [|_]; [lia|].
  unfold len. rewrite Nat2N.id, read_exact_app. done.
Qed.

(** A read is a frame written, or the end of a stream that was closed, at most
    three bytes of a header left over. *)
Lemma read_frame_inv s r s' :
  read_frame s = Ok (r, s') ->
  match r with
  | Some frame => ∃ out, write_frame frame = Ok out /\ len frame <= MAX_FRAME /\
      incoming s = out ++ incoming s' /\ closed s' = closed s
  | None => s' = s /\ (length (incoming s) < 4)%nat /\ closed s = true
  end.
Proof.
  unfold read_frame. destruct (read_exact 4 s) as [[hdr s1]|e] eqn:E.
  - destruct (N.ltb_spec MAX_FRAME (from_be_bytes hdr)) as [|Hcap]; [done|].
    destruct (read_exact _ s1) as [[buf s2]|] eqn:E2; [|done]. cbn. intros [= <- <-].
    apply read_exact_inv in E as (Hl & Hi & Hc), E2 as (Hl2 & Hi2 & Hc2).
    assert (len buf = from_be_bytes hdr) as Hn by (unfold len; rewrite Hl2; apply N2Nat.id).
    exists (hdr ++ buf). split_and!; [|by rewrite Hn| |congruence].
    + unfold write_frame. rewrite Hn, (be_bytes_inv 4) by done.
      rewrite (proj2 (N.ltb_ge _ _)); [done|]. etrans; [exact Hcap|by vm_compute].
    + by rewrite Hi, Hi2, app_assoc.
  - unfold read_exact in E. destruct (Nat.leb_spec 4 (length (incoming s))) as [|Hl]; [done|].
    injection E as <-. destruct (closed s); [|done]. by intros [= <- <-].
Qed.

(** ** The temporary file *)

(** A path whose last component is a file's name. *)
Definition file_path (dest : path) (n : string) : Prop :=
  file_name dest = Some n /\ n <> ""%string /\ str_count "/" n = 0%nat.

Lemma components_name n :
  n <> ""%string -> n <> "."%string -> str_count "/" n = 0%nat -> components n = [n].
Proof.
  intros H1 H2 H3. unfold components. rewrite str_split_none by done. cbn.
  rewrite bool_decide_eq_false_2; [done|]. tauto.
Qed.

Lemma starts_with_slash n : str_count "/" n = 0%nat -> str_starts_with "/" n = false.
Proof.
  destruct n as [|a n]; [done|]. cbn [str_count str_starts_with]. rewrite (Ascii.eqb_sym "/").
  by destruct (Ascii.eqb a "/").
Qed.

Lemma path_join_name p n :
  n <> ""%string -> n <> "."%string -> str_count "/" n = 0%nat -> path_join p n = p ++ [n].
Proof.
  intros H1 H2 H3. unfold path_join. by rewrite starts_with_slash, components_name.
Qed.

Lemma temp_beside_spec dest n :
  file_path dest n -> temp_beside dest = parent dest ++ [(n +:+ ".part")%string].
Proof.
  intros (Hn & Hne & Hc). unfold temp_beside, with_file_name. rewrite Hn.
  destruct n as [|a n]; [done|]. apply path_join_name; [done|by destruct n|].
  rewrite str_count_app, Hc. done.
Qed.

Lemma temp_beside_parent dest n : file_path dest n -> parent (temp_beside dest) = parent dest.
Proof. intros H. by rewrite (temp_beside_spec dest n H), parent_snoc. Qed.

Lemma temp_beside_ne dest n : file_path dest n -> temp_beside dest <> dest.
Proof.
  intros H E. pose proof (temp_beside_spec dest n H) as Ht. rewrite E in Ht.
  destruct H as (Hn & _ & _). apply named_last in Hn as [Hn _].
  rewrite Ht, last_snoc in Hn. injection Hn as Hn.
  assert (n +:+ ".part" = n +:+ "")%string as E' by by rewrite str_app_nil_r.
  by apply str_app_inj_l in E'.
Qed.

(** ** What was sent arrives *)

Section roundtrip.
  Context `{!Aead} `{!AeadLaws} `{!AeadTag}.

Lemma sealed_fits key seq buf c :
  len buf <= CHUNK -> seal key seq buf = Ok c -> len c <= MAX_FRAME.
Proof.
  intros Hl. unfold seal. destruct (cipher key) as [k|]; cbn [result_bind]; [|done].
  destruct (aead_encrypt k (nonce seq) buf) as [c'|] eqn:E; cbn [ok_or]; [|done]. intros [= <-].
  apply aead_tag in E. unfold CHUNK in Hl. change MAX_FRAME with 65600. lia.
Qed.

(** The loop takes in a file's frames, and stops at what is left of a header. *)
Lemma receive_loop_send key expect t file d0 reads tail : (length tail < 4)%nat ->
  Forall (λ b, 1 <= len b <= CHUNK) reads -> expect <= u64_max ->
  ∀ fuel seq sent sent' out written bs d,
  send_loop key seq sent reads = Ok (out, sent') ->
  (length (out ++ tail) < fuel)%nat -> written + len (concat reads) <= expect ->
  healthy d -> Filling t file bs d0 d ->
  ∃ d', receive_loop fuel key expect file seq written (mkStream (out ++ tail) true) d
          = (Ok (written + len (concat reads)), d') /\
    healthy d' /\ Filling t file (bs ++ concat reads) d0 d'.
Proof.
  intros Htail Hreads Hex. induction Hreads as [|buf reads [Hb1 Hb2] Hreads IH];
    intros fuel seq sent sent' out written bs d Hs Hf Hw Hh HF; (destruct fuel as [|fuel]; [lia|]).
  - injection Hs as <- <-. exists d. rewrite app_nil_r.
    unfold receive_loop, io_bind, io_lift, read_frame, read_exact. cbn [app incoming closed].
    rewrite (proj2 (Nat.leb_gt 4 (length tail))) by done. cbn.
    by rewrite N.add_0_r.
  - cbn [send_loop] in Hs. destruct (seal key seq buf) as [c|] eqn:Ec; [|done]. cbn [map_err result_bind] in Hs.
    destruct (write_frame c) as [o|] eqn:Eo; [|done]. cbn [result_bind] in Hs.
    destruct (send_loop key (seq +u64 1) (sent +u64 len buf) reads) as [[rest sent1]|] eqn:Es; [|done].
    assert (out = o ++ rest) as -> by (cbn in Hs; congruence).
    cbn [concat] in Hw |- *. rewrite len_app in Hw |- *.
    cbn [receive_loop]. unfold io_bind at 1, io_lift at 1.
    rewrite <- app_assoc, (read_write_frame c o) by (done || by eapply sealed_fits).
    unfold io_bind at 1, io_lift at 1. rewrite (open_seal key seq buf c Ec). cbn [map_err].
    assert (written +u64 len buf = written + len buf) as Hadd by (apply u64_add_small; lia).
    rewrite Hadd, (proj2 (N.ltb_ge expect _)) by lia.
    unfold io_bind at 1, io_map_err, write_all. rewrite attempt_healthy by done. cbn [map_err].
    destruct (IH fuel (seq +u64 1) _ _ rest (written + len buf) (bs ++ buf)
      (set_inode file (append_to buf) d) Es) as (d' & E & Hh' & HF'); [|lia|done|by apply Filling_append|].
    + assert (0 < length o)%nat as Ho.
      { clear - Eo. unfold write_frame in Eo. destruct (_ <? _); [done|]. injection Eo as <-.
        cbn. lia. }
      rewrite !length_app in Hf. rewrite length_app. lia.
    + exists d'. rewrite E, N.add_assoc, <- app_assoc in *. done.
Qed.

Lemma send_loop_total `{!AeadTotal} key seq sent reads :
  len key = 32 -> Forall (λ b, 1 <= len b <= CHUNK) reads -> sent + len (concat reads) <= u64_max ->
  ∃ out, send_loop key seq sent reads = Ok (out, sent + len (concat reads)).
Proof.
  intros Hk Hreads. revert seq sent. induction Hreads as [|buf reads [Hb1 Hb2] Hreads IH]; intros seq sent Hs.
  - exists []. cbn. by rewrite N.add_0_r.
  - cbn [concat] in Hs |- *. rewrite len_app in Hs |- *. cbn [send_loop].
    destruct (aead_total key (nonce seq) buf) as [c Hc]; [done| |done|].
    { unfold nonce, len. rewrite length_app, length_to_be_bytes. done. }
    assert (seal key seq buf = Ok c) as Es by (unfold seal, cipher; rewrite Hk, N.eqb_refl; cbn [result_bind]; by rewrite Hc).
    rewrite Es. cbn [map_err result_bind].
    assert (write_frame c = Ok (to_be_bytes 4 (len c) ++ c)) as ->.
    { unfold write_frame. rewrite (proj2 (N.ltb_ge _ _)); [done|].
      pose proof (sealed_fits key seq buf c Hb2 Es). etrans; [done|by vm_compute]. }
    cbn [result_bind]. rewrite (u64_add_small sent) by lia.
    destruct (IH (seq +u64 1) (sent + len buf)) as [out ->]; [lia|].
    eexists. cbn [result_bind]. by rewrite N.add_assoc.
Qed.

Lemma accept_hello t rest c : t <= u64_max -> accept t (mkStream (hello t ++ rest) c) = Ok (mkStream rest c).
Proof.
  intros Ht. unfold accept.
  assert (length (hello t) = 12%nat) as Hl by (unfold hello; rewrite length_app, length_to_be_bytes; done).
  rewrite <- Hl, read_exact_app. cbn [map_err result_bind].
  rewrite (proj2 (read_hello_iff (hello t) t Hl Ht)) by done. cbn. by rewrite N.eqb_refl.
Qed.

(** C25 (roundtrip): A file sent is the file received: whatever pieces the sender's
    reads come in, what goes onto the wire is accepted as that transfer, and
    on a disk that works the destination then holds the file's bytes, the
    temporary is gone and no other file changed.  Both ends report its size. *)
Theorem transfer_arrives_whole `{!AeadTotal} t key content reads dest n d :
  file_path dest n -> wf d -> healthy d -> len key = 32 ->
  reads_of content reads -> len content <= u64_max -> t <= u64_max ->
  ∃ wire s d', send t key reads = Ok (wire, len content) /\
    accept t (mkStream wire true) = Ok s /\
    receive key (len content) dest s d = (Ok (len content), d') /\
    Replaced (temp_beside dest) dest content d d'.
Proof.
  intros Hdest Hwf Hh Hk [<- Hreads] Hlen Ht.
  destruct (send_loop_total key 0 0 reads Hk Hreads) as [out Hs]; [lia|]. rewrite N.add_0_l in Hs.
  exists (hello t ++ out), (mkStream out true).
  unfold send. rewrite Hs. cbn [result_bind]. rewrite accept_hello by done.
  unfold receive. set (tmp := temp_beside dest).
  destruct (created_fills tmp d d (Kept_refl tmp d Hwf)) as (i & d1 & E1 & HF1 & Hf1).
  assert (healthy d1) as Hh1 by (unfold healthy; by rewrite Hf1).
  unfold io_bind at 1, io_map_err at 1, create. rewrite attempt_healthy by done.
  change (match dir d !! tmp with Some _ => _ | None => _ end) with (created tmp d). rewrite E1. cbn [map_err].
  destruct (receive_loop_send key (len (concat reads)) tmp i d reads [] ltac:(cbn; lia) Hreads Hlen
    (S (length out)) 0 0 _ out 0 [] d1 Hs) as (d2 & E2 & Hh2 & HF2);
    [rewrite app_nil_r; lia|lia|done|done|].
  rewrite app_nil_r in E2. cbn [app] in HF2.
  unfold io_match, receive_all. unfold io_bind at 1. cbn [incoming]. rewrite E2. rewrite N.add_0_l.
  unfold io_bind at 1, io_map_err at 1, flush. rewrite attempt_healthy by done. cbn [map_err].
  rewrite N.eqb_refl. cbn [negb]. unfold io_ret at 1.
  destruct (renamed_replaces tmp dest i (concat reads) d d2) as (d3 & E3 & HR & _);
    [by eapply temp_beside_ne|by eapply temp_beside_parent|done|].
  exists d3. split_and!; [done|done| |done].
  unfold io_bind, io_map_err, rename. rewrite attempt_healthy by done.
  change (match dir d2 !! tmp with Some _ => _ | None => _ end) with (renamed tmp dest d2).
  by rewrite E3.
Qed.
End roundtrip.

(** ** Nothing else is taken for the file *)

Section soundness.
  Context `{!Aead} `{!AeadUnique} `{!AeadTag}.

Lemma open_sealed key seq frame plain :
  open_chunk key seq frame = Ok plain -> seal key seq plain = Ok frame.
Proof.
  unfold open_chunk, seal. destruct (cipher key) as [k|]; cbn [result_bind]; [|done].
  destruct (aead_decrypt k (nonce seq) frame) as [m|] eqn:E; cbn [ok_or]; [|done].
  intros [= ->]. by rewrite (aead_unique _ _ _ _ E).
Qed.

Lemma receive_loop_spec key expect t file d0 fuel :
  expect + MAX_FRAME <= u64_max ->
  ∀ seq sent written s bs d, written <= expect -> Filling t file bs d0 d ->
  match receive_loop fuel key expect file seq written s d with
  | (Ok w, d') => ∃ reads out tail sent',
      send_loop key seq sent reads = Ok (out, sent') /\ incoming s = out ++ tail /\
      (length tail < 4)%nat /\ closed s = true /\
      w = written + len (concat reads) /\ Filling t file (bs ++ concat reads) d0 d'
  | (Err _, d') => Kept t d0 d'
  end.
Proof.
  intros Hex. induction fuel as [|fuel IH]; intros seq sent written s bs d Hw HF.
  { by eapply Filling_Kept. }
  cbn [receive_loop]. unfold io_bind at 1, io_lift at 1.
  destruct (read_frame s) as [[[frame|] s1]|e] eqn:Er; [..|by eapply Filling_Kept];
    apply read_frame_inv in Er.
  2: { destruct Er as (-> & Hl & Hc). exists [], [], (incoming s), sent.
       cbn. rewrite app_nil_r, N.add_0_r. done. }
  destruct Er as (o & Ho & Hmax & Hin & Hc).
  unfold io_bind at 1, io_lift at 1.
  destruct (open_chunk key seq frame) as [plain|e] eqn:Eo; [|by eapply Filling_Kept].
  cbn [map_err]. pose proof (open_sealed _ _ _ _ Eo) as Es.
  assert (len plain <= len frame) as Hpl.
  { unfold seal in Es. destruct (cipher key) as [k|]; cbn [result_bind] in Es; [|done].
    destruct (aead_encrypt k (nonce seq) plain) as [c|] eqn:E; cbn [ok_or] in Es; [|done].
    injection Es as <-. apply aead_tag in E. lia. }
  rewrite (u64_add_small written) by lia.
  destruct (N.ltb_spec expect (written + len plain)) as [|Hle]; [by eapply Filling_Kept|].
  unfold io_bind at 1, io_map_err.
  pose proof (write_all_keeps t file bs plain d0 d HF) as Hwr.
  destruct (write_all file plain d) as [[[]|e] d1]; cbn [map_err]; [|done].
  specialize (IH (seq +u64 1) (sent +u64 len plain) (written + len plain) s1 _ d1 Hle Hwr).
  destruct (receive_loop fuel _ _ _ _ _ s1 d1) as [[w|e] d2]; [|done].
  destruct IH as (reads & out & tail & sent' & K1 & K2 & K3 & K4 & K5 & K6).
  exists (plain :: reads), (o ++ out), tail, sent'. cbn [send_loop concat].
  rewrite Es. cbn [map_err result_bind]. rewrite Ho. cbn [result_bind]. rewrite K1. cbn [result_bind].
  rewrite len_app, Hin, K2, !app_assoc in *. split_and!; try done; [congruence|lia].
Qed.

(** How [receive] may end: with the whole file, which a sender of exactly that
    many bytes put on the wire chunk by chunk, or with an error and no file
    but the temporary reading differently. *)
Definition all_or_nothing (key : bytes) (expect : u64) (dest : path) (s : stream) (d : disk)
    (r : result u64 BulkError * disk) : Prop :=
  match r with
  | (Ok w, d') => ∃ content reads out tail,
      concat reads = content /\ send_loop key 0 0 reads = Ok (out, len content) /\
      incoming s = out ++ tail /\ (length tail < 4)%nat /\ closed s = true /\
      w = expect /\ len content = expect /\ Replaced (temp_beside dest) dest content d d'
  | (Err _, d') => ∀ q, q <> temp_beside dest -> read_back d' q = read_back d q
  end.

Lemma cleanup_nothing key expect dest s d e d2 :
  Kept (temp_beside dest) d d2 ->
  all_or_nothing key expect dest s d
    (io_match (remove_file (temp_beside dest)) (λ _, io_lift (Err e)) d2).
Proof.
  intros Hk. unfold io_match, io_lift.
  pose proof (remove_file_keeps (temp_beside dest) d d2 Hk) as Hr.
  destruct (remove_file (temp_beside dest) d2) as [[[]|e'] d3]; [exact (proj2 (proj1 Hr))|exact (proj2 Hr)].
Qed.

Lemma send_loop_sent reads : ∀ key seq sent out sent',
  sent + len (concat reads) <= u64_max ->
  send_loop key seq sent reads = Ok (out, sent') -> sent' = sent + len (concat reads).
Proof.
  induction reads as [|b reads IH]; intros key seq sent out sent' Hs E.
  - injection E as <- <-. cbn. by rewrite N.add_0_r.
  - cbn [concat send_loop] in *. rewrite len_app in Hs. rewrite len_app.
    destruct (seal key seq b); cbn [map_err result_bind] in E; [|done].
    destruct (write_frame _); cbn [result_bind] in E; [|done].
    destruct (send_loop _ _ _ reads) as [[o2 s2]|] eqn:E2; cbn [result_bind] in E; [|done].
    injection E as _ <-. rewrite (u64_add_small sent) in E2 by lia. apply IH in E2; lia.
Qed.

(** C26 (safety): Whatever arrives and whatever calls fail: either [receive] reports
    the size expected, and then the stream was, position by position, the
    sealed chunks a sender of exactly that many bytes would have written, and
    the destination holds those bytes; or it reports an error, and no file but
    the temporary reads differently. *)
Theorem receive_all_or_nothing key expect dest n s d :
  file_path dest n -> wf d -> expect + MAX_FRAME <= u64_max ->
  all_or_nothing key expect dest s d (receive key expect dest s d).
Proof.
  intros Hdest Hwf Hex. unfold receive. set (tmp := temp_beside dest).
  unfold io_bind at 1, io_map_err at 1.
  pose proof (create_keeps tmp d d (Kept_refl tmp d Hwf)) as Hc.
  destruct (create tmp d) as [[file|e] d1]; cbn [map_err]; [|exact (proj2 Hc)].
  unfold io_match at 1.
  unfold receive_all, io_bind at 1.
  pose proof (receive_loop_spec key expect tmp file d (S (length (incoming s))) Hex 0 0 0 s [] d1
    ltac:(lia) Hc) as Hl.
  destruct (receive_loop _ _ _ _ _ _ s d1) as [[w|e] d2]; [|by apply cleanup_nothing].
  destruct Hl as (reads & out & tail & sent' & K1 & K2 & K3 & K4 & -> & HF).
  rewrite N.add_0_l. cbn [app] in HF.
  unfold io_bind at 1, io_map_err at 1.
  pose proof (flush_keeps tmp file _ d d2 HF) as Hfl.
  destruct (flush file d2) as [[[]|e] d3]; cbn [map_err]; [|by apply cleanup_nothing].
  destruct (N.eqb_spec (len (concat reads)) expect) as [Heq|Hne]; cbn [negb].
  2: { apply cleanup_nothing. by eapply Filling_Kept. }
  unfold io_ret at 1, io_bind, io_map_err.
  pose proof (rename_replaces tmp dest file _ d ltac:(by eapply temp_beside_ne)
    ltac:(by eapply temp_beside_parent) d3 Hfl) as Hr.
  destruct (rename tmp dest d3) as [[[]|e] d4]; cbn [map_err io_ret]; [|exact (proj2 Hr)].
  exists (concat reads), reads, out, tail. split_and!; try done.
  rewrite K1. do 2 f_equal. rewrite (send_loop_sent reads key 0 0 out sent'); [lia|lia|done].
Qed.
End soundness.

(** ** Reserving a name *)

Lemma numbered_name_ok name n :
  name <> ""%string -> str_count "/" name = 0%nat ->
  numbered_name name n <> ""%string /\ numbered_name name n <> "."%string /\
  str_count "/" (numbered_name name n) = 0%nat.
Proof.
  intros Hne Hc. unfold numbered_name.
  assert (∃ stem ext, stem_and_ext name = (stem, ext) /\ stem <> ""%string /\
    str_count "/" stem = 0%nat /\ str_count "/" ext = 0%nat) as (stem & ext & -> & Hs & Hcs & Hce).
  { unfold stem_and_ext. destruct (str_rsplit_once "." name) as [[[|a l] r]|] eqn:E.
    - by exists name, ""%string.
    - exists (String a l), (String "." r). apply str_rsplit_once_spec in E as [-> _].
      rewrite str_count_app in Hc. cbn [str_count] in Hc |- *. split_and!; [done..| |lia].
      cbn [str_count]. lia.
    - by exists name, ""%string. }
  assert (str_count "/" (fmt_u64 n) = 0%nat) as Hn.
  { apply str_count_fmt_u64. intros k. unfold pretty_N_char. by repeat case_match. }
  split_and!.
  - by destruct stem.
  - destruct stem as [|a [|b stem]]; [done|discriminate|discriminate].
  - rewrite !str_count_app, Hcs, Hce, Hn. done.
Qed.

(** A claim takes a name nobody had, or changes nothing. *)
Definition Claimed (p : path) (d d' : disk) : Prop :=
  wf d' /\ dir d !! p = None /\ read_back d' p = Some [] /\
  ∀ q, q <> p -> read_back d' q = read_back d q.

Lemma create_new_claims p d :
  wf d ->
  match create_new p d with
  | (Ok _, d') => Claimed p d d'
  | (Err e, d') => wf d' /\ dir d' = dir d /\ (∀ q, read_back d' q = read_back d q) /\
      (e = AlreadyExists -> is_Some (dir d !! p))
  end.
Proof.
  intros Hwf. unfold create_new, attempt.
  assert (∀ d0, wf d0 -> dir d0 = dir d -> inodes d0 = inodes d ->
    match (match dir d0 !! p with Some _ => (Err AlreadyExists, d0)
           | None => (Ok (fresh_ino d0), new_file p d0) end) with
    | (Ok _, d') => Claimed p d d'
    | (Err e, d') => wf d' /\ dir d' = dir d /\ (∀ q, read_back d' q = read_back d q) /\
        (e = AlreadyExists -> is_Some (dir d !! p)) end) as Hop.
  { intros d0 Hwf0 Ed Ei. destruct (dir d0 !! p) as [i|] eqn:E.
    - split_and!; [done..| |by rewrite <- Ed, E]. intros q. unfold read_back. by rewrite Ed, Ei.
    - split_and!; [by apply wf_new_file|by rewrite <- Ed|..].
      + unfold read_back. cbn. by rewrite lookup_insert_eq; cbn; rewrite lookup_insert_eq.
      + intros q Hq. unfold read_back. cbn. rewrite lookup_insert_ne, <- Ed, <- Ei by done.
        destruct (dir d0 !! q) as [j|] eqn:Ej; [|done]. cbn.
        destruct (wf_known _ Hwf0 (dir d0) q j) as [Hlt _]; [left|done|].
        rewrite lookup_insert_ne; [done|lia]. }
  destruct (faults d) as [|[] fs]; [by apply Hop|by apply Hop; [apply wf_faults|..]|..];
    split_and!; try done; by apply wf_faults.
Qed.

Lemma Claimed_trans p d d1 d2 :
  dir d1 = dir d -> (∀ q, read_back d1 q = read_back d q) -> Claimed p d1 d2 -> Claimed p d d2.
Proof.
  intros Hd Hr (H1 & H2 & H3 & H4). split_and!; [done|by rewrite <- Hd|done|].
  intros q Hq. by rewrite H4.
Qed.

Lemma reserve_loop_spec k n dp name d :
  wf d ->
  match reserve_loop k n dp name d with
  | (Ok p, d') => Claimed p d d' /\ ∃ m, n <= m < n + N.of_nat k /\
      p = path_join dp (numbered_name name m) /\
      ∀ j, n <= j < m -> is_Some (dir d !! path_join dp (numbered_name name j))
  | (Err e, d') => wf d' /\ (∀ q, read_back d' q = read_back d q) /\
      (e = AlreadyExists -> ∀ j, n <= j < n + N.of_nat k ->
         is_Some (dir d !! path_join dp (numbered_name name j)))
  end.
Proof.
  revert n d. induction k as [|k IH]; intros n d Hwf.
  { cbn. split_and!; [done..|]. intros _ j Hj. lia. }
  cbn [reserve_loop]. unfold io_match.
  pose proof (create_new_claims (path_join dp (numbered_name name n)) d Hwf) as Hc.
  destruct (create_new _ d) as [[i|e] d1].
  - split; [done|]. exists n. split_and!; [lia|lia|done|]. intros j Hj. lia.
  - destruct Hc as (Hwf1 & Hd1 & Hr1 & He).
    destruct (decide (e = AlreadyExists)) as [->|Hne].
    + specialize (IH (n + 1) d1 Hwf1). specialize (He eq_refl).
      destruct (reserve_loop k (n + 1) dp name d1) as [[p|e] d2].
      * destruct IH as (HC & m & Hm & -> & Ht). split; [by eapply Claimed_trans|].
        exists m. split_and!; [lia|lia|done|]. intros j Hj.
        destruct (decide (j = n)) as [->|]; [done|]. rewrite <- Hd1. apply Ht. lia.
      * destruct IH as (Hwf2 & Hr2 & Ht). split_and!; [done|intros q; by rewrite Hr2|].
        intros He2 j Hj. destruct (decide (j = n)) as [->|]; [done|].
        rewrite <- Hd1. apply Ht; [done|lia].
    + destruct e; try done; (split_and!; [done|done|done]).
Qed.

(** Reserving a name takes a path in the directory that no file had,
    the first free one of the name and its numbered forms, and no file reads
    differently; when it fails nothing was taken, and it says "already exists"
    only if all ten thousand names are. *)
Theorem reserve_path_fresh dp name d :
  name <> ""%string -> name <> "."%string -> str_count "/" name = 0%nat -> wf d ->
  match reserve_path dp name d with
  | (Ok p, d') => Claimed p d d' /\ parent p = dp /\
      (p = dp ++ [name] \/ is_Some (dir d !! (dp ++ [name])) /\
        ∃ m, 2 <= m < 10000 /\ p = dp ++ [numbered_name name m] /\
          ∀ j, 2 <= j < m -> is_Some (dir d !! (dp ++ [numbered_name name j])))
  | (Err e, d') => (∀ q, read_back d' q = read_back d q) /\
      (e = AlreadyExists -> is_Some (dir d !! (dp ++ [name])) /\
         ∀ j, 2 <= j < 10000 -> is_Some (dir d !! (dp ++ [numbered_name name j])))
  end.
Proof.
  intros Hne Hdot Hc Hwf.
  assert (∀ m, path_join dp (numbered_name name m) = dp ++ [numbered_name name m]) as Hj.
  { intros m. destruct (numbered_name_ok name m Hne Hc) as (?&?&?). by apply path_join_name. }
  unfold reserve_path, io_match. rewrite path_join_name by done.
  pose proof (create_new_claims (dp ++ [name]) d Hwf) as Hcl.
  destruct (create_new _ d) as [[i|e] d1].
  { split_and!; [done|apply parent_snoc|by left]. }
  destruct Hcl as (Hwf1 & Hd1 & Hr1 & He).
  destruct (decide (e = AlreadyExists)) as [->|Hnot].
  2: { destruct e; try done; (split; [done|done]). }
  pose proof (reserve_loop_spec (N.to_nat 9998) 2 dp name d1 Hwf1) as Hl. specialize (He eq_refl).
  rewrite N2Nat.id in Hl. change (2 + 9998) with 10000 in Hl.
  destruct (reserve_loop _ 2 dp name d1) as [[p|e] d2].
  - destruct Hl as (HC & m & Hm & -> & Ht). rewrite Hj in *. split_and!.
    + by eapply Claimed_trans.
    + apply parent_snoc.
    + right. split; [done|]. exists m. split_and!; [lia|lia|done|]. intros j Hj'.
      rewrite <- Hj, <- Hd1. by apply Ht.
  - destruct Hl as (_ & Hr2 & Ht). split; [intros q; by rewrite Hr2|]. intros E. split; [done|].
    intros j Hj'. rewrite <- Hj, <- Hd1. by apply Ht.
Qed.
