(* ===== verification/LinkLife.v ===== *)
(** * The life of a link, as the core is told it

    What the transports owe the core: a link comes up once, brings messages
    while it is up, and goes down once, under a number of its own.  Both
    transports' theorems rest on the lemmas about one event more. *)

From S2P Require Import Prelude Link Vocab.
Local Open Scope N_scope.

Inductive phase := Unborn | Alive | Over.

(** Up once, then messages, then down once; [None] is anything else. *)
Definition advance (l : LinkId) (p : option phase) (e : Event) : option phase :=
  match e, p with
  | LinkUp l' _ _, Some ph =>
      if l' =? l then match ph with Unborn => Some Alive | _ => None end else Some ph
  | LinkRecv l' _, Some ph =>
      if l' =? l then match ph with Alive => Some Alive | _ => None end else Some ph
  | LinkDown l' _, Some ph =>
      if l' =? l then match ph with Alive => Some Over | _ => None end else Some ph
  | _, p => p
  end.
Definition phase_of (l : LinkId) (evs : list Event) : option phase :=
  fold_left (advance l) evs (Some Unborn).

#[global] Arguments phase_of : simpl never.

Lemma phase_of_snoc l evs e : phase_of l (evs ++ [e]) = advance l (phase_of l evs) e.
Proof. unfold phase_of. by rewrite fold_left_app. Qed.

(** An event that is not about links. *)
Definition not_link (e : Event) : Prop :=
  match e with LinkUp _ _ _ | LinkRecv _ _ | LinkDown _ _ => False | _ => True end.

Lemma advance_not_link l p e : not_link e -> advance l p e = p.
Proof. by destruct e, p. Qed.

(** Every link's story is in order, those of [live] are up and no others, and
    a number not given out yet has no story. *)
Record Story (id : TransportId) (next : u64) (live : LinkId -> Prop) (evs : list Event) : Prop := {
  st_phase l : ∃ ph, phase_of l evs = Some ph /\ (live l <-> ph = Alive);
  st_fresh k : next <= k < 2 ^ 48 -> phase_of (LinkId_new id k) evs = Some Unborn;
}.

Lemma Story_nil id next : Story id next (λ _, False) [].
Proof. split; [|done]. intros l. by exists Unborn. Qed.

Lemma Story_ext id next live live' evs :
  (∀ l, live' l <-> live l) -> Story id next live evs -> Story id next live' evs.
Proof.
  intros E [S1 S2]. split; [|done]. intros l. destruct (S1 l) as (ph & Hp & Hl).
  exists ph. by rewrite E.
Qed.

Lemma Story_later id next next' live evs :
  next <= next' -> Story id next live evs -> Story id next' live evs.
Proof. intros Hn [S1 S2]. split; [done|]. intros k Hk. apply S2. lia. Qed.

Lemma Story_other id next live evs e :
  not_link e -> Story id next live evs -> Story id next live (evs ++ [e]).
Proof.
  intros He [S1 S2]. split; [intros l|intros k]; rewrite phase_of_snoc, advance_not_link by done;
    [apply S1|apply S2].
Qed.

Lemma Story_up id next live evs attrs dial :
  id <= u16_max -> next < 2 ^ 48 -> Story id next live evs ->
  Story id (next + 1) (λ l, l = LinkId_new id next \/ live l)
    (evs ++ [LinkUp (LinkId_new id next) attrs dial]).
Proof.
  intros Hid Hn [S1 S2]. set (l := LinkId_new id next).
  assert (phase_of l evs = Some Unborn) as Hl by (apply S2; lia).
  split.
  - intros l'. rewrite phase_of_snoc. destruct (S1 l') as (ph & Hph & Hs). rewrite Hph. cbn.
    destruct (N.eqb_spec l l') as [<-|Hne].
    + exists Alive. rewrite Hl in Hph. injection Hph as <-. split; [done|]. split; [done|by left].
    + exists ph. split; [done|]. rewrite <- Hs. split; [intros [->|?]; done|by right].
  - intros k Hk. rewrite phase_of_snoc, S2 by lia. cbn. rewrite (proj2 (N.eqb_neq l _)); [done|].
    subst l. intros E. apply (LinkId_transport_new _ _ _ _ Hid Hid) in E as [_ E].
    rewrite !N.mod_small in E by lia. lia.
Qed.

Lemma Story_recv id next (live : LinkId -> Prop) evs l m :
  live l -> Story id next live evs -> Story id next live (evs ++ [LinkRecv l m]).
Proof.
  intros Hl [S1 S2].
  assert (∀ l', phase_of l' (evs ++ [LinkRecv l m]) = phase_of l' evs) as Hp.
  { intros l'. rewrite phase_of_snoc. destruct (S1 l') as (ph & -> & Hs). cbn.
    destruct (N.eqb_spec l l') as [<-|]; [|done]. apply Hs in Hl as ->. done. }
  split; [intros l'|intros k]; rewrite Hp; [apply S1|apply S2].
Qed.

Lemma Story_down id next (live : LinkId -> Prop) evs l r :
  live l -> Story id next live evs ->
  Story id next (λ l', l' <> l /\ live l') (evs ++ [LinkDown l r]).
Proof.
  intros Hl [S1 S2]. destruct (S1 l) as (pl & Hpl & Hsl). apply Hsl in Hl as Hal. subst pl. split.
  - intros l'. rewrite phase_of_snoc. destruct (S1 l') as (ph & Hph & Hs). rewrite Hph. cbn.
    destruct (N.eqb_spec l l') as [<-|Hne].
    + exists Over. rewrite Hpl in Hph. injection Hph as <-. split; [done|]. split; [by intros [? _]|done].
    + exists ph. split; [done|]. rewrite <- Hs. split; [by intros [_ ?]|by split].
  - intros k Hk. rewrite phase_of_snoc, S2 by done. cbn.
    destruct (N.eqb_spec l (LinkId_new id k)) as [->|]; [|done].
    rewrite S2 in Hpl by done. done.
Qed.
