(* ===== verification/RtTcp.v ===== *)
(** * [acrylius-rt/src/tcp.rs]: links over TCP

    Framing, the reader and writer of one connection, what a discovery event
    means, and the transport as a machine: connections come up, deliver and
    end in any order while commands arrive.  [mdns_sd], name resolution and the
    sockets themselves are outside; what they report is the machine's input. *)

From Stdlib Require Import Ascii.
From S2P Require Import Prelude Externals Ids Bulk Strs Fs Link Vocab LinkLife.
Local Open Scope N_scope.

(* src: crates/acrylius-rt/src/tcp.rs 20 21 MAX_FRAME *)
Definition MAX_FRAME : u32 := N.shiftl 1 20.

(** ** One connection *)

Inductive TcpError := Io (e : ErrorKind) | InvalidData (n : u32).

(* src: crates/acrylius-rt/src/tcp.rs 51 64 read_frame *)
Definition read_frame (s : stream) : result (bytes * stream) TcpError :=
  try! (hdr, s) := map_err Io (read_exact 4 s) in
  let n := from_be_bytes hdr in
  if MAX_FRAME <? n then Err (InvalidData n)
  else map_err Io (read_exact (N.to_nat n) s).

(** The writer task: what it puts on the wire of the messages queued for it,
    until it is told to stop or a message's length does not fit. *)
(* src: crates/acrylius-rt/src/tcp.rs 153 163 serve *)
Fixpoint writer (queue : list (option bytes)) : bytes :=
  match queue with
  | Some msg :: queue' =>
      if u32_max <? len msg then [] else to_be_bytes 4 (len msg) ++ msg ++ writer queue'
  | None :: _ | [] => []
  end.

(** How the standard library words an [io::Error] is not modelled. *)
Class IoErrorText := io_error_text : ErrorKind -> string.

(* src: crates/acrylius-rt/src/tcp.rs 56 59 read_frame *)
Definition error_text `{IoErrorText} (e : TcpError) : string :=
  match e with
  | Io k => io_error_text k
  | InvalidData n => "frame of " +:+ fmt_u64 n +:+ " bytes exceeds the " +:+ fmt_u64 MAX_FRAME +:+ " cap"
  end.

(** The reader's loop over all that arrives; a frame takes at least four bytes. *)
(* src: crates/acrylius-rt/src/tcp.rs 165 183 serve *)
Fixpoint reader `{IoErrorText} (fuel : nat) (link : LinkId) (s : stream) : list Event :=
  match fuel with
  | O => []
  | S fuel =>
      match read_frame s with
      | Ok (msg, s) => LinkRecv link msg :: reader fuel link s
      | Err (Io UnexpectedEof) => [LinkDown link Closed]
      | Err e => [LinkDown link (TransportFailed (error_text e))]
      end
  end.
Definition read_all `{IoErrorText} (link : LinkId) (s : stream) : list Event :=
  reader (S (length (incoming s))) link s.

(** ** Discovery *)

(** [mdns_sd]'s events, as far as the code looks at them. *)
Inductive IpAddr := V4 (text : string) | V6 (text : string).
Definition is_ipv4 (a : IpAddr) : bool := match a with V4 _ => true | V6 _ => false end.
Record ServiceInfo := mkServiceInfo {
  si_fullname : string;
  si_port : u16;
  si_addresses : list IpAddr;
  si_props : gmap string string;
}.
Inductive ServiceEvent :=
| ServiceRemoved (ty fullname : string)
| ServiceResolved (info : ServiceInfo)
| OtherServiceEvent.

(** [SocketAddr]'s [Display]. *)
Definition socket_addr (a : IpAddr) (port : u16) : string :=
  match a with
  | V4 t => t +:+ ":" +:+ fmt_u64 port
  | V6 t => "[" +:+ t +:+ "]:" +:+ fmt_u64 port
  end.

(** The address a service is dialled at: IPv4 first. *)
(* src: crates/acrylius-rt/src/tcp.rs 112 117 discovery_event *)
Definition preferred_addr (info : ServiceInfo) : option IpAddr :=
  match List.find is_ipv4 (si_addresses info) with
  | Some a => Some a
  | None => head (si_addresses info)
  end.

(* src: crates/acrylius-rt/src/tcp.rs 91 135 discovery_event *)
Definition discovery_event (id : TransportId) (mine : Fingerprint) (reported : gmap string string)
    (ev : ServiceEvent) : option Event * gmap string string :=
  match ev with
  | ServiceRemoved _ fullname =>
      (Undiscovered id <$> reported !! fullname, delete fullname reported)
  | ServiceResolved info =>
      let fp := si_props info !! "fp"%string ≫= λ s,
        match Fingerprint_parse s with Ok f => Some f | Err _ => None end in
      if bool_decide (fp = Some mine) then (None, reported)
      else
        match preferred_addr info with
        | None => (None, reported)
        | Some addr =>
            let sa := socket_addr addr (si_port info) in
            (Some (Discovered id (mkDiscoveredPeer fp
               (match si_props info !! "n"%string with Some n => n | None => "" end) sa
               (bool_decide (si_props info !! "pair"%string = Some "1"%string)))),
             <[si_fullname info := sa]> reported)
        end
  | OtherServiceEvent => (None, reported)
  end.

(** ** The transport *)

(* src: crates/acrylius-rt/src/transport.rs 7 27 TransportCmd *)
Inductive TransportCmd :=
| TDial (dial : DialToken) (addr : string)
| TSend (link : LinkId) (msg : bytes)
| TClose (link : LinkId)
| TAdvertise (enable : bool) (txt : list (string * string))
| TDiscover (enable : bool).

(** What [mdns_sd] is asked to do; building a service's record can fail, and
    otherwise gives it its full name. *)
Inductive MdnsCall :=
| Unregister (fullname : string)
| Register (fullname : string) (instance host : string) (port : u16) (props : gmap string string)
| Browse.
Class Mdns := {
  service_info : string -> string -> u16 -> gmap string string -> option string;
  hostname : string;
  bound_port : u16;
}.

(** The transport and what its tasks share: the open writers, the messages
    every connection's writer was ever given, the connections being served,
    the dials under way, what was asked of [mdns_sd] and what was sent to the
    core, newest last. *)
(* src: crates/acrylius-rt/src/tcp.rs 22 29 TcpTransport *)
Record Tcp := mkTcp {
  tcp_id : TransportId;
  fingerprint : Fingerprint;
  name : string;
  next_link : u64;
  writers : gset LinkId;
  queues : gmap LinkId (list (option bytes));
  serving : gset LinkId;
  dialing : list (DialToken * string);
  advertised : option string;
  browsing : bool;
  reported : gmap string string;
  mdns : list MdnsCall;
  sink : list Event;
}.
#[global] Instance Tcp_eta : Eta Tcp := λ t,
  mkTcp (tcp_id t) (fingerprint t) (name t) (next_link t) (writers t) (queues t) (serving t)
    (dialing t) (advertised t) (browsing t) (reported t) (mdns t) (sink t).

(* src: crates/acrylius-rt/src/tcp.rs 32 41 TcpTransport::new *)
Definition Tcp_new (id : TransportId) (fp : Fingerprint) (nm : string) : Tcp :=
  mkTcp id fp nm 1 ∅ ∅ ∅ [] None false ∅ [] [].

Definition emit (ev : Event) (t : Tcp) : Tcp := t <| sink ::= λ s, s ++ [ev] |>.
Definition ask (c : MdnsCall) (t : Tcp) : Tcp := t <| mdns ::= λ s, s ++ [c] |>.

(** A connection begins to be served: a number, a writer, and the core told. *)
(* src: crates/acrylius-rt/src/tcp.rs 43 45 TcpTransport::next_link *)
Definition fetch_next_link (t : Tcp) : LinkId * Tcp :=
  (LinkId_new (tcp_id t) (next_link t), t <| next_link ::= λ n, n +u64 1 |>).
(* src: crates/acrylius-rt/src/tcp.rs 137 151 serve *)
Definition serve_begin (dial : option DialToken) (t : Tcp) : Tcp :=
  let '(link, t) := fetch_next_link t in
  emit (LinkUp link (tcp_lan (tcp_id t)) dial)
    (t <| writers ::= λ w, {[link]} ∪ w |> <| queues ::= <[link := []]> |>
       <| serving ::= λ s, {[link]} ∪ s |>).
(* src: crates/acrylius-rt/src/tcp.rs 185 187 serve *)
Definition serve_end (link : LinkId) (reason : LinkDownReason) (t : Tcp) : Tcp :=
  emit (LinkDown link reason)
    (t <| writers ::= λ w, w ∖ {[link]} |> <| serving ::= λ s, s ∖ {[link]} |>).

Definition enqueue (link : LinkId) (m : option bytes) (t : Tcp) : Tcp :=
  t <| queues ::= alter (λ q, q ++ [m]) link |>.

Section machine.
  Context `{Mdns}.

(* src: crates/acrylius-rt/src/tcp.rs 287 320 TcpTransport::run *)
Definition advertise (enable : bool) (txt : list (string * string)) (t : Tcp) : Tcp :=
  let t := match advertised t with
           | Some nm => ask (Unregister nm) (t <| advertised := None |>)
           | None => t
           end in
  if enable then
    let host := hostname +:+ ".local." in
    let props := list_to_map (reverse txt) in
    let props := match props !! "n"%string with
                 | Some _ => props
                 | None => <["n"%string := name t]> props
                 end in
    let instance := String.substring 0 8 (fp_str (fingerprint t)) in
    match service_info instance host bound_port props with
    | Some full => ask (Register full instance host bound_port props) (t <| advertised := Some full |>)
    | None => t
    end
  else t.

(* src: crates/acrylius-rt/src/tcp.rs 240 342 TcpTransport::run *)
Definition on_cmd (cmd : TransportCmd) (t : Tcp) : Tcp :=
  match cmd with
  | TDial dial addr => t <| dialing ::= λ l, l ++ [(dial, addr)] |>
  | TSend link msg => if bool_decide (link ∈ writers t) then enqueue link (Some msg) t else t
  | TClose link =>
      if bool_decide (link ∈ writers t)
      then enqueue link None (t <| writers ::= λ w, w ∖ {[link]} |>) else t
  | TAdvertise enable txt => advertise enable txt t
  | TDiscover enable =>
      if enable && negb (browsing t) then ask Browse (t <| browsing := true |>) else t
  end.

(** How a dial turned out. *)
Inductive Dialled := NoAddress | Refused (reason : string) | Connected.

(* src: crates/acrylius-rt/src/tcp.rs 246 275 TcpTransport::run *)
Definition on_dialled (dial : DialToken) (addr : string) (how : Dialled) (t : Tcp) : Tcp :=
  let t := t <| dialing ::= List.filter (λ '(d, a), negb (bool_decide (d = dial /\ a = addr))) |> in
  match how with
  | Connected => serve_begin (Some dial) t
  | Refused reason => emit (DialFailed dial reason) t
  | NoAddress => emit (DialFailed dial ("could not resolve " +:+ addr)) t
  end.

(* src: crates/acrylius-rt/src/tcp.rs 332 337 TcpTransport::run *)
Definition on_browsed (ev : ServiceEvent) (t : Tcp) : Tcp :=
  let '(out, rep) := discovery_event (tcp_id t) (fingerprint t) (reported t) ev in
  let t := t <| reported := rep |> in
  match out with Some e => emit e t | None => t end.

(** What can happen next, to the listener, a command, a dial, a connection or
    the browser. *)
Inductive input :=
| Accepted
| Cmd (c : TransportCmd)
| DialDone (dial : DialToken) (addr : string) (how : Dialled)
| FrameRead (link : LinkId) (msg : bytes)
| Ended (link : LinkId) (reason : LinkDownReason)
| Browsed (ev : ServiceEvent).

Inductive tcp_step (t : Tcp) : input -> Tcp -> Prop :=
| step_accept : tcp_step t Accepted (serve_begin None t)
| step_cmd c : tcp_step t (Cmd c) (on_cmd c t)
| step_dial dial addr how :
    (dial, addr) ∈ dialing t -> tcp_step t (DialDone dial addr how) (on_dialled dial addr how t)
| step_frame link msg :
    link ∈ serving t -> tcp_step t (FrameRead link msg) (emit (LinkRecv link msg) t)
| step_end link reason :
    link ∈ serving t -> tcp_step t (Ended link reason) (serve_end link reason t)
| step_browse ev : browsing t = true -> tcp_step t (Browsed ev) (on_browsed ev t).

Inductive tcp_run : Tcp -> list input -> Tcp -> Prop :=
| run_nil t : tcp_run t [] t
| run_snoc t ins t1 i t2 : tcp_run t ins t1 -> tcp_step t1 i t2 -> tcp_run t (ins ++ [i]) t2.
End machine.

(** ** The wire *)

Section wire.
  Context `{IoErrorText}.

(** Messages no longer than a frame may be, written by one end
    and read by the other, arrive in order, whole, and are all that arrives;
    the close that follows them is seen as a close. *)
Theorem wire_roundtrip link msgs :
  Forall (λ m, len m <= MAX_FRAME) msgs ->
  read_all link (mkStream (writer (map Some msgs ++ [None])) true)
  = map (LinkRecv link) msgs ++ [LinkDown link Closed].
Proof.
  intros Hm. unfold read_all. cbn [incoming].
  assert (∀ fuel, (length (writer (map Some msgs ++ [None])) < fuel)%nat ->
    reader fuel link (mkStream (writer (map Some msgs ++ [None])) true)
    = map (LinkRecv link) msgs ++ [LinkDown link Closed]) as Hgo; [|apply Hgo; lia].
  induction Hm as [|m msgs Hm _ IH]; intros fuel Hf; (destruct fuel as [|fuel]; [lia|]).
  - cbn [map app writer reader]. unfold read_frame. by rewrite read_exact_short by (cbn; lia).
  - assert ((u32_max <? len m) = false) as Hu.
    { apply N.ltb_ge. etrans; [exact Hm|]. by vm_compute. }
    cbn [map app writer] in Hf |- *. rewrite Hu in *. cbn [reader]. unfold read_frame.
    rewrite <- (length_to_be_bytes 4 (len m)) at 1. rewrite read_exact_app.
    cbn [map_err result_bind]. rewrite from_to_be_bytes by (eapply N.le_lt_trans; [exact Hm|by vm_compute]).
    rewrite (proj2 (N.ltb_ge MAX_FRAME (len m)) Hm).
    unfold len. rewrite Nat2N.id, read_exact_app. cbn [map_err].
    f_equal. apply IH. rewrite !length_app in Hf. cbn in Hf. lia.
Qed.

(** The events of a connection: messages, each within the cap, then its end. *)
Fixpoint ends_once (link : LinkId) (evs : list Event) : Prop :=
  match evs with
  | [LinkDown l _] => l = link
  | LinkRecv l m :: evs => l = link /\ len m <= MAX_FRAME /\ ends_once link evs
  | _ => False
  end.

Definition frame_bytes (e : Event) : bytes :=
  match e with LinkRecv _ m => to_be_bytes 4 (len m) ++ m | _ => [] end.

(** Whatever bytes arrive and however the connection ends, the
    core is given messages of at most a mebibyte, which are the frames the
    bytes begin with, in order, and then is told once that the link is down. *)
Theorem reader_bounded link s :
  ends_once link (read_all link s) /\
  ∃ rest, incoming s = concat (map frame_bytes (read_all link s)) ++ rest.
Proof.
  unfold read_all. assert (∀ fuel s, (length (incoming s) < fuel)%nat ->
    ends_once link (reader fuel link s) /\
    ∃ rest, incoming s = concat (map frame_bytes (reader fuel link s)) ++ rest) as Hgo; [|apply Hgo; lia].
  clear s. induction fuel as [|fuel IH]; intros s Hf; [lia|]. cbn [reader].
  destruct (read_frame s) as [[m s']|e] eqn:E.
  - unfold read_frame in E. destruct (read_exact 4 s) as [[hdr s1]|] eqn:E1; [|done].
    cbn [map_err result_bind] in E. destruct (N.ltb_spec MAX_FRAME (from_be_bytes hdr)) as [|Hcap]; [done|].
    destruct (read_exact _ s1) as [[b s2]|] eqn:E2; [|done]. injection E as -> ->.
    apply read_exact_inv in E1 as (Hl1 & Hi1 & _), E2 as (Hl2 & Hi2 & _).
    assert (len m = from_be_bytes hdr) as Hn by (unfold len; rewrite Hl2; apply N2Nat.id).
    destruct (IH s') as [He [rest Hr]].
    { rewrite Hi1, Hi2, !length_app in Hf. lia. }
    split; [by rewrite <- Hn in Hcap|]. exists rest. cbn [map concat frame_bytes].
    rewrite Hn, (Bulk.be_bytes_inv 4) by done. rewrite Hi1, Hi2, Hr, !app_assoc. done.
  - assert (∀ r, ends_once link [LinkDown link r] /\
      ∃ rest, incoming s = concat (map frame_bytes [LinkDown link r]) ++ rest) as Hd.
    { intros r. split; [done|]. by exists (incoming s). }
    destruct e as [[]|]; apply Hd.
Qed.

(** A message the core may send on such a link is within the cap. *)
Lemma tcp_lan_max t : la_max_message (tcp_lan t) = MAX_FRAME.
Proof. done. Qed.
End wire.

(** ** The life of a link, as the core is told it *)

Section life.
  Context `{Mdns}.

(** Every link's story is in order, and those being served are the ones up. *)
Record Told (t : Tcp) : Prop := {
  to_id : tcp_id t <= u16_max;
  to_story : Story (tcp_id t) (next_link t) (λ l, l ∈ serving t) (sink t);
  to_writers : writers t ⊆ serving t;
}.

(** What a step that concerns no link may change. *)
Lemma Told_same t t' :
  Told t -> tcp_id t' = tcp_id t -> next_link t' = next_link t -> serving t' = serving t ->
  writers t' ⊆ writers t -> (sink t' = sink t \/ ∃ e, not_link e /\ sink t' = sink t ++ [e]) ->
  Told t'.
Proof.
  intros [T1 T2 T4] Hid Hn Hs Hw Hsink. split; [by rewrite Hid| |rewrite Hs; set_solver].
  rewrite Hid, Hn, Hs. destruct Hsink as [->|(e & He & ->)]; [done|by apply Story_other].
Qed.

Lemma Told_begin dial t :
  Told t -> 1 <= next_link t -> next_link t < 2 ^ 48 -> Told (serve_begin dial t).
Proof.
  intros [T1 T2 T4] H1 H2.
  assert (next_link t +u64 1 = next_link t + 1) as Hadd.
  { apply u64_add_small. unfold u64_max. change (2 ^ 48) with 281474976710656 in H2. lia. }
  split; [done|..]; unfold serve_begin, emit; cbn; [|set_solver]. rewrite Hadd.
  eapply Story_ext; [|by apply Story_up]. intros l. cbn. set_solver.
Qed.

Lemma Told_recv t l m : Told t -> l ∈ serving t -> Told (emit (LinkRecv l m) t).
Proof. intros [T1 T2 T4] Hl. split; [done| |done]. by apply Story_recv. Qed.

Lemma Told_end t l r : Told t -> l ∈ serving t -> Told (serve_end l r t).
Proof.
  intros [T1 T2 T4] Hl. split; [done|..]; unfold serve_end, emit; cbn; [|set_solver].
  eapply Story_ext; [|exact (Story_down _ _ _ _ l r Hl T2)]. intros l'. cbn. set_solver.
Qed.

Lemma discovery_event_not_link id mine rep ev e rep' :
  discovery_event id mine rep ev = (Some e, rep') -> not_link e.
Proof.
  unfold discovery_event. destruct ev as [ty nm|info|]; [..|done].
  - destruct (rep !! nm); [|done]. by intros [= <- _].
  - cbv zeta. case_bool_decide; [done|]. destruct (preferred_addr info); [|done]. by intros [= <- _].
Qed.

Lemma advertise_same enable txt t :
  tcp_id (advertise enable txt t) = tcp_id t /\ next_link (advertise enable txt t) = next_link t /\
  serving (advertise enable txt t) = serving t /\ writers (advertise enable txt t) = writers t /\
  sink (advertise enable txt t) = sink t.
Proof. unfold advertise, ask. cbv zeta. repeat case_match; done. Qed.

Lemma tcp_step_told t i t' :
  tcp_step t i t' -> 1 <= next_link t -> next_link t < 2 ^ 48 -> Told t -> Told t'.
Proof.
  intros Hs H1 H2 HT. destruct Hs as [|c|dial addr how Hd|l m Hl|l r Hl|ev Hb].
  - by apply Told_begin.
  - destruct c as [dial addr|l m|l|en txt|en]; cbn [on_cmd].
    + apply (Told_same t); try done. by left.
    + case_bool_decide; [|done]. apply (Told_same t); try done. by left.
    + case_bool_decide; [|done]. apply (Told_same t); try done; [set_solver|by left].
    + destruct (advertise_same en txt t) as (E1 & E2 & E3 & E4 & E5).
      apply (Told_same t); try done; [by rewrite E4|by left].
    + destruct (en && negb (browsing t)); [|done]. apply (Told_same t); try done. by left.
  - unfold on_dialled. set (t1 := set_field dialing _ t).
    assert (Told t1) as HT1 by (apply (Told_same t); try done; by left).
    destruct how; [..|by apply Told_begin];
      (apply (Told_same t1); try done; right; eexists; split; [|done]; done).
  - by apply Told_recv.
  - by apply Told_end.
  - unfold on_browsed. destruct (discovery_event _ _ _ ev) as [[e|] rep] eqn:E;
      apply (Told_same t); try done; [|by left].
    right. exists e. split; [by eapply discovery_event_not_link|done].
Qed.

Lemma tcp_step_next_link t i t' :
  tcp_step t i t' -> next_link t < 2 ^ 48 -> next_link t <= next_link t' <= next_link t + 1.
Proof.
  intros Hs Hlt.
  assert (∀ d t0, next_link t0 = next_link t -> next_link t <= next_link (serve_begin d t0) <= next_link t + 1) as Hb.
  { intros d t0 E. cbn. rewrite E, u64_add_small; [lia|].
    unfold u64_max. change (2 ^ 48) with 281474976710656 in Hlt. lia. }
  destruct Hs as [|c|dial addr how Hd|l m Hl|l r Hl|ev Hbr].
  - by apply Hb.
  - destruct c as [dial addr|l m|l|en txt|en]; cbn [on_cmd]; try (cbn; lia).
    + case_bool_decide; cbn; lia.
    + case_bool_decide; cbn; lia.
    + destruct (advertise_same en txt t) as (_ & -> & _). lia.
    + destruct (en && negb (browsing t)); cbn; lia.
  - unfold on_dialled. cbv zeta. destruct how; [cbn; lia|cbn; lia|by apply Hb].
  - cbn. lia.
  - cbn. lia.
  - unfold on_browsed. destruct (discovery_event _ _ _ ev) as [[e|] rep]; cbn; lia.
Qed.

(** C24 (safety): in any order of connections, commands, frames and endings, the
    core hears of each link that it is up once, then its messages, then that
    it is down once, under a number no other link of the transport had. *)
Theorem links_live_once id fp nm ins t :
  id <= u16_max -> len ins < 2 ^ 48 - 1 -> tcp_run (Tcp_new id fp nm) ins t ->
  (∀ l, ∃ ph, phase_of l (sink t) = Some ph /\ (l ∈ serving t <-> ph = Alive)) /\
  writers t ⊆ serving t.
Proof.
  intros Hid Hlen Hr.
  assert (Told t /\ 1 <= next_link t <= 1 + len ins) as [[_ [HT _] HW] _]; [|by split].
  remember (Tcp_new id fp nm) as t0 eqn:E0.
  induction Hr as [t|t ins t1 i t2 Hr IH Hs]; subst.
  - split; [|cbn; lia]. split; [done| |done].
    apply (Story_ext _ _ (λ _, False)); [|apply Story_nil]. intros l. cbn. set_solver.
  - rewrite len_app in *. change (len [i]) with 1 in *.
    destruct IH as [HT [Hn1 Hn2]]; [lia|done|].
    pose proof (tcp_step_next_link _ _ _ Hs ltac:(lia)). split; [|lia].
    apply (tcp_step_told _ _ _ Hs); [lia|lia|done].
Qed.
End life.

(** ** Discovery over a session of browsing *)

Fixpoint browse_all (id : TransportId) (mine : Fingerprint) (rep : gmap string string)
    (evs : list ServiceEvent) : list Event :=
  match evs with
  | [] => []
  | ev :: evs =>
      let '(out, rep) := discovery_event id mine rep ev in
      match out with Some e => [e] | None => [] end ++ browse_all id mine rep evs
  end.

(** What may follow, with the addresses in [live] reported and not withdrawn. *)
Fixpoint discovery_ok (id : TransportId) (mine : Fingerprint) (live : list string) (out : list Event) : Prop :=
  match out with
  | [] => True
  | Discovered tr p :: out =>
      tr = id /\ dp_fingerprint p <> Some mine /\ discovery_ok id mine (dp_addr p :: live) out
  | Undiscovered tr a :: out => tr = id /\ a ∈ live /\ discovery_ok id mine live out
  | _ => False
  end.

(** Browsing never reports this device to itself, and withdraws an
    address only after reporting it. *)
Theorem browse_reports id mine evs : discovery_ok id mine [] (browse_all id mine ∅ evs).
Proof.
  assert (∀ rep live, (∀ f a, rep !! f = Some a -> a ∈ live) ->
    discovery_ok id mine live (browse_all id mine rep evs)) as H; [|by apply H].
  induction evs as [|ev evs IH]; intros rep live Hl; [done|]. cbn [browse_all].
  destruct ev as [ty nm|info|]; cbn [discovery_event].
  - destruct (rep !! nm) as [a|] eqn:E; cbn.
    + split_and!; [done|by eapply Hl|]. apply IH. intros f b [_ Hb]%lookup_delete_Some. by eapply Hl.
    + apply IH. intros f b [_ Hb]%lookup_delete_Some. by eapply Hl.
  - case_bool_decide as Hfp; [by apply IH|]. destruct (preferred_addr info) as [ip|]; [|by apply IH].
    cbn. split_and!; [done|done|]. apply IH.
    intros f b [[_ <-]|[_ Hb]]%lookup_insert_Some; [left|right; by eapply Hl].
  - by apply IH.
Qed.
