(* ===== verification/BleTransport.v ===== *)
(** * [acrylius-linux/src/ble.rs]: links over Bluetooth LE

    BlueZ calls the characteristics of the exported GATT service, reports
    departures by signals and is polled as well; the runtime sends commands.
    All of them share one optional link.  What waits is cut where it waits, or
    where it releases the lock of the link, and a step relation interleaves the
    pieces.  What bluetoothd answers is an argument; the bus, the exported
    properties and the registration calls are outside. *)

From S2P Require Import Prelude Strs Ble Link Vocab LinkLife RtTcp.
Local Open Scope N_scope.

(* src: crates/acrylius-linux/src/ble.rs 34 35 FALLBACK_MTU *)
Definition FALLBACK_MTU : u16 := 23.
(** Milliseconds. *)
(* src: crates/acrylius-linux/src/ble.rs 268 270 ADVERT_COOLDOWN *)
Definition ADVERT_COOLDOWN : N := 4000.

(** ** State *)

(* src: crates/acrylius-linux/src/ble.rs 87 95 Link *)
Record BleLink := mkBleLink {
  bl_link : LinkId;
  bl_device : string;
  bl_mtu : u16;
  bl_reassembler : Reassembler;
}.
#[global] Instance BleLink_eta : Eta BleLink := λ l,
  mkBleLink (bl_link l) (bl_device l) (bl_mtu l) (bl_reassembler l).

(* src: crates/acrylius-linux/src/ble.rs 97 116 Shared *)
Record Shared := mkShared {
  sh_id : TransportId;
  sh_sink : list Event;
  sh_next : u64;
  sh_link : option BleLink;
  identity : bytes;
  advertising : bool;
  last_central : option string;
  last_advert : option N;
}.
#[global] Instance Shared_eta : Eta Shared := λ s,
  mkShared (sh_id s) (sh_sink s) (sh_next s) (sh_link s) (identity s) (advertising s)
    (last_central s) (last_advert s).
(* src: crates/acrylius-linux/src/ble.rs 703 712 BleTransport::run *)
Definition Shared_new (id : TransportId) : Shared := mkShared id [] 1 None [] false None None.

Definition ble_send (e : Event) (s : Shared) : Shared := s <| sh_sink ::= λ es, es ++ [e] |>.

(** [fetch_add] returns the number before. *)
(* src: crates/acrylius-linux/src/ble.rs 119 121 Shared::next_link *)
Definition ble_next_link (s : Shared) : LinkId * Shared :=
  (LinkId_new (sh_id s) (sh_next s), s <| sh_next ::= λ n, n +u64 1 |>).

(* src: crates/acrylius-linux/src/ble.rs 124 131 encode_identity *)
Definition encode_identity (txt : list (string * string)) : bytes :=
  as_bytes (str_join (Ascii.ascii_of_nat 10) (map (λ '(k, v), (k +:+ "=" +:+ v)%string) txt)).

(** The values of a D-Bus dictionary that are looked at. *)
Inductive OwnedValue := VObjectPath (p : string) | VU16 (n : u16) | VBool (b : bool) | VOther.
(* src: crates/acrylius-linux/src/ble.rs 133 142 device_and_mtu *)
Definition device_and_mtu (options : gmap string OwnedValue) : option string * option u16 :=
  (match options !! "device"%string with Some (VObjectPath p) => Some p | _ => None end,
   match options !! "mtu"%string with Some (VU16 n) => Some n | _ => None end).

(** ** Departures *)

Definition held_by (s : Shared) (device : string) : bool :=
  match sh_link s with Some l => bl_device l =s device | None => false end.

(* src: crates/acrylius-linux/src/ble.rs 230 248 is_ours *)
Definition is_ours (s : Shared) (path : string) : bool :=
  held_by s path || bool_decide (last_central s = Some path).

(* src: crates/acrylius-linux/src/ble.rs 249 262 drop_link_for *)
Definition drop_link_for (path : string) (s : Shared) : Shared :=
  match sh_link s with
  | Some l =>
      if bl_device l =s path
      then ble_send (LinkDown (bl_link l) Closed) (s <| sh_link := None |>) else s
  | None => s
  end.

(** Up to the calls to bluetoothd: whether to go on. *)
(* src: crates/acrylius-linux/src/ble.rs 169 192 readvertise *)
Definition readvertise_gate (now : N) (s : Shared) : bool * Shared :=
  if negb (advertising s) then (false, s)
  else match sh_link s with
  | Some _ => (false, s)
  | None =>
      match last_advert s with
      | Some at_ => if now - at_ <? ADVERT_COOLDOWN then (false, s) else (true, s <| last_advert := Some now |>)
      | None => (true, s <| last_advert := Some now |>)
      end
  end.

(* src: crates/acrylius-linux/src/ble.rs 338 348 Reconcile *)
Inductive Reconcile := RNothing | CentralGone | Readvertise.
(* src: crates/acrylius-linux/src/ble.rs 350 359 reconcile *)
Definition reconcile (central : option bool) (want_advertising : bool) (instances : u8) : Reconcile :=
  match central with
  | Some true => RNothing
  | Some false => CentralGone
  | None => if want_advertising && (instances =? 0) then Readvertise else RNothing
  end.

(** The device that is asked about: the link's, else the last heard from. *)
(* src: crates/acrylius-linux/src/ble.rs 277 283 supervise *)
Definition supervise_begin (s : Shared) : option string * option string :=
  let held := bl_device <$> sh_link s in
  (held, match held with Some d => Some d | None => last_central s end).

(** What comes of the answers: whether to advertise again, and then forget the
    central once that worked. *)
(* src: crates/acrylius-linux/src/ble.rs 288 319 supervise *)
Definition supervise_act (held : option string) (central : option bool) (want : bool) (instances : u8)
    (s : Shared) : option bool * Shared :=
  match reconcile central want instances with
  | RNothing => (None, s)
  | CentralGone => (Some true, match held with Some d => drop_link_for d s | None => s end)
  | Readvertise => (Some false, s)
  end.

(** ** The characteristics *)

(* src: crates/acrylius-linux/src/ble.rs 458 472 IdentityChr::read_value *)
Definition read_value (options : gmap string OwnedValue) (s : Shared) : bytes * Shared :=
  let '(device, _) := device_and_mtu options in
  (identity s, match device with Some d => s <| last_central := Some d |> | None => s end).

(** Under the lock: a fragment of the device that holds the link, of a device
    that thereby gets it, or of one that is refused. *)
(* src: crates/acrylius-linux/src/ble.rs 529 576 RxChr::write_value *)
Definition write_enter (device : string) (mtu : option u16) (value : bytes) (s : Shared) : Shared :=
  let entered :=
    match sh_link s with
    | Some l => if bl_device l =s device then Some (l, s) else None
    | None =>
        let '(link, s) := ble_next_link s in
        let attrs := ble_attrs (sh_id s) in
        let l := mkBleLink link device (default FALLBACK_MTU mtu) (Reassembler_new (la_max_message attrs)) in
        Some (l, ble_send (LinkUp link attrs None) s)
    end in
  match entered with
  | None => s
  | Some (l, s) =>
      let l := match mtu with Some m => l <| bl_mtu := m |> | None => l end in
      let '(r, pushed) := push (bl_reassembler l) value in
      match pushed with
      | Ok (Some msg) =>
          ble_send (LinkRecv (bl_link l) msg) (s <| sh_link := Some (l <| bl_reassembler := r |>) |>)
      | Ok None => s <| sh_link := Some (l <| bl_reassembler := r |>) |>
      | Err e =>
          ble_send (LinkDown (bl_link l) (TransportFailed (ble_error_to_string e))) (s <| sh_link := None |>)
      end
  end.

(** The lock is taken: the holder is another device's to be dropped first, if
    it is gone ([connected] is bluetoothd's answer about it). *)
(* src: crates/acrylius-linux/src/ble.rs 513 527 RxChr::write_value *)
Definition write_locked (device : string) (connected : bool) (s : Shared) : option string :=
  match sh_link s with
  | Some l => if bl_device l =s device then None else if connected then None else Some (bl_device l)
  | None => None
  end.

(** ** Commands *)

(** The ATT payload: the MTU less three bytes of header. *)
(* src: crates/acrylius-linux/src/ble.rs 671 682 BleTransport::notify *)
Definition notify (mtu : u16) (msg : bytes) : list bytes := fragment msg (N.max (mtu - 3) 2).

Definition drop_if (link : LinkId) (r : LinkDownReason) (s : Shared) : Shared :=
  match sh_link s with
  | Some l => if bl_link l =? link then ble_send (LinkDown link r) (s <| sh_link := None |>) else s
  | None => s
  end.

(** What a command does at once, and a message to notify of at an MTU. *)
(* src: crates/acrylius-linux/src/ble.rs 861 933 BleTransport::run *)
Definition ble_on_cmd (c : TransportCmd) (s : Shared) : option (LinkId * u16 * bytes) * Shared :=
  match c with
  | TAdvertise enable txt => (None, s <| identity := encode_identity txt |> <| advertising := enable |>)
  | TDiscover _ => (None, s)
  | TDial dial _ =>
      (None, ble_send (DialFailed dial "this device is a BLE peripheral and cannot dial out") s)
  | TSend link msg =>
      (match sh_link s with
       | Some l => if bl_link l =? link then Some (link, bl_mtu l, msg) else None
       | None => None
       end, s)
  | TClose link => (None, drop_if link Closed s)
  end.

(** ** What happens, in any order *)

(** Where something waits, or has let go of the lock of the link. *)
Inductive BleFlight :=
| Writing (device : string) (mtu : option u16) (value : bytes)
| Evicting (device : string) (mtu : option u16) (value : bytes) (holder : string)
| Entering (device : string) (mtu : option u16) (value : bytes)
| Departed (path : string) (then_readvertise : bool)
| Asking (held watching : option string)
| Deciding (held : option string) (central : option bool) (want : bool)
| Readvertising (forget : bool)
| Registering (forget : bool)
| Notifying (link : LinkId) (mtu : u16) (msg : bytes).

Record BleHost := mkBleHost { shared : Shared; ble_flights : list BleFlight }.
#[global] Instance BleHost_eta : Eta BleHost := λ h, mkBleHost (shared h) (ble_flights h).

Definition ble_off (fl : BleFlight) (h : BleHost) : BleHost := h <| ble_flights ::= λ l, l ++ [fl] |>.
Definition ble_land (i : nat) (h : BleHost) : BleHost := h <| ble_flights ::= delete i |>.
Definition ble_do (f : Shared -> Shared) (h : BleHost) : BleHost := h <| shared ::= f |>.

Inductive ble_step (h : BleHost) : BleHost -> Prop :=
(* a characteristic is read, written or subscribed to *)
| bs_read options : ble_step h (ble_do (λ s, (read_value options s).2) h)
| bs_write options device mtu value :
    device_and_mtu options = (Some device, mtu) ->
    ble_step h (ble_off (Writing device mtu value) (ble_do (λ s, s <| last_central := Some device |>) h))
| bs_subscribed l :
    sh_link (shared h) = Some l -> ble_step h (ble_off (Departed (bl_device l) false) h)
(* a write gets the lock, and lets go of it to drop a holder that is gone *)
| bs_locked i device mtu value connected :
    ble_flights h !! i = Some (Writing device mtu value) ->
    ble_step h
      (let h := ble_land i h in
       match write_locked device connected (shared h) with
       | Some holder => ble_off (Evicting device mtu value holder) h
       | None => ble_do (write_enter device mtu value) h
       end)
| bs_evicted i device mtu value holder :
    ble_flights h !! i = Some (Evicting device mtu value holder) ->
    ble_step h (ble_off (Entering device mtu value) (ble_do (drop_link_for holder) (ble_land i h)))
| bs_entered i device mtu value :
    ble_flights h !! i = Some (Entering device mtu value) ->
    ble_step h (ble_do (write_enter device mtu value) (ble_land i h))
(* a signal says a device left *)
| bs_signalled path : is_ours (shared h) path = true -> ble_step h (ble_off (Departed path true) h)
| bs_departed i path again :
    ble_flights h !! i = Some (Departed path again) ->
    ble_step h
      (let h := ble_do (drop_link_for path) (ble_land i h) in
       if again then ble_off (Readvertising false) h else h)
(* the poll *)
| bs_tick :
    ble_step h (let '(held, watching) := supervise_begin (shared h) in ble_off (Asking held watching) h)
| bs_asked i held watching connected :
    ble_flights h !! i = Some (Asking held watching) ->
    ble_step h (ble_off (Deciding held ((λ _, connected) <$> watching) (advertising (shared h))) (ble_land i h))
| bs_decided i held central want instances :
    ble_flights h !! i = Some (Deciding held central want) ->
    ble_step h
      (let h := ble_land i h in
       let '(again, s) := supervise_act held central want instances (shared h) in
       let h := h <| shared := s |> in
       match again with Some forget => ble_off (Readvertising forget) h | None => h end)
(* the advertisement was dropped, or is to be put back *)
| bs_released : ble_step h (ble_off (Readvertising false) h)
| bs_gate i forget now :
    ble_flights h !! i = Some (Readvertising forget) ->
    ble_step h
      (let h := ble_land i h in
       let '(go, s) := readvertise_gate now (shared h) in
       let h := h <| shared := s |> in
       if go then ble_off (Registering forget) h else h)
| bs_registered i forget ok :
    ble_flights h !! i = Some (Registering forget) ->
    ble_step h
      (let h := ble_land i h in
       if ok && forget then ble_do (λ s, s <| last_central := None |>) h else h)
(* commands *)
| bs_cmd c :
    ble_step h
      (let '(sending, s) := ble_on_cmd c (shared h) in
       let h := h <| shared := s |> in
       match sending with Some (l, mtu, msg) => ble_off (Notifying l mtu msg) h | None => h end)
| bs_notified i l mtu msg failed :
    ble_flights h !! i = Some (Notifying l mtu msg) ->
    ble_step h
      (let h := ble_land i h in
       match failed with Some why => ble_do (drop_if l (TransportFailed why)) h | None => h end).

Inductive ble_run (id : TransportId) : nat -> BleHost -> Prop :=
| br_nil : ble_run id 0 (mkBleHost (Shared_new id) [])
| br_snoc n h h' : ble_run id n h -> ble_step h h' -> ble_run id (S n) h'.

(** ** One link at a time *)

Definition on_air (s : Shared) (l : LinkId) : Prop := bl_link <$> sh_link s = Some l.

(** The core's story of the links is that of the one held, whose reassembler is
    sound and takes what the link takes. *)
Record BleTold (s : Shared) : Prop := {
  bt_id : sh_id s <= u16_max;
  bt_story : Story (sh_id s) (sh_next s) (on_air s) (sh_sink s);
  bt_reassembler l : sh_link s = Some l ->
    well_formed (bl_reassembler l) /\ r_max (bl_reassembler l) = 16384;
  bt_whole l m : LinkRecv l m ∈ sh_sink s -> len m <= 16384;
}.

Lemma on_air_held s l : sh_link s = Some l -> ∀ k, on_air s k <-> k = bl_link l.
Proof. intros E k. unfold on_air. rewrite E. cbn. split; [by intros [= ->]|by intros ->]. Qed.
Lemma on_air_free s : sh_link s = None -> ∀ k, on_air s k <-> False.
Proof. intros E k. unfold on_air. rewrite E. cbn. done. Qed.

(** What concerns no link. *)
Lemma told_same s s' :
  BleTold s -> sh_id s' = sh_id s -> sh_next s' = sh_next s -> sh_link s' = sh_link s ->
  (sh_sink s' = sh_sink s \/ ∃ e, not_link e /\ sh_sink s' = sh_sink s ++ [e]) -> BleTold s'.
Proof.
  intros [T1 T2 T3 T4] Hi Hn Hl Hs. split; [by rewrite Hi| |by rewrite Hl|].
  - rewrite Hi, Hn. apply (Story_ext _ _ (on_air s)); [intros l; unfold on_air; by rewrite Hl|].
    destruct Hs as [->|(e & He & ->)]; [done|by apply Story_other].
  - intros l m Hin. apply (T4 l). destruct Hs as [<-|(e & He & E)]; [done|].
    rewrite E in Hin. apply elem_of_app in Hin as [?|<-%list_elem_of_singleton]; done.
Qed.

Lemma told_sink_app s e l m :
  (∀ l m, LinkRecv l m ∈ sh_sink s -> len m <= 16384) ->
  (∀ l m, e = LinkRecv l m -> len m <= 16384) ->
  LinkRecv l m ∈ sh_sink s ++ [e] -> len m <= 16384.
Proof.
  intros H He [Hin|Hin]%elem_of_app; [by apply (H l)|].
  apply list_elem_of_singleton in Hin. by eapply He.
Qed.

(** The link that is held goes down. *)
Lemma told_down s l r :
  BleTold s -> sh_link s = Some l ->
  BleTold (ble_send (LinkDown (bl_link l) r) (s <| sh_link := None |>)).
Proof.
  intros [T1 T2 T3 T4] E. split; cbn; [done| |done|].
  - apply (Story_ext _ _ (λ k, k <> bl_link l /\ on_air s k)).
    + intros k. rewrite (on_air_held s l E), on_air_free by done. split; [done|by intros []].
    + apply Story_down; [by apply (on_air_held s l E)|exact T2].
  - intros k m. by apply told_sink_app.
Qed.

(** A link comes up for a device when none is held. *)
Lemma told_up s device mtu :
  BleTold s -> sh_link s = None -> 1 <= sh_next s -> sh_next s < 2 ^ 48 ->
  let l := mkBleLink (LinkId_new (sh_id s) (sh_next s)) device mtu
             (Reassembler_new (la_max_message (ble_attrs (sh_id s)))) in
  BleTold (ble_send (LinkUp (bl_link l) (ble_attrs (sh_id s)) None)
    ((ble_next_link s).2 <| sh_link := Some l |>)).
Proof.
  intros [T1 T2 T3 T4] E H1 H2 l.
  assert (sh_next s +u64 1 = sh_next s + 1) as Hadd.
  { apply u64_add_small. unfold u64_max. change (2 ^ 48) with 281474976710656 in H2. lia. }
  split; cbn; [done| | |].
  - rewrite Hadd. apply (Story_ext _ _ (λ k, k = LinkId_new (sh_id s) (sh_next s) \/ on_air s k)).
    + intros k. rewrite (on_air_held _ l) by done. pose proof (on_air_free s E k). cbn. tauto.
    + by apply Story_up.
  - intros l' [= <-]. by split; [split|].
  - intros k m. by apply told_sink_app.
Qed.

(** A fragment for the link that is held. *)
Definition pushed_to (l : BleLink) (value : bytes) (s : Shared) : Shared :=
  let '(r, pushed) := push (bl_reassembler l) value in
  match pushed with
  | Ok (Some msg) =>
      ble_send (LinkRecv (bl_link l) msg) (s <| sh_link := Some (l <| bl_reassembler := r |>) |>)
  | Ok None => s <| sh_link := Some (l <| bl_reassembler := r |>) |>
  | Err e =>
      ble_send (LinkDown (bl_link l) (TransportFailed (ble_error_to_string e))) (s <| sh_link := None |>)
  end.

Lemma told_pushed s l value :
  BleTold s -> sh_link s = Some l -> BleTold (pushed_to l value s).
Proof.
  intros HT E. unfold pushed_to. destruct (push (bl_reassembler l) value) as [r pushed] eqn:Ep.
  destruct (bt_reassembler s HT l E) as [Hw Hm].
  destruct (push_invariant _ _ _ _ Hw ltac:(rewrite Hm; vm_compute; done) Ep) as (Hw' & Hm' & Hres).
  pose proof HT as [T1 T2 T3 T4]. destruct pushed as [[msg|]|e].
  - destruct Hres as (_ & _ & Hlen). split; cbn; [done| | |].
    + apply (Story_ext _ _ (on_air s)).
      { intros k. by rewrite (on_air_held s l E), (on_air_held _ (l <| bl_reassembler := r |>)) by done. }
      apply Story_recv; [by apply (on_air_held s l E)|done].
    + intros l' [= <-]. cbn. split; [done|congruence].
    + intros k m. apply told_sink_app; [done|]. intros k' m' [= _ <-]. by rewrite Hm in Hlen.
  - split; cbn; [done| | |done].
    + apply (Story_ext _ _ (on_air s)); [|done].
      intros k. by rewrite (on_air_held s l E), (on_air_held _ (l <| bl_reassembler := r |>)) by done.
    + intros l' [= <-]. cbn. split; [done|congruence].
  - by apply told_down.
Qed.

Lemma told_relink s l l' :
  BleTold s -> sh_link s = Some l -> bl_link l' = bl_link l -> bl_reassembler l' = bl_reassembler l ->
  BleTold (s <| sh_link := Some l' |>).
Proof.
  intros [T1 T2 T3 T4] E E1 E2. split; cbn; [done| | |done].
  - apply (Story_ext _ _ (on_air s)); [|done].
    intros k. rewrite (on_air_held s l E), (on_air_held _ l') by done. by rewrite E1.
  - intros k [= <-]. rewrite E2. by apply T3.
Qed.

(** What a write under the lock is: refused, or a fragment for the link held,
    which is a new one when there was none. *)
Lemma write_enter_spec device mtu value s :
  (∃ l, sh_link s = Some l /\ bl_device l <> device /\ write_enter device mtu value s = s) \/
  (∃ l, sh_link s = Some l /\ bl_device l = device /\
    let l' := match mtu with Some m => l <| bl_mtu := m |> | None => l end in
    write_enter device mtu value s = pushed_to l' value (s <| sh_link := Some l' |>)) \/
  (sh_link s = None /\
    let l := mkBleLink (LinkId_new (sh_id s) (sh_next s)) device (default FALLBACK_MTU mtu)
               (Reassembler_new (la_max_message (ble_attrs (sh_id s)))) in
    write_enter device mtu value s = pushed_to l value
      (ble_send (LinkUp (bl_link l) (ble_attrs (sh_id s)) None) ((ble_next_link s).2 <| sh_link := Some l |>))).
Proof.
  unfold write_enter. destruct (sh_link s) as [l|] eqn:E.
  - destruct (String.eqb_spec (bl_device l) device) as [Ed|Hd].
    + right. left. exists l. split_and!; [done|done|]. unfold pushed_to.
      destruct mtu; destruct (push _ value) as [r [[msg|]|e]]; done.
    + left. by exists l.
  - right. right. split; [done|]. unfold pushed_to, ble_next_link.
    destruct mtu; destruct (push _ value) as [r [[msg|]|e]]; done.
Qed.

Lemma told_write device mtu value s :
  BleTold s -> 1 <= sh_next s -> sh_next s < 2 ^ 48 -> BleTold (write_enter device mtu value s).
Proof.
  intros HT H1 H2.
  destruct (write_enter_spec device mtu value s) as [(l & E & _ & ->)|[(l & E & _ & ->)|[E ->]]]; [done|..].
  - apply told_pushed; [|done]. apply (told_relink s l); [done|done|by destruct mtu..].
  - apply told_pushed; [by apply told_up|done].
Qed.

Lemma told_drop_for path s : BleTold s -> BleTold (drop_link_for path s).
Proof.
  intros HT. unfold drop_link_for. destruct (sh_link s) as [l|] eqn:E; [|done].
  destruct (_ =s path); [by apply told_down|done].
Qed.

Lemma told_drop_if k r s : BleTold s -> BleTold (drop_if k r s).
Proof.
  intros HT. unfold drop_if. destruct (sh_link s) as [l|] eqn:E; [|done].
  destruct (N.eqb_spec (bl_link l) k) as [<-|]; [by apply told_down|done].
Qed.

(** A step keeps the story, and gives out at most one number. *)
Definition Kept_told (s s' : Shared) : Prop :=
  BleTold s' /\ sh_next s <= sh_next s' <= sh_next s + 1.

Lemma kept_same s s' : BleTold s' -> sh_next s' = sh_next s -> Kept_told s s'.
Proof. intros H E. split; [done|]. rewrite E. lia. Qed.

Lemma pushed_next l value s : sh_next (pushed_to l value s) = sh_next s.
Proof. unfold pushed_to. by destruct (push _ value) as [r [[msg|]|e]]. Qed.

Lemma kept_write device mtu value s :
  BleTold s -> 1 <= sh_next s -> sh_next s < 2 ^ 48 -> Kept_told s (write_enter device mtu value s).
Proof.
  intros HT H1 H2. split; [by apply told_write|].
  destruct (write_enter_spec device mtu value s) as [(l & E & _ & ->)|[(l & E & _ & ->)|[E ->]]];
    rewrite ?pushed_next; cbn; [lia..|].
  rewrite u64_add_small; [lia|]. unfold u64_max. change (2 ^ 48) with 281474976710656 in H2. lia.
Qed.

Lemma kept_drop_for path s : BleTold s -> Kept_told s (drop_link_for path s).
Proof.
  intros HT. apply kept_same; [by apply told_drop_for|]. unfold drop_link_for.
  destruct (sh_link s); [|done]. by destruct (_ =s path).
Qed.

Lemma kept_cmd c s : BleTold s -> Kept_told s (ble_on_cmd c s).2.
Proof.
  intros HT. destruct c as [dial addr|l m|l|enable txt|enable]; cbn [ble_on_cmd snd].
  - apply kept_same; [|done]. apply (told_same s); try done. right. eexists. by split; [|done].
  - by apply kept_same.
  - apply kept_same; [by apply told_drop_if|]. unfold drop_if. destruct (sh_link s); [|done].
    by destruct (_ =? l).
  - apply kept_same; [|done]. apply (told_same s); try done. by left.
  - by apply kept_same.
Qed.

Lemma step_told h h' :
  ble_step h h' -> BleTold (shared h) -> 1 <= sh_next (shared h) -> sh_next (shared h) < 2 ^ 48 ->
  Kept_told (shared h) (shared h').
Proof.
  intros Hs HT H1 H2. pose proof (kept_same _ _ HT eq_refl) as Hid.
  assert (∀ s', sh_id s' = sh_id (shared h) -> sh_next s' = sh_next (shared h) ->
    sh_link s' = sh_link (shared h) -> sh_sink s' = sh_sink (shared h) -> Kept_told (shared h) s') as Hsame.
  { intros s' E1 E2 E3 E4. apply kept_same; [|done]. apply (told_same (shared h)); try done. by left. }
  destruct Hs as [options|options device mtu value E|l E|i device mtu value connected E|i device mtu value holder E
    |i device mtu value E|path E|i path again E| |i held watching connected E|i held central want instances E|
    |i forget now E|i forget ok E|c|i l mtu msg failed E]; cbn [shared ble_do ble_off ble_land set_field]; try exact Hid.
  - unfold read_value. destruct (device_and_mtu options) as [[d|] m]; by apply Hsame.
  - by apply Hsame.
  - cbn. destruct (write_locked device connected (shared h)); [done|by apply kept_write].
  - by apply kept_drop_for.
  - by apply kept_write.
  - destruct again; by apply kept_drop_for.
  - cbn. unfold supervise_act. destruct (reconcile central want instances); [done| |done].
    destruct held; [by apply kept_drop_for|done].
  - cbn. unfold readvertise_gate. destruct (negb _); [done|]. destruct (sh_link (shared h)) eqn:El; [done|].
    destruct (last_advert (shared h)); [destruct (_ <? _)|]; try done; by apply Hsame.
  - destruct (ok && forget); [by apply Hsame|done].
  - pose proof (kept_cmd c (shared h) HT) as Hc. destruct (ble_on_cmd c (shared h)) as [[[[l mtu] msg]|] s]; exact Hc.
  - destruct failed as [why|]; [|done]. apply kept_same; [by apply told_drop_if|]. cbn. unfold drop_if.
    destruct (sh_link (shared h)); [|done]. by destruct (_ =? l).
Qed.

(** C40 (safety): In any order of writes, subscriptions, departures seen or missed,
    polls and commands, the core hears of each link that it is up once, then
    its messages, none longer than the link takes, then that it is down once,
    under a number of its own; and no two links are ever up together, the one
    that is being the one held. *)
Theorem one_ble_link id n h :
  id <= u16_max -> N.of_nat n < 2 ^ 48 - 1 -> ble_run id n h ->
  (∀ l, ∃ ph, phase_of l (sh_sink (shared h)) = Some ph /\ (on_air (shared h) l <-> ph = Alive)) /\
  (∀ l l', phase_of l (sh_sink (shared h)) = Some Alive ->
     phase_of l' (sh_sink (shared h)) = Some Alive -> l = l') /\
  (∀ l m, LinkRecv l m ∈ sh_sink (shared h) -> len m <= 16384).
Proof.
  intros Hid Hn Hr.
  assert (BleTold (shared h) /\ 1 <= sh_next (shared h) <= 1 + N.of_nat n) as [[_ [HS _] _ HW] _].
  { induction Hr as [|n h h' Hr IH Hs].
    - split; [|cbn; lia]. split; cbn; [done| |done|by intros ? ? ?%elem_of_nil].
      apply (Story_ext _ _ (λ _, False)); [|apply Story_nil]. intros l. by apply on_air_free.
    - destruct IH as [HT [H1 H2]]; [lia|].
      destruct (step_told _ _ Hs HT) as [HT' Hb]; [lia|lia|]. split; [done|lia]. }
  split_and!; [exact HS| |exact HW].
  intros l l' Hl Hl'. destruct (HS l) as (ph & Hp & Ha), (HS l') as (ph' & Hp' & Ha').
  assert (on_air (shared h) l) as H1 by (apply Ha; congruence).
  assert (on_air (shared h) l') as H2 by (apply Ha'; congruence).
  unfold on_air in H1, H2. congruence.
Qed.

(** ** Messages *)

Definition write_all_of (device : string) (mtu : option u16) (frags : list bytes) (s : Shared) : Shared :=
  fold_left (λ s f, write_enter device mtu f s) frags s.

(** Fragments that reassemble are messages of the link. *)
Lemma writes_pushed device mtu frags : ∀ s l r' ms,
  sh_link s = Some l -> bl_device l = device ->
  push_all (bl_reassembler l) frags = (r', Ok ms) ->
  sh_sink (write_all_of device mtu frags s) = sh_sink s ++ map (LinkRecv (bl_link l)) ms /\
  ∃ l', sh_link (write_all_of device mtu frags s) = Some l' /\
    bl_link l' = bl_link l /\ bl_device l' = device /\ bl_reassembler l' = r'.
Proof.
  induction frags as [|f frags IH]; intros s l r' ms E Ed Hp.
  - injection Hp as <- <-. split; [by rewrite app_nil_r|]. by exists l.
  - cbn [push_all] in Hp. cbn [write_all_of fold_left].
    destruct (write_enter_spec device mtu f s) as [(l0 & E0 & Hd & _)|[(l0 & E0 & _ & Ew)|[E0 _]]];
      [congruence| |congruence].
    assert (l0 = l) as -> by congruence. cbv zeta in Ew. fold (write_all_of device mtu frags).
    rewrite Ew. clear Ew. set (l1 := match mtu with Some m => _ | None => l end).
    assert (bl_link l1 = bl_link l /\ bl_device l1 = device /\ bl_reassembler l1 = bl_reassembler l)
      as (A1 & A2 & A3) by (subst l1; destruct mtu; done).
    clearbody l1. unfold pushed_to. rewrite A3.
    destruct (push (bl_reassembler l) f) as [r [o|e]]; [|done].
    destruct (push_all r frags) as [r2 [ms2|]] eqn:E2; [|done]. injection Hp as <- <-.
    set (l2 := l1 <| bl_reassembler := r |>).
    destruct o as [m|]; cbn [ble_send].
    + destruct (IH (ble_send (LinkRecv (bl_link l1) m) (s <| sh_link := Some l1 |> <| sh_link := Some l2 |>))
        l2 r2 ms2 ltac:(done) A2 E2) as (Hs & l' & Hl' & B1 & B2 & B3).
      split; [|exists l'; split_and!; [exact Hl'|by rewrite B1; cbn|done|done]].
      refine (eq_trans Hs _). cbn. by rewrite A1, <- app_assoc.
    + destruct (IH (s <| sh_link := Some l1 |> <| sh_link := Some l2 |>) l2 r2 ms2 ltac:(done) A2 E2)
        as (Hs & l' & Hl' & B1 & B2 & B3).
      split; [|exists l'; split_and!; [exact Hl'|by rewrite B1; cbn|done|done]].
      refine (eq_trans Hs _). cbn. by rewrite A1.
Qed.

(** What the phone cuts in whatever pieces and writes in order is one
    message to the core, and leaves the link ready for the next; what the core
    sends goes out in notifications no longer than the MTU allows, which a
    reassembler of the phone's puts together again. *)
Theorem ble_carries msg size device mtu s l limit :
  BleTold s -> sh_link s = Some l -> bl_device l = device -> r_open (bl_reassembler l) = false ->
  len msg <= 16384 -> len msg <= limit <= u64_max ->
  (let s' := write_all_of device mtu (fragment msg size) s in
   sh_sink s' = sh_sink s ++ [LinkRecv (bl_link l) msg] /\
   ∃ l', sh_link s' = Some l' /\ bl_link l' = bl_link l /\ bl_reassembler l' = bl_reassembler l) /\
  Forall (λ f, len f <= N.max (bl_mtu l - 3) 2) (notify (bl_mtu l) msg) /\
  push_all (Reassembler_new limit) (notify (bl_mtu l) msg) = (Reassembler_new limit, Ok [msg]).
Proof.
  intros HT E Ed Ho Hlen Hlim. destruct (bt_reassembler s HT l E) as [[Hb He] Hm]. specialize (He Ho).
  assert (∀ size r, r_open r = false -> r_buf r = [] -> len msg <= r_max r <= u64_max ->
    push_all r (fragment msg size) = (r, Ok [msg])) as Hpush.
  { intros sz r Hr Hbuf Hl. unfold fragment.
    rewrite push_all_fragment_loop; [|lia|apply payload_size_pos|by rewrite Hr|].
    - rewrite Hbuf. destruct r as [b m o]. cbn in *. by subst.
    - rewrite Hbuf. unfold len in *. cbn. lia. }
  split; [|split].
  - cbv zeta. destruct (writes_pushed device mtu (fragment msg size) s l (bl_reassembler l) [msg] E Ed)
      as (Hs & l' & Hl' & B1 & _ & B3).
    + apply Hpush; [done|done|]. rewrite Hm. unfold u64_max. lia.
    + split; [exact Hs|]. by exists l'.
  - unfold notify. destruct (fragment_fits msg (N.max (bl_mtu l - 3) 2)) as [H _].
    eapply Forall_impl; [exact H|]. cbn. lia.
  - by apply Hpush.
Qed.

(** The poll never disturbs a central that is connected; one that left without
    a word is noticed, its link goes down, and the advertisement may come back. *)
Lemma poll_recovers s l now instances :
  sh_link s = Some l -> advertising s = true ->
  (∀ at_, last_advert s = Some at_ -> at_ + ADVERT_COOLDOWN <= now) ->
  let '(held, watching) := supervise_begin s in
  supervise_act held ((λ _, true) <$> watching) (advertising s) instances s = (None, s) /\
  let '(again, s1) := supervise_act held ((λ _, false) <$> watching) (advertising s) instances s in
  again = Some true /\ sh_link s1 = None /\ sh_sink s1 = sh_sink s ++ [LinkDown (bl_link l) Closed] /\
  (readvertise_gate now s1).1 = true.
Proof.
  intros E Ha Hc. unfold supervise_begin. rewrite E. cbn. split; [done|].
  unfold supervise_act. cbn. unfold drop_link_for. rewrite E, String.eqb_refl. cbn.
  split_and!; [done|done|done|]. unfold readvertise_gate. cbn. rewrite Ha. cbn.
  destruct (last_advert s) as [at_|]; [|done]. specialize (Hc at_ eq_refl).
  rewrite (proj2 (N.ltb_ge _ _)) by lia. done.
Qed.

(** Putting the advertisement back looks whether a link is up, then waits, then
    unregisters: a phone that writes while it waits has its link under a live
    registration after all. *)
Lemma registers_over_a_link :
  ∃ n h, ble_run 1 n h /\ Registering false ∈ ble_flights h /\ is_Some (sh_link (shared h)).
Proof.
  set (options := <["device"%string := VObjectPath "phone"]> (∅ : gmap string OwnedValue)).
  eexists _, _. split; [|split].
  - eapply br_snoc; [eapply br_snoc; [eapply br_snoc; [eapply br_snoc; [eapply br_snoc; [apply br_nil|]|]|]|]|].
    + apply (bs_cmd _ (TAdvertise true [])).
    + apply bs_released.
    + apply (bs_gate _ 0 false 0). reflexivity.
    + apply (bs_write _ options "phone" None [byte_of 2; byte_of 7]). reflexivity.
    + apply (bs_locked _ 1 "phone" None [byte_of 2; byte_of 7] true). reflexivity.
  - vm_compute. left.
  - vm_compute. by eexists.
Qed.
