(* ===== verification/BleBus.v ===== *)
(** * [acrylius-linux/src/ble.rs]: what is asked of bluetoothd

    Whether there is a usable adapter, what the signals of the bus are taken to
    mean, the registrations made and taken back, and the commands of the core
    as the transport's loop carries them out.  What bluetoothd answers is an
    argument; [BleTransport] has the state and the order of events. *)

From S2P Require Import Prelude Vocab Link Strs RtTcp BleTransport.
Local Open Scope N_scope.

(** ** What is read *)

(** An adapter, if there is one: whether it is powered, and its roles, where
    those can be read. *)
(* src: crates/acrylius-linux/src/ble.rs 649 668 BleTransport::usable *)
Definition usable (adapter : option (option bool * option (list string))) : result bool unit :=
  match adapter with
  | None => Err tt
  | Some (powered, roles) =>
      if negb (default false powered) then Ok false
      else Ok (existsb (λ r, r =s "peripheral") (default [] roles))
  end.
(** An object that is gone, or does not say, is not connected. *)
(* src: crates/acrylius-linux/src/ble.rs 147 162 device_is_connected *)
Definition device_is_connected (object : option (option bool)) : bool := default false (default None object).
(** An adapter that cannot be asked is taken to advertise. *)
(* src: crates/acrylius-linux/src/ble.rs 324 336 active_instances *)
Definition active_instances (answer : option u8) : u8 := default 1 answer.

(** ** What is shown on the bus *)

(* src: crates/acrylius-proto/src/lib.rs 24 34 BLE_SERVICE_UUID *)
Definition BLE_SERVICE_UUID : string := "61637279-6c69-7573-8001-000000000001".
Definition BLE_IDENTITY_UUID : string := "61637279-6c69-7573-8001-000000000002".
Definition BLE_RX_UUID : string := "61637279-6c69-7573-8001-000000000003".
Definition BLE_TX_UUID : string := "61637279-6c69-7573-8001-000000000004".

(* src: crates/acrylius-linux/src/ble.rs 22 32 APP_PATH *)
Definition APP_PATH : string := "/org/acrylius/gatt".
Definition ADV_PATH : string := "/org/acrylius/adv0".
Definition SERVICE_PATH : string := "/org/acrylius/gatt/service0".
Definition IDENTITY_PATH : string := "/org/acrylius/gatt/service0/char0".
Definition RX_PATH : string := "/org/acrylius/gatt/service0/char1".
Definition TX_PATH : string := "/org/acrylius/gatt/service0/char2".

(** A characteristic: where it is, what it is called, the service it is of, and
    what may be done with it. *)
Record Chr := mkChr { chr_path : string; chr_uuid : string; chr_service : string; chr_flags : list string }.
(* src: crates/acrylius-linux/src/ble.rs 441 456 IdentityChr *)
Definition IdentityChr : Chr := mkChr IDENTITY_PATH BLE_IDENTITY_UUID SERVICE_PATH ["read"%string].
(* src: crates/acrylius-linux/src/ble.rs 479 496 RxChr *)
Definition RxChr : Chr := mkChr RX_PATH BLE_RX_UUID SERVICE_PATH ["write-without-response"%string].
(* src: crates/acrylius-linux/src/ble.rs 586 601 TxChr *)
Definition TxChr : Chr := mkChr TX_PATH BLE_TX_UUID SERVICE_PATH ["notify"%string].

(* src: crates/acrylius-linux/src/ble.rs 422 435 Service *)
Record Service := mkService { srv_path : string; srv_uuid : string; srv_primary : bool }.
Definition gatt_service : Service := mkService SERVICE_PATH BLE_SERVICE_UUID true.

(** The objects served, each under its path, and what is registered of them. *)
(* src: crates/acrylius-linux/src/ble.rs 716 752 BleTransport::run *)
Definition gatt_application : string * list Service * list Chr :=
  (APP_PATH, [gatt_service], [IdentityChr; RxChr; TxChr]).

(* src: crates/acrylius-linux/src/ble.rs 363 418 Advertisement *)
Record Advertisement := mkAdvertisement {
  adv_kind : string;
  adv_service_uuids : list string;
  adv_discoverable : bool;
  adv_discoverable_timeout : u16;
  adv_local_name : string;
}.
(* src: crates/acrylius-linux/src/ble.rs 382 417 Advertisement *)
Definition advertisement_of (name : string) : Advertisement :=
  mkAdvertisement "peripheral" [BLE_SERVICE_UUID] true 0 name.

(** ** Signals *)

(** [PropertiesChanged] and [InterfacesRemoved] as they deserialize, if they do. *)
Inductive Signal :=
| PropertiesChanged (path : option string) (body : option (string * gmap string OwnedValue))
| InterfacesRemoved (body : option (string * list string)).

Definition DEVICE : string := "org.bluez.Device1".
(** The device whose departure a signal tells, if it is one of this transport's. *)
(* src: crates/acrylius-linux/src/ble.rs 784 842 BleTransport::run *)
Definition signal_tells (sig : Signal) (s : Shared) : option string :=
  match sig with
  | PropertiesChanged (Some path) (Some (iface, changed)) =>
      if negb (iface =s DEVICE) then None
      else match changed !! "Connected"%string with
      | Some (VBool false) => if is_ours s path then Some path else None
      | _ => None
      end
  | InterfacesRemoved (Some (path, ifaces)) =>
      if existsb (λ i, i =s DEVICE) ifaces && is_ours s path then Some path else None
  | _ => None
  end.

(** ** Registrations *)

Inductive BusCall := RegisterApplication | UnregisterApplication | RegisterAdvertisement | UnregisterAdvertisement.

(** Past the gate; [answered] says whether the two managers could be had. *)
(* src: crates/acrylius-linux/src/ble.rs 194 228 readvertise *)
Definition readvertise_calls (gatt ads : bool) (registered : bool) : list BusCall * bool :=
  ((if gatt then [RegisterApplication] else []) ++
   (if ads then [UnregisterAdvertisement; RegisterAdvertisement] else []), ads && registered).

(** What the loop keeps besides what it shares: whether it has put the
    advertisement up. *)
(* src: crates/acrylius-linux/src/ble.rs 862 884 BleTransport::run *)
Definition on_advertise (enable advertising : bool) : list BusCall * bool :=
  if enable && negb advertising then ([RegisterAdvertisement], true)
  else if negb enable && advertising then ([UnregisterAdvertisement], false)
  else ([], advertising).

(** The loop over the commands, until the core lets go of the transport. *)
(* src: crates/acrylius-linux/src/ble.rs 860 940 BleTransport::run *)
Fixpoint run_cmds (cmds : list TransportCmd) (advertising : bool) (s : Shared) : list BusCall * Shared :=
  match cmds with
  | [] => ((if advertising then [UnregisterAdvertisement] else []) ++ [UnregisterApplication], s)
  | c :: cmds =>
      let '(calls, advertising) :=
        match c with TAdvertise enable _ => on_advertise enable advertising | _ => ([], advertising) end in
      let '(more, s) := run_cmds cmds advertising (ble_on_cmd c s).2 in
      (calls ++ more, s)
  end.

(** Without a usable adapter the commands are only taken. *)
(* src: crates/acrylius-linux/src/ble.rs 691 701 BleTransport::run *)
Definition ble_transport_run (id : TransportId) (adapter : option (option bool * option (list string)))
    (cmds : list TransportCmd) : result (list BusCall * Shared) unit :=
  try! ok := usable adapter in
  if ok : bool then
    let '(calls, s) := run_cmds cmds false (Shared_new id) in Ok (RegisterApplication :: calls, s)
  else Ok ([], Shared_new id).

(** ** What follows *)

(** A signal is acted on only as the departure of a device this
    transport was talking to, which is a step of [BleTransport]; a headset
    pausing or a phone of somebody else's changes nothing. *)
Theorem signals_only_ours sig h path :
  signal_tells sig (shared h) = Some path ->
  (held_by (shared h) path = true \/ last_central (shared h) = Some path) /\
  ble_step h (ble_off (Departed path true) h).
Proof.
  intros E. assert (is_ours (shared h) path = true) as Ho.
  { destruct sig as [[p|] [[iface changed]|]|[[p ifaces]|]]; try done; cbn in E.
    - destruct (negb _); [done|]. destruct (changed !! _) as [[| |[]|]|]; try done.
      destruct (is_ours (shared h) p) eqn:Ep; [by injection E as <-|done].
    - destruct (existsb _ _); [|done]. destruct (is_ours (shared h) p) eqn:Ep; [by injection E as <-|done]. }
  split; [|by constructor]. unfold is_ours in Ho. apply orb_true_iff in Ho as [?|?]; [by left|right].
  by apply bool_decide_eq_true in H.
Qed.

(** Put up and taken down in turn, and nothing left up. *)
Fixpoint balanced (up : bool) (calls : list BusCall) : Prop :=
  match calls with
  | [] => False
  | [UnregisterApplication] => up = false
  | RegisterAdvertisement :: calls => up = false /\ balanced true calls
  | UnregisterAdvertisement :: calls => up = true /\ balanced false calls
  | _ => False
  end.

Lemma run_cmds_balanced cmds : ∀ up s,
  advertising s = up ->
  balanced up (run_cmds cmds up s).1 /\
  advertising (run_cmds cmds up s).2 = List.fold_left (λ a c, match c with TAdvertise e _ => e | _ => a end) cmds up.
Proof.
  induction cmds as [|c cmds IH]; intros up s Hs; cbn [run_cmds fold_left]; [by destruct up|].
  assert (advertising (ble_on_cmd c s).2 = match c with TAdvertise e _ => e | _ => up end) as Hc.
  { destruct c; cbn; try done; unfold drop_if; destruct (sh_link s) as [l|]; try done; by destruct (bl_link l =? link). }
  destruct c; try (specialize (IH up _ Hc); destruct (run_cmds cmds up _) as [more s']; exact IH).
  unfold on_advertise. destruct enable, up; cbn [andb negb];
    match goal with |- context[run_cmds cmds ?b] => specialize (IH b _ Hc); destruct (run_cmds cmds b _) as [more s'] end;
    destruct IH as [IH1 IH2]; split; try exact IH2; try exact IH1; by split.
Qed.

(** Over any commands of the core the advertisement is put up when it is asked
    for and is not up, taken down when it is no longer wanted, and left down, with
    the application unregistered, when the transport ends; and what the rest of
    the transport takes as wanted is what was last asked. *)
Theorem advertisement_follows id cmds powered roles :
  default false powered = true -> "peripheral"%string ∈ default [] roles ->
  ∃ calls s, ble_transport_run id (Some (powered, roles)) cmds = Ok (RegisterApplication :: calls, s) /\
    balanced false calls /\
    advertising s = List.fold_left (λ a c, match c with TAdvertise e _ => e | _ => a end) cmds false.
Proof.
  intros Hp Hr. unfold ble_transport_run, usable. rewrite Hp. cbn [negb].
  assert (existsb (λ r, r =s "peripheral") (default [] roles) = true) as ->.
  { apply existsb_exists. exists "peripheral"%string. split; [by apply list_elem_of_In|apply String.eqb_refl]. }
  cbn [result_bind]. destruct (run_cmds_balanced cmds false (Shared_new id) eq_refl) as [H1 H2].
  destruct (run_cmds cmds false (Shared_new id)) as [calls s]. by exists calls, s.
Qed.
