(* ===== verification/Files.v ===== *)
(** * [acryliusd/src/files.rs]: where a transferred file comes from and goes to

    The four maps of [FileBulk] and its operations.  An operation that waits
    is split where it waits: what it does before is one definition, what it
    does with the answer another, and between the two anything else may
    happen.  The bytes of a transfer reach the disk in one step. *)

From Stdlib Require Import Ascii.
From S2P Require Import Prelude Externals Ids Vocab Share Strs Utf8 Fs Bulk RtBulk.
Local Open Scope N_scope.

(* src: crates/acryliusd/src/files.rs 19 30 Incoming *)
Record FileIncoming := mkFileIncoming {
  in_dest : path;
  in_expect_bytes : u64;
  in_key : bytes;
  in_listening : option string;
  in_connected : option stream;
  in_offered_as : u64;
}.
#[global] Instance FileIncoming_eta : Eta FileIncoming := λ i,
  mkFileIncoming (in_dest i) (in_expect_bytes i) (in_key i) (in_listening i) (in_connected i) (in_offered_as i).

(* src: crates/acryliusd/src/files.rs 14 43 FileBulk *)
Record FileBulk := mkFileBulk {
  fb_dir : path;
  fb_host : string;
  fb_offers : gmap TransferId (string * Offer);
  fb_outgoing : gmap TransferId path;
  fb_incoming : gmap TransferId FileIncoming;
  fb_landed : gmap TransferId path;
  fb_next : u64;
}.
#[global] Instance FileBulk_eta : Eta FileBulk := λ f,
  mkFileBulk (fb_dir f) (fb_host f) (fb_offers f) (fb_outgoing f) (fb_incoming f) (fb_landed f) (fb_next f).

(** What an operation fails with; its text is [anyhow]'s. *)
Inductive FilesError :=
| NoOffer (t : TransferId)
| NothingListening (t : TransferId)
| AlreadyAccepted (t : TransferId)
| CancelledWaiting (t : TransferId)
| NothingConnected (t : TransferId)
| NothingToSend (t : TransferId)
| FileIo (e : ErrorKind)
| FileTransfer (e : BulkError).

(** [local] is the address the kernel routes from ([local_address]). *)
(* src: crates/acryliusd/src/files.rs 46 57 FileBulk::new *)
Definition FileBulk_new (d : path) (host : option string) (local : string) : FileBulk :=
  mkFileBulk d (default local host) ∅ ∅ ∅ ∅ 0.

(* src: crates/acryliusd/src/files.rs 64 71 FileBulk::writable *)
Definition writable (f : FileBulk) : io ErrorKind unit :=
  let probe := path_join (fb_dir f) ".acrylius-write-test" in
  do! file := create probe in
  do! _ := write_all file [] in
  io_match (remove_file probe) (λ _, io_ret tt).

(* src: crates/acryliusd/src/files.rs 73 87 FileBulk::offer *)
Definition FileBulk_offer (p : path) (size : u64) (name mime : string) (f : FileBulk) : Offer * FileBulk :=
  let id := fb_next f +u64 1 in
  (mkOffer id name size mime, f <| fb_next ::= λ n, n +u64 1 |> <| fb_outgoing ::= <[id := p]> |>).

(* src: crates/acryliusd/src/files.rs 89 95 FileBulk::note_offer *)
Definition note_offer (peer : string) (offer : Offer) (f : FileBulk) : FileBulk :=
  f <| fb_offers ::= <[of_transfer offer := (peer, offer)]> |>.

(* src: crates/acryliusd/src/files.rs 97 103 FileBulk::offered *)
Definition offered (f : FileBulk) (t : TransferId) : option Offer := snd <$> fb_offers f !! t.

(* src: crates/acryliusd/src/files.rs 105 116 FileBulk::resolve *)
Definition resolve (f : FileBulk) (typed : u64) : option TransferId :=
  find (λ id, written_as id typed) (bt_keys (fb_offers f)).

(* src: crates/acryliusd/src/files.rs 118 125 FileBulk::peer_for *)
Definition peer_for (f : FileBulk) (t : TransferId) : option string := fst <$> fb_offers f !! t.

(* src: crates/acryliusd/src/files.rs 127 135 FileBulk::pending *)
Definition FileBulk_pending (f : FileBulk) : list Offer := map snd (bt_values (fb_offers f)).

(* src: crates/acryliusd/src/files.rs 137 141 FileBulk::forget *)
Definition forget (t : TransferId) (f : FileBulk) : FileBulk :=
  f <| fb_offers ::= delete t |> <| fb_outgoing ::= delete t |> <| fb_incoming ::= delete t |>.

(* src: crates/acryliusd/src/files.rs 156 162 FileBulk::landed *)
Definition landed (t : TransferId) (f : FileBulk) : option path * FileBulk :=
  (fb_landed f !! t, f <| fb_landed ::= delete t |>).

(** ** Receiving *)

(** Up to the wait for a port. *)
(* src: crates/acryliusd/src/files.rs 166 181 FileBulk::listen *)
Definition listen_begin (t : TransferId) (f : FileBulk) : io FilesError path :=
  do! offer := io_lift (ok_or (offered f t) (NoOffer t)) in
  io_map_err FileIo (reserve_path (fb_dir f) (safe_component (of_name offer))).
(** The socket is bound to [port]. *)
(* src: crates/acryliusd/src/files.rs 180 195 FileBulk::listen *)
Definition listen_end (t : TransferId) (offered_as : u64) (key : bytes) (expect_bytes : u64)
    (dest : path) (port : u16) (f : FileBulk) : string * FileBulk :=
  let endpoint := (fb_host f +:+ ":" +:+ fmt_u64 port)%string in
  (endpoint, f <| fb_incoming ::=
    <[t := mkFileIncoming dest expect_bytes key (Some endpoint) None offered_as]> |>).

(** Up to the wait for a connection: the listener is taken. *)
(* src: crates/acryliusd/src/files.rs 198 211 FileBulk::accept *)
Definition accept_begin (t : TransferId) (f : FileBulk) : result (string * u64) FilesError * FileBulk :=
  match fb_incoming f !! t with
  | None => (Err (NothingListening t), f)
  | Some i =>
      (ok_or ((λ l, (l, in_offered_as i)) <$> in_listening i) (AlreadyAccepted t),
       f <| fb_incoming ::= <[t := i <| in_listening := None |>]> |>)
  end.
(* src: crates/acryliusd/src/files.rs 212 220 FileBulk::accept *)
Definition accept_end (t : TransferId) (accepted : result stream BulkError) (f : FileBulk)
    : result unit FilesError * FileBulk :=
  match accepted with
  | Err e => (Err (FileTransfer e), f)
  | Ok s =>
      match fb_incoming f !! t with
      | None => (Err (CancelledWaiting t), f)
      | Some i => (Ok tt, f <| fb_incoming ::= <[t := i <| in_connected := Some s |>]> |>)
      end
  end.

(* src: crates/acryliusd/src/files.rs 222 238 FileBulk::receive *)
Definition receive_begin (t : TransferId) (f : FileBulk)
    : result (stream * path * u64 * bytes) FilesError * FileBulk :=
  match fb_incoming f !! t with
  | None => (Err (NothingListening t), f)
  | Some i =>
      (ok_or ((λ s, (s, in_dest i, in_expect_bytes i, in_key i)) <$> in_connected i) (NothingConnected t),
       f <| fb_incoming ::= <[t := i <| in_connected := None |>]> |>)
  end.

(** [std::fs::metadata] of a file, its length. *)
Definition metadata_len (p : path) : io ErrorKind N :=
  attempt (λ d, (ok_or (len <$> read_back d p) NotFound, d)) (λ _ d, d).

Section receive.
  Context `{!Aead}.

(** The transfer itself and what follows it on the disk: the placeholder goes
    if the transfer failed and left it empty. *)
(* src: crates/acryliusd/src/files.rs 240 263 FileBulk::receive *)
Definition receive_disk (dest : path) (expect_bytes : u64) (key : bytes) (s : stream) : io FilesError u64 :=
  io_match (receive key expect_bytes dest s) (λ result,
    match result with
    | Ok n => io_ret n
    | Err e =>
        io_match (metadata_len dest) (λ m,
          match m with
          | Ok 0 => io_match (remove_file dest) (λ _, io_lift (Err (FileTransfer e)))
          | _ => io_lift (Err (FileTransfer e))
          end)
    end).
(* src: crates/acryliusd/src/files.rs 241 264 FileBulk::receive *)
Definition receive_end (t : TransferId) (dest : path) (r : result u64 FilesError) (f : FileBulk)
    : result unit FilesError * FileBulk :=
  let f := forget t f in
  match r with
  | Ok _ => (Ok tt, f <| fb_landed ::= <[t := dest]> |>)
  | Err e => (Err e, f)
  end.
End receive.

(* src: crates/acryliusd/src/files.rs 266 284 FileBulk::send *)
Definition send_begin (t : TransferId) (f : FileBulk) : result path FilesError :=
  ok_or (fb_outgoing f !! t) (NothingToSend t).
(* src: crates/acryliusd/src/files.rs 266 284 FileBulk::send *)
Definition send_end (t : TransferId) (r : result u64 BulkError) (f : FileBulk)
    : result unit FilesError * FileBulk :=
  (match r with Ok _ => Ok tt | Err e => Err (FileTransfer e) end, forget t f).

(* src: crates/acryliusd/src/files.rs 286 288 FileBulk::cancel *)
Definition cancel (t : TransferId) (f : FileBulk) : FileBulk := forget t f.

(** ** Looking an offer up by what a person typed *)

(** The offer found is one that waits and goes by the number typed, the first
    such; nothing is found only when there is none. *)
Lemma resolve_spec f typed :
  match resolve f typed with
  | Some id => is_Some (fb_offers f !! id) /\ written_as id typed = true /\
      is_Some (peer_for f id) /\ is_Some (offered f id)
  | None => ∀ id, is_Some (fb_offers f !! id) -> written_as id typed = false
  end.
Proof.
  unfold resolve. destruct (find _ _) as [id|] eqn:E.
  - apply find_some in E as [Hin Hw]. apply list_elem_of_In, elem_of_bt_keys in Hin as [[p o] Hin].
    unfold peer_for, offered. rewrite Hin. split_and!; by eauto.
  - intros id Hid%elem_of_bt_keys. by apply (find_none _ _ E), list_elem_of_In.
Qed.

(** ** Transfers side by side *)

(** Where a task of the host is waiting. *)
Inductive Flight :=
| Listening (t : TransferId) (offered_as : u64) (key : bytes) (expect_bytes : u64) (dest : path)
| Accepting (t : TransferId) (offered_as : u64)
| Receiving (t : TransferId) (dest : path) (expect_bytes : u64) (key : bytes) (s : stream).

Record Host := mkHost { hb : FileBulk; flights : list Flight; hdisk : disk }.
#[global] Instance Host_eta : Eta Host := λ h, mkHost (hb h) (flights h) (hdisk h).

(** What may be asked of it, and what may befall it. *)
Inductive op :=
| NoteOffer (peer : string) (o : Offer)
| OfferFile (p : path) (size : u64) (name mime : string)
| Forget (t : TransferId)
| Landed (t : TransferId)
| Listen (t : TransferId) (offered_as : u64) (key : bytes) (expect_bytes : u64)
| Accept (t : TransferId)
| Receive (t : TransferId)
| Proceed (i : nat)
| Abandon (i : nat)
| Trouble (fs : list fault).

Section host.
  Context `{!Aead}.

Definition take_off (fl : Flight) (h : Host) : Host := h <| flights ::= λ l, l ++ [fl] |>.
Definition come_down (i : nat) (h : Host) : Host := h <| flights ::= delete i |>.

Inductive host_step (h : Host) : op -> Host -> Prop :=
| hs_note peer o : host_step h (NoteOffer peer o) (h <| hb ::= note_offer peer o |>)
| hs_offer p size name mime :
    host_step h (OfferFile p size name mime) (h <| hb := (FileBulk_offer p size name mime (hb h)).2 |>)
| hs_forget t : host_step h (Forget t) (h <| hb ::= forget t |>)
| hs_landed t : host_step h (Landed t) (h <| hb := (landed t (hb h)).2 |>)
| hs_listen t offered_as key expect r d :
    listen_begin t (hb h) (hdisk h) = (r, d) ->
    host_step h (Listen t offered_as key expect)
      (let h := h <| hdisk := d |> in
       match r with Ok dest => take_off (Listening t offered_as key expect dest) h | Err _ => h end)
| hs_accept t r f :
    accept_begin t (hb h) = (r, f) ->
    host_step h (Accept t)
      (let h := h <| hb := f |> in
       match r with Ok (_, offered_as) => take_off (Accepting t offered_as) h | Err _ => h end)
| hs_receive t r f :
    receive_begin t (hb h) = (r, f) ->
    host_step h (Receive t)
      (let h := h <| hb := f |> in
       match r with Ok (s, dest, expect, key) => take_off (Receiving t dest expect key s) h | Err _ => h end)
(* the wait is over; [None] is a socket that could not be bound *)
| hs_listened i t offered_as key expect dest port :
    flights h !! i = Some (Listening t offered_as key expect dest) ->
    host_step h (Proceed i)
      (let h := come_down i h in
       match port with
       | Some port => h <| hb := (listen_end t offered_as key expect dest port (hb h)).2 |>
       | None => h
       end)
| hs_accepted i t offered_as conn :
    flights h !! i = Some (Accepting t offered_as) ->
    host_step h (Proceed i)
      (let h := come_down i h in h <| hb := (accept_end t (accept offered_as conn) (hb h)).2 |>)
| hs_received i t dest expect key s r d :
    flights h !! i = Some (Receiving t dest expect key s) ->
    receive_disk dest expect key s (hdisk h) = (r, d) ->
    host_step h (Proceed i)
      (let h := come_down i h in h <| hdisk := d |> <| hb := (receive_end t dest r (hb h)).2 |>)
(* a task is aborted where it waits; a transfer after any number of its calls *)
| hs_aborted i fl : flights h !! i = Some fl -> host_step h (Abandon i) (come_down i h)
| hs_interrupted i t dest expect key s fs r d :
    flights h !! i = Some (Receiving t dest expect key s) ->
    receive key expect dest s ((hdisk h) <| faults := fs ++ [Halts] |>) = (r, d) ->
    host_step h (Abandon i) ((come_down i h) <| hdisk := d <| faults := [] |> |>)
| hs_trouble fs : host_step h (Trouble fs) (h <| hdisk ::= λ d, d <| faults := fs |> |>).

Inductive host_run : Host -> list op -> Host -> Prop :=
| hr_nil h : host_run h [] h
| hr_cons h1 o h2 ops h3 : host_step h1 o h2 -> host_run h2 ops h3 -> host_run h1 (o :: ops) h3.
End host.

(** ** What is there stays *)

(** The files transfers are being made for. *)
Definition flight_dest (fl : Flight) : option path :=
  match fl with Listening _ _ _ _ p | Receiving _ p _ _ _ => Some p | Accepting _ _ => None end.
Definition Claims (h : Host) (p : path) : Prop :=
  (∃ t i, fb_incoming (hb h) !! t = Some i /\ in_dest i = p) \/
  (∃ fl, fl ∈ flights h /\ flight_dest fl = Some p).

(** A name whose safe form is a file's; [Bulk.safe_name_dot_dot] has one whose
    safe form is a directory's, which the disk here does not have. *)
Definition plain (o : Offer) : Prop :=
  safe_component (of_name o) <> "."%string /\ safe_component (of_name o) <> ".."%string.

(** [q] is the temporary of a transfer under way. *)
Definition Parted (h : Host) (q : path) : Prop := ∃ p, Claims h p /\ q = temp_beside p.

Record Sound (h : Host) : Prop := {
  so_wf : wf (hdisk h);
  so_plain t peer o : fb_offers (hb h) !! t = Some (peer, o) -> plain o;
  so_claims p : Claims h p -> ∃ n, file_path p n;
}.

(** Neither the temporary of a transfer nor a file a transfer is made for. *)
Definition Settled (h : Host) (p : path) : Prop := ~ Claims h p /\ ~ Parted h p.

Lemma Parted_less h h' q : (∀ p, Claims h' p -> Claims h p) -> Parted h' q -> Parted h q.
Proof. intros HC (p & Hp & ->). exists p. auto. Qed.
Lemma Settled_less h h' q : (∀ p, Claims h' p -> Claims h p) -> Settled h q -> Settled h' q.
Proof. intros HC [H1 H2]. split; [auto|]. by intros ?%(Parted_less h). Qed.

Section kept.
  Context `{!Aead}.

(** Whatever arrives, only the temporary and the destination change. *)
Definition Kept2 (t q : path) (d0 d : disk) : Prop :=
  wf d /\ ∀ p, p <> t -> p <> q -> read_back d p = read_back d0 p.

Lemma Kept_Kept2 t q d0 d : Kept t d0 d -> Kept2 t q d0 d.
Proof. intros [H1 H2]. split; auto. Qed.

Lemma Replaced_Kept2 t q bs d0 d : Replaced t q bs d0 d -> Kept2 t q d0 d.
Proof. intros (H1 & _ & _ & H2). split; auto. Qed.

Definition FillingAny (t : path) (i : ino) (d0 d : disk) : Prop := ∃ bs, Filling t i bs d0 d.

Lemma FillingAny_Kept t i d0 d : FillingAny t i d0 d -> Kept t d0 d.
Proof. intros [bs Hf]. by apply Filling_Kept in Hf. Qed.

Lemma write_any t i more d0 :
  triple (FillingAny t i d0) (write_all i more) (λ _, FillingAny t i d0) (Kept t d0).
Proof.
  intros d [bs Hd]. pose proof (write_all_keeps t i bs more d0 d Hd) as Hw.
  destruct (write_all i more d) as [[[]|e] d']; [by eexists|done].
Qed.

Lemma flush_any t i d0 : triple (FillingAny t i d0) (flush i) (λ _, FillingAny t i d0) (Kept t d0).
Proof.
  intros d [bs Hd]. pose proof (flush_keeps t i bs d0 d Hd) as Hw.
  destruct (flush i d) as [[[]|e] d']; [by eexists|done].
Qed.

Lemma receive_loop_any key expect t i d0 fuel : ∀ seq written s,
  triple (FillingAny t i d0) (receive_loop fuel key expect i seq written s)
    (λ _, FillingAny t i d0) (Kept t d0).
Proof.
  induction fuel as [|fuel IH]; intros seq written s; cbn [receive_loop].
  { intros d. apply FillingAny_Kept. }
  apply triple_lift; [|apply FillingAny_Kept]. intros [[frame|] s'] _; [|by intros d].
  apply triple_lift; [|apply FillingAny_Kept]. intros plain _. destruct (expect <? _).
  { intros d. apply FillingAny_Kept. }
  eapply triple_bind; [apply triple_map_err, write_any|]. intros []. apply IH.
Qed.

Lemma receive_all_any key expect t i d0 s :
  triple (FillingAny t i d0) (receive_all key expect i s) (λ _, FillingAny t i d0) (Kept t d0).
Proof.
  eapply triple_bind; [apply receive_loop_any|]. intros w.
  eapply triple_bind; [apply triple_map_err, flush_any|]. intros []. destruct (negb _).
  - intros d. apply FillingAny_Kept.
  - by intros d.
Qed.

Lemma receive_keeps key expect dest n s d0 :
  file_path dest n ->
  triple (Kept (temp_beside dest) d0) (receive key expect dest s)
    (λ _, Kept2 (temp_beside dest) dest d0) (Kept (temp_beside dest) d0).
Proof.
  intros Hf. unfold receive. set (t := temp_beside dest).
  eapply triple_bind; [apply triple_map_err, create_keeps|]. intros i d Hd. unfold io_match.
  pose proof (receive_all_any key expect t i d0 s d (ex_intro _ [] Hd)) as Hr.
  destruct (receive_all key expect i s d) as [[w|e] d1].
  - destruct Hr as [bs Hr]. unfold io_bind, io_map_err.
    pose proof (rename_replaces t dest i bs d0 ltac:(by eapply temp_beside_ne)
      ltac:(by eapply temp_beside_parent) d1 Hr) as Hm.
    destruct (rename t dest d1) as [[[]|e] d2]; cbn; [by eapply Replaced_Kept2|done].
  - pose proof (remove_file_keeps t d0 d1 Hr) as Hm.
    destruct (remove_file t d1) as [[[]|e'] d2]; cbn; [apply Hm|done].
Qed.

Lemma remove_file_keeps2 t q d0 :
  triple (Kept2 t q d0) (remove_file q) (λ _, Kept2 t q d0) (Kept2 t q d0).
Proof.
  apply triple_attempt.
  - intros d f [H1 H2]. split; [by apply wf_faults|exact H2].
  - intros d [H1 H2]. destruct (dir d !! q) as [i|]; [|by split]. split; [by apply wf_delete|].
    intros p Hp Hq. rewrite <- H2 by done. unfold read_back. cbn. by rewrite lookup_delete_ne.
  - done.
  - by intros.
Qed.

Lemma receive_disk_keeps key expect dest n s d :
  file_path dest n -> wf d -> Kept2 (temp_beside dest) dest d (receive_disk dest expect key s d).2.
Proof.
  intros Hf Hwf. unfold receive_disk, io_match at 1.
  pose proof (receive_keeps key expect dest n s d Hf d (Kept_refl _ _ Hwf)) as Hr.
  destruct (receive key expect dest s d) as [[w|e] d1]; [done|].
  apply (Kept_Kept2 _ dest) in Hr. unfold io_match at 1, metadata_len, attempt.
  assert (∀ d2, Kept2 (temp_beside dest) dest d d2 ->
    Kept2 (temp_beside dest) dest d
      (io_match (remove_file dest) (λ _, io_lift (A := u64) (Err (FileTransfer e))) d2).2) as Hrm.
  { intros d2 H2. unfold io_match, io_lift. pose proof (remove_file_keeps2 _ dest d d2 H2) as Hw.
    by destruct (remove_file dest d2) as [[[]|] d3]. }
  assert (∀ fs, Kept2 (temp_beside dest) dest d (d1 <| faults := fs |>)) as Hfa.
  { intros fs. destruct Hr as [H1 H2]. split; [by apply wf_faults|exact H2]. }
  assert (∀ d2, Kept2 (temp_beside dest) dest d d2 ->
    Kept2 (temp_beside dest) dest d
      (match ok_or (len <$> read_back d2 dest) NotFound with
       | Ok 0 => io_match (remove_file dest) (λ _, io_lift (A := u64) (Err (FileTransfer e)))
       | _ => io_lift (Err (FileTransfer e)) end d2).2) as Hm.
  { intros d2 H2. destruct (read_back d2 dest) as [b|]; cbn; [|done].
    destruct (len b); [by apply Hrm|done]. }
  destruct (faults d1) as [|[] fs]; [by apply Hm|by apply (Hm (d1 <| faults := fs |>))|apply Hfa|exact Hr].
Qed.

Lemma reserve_path_wf dp name d : wf d -> wf (reserve_path dp name d).2.
Proof.
  intros Hwf. unfold reserve_path, io_match.
  pose proof (create_new_claims (path_join dp name) d Hwf) as Hc.
  destruct (create_new _ d) as [[i|e] d1]; [apply Hc|]. destruct Hc as (Hwf1 & _).
  pose proof (reserve_loop_spec (N.to_nat 9998) 2 dp name d1 Hwf1) as Hl.
  destruct e; try done. destruct (reserve_loop _ 2 dp name d1) as [[p|e] d2]; apply Hl.
Qed.

Lemma numbered_name_dots name n : numbered_name name n <> ".."%string.
Proof.
  intros E. apply (f_equal (str_count " ")) in E. unfold numbered_name in E.
  destruct (stem_and_ext name) as [stem ext]. rewrite !str_count_app in E. cbn in E. lia.
Qed.

Lemma file_path_snoc dp n :
  n <> ".."%string -> n <> ""%string -> str_count "/" n = 0%nat -> file_path (dp ++ [n]) n.
Proof.
  intros H1 H2 H3. split_and!; [|done|done]. unfold file_name. rewrite last_snoc.
  by rewrite bool_decide_eq_false_2.
Qed.

Lemma listen_begin_spec t f d :
  wf d -> (∀ o, offered f t = Some o -> plain o) ->
  match listen_begin t f d with
  | (Ok p, d') => Claimed p d d' /\ ∃ n, file_path p n
  | (Err _, d') => wf d' /\ ∀ q, read_back d' q = read_back d q
  end.
Proof.
  intros Hwf Hpl. unfold listen_begin, io_bind, io_lift.
  destruct (offered f t) as [o|] eqn:Eo; cbn [ok_or]; [|done].
  destruct (Hpl o eq_refl) as [Hdot Hdots]. destruct (safe_component_ok (of_name o)) as [Hne Hs].
  set (name := safe_component (of_name o)) in *. unfold io_map_err.
  pose proof (reserve_path_fresh (fb_dir f) name d Hne Hdot Hs Hwf) as Hr.
  pose proof (reserve_path_wf (fb_dir f) name d Hwf) as Hw.
  destruct (reserve_path (fb_dir f) name d) as [[p|e] d1]; cbn [map_err]; [|by split; [|apply Hr]].
  destruct Hr as (HC & _ & Hp). split; [done|].
  destruct Hp as [->|(_ & m & _ & -> & _)]; eexists; apply file_path_snoc; try done;
    [apply numbered_name_dots|by apply numbered_name_ok..].
Qed.

(** How claims change. *)
Lemma Claims_incoming h f p :
  Claims (h <| hb := f |>) p ->
  (∀ t i, fb_incoming f !! t = Some i -> ∃ t' i', fb_incoming (hb h) !! t' = Some i' /\ in_dest i' = in_dest i) ->
  Claims h p.
Proof.
  intros [(t & i & Hi & <-)|Hfl] Hf; [|by right]. destruct (Hf t i Hi) as (t' & i' & Hi' & <-).
  left. by exists t', i'.
Qed.

Lemma forget_incoming t f t' i : fb_incoming (forget t f) !! t' = Some i -> fb_incoming f !! t' = Some i.
Proof. cbn. by intros [_ ?]%lookup_delete_Some. Qed.
Lemma forget_offers t f t' o : fb_offers (forget t f) !! t' = Some o -> fb_offers f !! t' = Some o.
Proof. cbn. by intros [_ ?]%lookup_delete_Some. Qed.

(** A step that only changes the maps, claiming nothing new. *)
Lemma maps_only h f :
  Sound h ->
  (∀ t i, fb_incoming f !! t = Some i -> ∃ t' i', fb_incoming (hb h) !! t' = Some i' /\ in_dest i' = in_dest i) ->
  (∀ t peer o, fb_offers f !! t = Some (peer, o) -> plain o) ->
  Sound (h <| hb := f |>) /\ ∀ q, Settled h q -> Settled (h <| hb := f |>) q.
Proof.
  intros [H1 H2 H3] Hi Ho. assert (∀ q, Claims (h <| hb := f |>) q -> Claims h q) as HC.
  { intros q Hq. by apply (Claims_incoming _ _ _ Hq). }
  split; [split; [done|done|auto]|]. intros q. by apply Settled_less.
Qed.

(** Replacing the entry of a transfer by one with the same destination. *)
Lemma same_dest (m : gmap TransferId FileIncoming) t i i' :
  m !! t = Some i -> in_dest i' = in_dest i ->
  ∀ t' j, <[t := i']> m !! t' = Some j -> ∃ t2 j2, m !! t2 = Some j2 /\ in_dest j2 = in_dest j.
Proof.
  intros Hi Hd t' j [[<- <-]|[_ Hj]]%lookup_insert_Some; [by exists t, i|by exists t', j].
Qed.

Lemma accept_begin_incoming t f r f' :
  accept_begin t f = (r, f') ->
  fb_offers f' = fb_offers f /\
  ∀ t' j, fb_incoming f' !! t' = Some j -> ∃ t2 j2, fb_incoming f !! t2 = Some j2 /\ in_dest j2 = in_dest j.
Proof.
  unfold accept_begin. destruct (fb_incoming f !! t) as [i|] eqn:Ei; intros [= _ <-]; (split; [done|]).
  - by apply same_dest with i.
  - intros t' j Hj. by exists t', j.
Qed.

Lemma receive_begin_incoming t f r f' :
  receive_begin t f = (r, f') ->
  fb_offers f' = fb_offers f /\
  (∀ t' j, fb_incoming f' !! t' = Some j -> ∃ t2 j2, fb_incoming f !! t2 = Some j2 /\ in_dest j2 = in_dest j) /\
  ∀ s dest expect key, r = Ok (s, dest, expect, key) -> ∃ i, fb_incoming f !! t = Some i /\ in_dest i = dest.
Proof.
  unfold receive_begin. destruct (fb_incoming f !! t) as [i|] eqn:Ei; intros [= <- <-]; (split; [done|split]).
  - by apply same_dest with i.
  - destruct (in_connected i) as [s0|]; intros s dest expect key [= _ <- _ _]. by exists i.
  - intros t' j Hj. by exists t', j.
  - done.
Qed.

Lemma accept_end_incoming t acc f :
  fb_offers (accept_end t acc f).2 = fb_offers f /\
  ∀ t' j, fb_incoming (accept_end t acc f).2 !! t' = Some j ->
    ∃ t2 j2, fb_incoming f !! t2 = Some j2 /\ in_dest j2 = in_dest j.
Proof.
  unfold accept_end. destruct acc as [s|e]; [destruct (fb_incoming f !! t) as [i|] eqn:Ei|]; (split; [done|]).
  - by apply same_dest with i.
  - intros t' j Hj. by exists t', j.
  - intros t' j Hj. by exists t', j.
Qed.

Lemma come_down_flights i h fl : fl ∈ flights (come_down i h) -> fl ∈ flights h.
Proof. cbn. intros Hfl. apply list_elem_of_lookup in Hfl as [j Hj]. rewrite list_lookup_delete in Hj.
  apply list_elem_of_lookup. by case_decide; eexists.
Qed.

Lemma Claims_down i h p : Claims (come_down i h) p -> Claims h p.
Proof.
  intros [?|(fl & Hfl & E)]; [by left|]. right. exists fl. split; [by eapply come_down_flights|done].
Qed.

Lemma Sound_down i h : Sound h -> Sound (come_down i h).
Proof. intros [H1 H2 H3]. split; [done|done|]. intros p Hp. by eapply H3, Claims_down. Qed.

Lemma Settled_down i h q : Settled h q -> Settled (come_down i h) q.
Proof. apply Settled_less. intros p. apply Claims_down. Qed.

(** A step that keeps what is settled, unless its name becomes a temporary's. *)
Definition Keeps (h h' : Host) : Prop :=
  Sound h' /\ ∀ q bs, Settled h q -> ~ Parted h' q -> read_back (hdisk h) q = Some bs ->
    ~ Claims h' q /\ read_back (hdisk h') q = Some bs.

Lemma Keeps_maps h f :
  Sound h ->
  (∀ t i, fb_incoming f !! t = Some i -> ∃ t' i', fb_incoming (hb h) !! t' = Some i' /\ in_dest i' = in_dest i) ->
  (∀ t peer o, fb_offers f !! t = Some (peer, o) -> plain o) ->
  Keeps h (h <| hb := f |>).
Proof.
  intros HS Hi Ho. destruct (maps_only h f HS Hi Ho) as [H1 H2]. split; [done|].
  intros q bs Hq _ E. by destruct (H2 q Hq).
Qed.

Lemma Keeps_refl h : Sound h -> Keeps h h.
Proof. intros HS. split; [done|]. by intros q bs [Hq _] _ E. Qed.

Lemma Keeps_down i h h' : Sound h -> Keeps (come_down i h) h' -> Keeps h h'.
Proof.
  intros HS [H1 H2]. split; [done|]. intros q bs Hq Hp Hr. apply H2; [by apply Settled_down|done|done].
Qed.

Lemma Keeps_trans h1 h2 h3 : (∀ p, Claims h2 p -> Claims h1 p) -> Keeps h1 h2 -> Keeps h2 h3 -> Keeps h1 h3.
Proof.
  intros HC [_ H1] [H2 H3]. split; [done|]. intros q bs Hq Hp Hr. pose proof (Settled_less _ _ _ HC Hq) as Hq2.
  destruct (H1 q bs Hq (proj2 Hq2) Hr). by apply H3.
Qed.

(** A disk on which nothing but a claimed file and its temporary changed. *)
Lemma Keeps_disk h d dest :
  Sound h -> Claims h dest -> Kept2 (temp_beside dest) dest (hdisk h) d -> Keeps h (h <| hdisk := d |>).
Proof.
  intros [H1 H2 H3] Hc [Hwf Hr]. destruct (H3 dest Hc) as [n Hf]. split; [by split|].
  intros q bs [Hq Hp] _ E. split; [exact Hq|]. cbn. rewrite Hr; [done|..].
  - intros ->. apply Hp. by exists dest.
  - by intros ->.
Qed.

(** A task starts waiting, for a file that is claimed already, if any. *)
Lemma Keeps_off h fl :
  Sound h -> (∀ p, flight_dest fl = Some p -> Claims h p) -> Keeps h (take_off fl h).
Proof.
  intros [H1 H2 H3] Hfl.
  assert (∀ p, Claims (take_off fl h) p -> Claims h p) as HC.
  { intros p [?|(fl' & [Hf| ->%list_elem_of_singleton]%elem_of_app & Ed)]; [by left|right; eauto|auto]. }
  split; [split; [done|done|auto]|]. intros q bs [Hq _] _ E. split; [auto|done].
Qed.

(** A name is claimed that no file had. *)
Lemma Keeps_claim h fl p d n :
  Sound h -> flight_dest fl = Some p -> file_path p n -> Claimed p (hdisk h) d ->
  Keeps h (take_off fl (h <| hdisk := d |>)).
Proof.
  intros [H1 H2 H3] Hfl Hf (Hwf & Hn & _ & Hr).
  assert (∀ q, Claims (take_off fl (h <| hdisk := d |>)) q -> Claims h q \/ q = p) as HC.
  { intros q [?|(fl' & [Hfl'| ->%list_elem_of_singleton]%elem_of_app & Ed)];
      [by left; left|left; right; eauto|right; congruence]. }
  split; [split; [done|exact H2|]|].
  - intros q [Hq| ->]%HC; [by apply H3|by exists n].
  - intros q bs [Hq _] _ Eq. assert (q <> p) as Hne.
    { intros ->. unfold read_back in Eq. by rewrite Hn in Eq. }
    split; [by intros [?|?]%HC|]. cbn. by rewrite Hr.
Qed.

Lemma keeps_listen t oa key ex h r d :
  Sound h -> listen_begin t (hb h) (hdisk h) = (r, d) ->
  Keeps h (match r with
           | Ok dest => take_off (Listening t oa key ex dest) (h <| hdisk := d |>)
           | Err _ => h <| hdisk := d |>
           end).
Proof.
  intros HS E. pose proof (listen_begin_spec t (hb h) (hdisk h) (so_wf h HS)) as Hl. rewrite E in Hl.
  assert (∀ o, offered (hb h) t = Some o -> plain o) as Hp.
  { intros o ([pe o'] & Ho & ->)%fmap_Some. by eapply so_plain. }
  specialize (Hl Hp). destruct r as [dest|e].
  - destruct Hl as [HC [n Hf]]. by apply Keeps_claim with dest n.
  - destruct Hl as [Hwf Hr], HS as [H1 H2 H3]. split; [by split|].
    intros q bs [Hq _] _ Eq. split; [exact Hq|]. cbn. by rewrite Hr.
Qed.

Lemma keeps_accept t h r f :
  Sound h -> accept_begin t (hb h) = (r, f) ->
  Keeps h (match r with
           | Ok (_, oa) => take_off (Accepting t oa) (h <| hb := f |>)
           | Err _ => h <| hb := f |>
           end).
Proof.
  intros HS E. destruct (accept_begin_incoming t _ r f E) as [Eo Hi].
  assert (Keeps h (h <| hb := f |>)) as HK.
  { apply Keeps_maps; [done|done|]. rewrite Eo. apply HS. }
  destruct r as [[l oa]|e]; [|done].
  eapply Keeps_trans; [intros p Hp; exact (Claims_incoming _ _ _ Hp Hi)|exact HK|]. by apply Keeps_off; [apply HK|].
Qed.

Lemma keeps_receive t h r f :
  Sound h -> receive_begin t (hb h) = (r, f) ->
  Keeps h (match r with
           | Ok (s, dest, ex, key) => take_off (Receiving t dest ex key s) (h <| hb := f |>)
           | Err _ => h <| hb := f |>
           end).
Proof.
  intros HS E. destruct (receive_begin_incoming t _ r f E) as (Eo & Hi & Hd).
  assert (Keeps h (h <| hb := f |>)) as HK.
  { apply Keeps_maps; [done|done|]. rewrite Eo. apply HS. }
  destruct r as [[[[s dest] ex] key]|e]; [|done].
  eapply Keeps_trans; [intros p Hp; exact (Claims_incoming _ _ _ Hp Hi)|exact HK|].
  apply Keeps_off; [apply HK|]. intros p [= <-].
  destruct (Hd s dest ex key eq_refl) as (i & Ei & Edest).
  unfold receive_begin in E. rewrite Ei in E. injection E as _ <-. left. eexists t, _. cbn.
  by rewrite lookup_insert_eq.
Qed.

Lemma flight_claims h i fl p : flights h !! i = Some fl -> flight_dest fl = Some p -> Claims h p.
Proof. intros Hi Hp. right. exists fl. split; [by eapply list_elem_of_lookup_2|done]. Qed.

Lemma keeps_listened i t oa key ex dest port h :
  Sound h -> flights h !! i = Some (Listening t oa key ex dest) ->
  Keeps h ((come_down i h) <| hb := (listen_end t oa key ex dest port (hb h)).2 |>).
Proof.
  intros HS Hi.
  assert (∀ p, Claims ((come_down i h) <| hb := (listen_end t oa key ex dest port (hb h)).2 |>) p -> Claims h p) as HC.
  { intros p [(t' & j & Hj & <-)|(fl & Hfl & Ed)].
    - cbn in Hj. apply lookup_insert_Some in Hj as [[_ <-]|[_ Hj]]; [by eapply flight_claims|]. left. by exists t', j.
    - right. exists fl. split; [exact (come_down_flights i h fl Hfl)|done]. }
  destruct HS as [H1 H2 H3]. split; [split; [done|exact H2|auto]|].
  intros q bs [Hq _] _ E. split; [auto|done].
Qed.

Lemma keeps_received i t dest ex key s r d h :
  Sound h -> flights h !! i = Some (Receiving t dest ex key s) ->
  receive_disk dest ex key s (hdisk h) = (r, d) ->
  Keeps h ((come_down i h) <| hdisk := d |> <| hb := (receive_end t dest r (hb h)).2 |>).
Proof.
  intros HS Hi E. pose proof (flight_claims h i _ dest Hi eq_refl) as Hc.
  destruct (so_claims h HS dest Hc) as [n Hf].
  pose proof (receive_disk_keeps key ex dest n s (hdisk h) Hf (so_wf h HS)) as Hk. rewrite E in Hk. cbn in Hk.
  pose proof (Keeps_disk h d dest HS Hc Hk) as HK.
  apply (Keeps_trans h (h <| hdisk := d |>)); [intros p Hp; exact Hp|exact HK|]. destruct HK as [HS1 _].
  apply (Keeps_down i); [done|]. apply Keeps_maps; [exact (Sound_down i _ HS1)|..]; cbn.
  - intros t' j Hj. exists t', j. split; [|done].
    destruct r; cbn in Hj; by apply lookup_delete_Some in Hj as [_ Hj].
  - intros t' peer o Ho. eapply (so_plain h HS). destruct r; cbn in Ho;
      apply lookup_delete_Some in Ho as [_ Ho]; exact Ho.
Qed.

(** The same when the task dies part of the way. *)
Lemma keeps_interrupted i t dest ex key s fs r d h :
  Sound h -> flights h !! i = Some (Receiving t dest ex key s) ->
  receive key ex dest s ((hdisk h) <| faults := fs |>) = (r, d) ->
  Keeps h ((come_down i h) <| hdisk := d <| faults := [] |> |>).
Proof.
  intros HS Hi E. pose proof (flight_claims h i _ dest Hi eq_refl) as Hc.
  destruct (so_claims h HS dest Hc) as [n Hf].
  assert (Kept2 (temp_beside dest) dest (hdisk h) (d <| faults := [] |>)) as Hk.
  { pose proof (receive_keeps key ex dest n s ((hdisk h) <| faults := fs |>) Hf _
      (Kept_refl _ _ (wf_faults _ _ (so_wf h HS)))) as Hr. rewrite E in Hr.
    assert (Kept2 (temp_beside dest) dest (hdisk h) d) as [K1 K2] by (destruct r; [done|by apply Kept_Kept2]).
    split; [by apply wf_faults|exact K2]. }
  pose proof (Keeps_disk h _ dest HS Hc Hk) as HK.
  apply (Keeps_trans h (h <| hdisk := d <| faults := [] |> |>)); [intros p Hp; exact Hp|exact HK|].
  destruct HK as [HS1 _].
  apply (Keeps_down i); [done|]. split; [exact (Sound_down i _ HS1)|].
  intros q bs [Hq _] _ Eq. by split.
Qed.

Lemma step_keeps h o h' :
  Sound h -> (∀ peer offer, o = NoteOffer peer offer -> plain offer) -> host_step h o h' -> Keeps h h'.
Proof.
  intros HS Ho Hs. pose proof (so_plain h HS) as Hplain.
  assert (∀ t i, fb_incoming (hb h) !! t = Some i ->
    ∃ t' i', fb_incoming (hb h) !! t' = Some i' /\ in_dest i' = in_dest i) as Hsame by eauto.
  destruct Hs as [peer offer|p size name mime|t|t|t oa key ex r d E|t r f E|t r f E|i t oa key ex dest port Ei
    |i t oa conn Ei|i t dest ex key s r d Ei E|i fl Ei|i t dest ex key s fs r d Ei E|fs].
  - apply Keeps_maps; [done|eauto|]. cbn. intros t pe o [[_ [= <- <-]]|[_ Hl]]%lookup_insert_Some;
      [by eapply Ho|by eapply Hplain].
  - apply Keeps_maps; [done|exact Hsame|exact Hplain].
  - apply Keeps_maps; [done|..]; eauto using forget_incoming, forget_offers.
  - apply Keeps_maps; [done|exact Hsame|exact Hplain].
  - by apply keeps_listen.
  - by apply keeps_accept.
  - by apply keeps_receive.
  - destruct port as [port|]; [exact (keeps_listened i t oa key ex dest port h HS Ei)|].
    by apply (Keeps_down i), Keeps_refl, Sound_down.
  - apply (Keeps_down i); [done|]. destruct (accept_end_incoming t (accept oa conn) (hb h)) as [Eo Hi].
    apply Keeps_maps; [exact (Sound_down i h HS)|exact Hi|].
    intros t' pe o Ho'. apply (Hplain t' pe). by rewrite <- Eo.
  - exact (keeps_received i t dest ex key s r d h HS Ei E).
  - by apply (Keeps_down i), Keeps_refl, Sound_down.
  - exact (keeps_interrupted i t dest ex key s (fs ++ [Halts]) r d h HS Ei E).
  - destruct HS as [H1 H2 H3]. split; [split; [by apply wf_faults|done|done]|].
    intros q bs [Hq _] _ Eq. by split.
Qed.

(** The states a run goes through. *)
Definition Through (h : Host) (ops : list op) (h' hm : Host) : Prop :=
  ∃ ops1 ops2, ops = ops1 ++ ops2 /\ host_run h ops1 hm /\ host_run hm ops2 h'.

Lemma run_sound h ops h' :
  Sound h -> (∀ peer o, NoteOffer peer o ∈ ops -> plain o) -> host_run h ops h' -> Sound h'.
Proof.
  intros HS Hops Hr. induction Hr as [h|h1 o h2 ops h3 Hs Hr IH]; [done|]. apply IH.
  - apply (step_keeps h1 o h2 HS); [|done]. intros peer offer ->. apply (Hops peer). left.
  - intros peer o' Ho'. apply (Hops peer). by right.
Qed.

(** No temporary has a name of another shape than [*.part]. *)
Lemma never_parted h ops h' hm q :
  Sound h -> (∀ peer o, NoteOffer peer o ∈ ops -> plain o) -> Through h ops h' hm ->
  (∀ p n, file_path p n -> q <> temp_beside p) -> ~ Parted hm q.
Proof.
  intros HS Hops (ops1 & ops2 & -> & Hr & _) Hq (p & Hp & ->).
  assert (Sound hm) as HSm. { apply (run_sound h ops1); [done| |done]. intros. apply (Hops peer). set_solver. }
  destruct (so_claims hm HSm p Hp) as [n Hn]. by apply (Hq p n).
Qed.

(** C28 (safety): take any run of offers, answers, transfers, cancellations,
    aborted and interrupted tasks and failing calls, in any order, and a file
    [q] that is there at its start, whether it was always there or a transfer
    landed it.  [q] has the same bytes at the end, provided that: it is not a
    file a transfer is being made for at the start (its placeholder, which that
    transfer fills); at no state of the run is its name the one a transfer under
    way uses for its temporary, which is the name of that transfer's file with
    ".part" after it ([part_file_lost] is what happens then); and no offer's name
    is, once made safe, the name of a directory, "." or "..".  So a transfer
    writes only to the name it claimed, which no file had, and to its own
    temporary. *)
Theorem files_stay h ops h' q bs :
  Sound h -> (∀ peer o, NoteOffer peer o ∈ ops -> plain o) -> host_run h ops h' ->
  ~ Claims h q -> (∀ hm, Through h ops h' hm -> ~ Parted hm q) ->
  read_back (hdisk h) q = Some bs -> read_back (hdisk h') q = Some bs.
Proof.
  intros HS Hops Hr Hq Hp E. revert HS Hops Hq Hp E.
  induction Hr as [h|h1 o h2 ops h3 Hs Hr IH]; intros HS Hops Hq Hp E; [done|].
  assert (Keeps h1 h2) as [HS2 HK].
  { apply (step_keeps h1 o h2 HS); [|done]. intros peer offer ->. apply (Hops peer). left. }
  assert (∀ hm, Through h2 ops h3 hm -> ~ Parted hm q) as Hp2.
  { intros hm (o1 & o2 & -> & Ha & Hb). apply Hp. exists (o :: o1), o2. split_and!; [done|by eapply hr_cons|done]. }
  destruct (HK q bs) as [Hq2 E2]; [split; [done|]|..|exact E|].
  - apply Hp. exists [], (o :: ops). split_and!; [done|apply hr_nil|by eapply hr_cons].
  - apply Hp2. exists [], ops. split_and!; [done|apply hr_nil|done].
  - apply IH; [done| |done..]. intros peer o' Ho'. apply (Hops peer). by right.
Qed.
End kept.

(** ** Where placeholders and temporaries are in the way *)

Definition downloads : path := ["home"; "me"; "Downloads"]%string.
Definition notes : Offer := mkOffer 1 "notes.txt" 3 "text/plain".

Definition notes_part : disk :=
  ((do! i := create (downloads ++ ["notes.txt.part"%string]) in write_all i [Byte.x07]) empty_disk).2.

(** A file that landed is lost to a later transfer when its name is that
    of the later one's temporary: the temporary is created over it and renamed
    away, though a transfer is to replace no existing file. *)
Theorem part_file_lost `{!Aead} key :
  read_back notes_part (downloads ++ ["notes.txt.part"%string]) = Some [Byte.x07] /\
  let '(r, d) := receive key 0 (downloads ++ ["notes.txt"%string]) (mkStream [] true) notes_part in
  r = Ok 0 /\ read_back d (downloads ++ ["notes.txt.part"%string]) = None.
Proof. split; [vm_compute; reflexivity|]. vm_compute. split; reflexivity. Qed.

(** What listening, twice, for an offer of the same name claims, when the first
    transfer is cancelled in between. *)
Definition claim_cancel_claim : option (path * path) :=
  let f := note_offer "peer" notes (FileBulk_new downloads (Some "10.0.0.2"%string) "") in
  match listen_begin 1 f empty_disk with
  | (Ok p, d) =>
      let f := cancel 1 (listen_end 1 1 [] 3 p 9000 f).2 in
      match listen_begin 1 (note_offer "peer" notes f) d with
      | (Ok q, _) => Some (p, q)
      | _ => None
      end
  | _ => None
  end.

(** A failed transfer takes its empty placeholder with it, so that the next one
    of that name is not numbered; a cancelled one does not. *)
Theorem cancelled_placeholder_stays :
  claim_cancel_claim =
    Some (downloads ++ ["notes.txt"%string], downloads ++ ["notes (2).txt"%string]).
Proof. vm_compute. reflexivity. Qed.
