(* ===== verification/Prompt.v ===== *)
(** * [acryliusd/src/prompt.rs], [acrylius-linux/src/notify.rs]: asking a person

    What is put on the screen, and what a press of a button on it does.  The
    notification service is the desktop's: the id it gives a notification, or
    its refusal to show one, is an argument of each operation that shows one,
    and what an operation has it do is part of the operation's result.  Then
    the daemon's loop over what the core has to say ([acryliusd/src/main.rs]),
    which puts the questions and keeps the offers. *)

From Stdlib Require Import Ascii.
From S2P Require Import Prelude Externals Ids Vocab Plugin Share Strs Floats Utf8 Fs RtBulk Files.
Local Open Scope N_scope.

(** ** Notifications *)

(* src: crates/acrylius-linux/src/notify.rs 43 48 Pressed *)
Record Pressed := mkPressed { pr_id : u32; pr_action : string }.
(* src: crates/acrylius-linux/src/notify.rs 50 54 Button *)
Record Button := mkButton { bt_key : string; bt_label : string }.
(* src: crates/acrylius-linux/src/notify.rs 56 63 Notifier *)
Record Notifier := mkNotifier { has_buttons : bool; markup : bool }.

(** ASCII characters are single bytes of UTF-8 and of nothing else, so going
    through bytes is going through [char]s. *)
(* src: crates/acrylius-linux/src/notify.rs 65 80 escape_markup *)
Fixpoint escape_markup (text : string) : string :=
  match text with
  | EmptyString => EmptyString
  | String c rest =>
      (if Ascii.eqb c "&" then "&amp;"
       else if Ascii.eqb c "<" then "&lt;"
       else if Ascii.eqb c ">" then "&gt;"
       else String c EmptyString) +:+ escape_markup rest
  end.

(** What the session bus and the notification daemon answer when they are
    connected to: the capabilities, unless the call fails, and whether the
    signal of pressed buttons can be listened to. *)
Record Desktop_answers := mkDesktopAnswers {
  da_session : bool;
  da_proxy : bool;
  da_capabilities : option (list string);
  da_signals : bool;
}.

(* src: crates/acrylius-linux/src/notify.rs 83 124 Notifier::connect *)
Definition Notifier_connect (a : Desktop_answers) : option Notifier :=
  if negb (da_session a) then None
  else if negb (da_proxy a) then None
  else
    let caps := default [] (da_capabilities a) in
    let buttons := existsb (λ c, c =s "actions") caps in
    let markup := existsb (λ c, c =s "body-markup") caps in
    if negb (da_signals a) then None
    else Some (mkNotifier buttons markup).

(** The task that listens: signals whose arguments cannot be read ([None]) are
    passed over, the others handed on until the receiver is gone, after
    [listens] of them. *)
(* src: crates/acrylius-linux/src/notify.rs 100 114 Notifier::connect *)
Fixpoint heard (listens : nat) (signals : list (option (u32 * string))) : list Pressed :=
  match signals with
  | [] => []
  | None :: rest => heard listens rest
  | Some (id, action_key) :: rest =>
      match listens with
      | O => []
      | S n => mkPressed id action_key :: heard n rest
      end
  end.

(** What is asked of the desktop, and what is sent to the core. *)
Inductive Out :=
| Notify (summary body : string) (actions : list string) (timeout_ms : N)
| CloseNotification (id : u32)
| OpenDirectory (p : path)
| Send (ev : Event).

(* src: crates/acrylius-linux/src/notify.rs 132 167 Notifier::show *)
Definition show (n : Notifier) (summary body : string) (buttons : list Button) (timeout_ms : N) : Out :=
  let actions := if has_buttons n then concat (map (λ b, [bt_key b; bt_label b]) buttons) else [] in
  let body := if markup n then escape_markup body else body in
  Notify summary body actions timeout_ms.

(** ** The prompter *)

Definition ACCEPT : string := "accept".
Definition REJECT : string := "reject".
Definition SHOW : string := "show".
Definition MATCH : string := "match".
Definition DIFFER : string := "differ".

(* src: crates/acryliusd/src/prompt.rs 22 37 Prompter *)
Record Prompter := mkPrompter {
  notifier : Notifier;
  asked : gmap u32 (string * u64);
  finished : gmap u32 path;
  pairing_shown : option u32;
  accepts_files : bool;
}.
#[global] Instance Prompter_eta : Eta Prompter := λ p,
  mkPrompter (notifier p) (asked p) (finished p) (pairing_shown p) (accepts_files p).

(* src: crates/acryliusd/src/prompt.rs 49 56 Prompter::start *)
Definition Prompter_new (n : Notifier) (has_bulk : bool) : Prompter := mkPrompter n ∅ ∅ None has_bulk.

(* src: crates/acryliusd/src/prompt.rs 44 65 Prompter::start *)
Definition Prompter_start (a : Desktop_answers) (has_bulk : bool) : option Prompter :=
  n ← Notifier_connect a; Some (Prompter_new n has_bulk).

(* src: crates/acryliusd/src/prompt.rs 101 106 Prompter::close_pair *)
Definition close_pair (p : Prompter) : Prompter * list Out :=
  match pairing_shown p with
  | Some id => (p <| pairing_shown := None |>, [CloseNotification id])
  | None => (p, [])
  end.

(** [id] is what the desktop calls the notification, if it shows it. *)
(* src: crates/acryliusd/src/prompt.rs 67 99 Prompter::ask_pair *)
Definition ask_pair (name fingerprint sas : string) (id : option u32) (p : Prompter) : Prompter * list Out :=
  let '(p, closed) := close_pair p in
  let nl := String "010" EmptyString in
  let body := if has_buttons (notifier p) then sas +:+ nl +:+ fingerprint
              else sas +:+ nl +:+ fingerprint +:+ nl +:+ "Run: acryliusctl pair approve" in
  let out := show (notifier p) (name +:+ " wants to pair") body
               [mkButton MATCH "They match"; mkButton DIFFER "They don't"] 0 in
  (match id with Some id => p <| pairing_shown := Some id |> | None => p end, closed ++ [out]).

(* src: crates/acryliusd/src/prompt.rs 288 301 human *)
Definition human : u64 -> string := size_in ["KiB"; "MiB"; "GiB"; "TiB"].

(** The sizes of the source's tests. *)
Example human_sizes : map human [0; 512; 200000] = ["0 B"; "512 B"; "195.3 KiB"]%string.
Proof. vm_compute. reflexivity. Qed.

Section offers.

(* src: crates/acryliusd/src/prompt.rs 108 143 Prompter::ask *)
Definition ask (peer from : string) (offer : Offer) (id : option u32) (p : Prompter) : Prompter * list Out :=
  let dot := of_chars [0x20; 0xB7; 0x20] in
  let nl := String "010" EmptyString in
  let what := of_name offer +:+ dot +:+ human (of_size offer) in
  let body := if has_buttons (notifier p) then what
              else what +:+ nl +:+ "Run: acryliusctl file accept " +:+ fmt_u64 (of_transfer offer) in
  let out := show (notifier p) (from +:+ " wants to send a file") body
               [mkButton ACCEPT "Accept"; mkButton REJECT "Deny"] 0 in
  (match id with Some id => p <| asked ::= <[id := (peer, of_transfer offer)]> |> | None => p end, [out]).

(** The questions still up about a transfer, oldest id first. *)
(* src: crates/acryliusd/src/prompt.rs 147 153 Prompter::done *)
Definition stale (transfer : u64) (p : Prompter) : list u32 :=
  map fst (List.filter (λ '(_, (_, t)), t =? transfer) (bt_iter (asked p))).

(* src: crates/acryliusd/src/prompt.rs 145 197 Prompter::done *)
Definition done_ (transfer : u64) (ok : bool) (detail : string) (id : option u32)
    (p : Prompter) (f : FileBulk) : (Prompter * FileBulk) * list Out :=
  let old := stale transfer p in
  let p := p <| asked ::= λ m, foldr delete m old |> in
  let closed := map CloseNotification old in
  if bool_decide (old = []) then ((p, f), closed)
  else
    let '(where_, f) := landed transfer f in
    match where_ with
    | None =>
        if ok then ((p, f), closed)
        else ((p, f), closed ++ [show (notifier p) "A file did not arrive" detail [] 8000])
    | Some file =>
        let name := default "" (file_name file) in
        let out := show (notifier p) ("Received " +:+ name) ("/" +:+ str_join "/" file) [mkButton SHOW "Show"] 12000 in
        (match id with
         | Some id => p <| finished ::= <[id := parent file]> |>
         | None => p
         end, f, closed ++ [out])
    end.
End offers.

(* src: crates/acryliusd/src/prompt.rs 252 255 is_pair_answer *)
Definition is_pair_answer (action : string) : bool := (action =s MATCH) || (action =s DIFFER).

(* src: crates/acryliusd/src/prompt.rs 257 272 pair_answer *)
Definition pair_answer (action : string) (pressed : u32) (showing : option u32) : option bool :=
  if negb (bool_decide (showing = Some pressed)) then None
  else if action =s MATCH then Some true
  else if action =s DIFFER then Some false
  else None.

Section pressing.
  Context `{!Sha256} `{!Cbor Finished}.

(** What a press of Accept or Deny sends, the same as [acryliusctl file]. *)
(* src: crates/acryliusd/src/prompt.rs 226 242 Prompter::pressed *)
Definition answer_offer (peer : string) (transfer : u64) (accept : bool) : Event :=
  let body := to_vec_or_default (mkFinished transfer accept "") in
  let id := match DeviceId_parse peer with
            | Ok id => id
            | Err _ => DeviceId_of (replicate 32 Byte.x00)
            end in
  Local (LocalPlugin id SHARE_CAP (if accept then "accept" else "reject") body).

(* src: crates/acryliusd/src/prompt.rs 199 249 Prompter::pressed *)
Definition pressed (press : Pressed) (p : Prompter) (f : FileBulk) : (Prompter * FileBulk) * list Out :=
  if pr_action press =s SHOW then
    match finished p !! pr_id press with
    | Some directory => (p <| finished ::= delete (pr_id press) |>, f, [OpenDirectory directory])
    | None => (p, f, [])
    end
  else if is_pair_answer (pr_action press) then
    match pair_answer (pr_action press) (pr_id press) (pairing_shown p) with
    | None => (p, f, [])
    | Some accept => (p <| pairing_shown := None |>, f, [Send (Local (ConfirmPairing accept))])
    end
  else
    match asked p !! pr_id press with
    | None => (p, f, [])
    | Some (peer, transfer) =>
        let p := p <| asked ::= delete (pr_id press) |> in
        let accept := pr_action press =s ACCEPT in
        let f := if negb accept && accepts_files p then forget transfer f else f in
        (p, f, [Send (answer_offer peer transfer accept)])
    end.
End pressing.

(** ** The daemon's loop over what the core says *)

Section loop.
  Context `{!Cbor Offer} `{!Cbor Finished}.

(** [names] are the devices known, by id; [id] what the desktop calls a
    notification shown for the event, if it shows one. *)
(* src: crates/acryliusd/src/main.rs 543 565 main *)
Definition prompt_pairing (e : UiEvent) (id : option u32) (p : Prompter) : Prompter * list Out :=
  match e with
  | UiPairingSas name fp sas => ask_pair name (fp_str fp) sas id p
  | UiPairingComplete _ _ | UiPairingFailed _ => close_pair p
  | _ => (p, [])
  end.

(* src: crates/acryliusd/src/main.rs 579 611 main *)
Definition on_offer (names : list (string * string)) (auto_accept : bool) (peer : DeviceId) (offer : Offer)
    (id : option u32) (p : option Prompter) (f : FileBulk) : (option Prompter * FileBulk) * list Out :=
  let f := note_offer (did_str peer) offer f in
  if auto_accept then
    let body := to_vec_or_default (mkFinished (of_transfer offer) true "") in
    (p, f, [Send (Local (LocalPlugin peer SHARE_CAP "accept" body))])
  else match p with
  | None => (None, f, [])
  | Some p =>
      let from := match find (λ '(d, _), d =s did_str peer) names with
                  | Some (_, n) => n
                  | None => "A device"%string
                  end in
      let '(p, outs) := ask (did_str peer) from offer id p in
      (Some p, f, outs)
  end.

(* src: crates/acryliusd/src/main.rs 566 622 main *)
Definition on_share (names : list (string * string)) (auto_accept : bool) (e : UiEvent)
    (id : option u32) (p : option Prompter) (f : FileBulk) : (option Prompter * FileBulk) * list Out :=
  match e with
  | UiPlugin peer cap ty body =>
      if negb (cap =s SHARE_CAP) then (p, f, [])
      else if ty =s "offer" then
        match cbor_decode (T := Offer) body with
        | Some offer => on_offer names auto_accept peer offer id p f
        | None => (p, f, [])
        end
      else if ty =s "finished" then
        match cbor_decode (T := Finished) body, p with
        | Some fin, Some p =>
            let '((p, f), outs) := done_ (fin_transfer fin) (fin_ok fin) (fin_detail fin) id p f in
            (Some p, f, outs)
        | _, _ => (p, f, [])
        end
      else (p, f, [])
  | _ => (p, f, [])
  end.

(* src: crates/acryliusd/src/main.rs 530 625 main *)
Definition on_ui (names : list (string * string)) (auto_accept : bool) (e : UiEvent) (id : option u32)
    (p : option Prompter) (f : option FileBulk) : (option Prompter * option FileBulk) * list Out :=
  let '(p, outs) := match p with
                    | Some p => let '(p, outs) := prompt_pairing e id p in (Some p, outs)
                    | None => (None, [])
                    end in
  match f with
  | None => (p, None, outs)
  | Some f => let '((p, f), more) := on_share names auto_accept e id p f in (p, Some f, outs ++ more)
  end.
End loop.

(** ** Markup *)

#[local] Arguments String.append !_ _ : simpl nomatch.

(** The text before it was escaped. *)
Fixpoint unescape (fuel : nat) (s : string) : string :=
  match fuel, s with
  | S fuel, String "&" (String "a" (String "m" (String "p" (String ";" r)))) => String "&" (unescape fuel r)
  | S fuel, String "&" (String "l" (String "t" (String ";" r))) => String "<" (unescape fuel r)
  | S fuel, String "&" (String "g" (String "t" (String ";" r))) => String ">" (unescape fuel r)
  | S fuel, String c r => String c (unescape fuel r)
  | _, _ => EmptyString
  end.

Lemma escape_no_tags text :
  str_count "<" (escape_markup text) = 0%nat /\ str_count ">" (escape_markup text) = 0%nat.
Proof.
  induction text as [|c text [IH1 IH2]]; [done|]. cbn [escape_markup]. rewrite !str_count_app, IH1, IH2.
  destruct (Ascii.eqb_spec c "&") as [->|]; [done|]. destruct (Ascii.eqb_spec c "<") as [->|]; [done|].
  destruct (Ascii.eqb_spec c ">") as [->|]; [done|]. cbn.
  by rewrite (proj2 (Ascii.eqb_neq c "<")), (proj2 (Ascii.eqb_neq c ">")).
Qed.

Lemma unescape_plain fuel c r :
  c <> "&"%char -> unescape (S fuel) (String c r) = String c (unescape fuel r).
Proof. intros Hc. by destruct c as [[] [] [] [] [] [] [] []]. Qed.

(** What a peer chose is shown as text: no character of it can open
    or close markup, and the desktop reads back exactly what was chosen. *)
Theorem escape_roundtrip text fuel :
  (String.length text <= fuel)%nat ->
  str_count "<" (escape_markup text) = 0%nat /\ str_count ">" (escape_markup text) = 0%nat /\
  unescape fuel (escape_markup text) = text.
Proof.
  intros Hf. destruct (escape_no_tags text) as [H1 H2]. split_and!; [done|done|].
  revert fuel Hf. induction text as [|c text IH]; intros fuel Hf; [by destruct fuel|].
  specialize (IH ltac:(by apply escape_no_tags) ltac:(by apply escape_no_tags)).
  destruct fuel as [|fuel]; [cbn in Hf; lia|]. cbn [String.length] in Hf. specialize (IH fuel ltac:(lia)).
  cbn [escape_markup]. destruct (Ascii.eqb_spec c "&") as [->|Hc]; [by cbn; rewrite IH|].
  destruct (Ascii.eqb_spec c "<") as [->|]; [by cbn; rewrite IH|].
  destruct (Ascii.eqb_spec c ">") as [->|]; [by cbn; rewrite IH|].
  change (String c "" +:+ escape_markup text) with (String c (escape_markup text)).
  by rewrite unescape_plain, IH.
Qed.

(** ** What a press can do *)

Inductive PromptOp :=
| AskPair (name fingerprint sas : string) (id : option u32)
| ClosePair
| Ask (peer from : string) (offer : Offer) (id : option u32)
| Done (transfer : u64) (ok : bool) (detail : string) (id : option u32)
| Press (press : Pressed).

Section presses.
  Context `{!Sha256} `{!Cbor Finished}.

Definition prompt_step (o : PromptOp) (st : Prompter * FileBulk) : (Prompter * FileBulk) * list Out :=
  let '(p, f) := st in
  match o with
  | AskPair name fp sas id => let '(p, outs) := ask_pair name fp sas id p in (p, f, outs)
  | ClosePair => let '(p, outs) := close_pair p in (p, f, outs)
  | Ask peer from offer id => let '(p, outs) := ask peer from offer id p in (p, f, outs)
  | Done t ok detail id => done_ t ok detail id p f
  | Press press => pressed press p f
  end.
Definition prompt_run (ops : list PromptOp) (st : Prompter * FileBulk) : Prompter * FileBulk :=
  fold_left (λ st o, (prompt_step o st).1) ops st.

(** An operation that leaves the pairing question [id] on the screen. *)
Definition quiet (id : u32) (o : PromptOp) : Prop :=
  match o with
  | AskPair _ _ _ _ | ClosePair => False
  | Press press => ~ (pr_id press = id /\ is_pair_answer (pr_action press) = true)
  | Ask _ _ _ _ | Done _ _ _ _ => True
  end.

(** What is on the screen was put there last, and not taken down or answered. *)
Definition On_screen (ops : list PromptOp) (id : u32) : Prop :=
  ∃ before name fp sas after_,
    ops = before ++ AskPair name fp sas (Some id) :: after_ /\ Forall (quiet id) after_.

Lemma pair_answer_spec action pressed showing a :
  pair_answer action pressed showing = Some a <->
  showing = Some pressed /\ action = if a then MATCH else DIFFER.
Proof.
  unfold pair_answer. case_bool_decide as Es; cbn [negb].
  - destruct (String.eqb_spec action MATCH) as [->|Hm].
    { destruct a; [done|]. split; [done|]. by intros [_ ?]. }
    destruct (String.eqb_spec action DIFFER) as [->|Hd].
    { destruct a; [|done]. split; [done|]. by intros [_ ?]. }
    split; [done|]. intros [_ ->]. by destruct a.
  - split; [done|]. by intros [? _].
Qed.

Lemma escape_markup_app s t : escape_markup (s +:+ t) = escape_markup s +:+ escape_markup t.
Proof.
  induction s as [|c s IH]; [done|]. cbn [String.append escape_markup]. rewrite IH. by rewrite str_app_assoc.
Qed.

(** A question is put with its two buttons exactly when the desktop said it
    shows buttons; without them its text says what to type. *)
Lemma started_question a hb p nm fp sas id :
  Prompter_start a hb = Some p ->
  ∃ body buttons,
    (ask_pair nm fp sas id p).2 = [Notify (nm +:+ " wants to pair") body buttons 0] /\
    (if decide ("actions"%string ∈ default [] (da_capabilities a))
     then buttons = [MATCH; "They match"; DIFFER; "They don't"]%string
     else buttons = [] /\ ∃ front, body = front +:+ "Run: acryliusctl pair approve").
Proof.
  unfold Prompter_start, Notifier_connect. destruct (negb (da_session a)), (negb (da_proxy a)); [done..|].
  destruct (negb (da_signals a)); [done|]. intros [= <-].
  set (caps := default [] (da_capabilities a)).
  assert (existsb (λ c, c =s "actions") caps = bool_decide ("actions"%string ∈ caps)) as Eb.
  { apply eq_true_iff_eq. rewrite existsb_exists, bool_decide_eq_true. split.
    - intros (x & Hx & ->%String.eqb_eq). by apply list_elem_of_In.
    - intros Hin. exists "actions"%string. split; [by apply list_elem_of_In|done]. }
  unfold ask_pair, close_pair, show. cbn [pairing_shown Prompter_new notifier has_buttons markup].
  rewrite Eb. destruct (decide _) as [Ha|Ha].
  - rewrite (bool_decide_eq_true_2 _ Ha). by eexists _, _.
  - rewrite (bool_decide_eq_false_2 _ Ha). eexists _, _. split; [done|]. split; [done|].
    set (front := sas +:+ String "010" EmptyString +:+ fp +:+ String "010" EmptyString).
    clear Eb.
    destruct (existsb _ caps); [exists (escape_markup front)|exists front]; subst front;
      by rewrite ?escape_markup_app, !str_app_assoc.
Qed.

(** What is heard is what was pressed, in order, as long as somebody listens. *)
Lemma heard_all n signals :
  (length (omap id signals) <= n)%nat ->
  heard n signals = (λ '(i, k), mkPressed i k) <$> omap id signals.
Proof.
  revert n. induction signals as [|[[i k]|] rest IH]; intros n Hn; [done| |by apply IH].
  destruct n as [|n]; cbn in *; [lia|]. f_equal. apply IH. lia.
Qed.

Lemma On_screen_snoc ops o id : On_screen ops id -> quiet id o -> On_screen (ops ++ [o]) id.
Proof.
  intros (b & n & fp & s & l & -> & Hl) Ho. exists b, n, fp, s, (l ++ [o]). split.
  - by rewrite <- app_assoc.
  - apply Forall_app. split; [done|by constructor].
Qed.

(** The other operations leave the question as it is. *)
Lemma step_quiet o p f id :
  pairing_shown (prompt_step o (p, f)).1.1 = Some id ->
  (∃ n fp s, o = AskPair n fp s (Some id)) \/ quiet id o /\ pairing_shown p = Some id.
Proof.
  destruct o as [n fp s i| |peer from offer i|t ok detail i|[i action]]; cbn [prompt_step].
  - unfold ask_pair. destruct (close_pair p) as [p1 c] eqn:Ec. destruct i as [i|]; cbn.
    + intros [= ->]. left. by eexists _, _, _.
    + unfold close_pair in Ec. destruct (pairing_shown p) eqn:Ep; injection Ec as <- _; cbn; congruence.
  - unfold close_pair. destruct (pairing_shown p) eqn:Ep; cbn; congruence.
  - unfold ask. destruct i; cbn; auto.
  - unfold done_. case_bool_decide; cbn; [auto|]. destruct (fb_landed f !! t); [destruct i; cbn; auto|].
    destruct ok; cbn; auto.
  - unfold pressed. cbn [pr_action pr_id]. destruct (String.eqb_spec action SHOW) as [->|Hs].
    { destruct (finished p !! i); cbn; intros E; right; (split; [by intros [_ ?]|exact E]). }
    destruct (is_pair_answer action) eqn:Ea.
    + destruct (pair_answer action i (pairing_shown p)) as [a|] eqn:Ep; cbn; [done|]. intros E. right.
      split; [|exact E]. intros [-> _]. unfold is_pair_answer in Ea. unfold pair_answer in Ep.
      rewrite E, bool_decide_eq_true_2 in Ep by done. cbn in Ep.
      destruct (action =s MATCH); [done|]. destruct (action =s DIFFER); [done|]. done.
    + destruct (asked p !! i) as [[peer t]|]; cbn; intros E; right;
        (split; [intros [_ ?]; congruence|exact E]).
Qed.

Lemma question_on_screen ops n has_bulk f id :
  pairing_shown (prompt_run ops (Prompter_new n has_bulk, f)).1 = Some id -> On_screen ops id.
Proof.
  induction ops as [|o ops IH] using rev_ind; [done|].
  unfold prompt_run in *. rewrite fold_left_app. cbn [fold_left].
  destruct (fold_left _ ops _) as [p f1]. intros [(nm & fp & s & ->)|[Hq Hp]]%step_quiet.
  - by exists ops, nm, fp, s, [].
  - by apply On_screen_snoc; [apply IH|].
Qed.

Lemma done_sends_nothing t ok detail i p f :
  Forall (λ x, ∀ ev, x <> Send ev) (done_ t ok detail i p f).2.
Proof.
  assert (∀ l, Forall (λ x, ∀ ev, x <> Send ev) (map CloseNotification l)) as Hc.
  { intros l. apply Forall_forall. intros x (y & -> & _)%list_elem_of_fmap. done. }
  unfold done_, landed, show. case_bool_decide; [by apply Hc|].
  destruct (fb_landed f !! t); [|destruct ok]; cbn [snd]; try by apply Hc.
  all: apply Forall_app; split; [apply Hc|by repeat constructor].
Qed.

(** C30 (safety): A pairing is confirmed, or refused, from the screen only by the
    press of the matching button on the question last put there, while it was
    neither taken down nor answered; and each question answers once. *)
Theorem confirms_the_question_shown ops n has_bulk f o a :
  let st := prompt_run ops (Prompter_new n has_bulk, f) in
  Send (Local (ConfirmPairing a)) ∈ (prompt_step o st).2 ->
  (∃ id, On_screen ops id /\ o = Press (mkPressed id (if a then MATCH else DIFFER))) /\
  pairing_shown (prompt_step o st).1.1 = None.
Proof.
  cbv zeta. pose proof (question_on_screen ops n has_bulk f) as HO.
  destruct (prompt_run ops _) as [p f1]. cbn [fst] in HO.
  assert (∀ l : list Out, Forall (λ x, ∀ b, x <> Send (Local (ConfirmPairing b))) l ->
    Send (Local (ConfirmPairing a)) ∈ l -> False) as Hno.
  { intros l Hl Hin. rewrite Forall_forall in Hl. by eapply Hl. }
  destruct o as [nm fp s i| |peer from offer i|t ok detail i|[i action]]; cbn [prompt_step].
  - intros Hin. exfalso. revert Hin. apply Hno. unfold ask_pair, close_pair, show.
    destruct (pairing_shown p); repeat constructor; done.
  - intros Hin. exfalso. revert Hin. apply Hno. unfold close_pair.
    destruct (pairing_shown p); repeat constructor; done.
  - intros Hin. exfalso. revert Hin. apply Hno. repeat constructor; done.
  - intros Hin. exfalso. revert Hin. apply Hno.
    eapply Forall_impl; [apply done_sends_nothing|]. auto.
  - unfold pressed. cbn [pr_action pr_id]. destruct (action =s SHOW).
    { intros Hin. exfalso. revert Hin. apply Hno. destruct (finished p !! i); repeat constructor; done. }
    destruct (is_pair_answer action).
    + destruct (pair_answer action i (pairing_shown p)) as [b|] eqn:Ep; [|by intros ?%elem_of_nil].
      intros Hin%list_elem_of_singleton. injection Hin as ->. apply pair_answer_spec in Ep as [Es ->].
      split; [|done]. exists i. split; [by apply HO|done].
    + intros Hin. exfalso. revert Hin. apply Hno.
      destruct (asked p !! i) as [[peer t]|]; repeat constructor; done.
Qed.
End presses.

(** ** Files: who answers, and who is told *)

Section answers.
  Context `{!Sha256} `{!Cbor Offer} `{!Cbor Finished}.

(** Nothing the core reports makes the daemon answer for the person,
    except an offer on a machine configured to accept every one; and then what
    is accepted is that offer, of that peer. *)
Theorem answers_are_asked names auto_accept e id p f ev :
  Send ev ∈ (on_ui names auto_accept e id p f).2 ->
  auto_accept = true /\
  ∃ peer body offer, e = UiPlugin peer SHARE_CAP "offer" body /\ cbor_decode body = Some offer /\
    ev = Local (LocalPlugin peer SHARE_CAP "accept"
           (to_vec_or_default (mkFinished (of_transfer offer) true ""))).
Proof.
  assert (∀ p, Forall (λ x, ∀ ev, x <> Send ev) (prompt_pairing e id p).2) as Hpair.
  { intros p0. unfold prompt_pairing, ask_pair, close_pair, show.
    destruct e; repeat constructor; destruct (pairing_shown p0); repeat constructor; done. }
  assert (∀ f p, Send ev ∈ (on_share names auto_accept e id p f).2 ->
    auto_accept = true /\ ∃ peer body offer, e = UiPlugin peer SHARE_CAP "offer" body /\
      cbor_decode body = Some offer /\
      ev = Local (LocalPlugin peer SHARE_CAP "accept"
             (to_vec_or_default (mkFinished (of_transfer offer) true "")))) as Hshare.
  { intros f0 p0. destruct e as [| | | | | | | |peer cap ty body|]; cbn [on_share]; try by intros ?%elem_of_nil.
    destruct (String.eqb_spec cap SHARE_CAP) as [->|]; cbn [negb]; [|by intros ?%elem_of_nil].
    destruct (String.eqb_spec ty "offer") as [->|].
    - destruct (cbor_decode body) as [offer|] eqn:Ed; [|by intros ?%elem_of_nil]. unfold on_offer.
      destruct auto_accept.
      + intros Hin%list_elem_of_singleton. injection Hin as ->. split; [done|]. by exists peer, body, offer.
      + destruct p0; [|by intros ?%elem_of_nil]. by intros Hin%list_elem_of_singleton.
    - destruct (ty =s "finished"); [|by intros ?%elem_of_nil].
      destruct (cbor_decode body) as [fin|]; [|by intros ?%elem_of_nil].
      destruct p0 as [p0|]; [|by intros ?%elem_of_nil].
      pose proof (done_sends_nothing (fin_transfer fin) (fin_ok fin) (fin_detail fin) id p0 f0) as Hd.
      destruct (done_ _ _ _ _ _ _) as [[p1 f1] outs]. cbn [snd] in *. intros Hin.
      rewrite Forall_forall in Hd. by destruct (Hd _ Hin ev). }
  unfold on_ui. intros Hin.
  destruct p as [p|].
  - specialize (Hpair p). destruct (prompt_pairing e id p) as [p1 outs]. cbn [snd] in Hpair.
    assert (Send ev ∉ outs) as Hno by (intros Hx; rewrite Forall_forall in Hpair; by destruct (Hpair _ Hx ev)).
    destruct f as [f|]; [|by cbn in Hin]. specialize (Hshare f (Some p1)).
    destruct (on_share _ _ _ _ _ f) as [[p2 f2] more]. cbn [snd] in *.
    apply elem_of_app in Hin as [?|?]; [done|by apply Hshare].
  - destruct f as [f|]; [|by apply elem_of_nil in Hin]. specialize (Hshare f None).
    destruct (on_share _ _ _ _ _ f) as [[p2 f2] more]. cbn [snd] in *. by apply Hshare.
Qed.

(** An offer accepted with the button of its notification, the only question up. *)
Definition accepted_by_button (peer from : string) (offer : Offer) (id : u32) (p : Prompter) (f : FileBulk)
    : Prompter * FileBulk :=
  let '(p, _) := ask peer from offer (Some id) p in
  (pressed (mkPressed id ACCEPT) p f).1.

(** A person who accepted a file with the button is not told how it
    ended: the press takes the offer off the list [done] goes by, so neither
    "Received" nor "A file did not arrive" is shown, and Show cannot be pressed. *)
Theorem button_then_silence peer from offer id p f ok detail id' :
  asked p = ∅ ->
  let '(p1, f1) := accepted_by_button peer from offer id p f in
  (done_ (of_transfer offer) ok detail id' p1 (f1 <| fb_landed ::= <[of_transfer offer := downloads]> |>)).2 = [].
Proof.
  intros Ha. unfold accepted_by_button, ask, pressed. cbn [pr_action pr_id].
  change (ACCEPT =s SHOW) with false. change (is_pair_answer ACCEPT) with false. cbn [asked set_field].
  cbn. rewrite lookup_insert_eq. cbn. unfold done_, stale. cbn. by rewrite Ha, delete_insert_id by done.
Qed.
End answers.
