(* ===== verification/Reconcile.v ===== *)
(** * [acryliusd/src/reconcile.rs]: bringing a configuration up to date

    A table of [toml_edit] is its entries in order, each a value or a table;
    parsing documents, and printing one that was edited, are that crate's.
    Printing may reorder the entries of a table (it puts the values before the
    tables), so two tables are compared by what they have at each path of keys.
    Merging adds what the schema has and the file lacks, and nothing else. *)

From Stdlib Require Import Ascii.
From S2P Require Import Prelude Strs Fs.
Local Open Scope N_scope.

(** ** Tables *)

Inductive Table (V : Type) :=
| TEnd
| TValue (key : string) (v : V) (rest : Table V)
| TTable (key : string) (sub : Table V) (rest : Table V).
Arguments TEnd {V}. Arguments TValue {V}. Arguments TTable {V}.

Section tables.
  Context {V : Type}.
Implicit Types t into from sub rest : Table V.

(** [Table::get]: a value or a table. *)
Fixpoint get (k : string) t : option (V + Table V) :=
  match t with
  | TEnd => None
  | TValue k' v rest => if k' =s k then Some (inl v) else get k rest
  | TTable k' sub rest => if k' =s k then Some (inr sub) else get k rest
  end.
(** [Table::insert] of a key that is not there: at the end. *)
Fixpoint insert_end (k : string) (item : V + Table V) t : Table V :=
  match t with
  | TEnd => match item with inl v => TValue k v TEnd | inr sub => TTable k sub TEnd end
  | TValue k' v rest => TValue k' v (insert_end k item rest)
  | TTable k' sub rest => TTable k' sub (insert_end k item rest)
  end.
(** What was done through [get_mut] to the table under a key. *)
Fixpoint put_sub (k : string) (sub' : Table V) t : Table V :=
  match t with
  | TEnd => TEnd
  | TValue k' v rest => TValue k' v (if (k' =s k) then rest else put_sub k sub' rest)
  | TTable k' sub rest => if k' =s k then TTable k' sub' rest else TTable k' sub (put_sub k sub' rest)
  end.
Fixpoint keys t : list string :=
  match t with TEnd => [] | TValue k _ rest | TTable k _ rest => k :: keys rest end.
(** Keys are distinct, in every table. *)
Fixpoint Wf t : Prop :=
  match t with
  | TEnd => True
  | TValue k _ rest => k ∉ keys rest /\ Wf rest
  | TTable k sub rest => k ∉ keys rest /\ Wf sub /\ Wf rest
  end.

(* src: crates/acryliusd/src/reconcile.rs 9 13 USER_OWNED *)
Definition USER_OWNED : list string := ["commands"%string].
Definition user_owned (p : string) : bool := existsb (String.eqb p) USER_OWNED.

(* src: crates/acryliusd/src/reconcile.rs 48 52 merge_table *)
Definition dotted (prefix key : string) : string :=
  if prefix =s "" then key else prefix +:+ "." +:+ key.

(* src: crates/acryliusd/src/reconcile.rs 46 70 merge_table *)
Fixpoint merge_table from (prefix : string) into (added : list string) : Table V * list string :=
  match from with
  | TEnd => (into, added)
  | TValue key v rest =>
      match get key into with
      | Some _ => merge_table rest prefix into added
      | None => merge_table rest prefix (insert_end key (inl v) into) (added ++ [dotted prefix key])
      end
  | TTable key from_t rest =>
      let path := dotted prefix key in
      match get key into with
      | Some existing =>
          if user_owned path then merge_table rest prefix into added
          else match existing with
               | inr into_t =>
                   let '(into_t, added) := merge_table from_t path into_t added in
                   merge_table rest prefix (put_sub key into_t into) added
               | inl _ => merge_table rest prefix into added
               end
      | None => merge_table rest prefix (insert_end key (inr from_t) into) (added ++ [path])
      end
  end.

(* src: crates/acryliusd/src/reconcile.rs 200 219 collect_unknown *)
Fixpoint collect_unknown t (reference : Table V) (prefix : string) (out : list string) : list string :=
  match t with
  | TEnd => out
  | TValue key _ rest =>
      let path := dotted prefix key in
      if user_owned path then collect_unknown rest reference prefix out
      else match get key reference with
           | None => collect_unknown rest reference prefix (out ++ [path])
           | Some _ => collect_unknown rest reference prefix out
           end
  | TTable key d rest =>
      let path := dotted prefix key in
      if user_owned path then collect_unknown rest reference prefix out
      else match get key reference with
           | None => collect_unknown rest reference prefix (out ++ [path])
           | Some (inr r) => collect_unknown rest reference prefix (collect_unknown d r path out)
           | Some (inl _) => collect_unknown rest reference prefix out
           end
  end.

(** ** Lookup after insertion *)

Lemma get_keys k t : get k t = None <-> k ∉ keys t.
Proof.
  induction t as [|k' v rest IH|k' sub _ rest IH]; cbn.
  - split; [intros _ ?%elem_of_nil; done|done].
  - destruct (String.eqb_spec k' k) as [->|Hne]; rewrite not_elem_of_cons; [naive_solver|].
    rewrite IH. naive_solver.
  - destruct (String.eqb_spec k' k) as [->|Hne]; rewrite not_elem_of_cons; [naive_solver|].
    rewrite IH. naive_solver.
Qed.

Lemma get_insert_end k item t k' :
  get k t = None -> get k' (insert_end k item t) = if k =s k' then Some item else get k' t.
Proof.
  induction t as [|j v rest IH|j sub _ rest IH]; cbn.
  - intros _. destruct item; cbn; by destruct (k =s k').
  - destruct (String.eqb_spec j k) as [|Hjk]; [done|]. intros H. rewrite IH by done.
    destruct (String.eqb_spec j k') as [->|]; [|done]. by rewrite (proj2 (String.eqb_neq k k')) by congruence.
  - destruct (String.eqb_spec j k) as [|Hjk]; [done|]. intros H. rewrite IH by done.
    destruct (String.eqb_spec j k') as [->|]; [|done]. by rewrite (proj2 (String.eqb_neq k k')) by congruence.
Qed.

Lemma get_put_sub k sub0 sub t k' :
  get k t = Some (inr sub0) ->
  get k' (put_sub k sub t) = if k =s k' then Some (inr sub) else get k' t.
Proof.
  induction t as [|j v rest IH|j s _ rest IH]; cbn; [done|..];
    destruct (String.eqb_spec j k) as [->|Hjk]; cbn; intros H.
  - done.
  - rewrite IH by done. destruct (String.eqb_spec j k') as [->|]; [|done].
    by rewrite (proj2 (String.eqb_neq k k')) by congruence.
  - by destruct (k =s k').
  - rewrite IH by done. destruct (String.eqb_spec j k') as [->|]; [|done].
    by rewrite (proj2 (String.eqb_neq k k')) by congruence.
Qed.

Lemma put_sub_same k sub t : get k t = Some (inr sub) -> put_sub k sub t = t.
Proof.
  induction t as [|j v rest IH|j s _ rest IH]; cbn; [done|..]; destruct (j =s k); intros H.
  - done.
  - by rewrite IH.
  - by injection H as ->.
  - by rewrite IH.
Qed.

(** A key the schema does not mention is as it was. *)
Lemma merge_other from prefix into added k :
  k ∉ keys from -> get k (merge_table from prefix into added).1 = get k into.
Proof.
  revert into added. induction from as [|key v rest IH|key sub _ rest IH]; intros into added Hk; [done|..];
    apply not_elem_of_cons in Hk as [Hne Hk]; cbn [merge_table].
  - destruct (get key into) eqn:E; rewrite IH by done; [done|].
    rewrite get_insert_end by done. by rewrite (proj2 (String.eqb_neq key k)).
  - destruct (get key into) as [[v|into_t]|] eqn:E.
    + by destruct (user_owned _); rewrite IH.
    + destruct (user_owned _); [by rewrite IH|].
      destruct (merge_table sub _ into_t added) as [t' added']. rewrite IH by done.
      erewrite get_put_sub by done. by rewrite (proj2 (String.eqb_neq key k)).
    + rewrite IH by done. rewrite get_insert_end by done. by rewrite (proj2 (String.eqb_neq key k)).
Qed.

(** ** Nothing is missing afterwards *)

(** Every setting of the schema is there, but below a table that is the user's
    or a value where the schema has a table. *)
Fixpoint Covered from (prefix : string) into : Prop :=
  match from with
  | TEnd => True
  | TValue key _ rest => is_Some (get key into) /\ Covered rest prefix into
  | TTable key sub rest =>
      match get key into with
      | None => False
      | Some (inl _) => True
      | Some (inr t) => user_owned (dotted prefix key) = true \/ Covered sub (dotted prefix key) t
      end /\ Covered rest prefix into
  end.

Lemma Covered_ext from prefix into into' :
  (∀ k, k ∈ keys from -> get k into' = get k into) -> Covered from prefix into -> Covered from prefix into'.
Proof.
  induction from as [|key v rest IH|key sub _ rest IH]; cbn; intros Hk; [done|..];
    (intros [H1 H2]; split; [rewrite Hk by left; exact H1|]; apply IH; [|done]; intros k ?; apply Hk; by right).
Qed.

Lemma Covered_self t prefix : Wf t -> Covered t prefix t.
Proof.
  revert prefix. induction t as [|key v rest IH|key sub IHs rest IH]; intros prefix; cbn; [done|..].
  - intros [Hk Hwf]. rewrite String.eqb_refl. split; [done|].
    apply (Covered_ext _ _ rest); [|by apply IH]. intros k Hin. cbn.
    destruct (String.eqb_spec key k) as [->|]; done.
  - intros (Hk & Hs & Hwf). rewrite String.eqb_refl. split; [right; by apply IHs|].
    apply (Covered_ext _ _ rest); [|by apply IH]. intros k Hin. cbn.
    destruct (String.eqb_spec key k) as [->|]; done.
Qed.

Lemma merge_covers from : ∀ prefix into added,
  Wf from -> Covered from prefix (merge_table from prefix into added).1.
Proof.
  induction from as [|key v rest IH|key sub IHs rest IH]; intros prefix into added; [done|..];
    cbn [Covered merge_table Wf].
  - intros [Hk Hwf]. destruct (get key into) eqn:E; (split; [|by apply IH]);
      rewrite merge_other by done; [by rewrite E|].
    rewrite get_insert_end, String.eqb_refl by done. done.
  - intros (Hk & Hs & Hwf). destruct (get key into) as [[u|into_t]|] eqn:E.
    + destruct (user_owned _); (split; [|by apply IH]); rewrite merge_other, E by done; done.
    + destruct (user_owned (dotted prefix key)) eqn:Eu.
      * split; [|by apply IH]. rewrite merge_other, E by done. by left.
      * destruct (merge_table sub (dotted prefix key) into_t added) as [t' added'] eqn:Em.
        split; [|by apply IH]. rewrite merge_other by done. erewrite get_put_sub, String.eqb_refl by done.
        right. change t' with (t', added').1. rewrite <- Em. by apply IHs.
    + split; [|by apply IH]. rewrite merge_other by done. rewrite get_insert_end, String.eqb_refl by done.
      right. by apply Covered_self.
Qed.

(** Where nothing is missing, nothing is changed and nothing reported. *)
Lemma covered_merge from : ∀ prefix into added,
  Covered from prefix into -> merge_table from prefix into added = (into, added).
Proof.
  induction from as [|key v rest IH|key sub IHs rest IH]; intros prefix into added; [done|..];
    cbn [Covered merge_table].
  - intros [[x Hx] Hc]. rewrite Hx. by apply IH.
  - intros [H1 Hc]. destruct (get key into) as [[u|into_t]|] eqn:E; [by destruct (user_owned _); apply IH| |done].
    destruct (user_owned (dotted prefix key)); [by apply IH|]. destruct H1 as [|H1]; [done|].
    rewrite IHs by done. rewrite put_sub_same by done. by apply IH.
Qed.

Lemma merge_added from : ∀ prefix into added,
  ∃ new, (merge_table from prefix into added).2 = added ++ new /\
    (new = [] -> (merge_table from prefix into added).1 = into).
Proof.
  induction from as [|key v rest IH|key sub IHs rest IH]; intros prefix into added;
    [exists []; by rewrite app_nil_r|..]; cbn [merge_table].
  - destruct (get key into); [apply IH|].
    destruct (IH prefix (insert_end key (inl v) into) (added ++ [dotted prefix key])) as (new & -> & _).
    exists ([dotted prefix key] ++ new). by rewrite app_assoc.
  - destruct (get key into) as [[u|into_t]|] eqn:E; [by destruct (user_owned _); apply IH|..].
    + destruct (user_owned _); [apply IH|].
      destruct (IHs (dotted prefix key) into_t added) as (n1 & E1 & F1).
      destruct (merge_table sub _ into_t added) as [t' a1]. cbn in E1, F1. subst a1.
      destruct (IH prefix (put_sub key t' into) (added ++ n1)) as (n2 & -> & F2).
      exists (n1 ++ n2). split; [by rewrite app_assoc|]. intros [H1 H2]%app_nil. rewrite F2 by done.
      rewrite F1 by done. by apply put_sub_same.
    + destruct (IH prefix (insert_end key (inr sub) into) (added ++ [dotted prefix key])) as (new & -> & _).
      exists ([dotted prefix key] ++ new). by rewrite app_assoc.
Qed.
(** What was reported before makes no difference to the table. *)
Lemma merge_fst from : ∀ prefix into a b,
  (merge_table from prefix into a).1 = (merge_table from prefix into b).1.
Proof.
  induction from as [|key v rest IH|key sub IHs rest IH]; intros prefix into a b; [done|..]; cbn [merge_table].
  - destruct (get key into); apply IH.
  - destruct (get key into) as [[u|into_t]|]; [by destruct (user_owned _); apply IH| |apply IH].
    destruct (user_owned _); [apply IH|]. specialize (IHs (dotted prefix key) into_t a b).
    destruct (merge_table sub _ into_t a) as [t1 a1], (merge_table sub _ into_t b) as [t2 b2].
    cbn in IHs. subst t2. apply IH.
Qed.

(** What a merge leaves under each key. *)
Definition merged_item (prefix k : string) (f i : option (V + Table V)) : option (V + Table V) :=
  match f, i with
  | _, None => f
  | Some (inr from), Some (inr into) =>
      if user_owned (dotted prefix k) then i else Some (inr (merge_table from (dotted prefix k) into []).1)
  | _, _ => i
  end.

Lemma merge_get from : ∀ prefix into added k, Wf from ->
  get k (merge_table from prefix into added).1 = merged_item prefix k (get k from) (get k into).
Proof.
  induction from as [|key v rest IH|key sub _ rest IH]; intros prefix into added k; cbn [Wf merge_table get].
  - intros _. cbn [fst]. by destruct (get k into) as [[]|].
  - intros [Hk Hwf]. destruct (String.eqb_spec key k) as [->|Hne].
    + destruct (get k into) as [x|] eqn:E; rewrite merge_other by done; [by rewrite E|].
      by rewrite get_insert_end, String.eqb_refl.
    + destruct (get key into) eqn:E; rewrite IH by done; [done|].
      rewrite get_insert_end by done. by rewrite (proj2 (String.eqb_neq key k)).
  - intros (Hk & _ & Hwf). destruct (String.eqb_spec key k) as [->|Hne].
    + destruct (get k into) as [[u|into_t]|] eqn:E; cbn [merged_item].
      * destruct (user_owned _); by rewrite merge_other, E.
      * destruct (user_owned _) eqn:Eu; [by rewrite merge_other, E|].
        pose proof (merge_fst sub (dotted prefix k) into_t added []) as Hf.
        destruct (merge_table sub _ into_t added) as [t' a']. cbn in Hf. subst t'.
        rewrite merge_other by done. by erewrite get_put_sub, String.eqb_refl.
      * rewrite merge_other by done. by rewrite get_insert_end, String.eqb_refl.
    + destruct (get key into) as [[u|into_t]|] eqn:E.
      * destruct (user_owned _); by apply IH.
      * destruct (user_owned _); [by apply IH|]. destruct (merge_table sub _ into_t added) as [t' a'].
        rewrite IH by done. erewrite get_put_sub by done. by rewrite (proj2 (String.eqb_neq key k)).
      * rewrite IH by done. rewrite get_insert_end by done. by rewrite (proj2 (String.eqb_neq key k)).
Qed.
End tables.

(** ** Distinct keys stay distinct *)

Section wf.
  Context {V : Type}.
Implicit Types t into from sub rest : Table V.

Lemma keys_insert_end k item t : keys (insert_end k item t) = keys t ++ [k].
Proof. induction t as [|j v rest IH|j s _ rest IH]; cbn; [by destruct item|by rewrite IH..]. Qed.
Lemma keys_put_sub k sub t : keys (put_sub k sub t) = keys t.
Proof. induction t as [|j v rest IH|j s _ rest IH]; cbn; [done|..]; destruct (j =s k); cbn; by rewrite ?IH. Qed.

Lemma Wf_insert_end k item t :
  get k t = None -> match item with inl _ => True | inr sub => Wf sub end -> Wf t ->
  Wf (insert_end k item t).
Proof.
  induction t as [|j v rest IH|j s _ rest IH]; cbn; intros Hk Hi.
  - destruct item; cbn; intros _; [split; [by intros ?%elem_of_nil|done]|].
    split_and!; [by intros ?%elem_of_nil|done|done].
  - intros [Hj Hwf]. destruct (String.eqb_spec j k) as [|Hne]; [done|]. split; [|by apply IH].
    rewrite keys_insert_end. rewrite elem_of_app, list_elem_of_singleton. by intros [?|?].
  - intros (Hj & Hs & Hwf). destruct (String.eqb_spec j k) as [|Hne]; [done|]. split_and!; [|done|by apply IH].
    rewrite keys_insert_end. rewrite elem_of_app, list_elem_of_singleton. by intros [?|?].
Qed.

Lemma Wf_put_sub k sub t : Wf sub -> Wf t -> Wf (put_sub k sub t).
Proof.
  intros Hs. induction t as [|j v rest IH|j s _ rest IH]; cbn; [done|..].
  - intros [Hj Hwf]. destruct (j =s k); cbn; [done|]. split; [by rewrite keys_put_sub|by apply IH].
  - intros (Hj & Hsub & Hwf). destruct (j =s k); cbn; [done|]. split_and!; [by rewrite keys_put_sub|done|by apply IH].
Qed.

Lemma Wf_get k t sub : Wf t -> get k t = Some (inr sub) -> Wf sub.
Proof.
  induction t as [|j v rest IH|j s _ rest IH]; cbn; [done|..].
  - intros [_ Hwf]. destruct (j =s k); [done|by apply IH].
  - intros (_ & Hs & Hwf). destruct (j =s k); [by intros [= ->]|by apply IH].
Qed.

Lemma Wf_merge from : ∀ prefix into added,
  Wf from -> Wf into -> Wf (merge_table from prefix into added).1.
Proof.
  induction from as [|key v rest IH|key sub IHs rest IH]; intros prefix into added; [done|..];
    cbn [merge_table Wf].
  - intros [_ Hwf] Hi. destruct (get key into) eqn:E; apply IH; try done. by apply Wf_insert_end.
  - intros (_ & Hs & Hwf) Hi. destruct (get key into) as [[u|into_t]|] eqn:E.
    + destruct (user_owned _); by apply IH.
    + destruct (user_owned _); [by apply IH|].
      pose proof (IHs (dotted prefix key) into_t added Hs (Wf_get _ _ _ Hi E)) as Ht.
      destruct (merge_table sub _ into_t added) as [t' a]. apply IH; [done|]. by apply Wf_put_sub.
    + apply IH; [done|]. by apply Wf_insert_end.
Qed.
End wf.

(** ** What a table says *)

Section same.
  Context {V : Type}.
Implicit Types t into from sub : Table V.

(** What is at the end of a path of keys: nothing, a value, or (the empty path
    included) a table. *)
Fixpoint entry_at (ks : list string) t : option (option V) :=
  match ks with
  | [] => Some None
  | k :: ks =>
      match get k t with
      | None => None
      | Some (inl v) => match ks with [] => Some (Some v) | _ => None end
      | Some (inr sub) => entry_at ks sub
      end
  end.

(** The same entries, in any order. *)
Definition Same t t' : Prop := ∀ ks, entry_at ks t = entry_at ks t'.
#[export] Instance Same_equivalence : Equivalence Same.
Proof. split; [done|by intros t t' H ks|intros t1 t2 t3 H1 H2 ks; by rewrite H1]. Qed.

Definition same_item (i i' : option (V + Table V)) : Prop :=
  match i, i' with
  | None, None => True
  | Some (inl v), Some (inl v') => v = v'
  | Some (inr s), Some (inr s') => Same s s'
  | _, _ => False
  end.

Lemma Same_get t t' : Same t t' <-> ∀ k, same_item (get k t) (get k t').
Proof.
  split.
  - intros H k. pose proof (H [k]) as H1. pose proof (λ ks, H (k :: ks)) as H2. cbn in H1, H2.
    destruct (get k t) as [[v|sub]|], (get k t') as [[v'|sub']|]; cbn in *; try done; first [congruence|exact H2].
  - intros H [|k ks]; [done|]. cbn. specialize (H k).
    destruct (get k t) as [[v|sub]|], (get k t') as [[v'|sub']|]; cbn in H; try done; first [apply H|by subst].
Qed.

(** A document that grew: entries were added to its tables, nothing more. *)
Inductive Grown : Table V -> Table V -> Prop :=
| grown_refl t : Grown t t
| grown_insert k item t t' :
    get k t = None -> match item with inl _ => True | inr sub => Wf sub end ->
    Grown (insert_end k item t) t' -> Grown t t'
| grown_inside k sub sub' t t' :
    get k t = Some (inr sub) -> Grown sub sub' -> Grown (put_sub k sub' t) t' -> Grown t t'.

Lemma merge_grown from : ∀ prefix into added,
  Wf from -> Grown into (merge_table from prefix into added).1.
Proof.
  induction from as [|key v rest IH|key sub IHs rest IH]; intros prefix into added; [constructor|..];
    cbn [merge_table Wf].
  - intros [_ Hwf]. destruct (get key into) eqn:E; [by apply IH|].
    apply (grown_insert key (inl v)); [done|done|by apply IH].
  - intros (_ & Hs & Hwf). destruct (get key into) as [[u|into_t]|] eqn:E.
    + destruct (user_owned _); by apply IH.
    + destruct (user_owned _); [by apply IH|].
      pose proof (IHs (dotted prefix key) into_t added Hs) as Ht.
      destruct (merge_table sub _ into_t added) as [t' a]. apply (grown_inside key into_t t'); [done|done|by apply IH].
    + apply (grown_insert key (inr sub)); [done|done|by apply IH].
Qed.

(** What the schema may fill in: a path whose first missing key is not within a
    table the file has and that is the user's. *)
Fixpoint fills (prefix : string) (ks : list string) into : bool :=
  match ks with
  | [] => false
  | k :: ks =>
      match get k into with
      | None => true
      | Some (inl _) => false
      | Some (inr sub) => negb (user_owned (dotted prefix k)) && fills (dotted prefix k) ks sub
      end
  end.
(** A path all but the last key of which are tables the file has, none of them
    the user's. *)
Fixpoint first_missing (prefix : string) (ks : list string) into : bool :=
  match ks with
  | [] => false
  | k :: ks =>
      match get k into, ks with
      | None, [] => true
      | Some (inr sub), _ => negb (user_owned (dotted prefix k)) && first_missing (dotted prefix k) ks sub
      | _, _ => false
      end
  end.
Definition dotted_path (prefix : string) (ks : list string) : string := fold_left dotted ks prefix.

Lemma fills_missing prefix ks into : fills prefix ks into = true -> entry_at ks into = None.
Proof.
  revert prefix into. induction ks as [|k ks IH]; intros prefix into; cbn; [done|].
  destruct (get k into) as [[v|sub]|]; [done| |done]. intros [_ H]%andb_true_iff. by apply IH in H.
Qed.

(** A merge, entry by entry. *)
Lemma merge_entry ks : ∀ prefix from into, Wf from ->
  entry_at ks (merge_table from prefix into []).1
  = if fills prefix ks into then entry_at ks from else entry_at ks into.
Proof.
  induction ks as [|k ks IH]; intros prefix from into Hf; cbn [entry_at fills]; [done|].
  rewrite merge_get by done. destruct (get k into) as [[w|t]|] eqn:Ei; cbn [merged_item].
  - by destruct (get k from) as [[|]|].
  - assert (fills (dotted prefix k) ks t = true ->
      entry_at ks t = None /\ (∀ v, match ks with [] => Some (Some v) | _ => None end = None (A := option V))) as Hm.
    { intros H. split; [by eapply fills_missing|]. by destruct ks. }
    destruct (get k from) as [[v|f]|] eqn:Ef; cbn [merged_item].
    + destruct (user_owned _); cbn [negb andb]; [done|]. destruct (fills _ ks t); [|done].
      destruct (Hm eq_refl) as [-> Hv]. by rewrite Hv.
    + destruct (user_owned _); cbn [negb andb]; [done|]. apply IH. by eapply Wf_get.
    + destruct (user_owned _); cbn [negb andb]; [done|]. destruct (fills _ ks t); [|done]. by apply Hm.
  - by destruct (get k from) as [[|]|].
Qed.

Lemma first_missing_ext prefix k ks into into' :
  get k into' = get k into -> first_missing prefix (k :: ks) into' = first_missing prefix (k :: ks) into.
Proof. intros E. cbn. by rewrite E. Qed.

Lemma entry_none ks k t : get k t = None -> entry_at (k :: ks) t = None.
Proof. intros E. cbn. by rewrite E. Qed.

(** What is reported. *)
Definition reports from prefix into (p : string) : Prop :=
  ∃ ks, p = dotted_path prefix ks /\ is_Some (entry_at ks from) /\ first_missing prefix ks into = true.

(** Those under the first key of the schema, and the rest. *)
Lemma reports_cons from rest key i prefix into into' p :
  (∀ k, get k from = if key =s k then Some i else get k rest) -> get key rest = None ->
  (∀ k, key <> k -> get k into' = get k into) ->
  reports from prefix into p <->
  (∃ ks, p = dotted_path prefix (key :: ks) /\ is_Some (entry_at (key :: ks) from) /\
     first_missing prefix (key :: ks) into = true) \/ reports rest prefix into' p.
Proof.
  intros Hg Hr Hi. unfold reports. split.
  - intros ([|k ks] & -> & He & Hf); [done|]. destruct (String.eqb_spec key k) as [->|Hne]; [by left; exists ks|].
    right. exists (k :: ks). split; [done|]. rewrite (first_missing_ext _ _ _ into) by (by apply Hi).
    split; [|done]. cbn in He |- *. rewrite Hg, (proj2 (String.eqb_neq key k)) in He by done. exact He.
  - intros [(ks & -> & He & Hf)|([|k ks] & -> & He & Hf)]; [by exists (key :: ks)|done|].
    destruct (String.eqb_spec key k) as [->|Hne]; [rewrite entry_none in He by done; by destruct He|].
    exists (k :: ks). split; [done|]. rewrite (first_missing_ext _ _ _ into) in Hf by (by apply Hi).
    split; [|done]. cbn in He |- *. by rewrite Hg, (proj2 (String.eqb_neq key k)).
Qed.

Lemma merge_reports from : ∀ prefix into added p, Wf from ->
  p ∈ (merge_table from prefix into added).2 <-> p ∈ added \/ reports from prefix into p.
Proof.
  induction from as [|key v rest IH|key sub IHs rest IH]; intros prefix into added p; cbn [Wf merge_table].
  - intros _. split; [by left|]. intros [?|([|k ks] & _ & He & Hf)]; [done|by cbn in Hf|by destruct He].
  - intros [Hk Hwf]. apply get_keys in Hk.
    rewrite (reports_cons _ rest key (inl v) prefix into (if get key into then into else insert_end key (inl v) into) p);
      [|by intros k; cbn|done|].
    2:{ intros k Hne. destruct (get key into) eqn:E; [done|]. rewrite get_insert_end by done.
        by rewrite (proj2 (String.eqb_neq key k)). }
    assert ((∃ ks, p = dotted_path prefix (key :: ks) /\ is_Some (entry_at (key :: ks) (TValue key v rest)) /\
      first_missing prefix (key :: ks) into = true) <-> get key into = None /\ p = dotted prefix key) as ->.
    { split.
      - intros (ks & -> & He & Hf). cbn in He. rewrite String.eqb_refl in He. destruct ks; [|by destruct He].
        cbn in Hf. destruct (get key into) as [[]|]; [done|by rewrite andb_false_r in Hf|done].
      - intros [E ->]. exists []. cbn. by rewrite String.eqb_refl, E. }
    destruct (get key into) as [x|] eqn:E; rewrite IH by done; [|rewrite elem_of_app, list_elem_of_singleton]; intuition congruence.
  - intros (Hk & Hs & Hwf). apply get_keys in Hk.
    pose proof (λ into', reports_cons (TTable key sub rest) rest key (inr sub) prefix into into' p (λ _, eq_refl) Hk) as Hc.
    destruct (get key into) as [[u|into_t]|] eqn:E.
    + assert (∀ ks, first_missing prefix (key :: ks) into = false) as Hn by (intros ks; cbn; by rewrite E).
      rewrite (Hc into) by done. setoid_rewrite Hn.
      destruct (user_owned _); rewrite IH by done; naive_solver.
    + assert (∀ ks, first_missing prefix (key :: ks) into
        = negb (user_owned (dotted prefix key)) && first_missing (dotted prefix key) ks into_t) as Hn
        by (intros ks; cbn; by rewrite E).
      destruct (user_owned _) eqn:Eu.
      * rewrite (Hc into) by done. setoid_rewrite Hn. rewrite IH by done. naive_solver.
      * specialize (IHs (dotted prefix key) into_t added p Hs).
        destruct (merge_table sub _ into_t added) as [t' added']. cbn [snd] in IHs.
        rewrite (Hc (put_sub key t' into)), IH, IHs by (try done; intros k Hne;
          erewrite get_put_sub by done; by rewrite (proj2 (String.eqb_neq key k))).
        assert ((∃ ks, p = dotted_path prefix (key :: ks) /\ is_Some (entry_at (key :: ks) (TTable key sub rest)) /\
          first_missing prefix (key :: ks) into = true) <-> reports sub (dotted prefix key) into_t p) as ->; [|tauto].
        unfold reports. setoid_rewrite Hn. cbn [entry_at get]. by rewrite String.eqb_refl.
    + assert ((∃ ks, p = dotted_path prefix (key :: ks) /\ is_Some (entry_at (key :: ks) (TTable key sub rest)) /\
        first_missing prefix (key :: ks) into = true) <-> p = dotted prefix key) as Hd.
      { split.
        - intros (ks & -> & He & Hf). cbn in Hf. rewrite E in Hf. by destruct ks.
        - intros ->. exists []. cbn. by rewrite String.eqb_refl, E. }
      rewrite (Hc (insert_end key (inr sub) into)), Hd, IH by (try done; intros k Hne; rewrite get_insert_end by done;
        by rewrite (proj2 (String.eqb_neq key k))).
      rewrite elem_of_app, list_elem_of_singleton. tauto.
Qed.

Lemma Covered_same from : ∀ prefix into into', Same into into' -> Covered from prefix into -> Covered from prefix into'.
Proof.
  induction from as [|key v rest IH|key sub IHs rest IH]; intros prefix into into' HS; cbn [Covered]; [done|..];
    intros [H1 H2]; (split; [|by eapply IH]); pose proof (proj1 (Same_get _ _) HS key) as Hk; revert H1 Hk;
    destruct (get key into) as [[w|t]|], (get key into') as [[w'|t']|]; cbn; try done; try (by destruct 1).
  intros [|Hc] Hs; [by left|right]. by eapply IHs.
Qed.
End same.

(** ** Files *)

(** Documents are [toml_edit]'s and [toml]'s.  [toml_edited s t] is the text of the
    document [s] was parsed to once its tables were edited to be [t]: layout
    and comments of [s] stay, so it depends on [s] too.  [toml_pretty] is
    [toml::to_string_pretty] of what serializes to a table. *)
Class Toml := {
  toml_value : Type;
  toml_parse : string -> option (Table toml_value);
  toml_edited : string -> Table toml_value -> string;
  toml_pretty : Table toml_value -> string;
}.
(** A document has no key twice.  What is printed reads back with the same
    entries, in whatever order: a document whose tables had entries added, and
    a table that was serialized. *)
Class TomlLaws `{Toml} := {
  toml_parse_wf s t : toml_parse s = Some t -> Wf t;
  toml_edited_reads s t0 t : toml_parse s = Some t0 -> Grown t0 t -> Wf t ->
    ∃ t', toml_parse (toml_edited s t) = Some t' /\ Same t' t;
  toml_pretty_reads t : Wf t -> ∃ t', toml_parse (toml_pretty t) = Some t' /\ Same t' t;
}.

Section files.
  Context `{Toml}.

(* src: crates/acryliusd/src/reconcile.rs 33 44 reconcile *)
Definition reconcile (existing reference : string) : option (string * list string) :=
  match toml_parse existing, toml_parse reference with
  | Some doc, Some ref =>
      let '(doc, added) := merge_table ref "" doc [] in
      Some (if bool_decide (added = []) then existing else toml_edited existing doc, added)
  | _, _ => None
  end.

(* src: crates/acryliusd/src/reconcile.rs 188 198 unknown_keys *)
Definition unknown_keys (existing reference : string) : list string :=
  match toml_parse existing, toml_parse reference with
  | Some doc, Some ref => collect_unknown doc ref "" []
  | _, _ => []
  end.

Inductive UpdateError := UpdateIo (e : ErrorKind) | NotToml.

(** Beside the file, then over it; [std::fs::write] is a creation and a write. *)
(* src: crates/acryliusd/src/reconcile.rs 176 179 update_file *)
Definition write_over (p : path) (text : string) : io UpdateError unit :=
  let tmp := with_extension p "toml.new" in
  do! file := io_map_err UpdateIo (create tmp) in
  do! _ := io_map_err UpdateIo (write_all file (as_bytes text)) in
  io_map_err UpdateIo (rename tmp p).

(* src: crates/acryliusd/src/reconcile.rs 170 181 update_file *)
Definition update_file (p : path) (reference : string) : io UpdateError (list string) :=
  do! existing := io_map_err UpdateIo (fs_read p) in
  do! (text, added) := io_lift (ok_or (reconcile (of_bytes existing) reference) NotToml) in
  if bool_decide (added = []) then io_ret added
  else
    do! _ := write_over p text in
    io_ret added.

(* src: crates/acryliusd/src/reconcile.rs 223 233 describe *)
Definition describe (added : list string) : gmap string (list string) :=
  fold_left (λ by_table key,
    let '(table, leaf) := default (""%string, key) (str_rsplit_once "." key) in
    <[table := default [] (by_table !! table) ++ [leaf]]> by_table) added ∅.

Context `{!TomlLaws}.

(** The document written has the entries of the merged one. *)
Lemma reconcile_doc existing reference doc ref :
  toml_parse existing = Some doc -> toml_parse reference = Some ref ->
  ∃ text doc', reconcile existing reference = Some (text, (merge_table ref "" doc []).2) /\
    ((merge_table ref "" doc []).2 = [] -> text = existing) /\
    toml_parse text = Some doc' /\ Same doc' (merge_table ref "" doc []).1.
Proof.
  intros Ed Er. unfold reconcile. rewrite Ed, Er.
  pose proof (toml_parse_wf _ _ Er) as Hr.
  pose proof (Wf_merge ref "" doc [] Hr (toml_parse_wf _ _ Ed)) as Hw.
  pose proof (merge_grown ref "" doc [] Hr) as Hg.
  destruct (merge_added ref "" doc []) as (new & En & Hn). cbn [app] in En.
  destruct (merge_table ref "" doc []) as [m a]. cbn [fst snd] in *. subst a.
  case_bool_decide as Ea.
  - exists existing, doc. split_and!; [done|done|done|]. by rewrite Hn.
  - destruct (toml_edited_reads existing doc m Ed Hg Hw) as (doc' & Hp & HS). by exists (toml_edited existing m), doc'.
Qed.

(** C32 (equivalence): Updating the configuration, [existing], from the schema,
    [reference], both of them documents: the outcome is a document, and what it
    has at any path of keys is known.  It is what the schema has there when some
    key of the path is missing from the file, the keys before it being tables of
    the file none of which is the user's ([commands]); and in every other case
    what the file has: so every entry of the file stays, every setting of the
    schema that was missing outside the user's tables is there with the schema's
    value, nothing is added within a table of the user's, and nothing else is
    there.  What is reported as added are exactly the paths of the schema whose
    last key alone was missing like that (a missing table is reported as one).
    When nothing is reported the text is the file's own, unchanged, and updating
    the outcome again reports nothing and changes nothing. *)
Theorem reconcile_minimal existing reference doc ref :
  toml_parse existing = Some doc -> toml_parse reference = Some ref ->
  ∃ text added doc',
    reconcile existing reference = Some (text, added) /\ toml_parse text = Some doc' /\
    (∀ ks, entry_at ks doc' = if fills "" ks doc then entry_at ks ref else entry_at ks doc) /\
    (∀ path, path ∈ added <-> reports ref "" doc path) /\
    (added = [] -> text = existing) /\
    reconcile text reference = Some (text, []).
Proof.
  intros Ed Er. pose proof (toml_parse_wf _ _ Er) as Hr.
  destruct (reconcile_doc existing reference doc ref Ed Er) as (text & doc' & E & Ht & Hp & HS).
  exists text, (merge_table ref "" doc []).2, doc'. split_and!; [done|done| | |exact Ht|].
  - intros ks. rewrite HS. by apply merge_entry.
  - intros path. rewrite merge_reports by done. rewrite elem_of_nil. tauto.
  - unfold reconcile. rewrite Hp, Er.
    rewrite (covered_merge ref "" doc' []); [by rewrite bool_decide_eq_true_2|].
    apply (Covered_same _ _ (merge_table ref "" doc []).1); [by symmetry|by apply merge_covers].
Qed.

Lemma write_over_keeps p text d0 :
  named p -> with_extension p "toml.new" <> p ->
  triple (Kept (with_extension p "toml.new") d0) (write_over p text)
    (λ _, Replaced (with_extension p "toml.new") p (as_bytes text) d0) (Kept (with_extension p "toml.new") d0).
Proof.
  intros Hp Hne. eapply triple_bind; [apply triple_map_err, create_keeps|]. intros i.
  eapply triple_bind; [apply triple_map_err, write_all_keeps|]. intros [].
  apply triple_map_err, rename_replaces; [done|by apply parent_with_extension].
Qed.

(** Whatever calls fail and wherever the machine stops, the
    configuration found is the one that was there or the whole updated one. *)
Theorem update_whole p reference d :
  named p -> with_extension p "toml.new" <> p -> wf d ->
  let d' := (update_file p reference d).2 in
  read_back d' p = read_back d p \/
  ∃ old text added, read_back d p = Some (as_bytes old) /\ reconcile old reference = Some (text, added) /\
    read_back d' p = Some (as_bytes text).
Proof.
  intros Hp Hne Hwf. cbv zeta. set (t := with_extension p "toml.new") in *.
  set (P := λ d', read_back d' p = read_back d p \/ ∃ old text added, read_back d p = Some (as_bytes old) /\
    reconcile old reference = Some (text, added) /\ read_back d' p = Some (as_bytes text)).
  change (P (update_file p reference d).2).
  assert (∀ d', Kept t d d' -> P d') as HK by (intros d' [_ Hk]; left; by apply Hk).
  unfold update_file, io_bind at 1, io_map_err at 1.
  pose proof (fs_read_keeps t d p d (Kept_refl t d Hwf)) as Hr.
  destruct (fs_read p d) as [[bs|e] d1]; cbn [map_err]; [|by apply HK].
  destruct Hr as [Hk1 Hbs]. rewrite (proj2 Hk1) in Hbs by done.
  unfold io_bind at 1, io_lift.
  destruct (reconcile (of_bytes bs) reference) as [[text added]|] eqn:Er; cbn [ok_or]; [|by apply HK].
  case_bool_decide; [by apply HK|].
  unfold io_bind. pose proof (write_over_keeps p text d Hp Hne d1 Hk1) as Hw.
  destruct (write_over p text d1) as [[[]|e] d2]; [|by apply HK].
  right. exists (of_bytes bs), text, added. destruct Hw as (_ & Hw & _).
  split_and!; [by rewrite as_of_bytes|exact Er|exact Hw].
Qed.
End files.
