(* ===== verification/Netself.v ===== *)
(** * [acryliusd/src/netself.rs]: how this machine may be woken

    The hardware addresses to put in a wake packet and where to aim it.  What
    the kernel shows under [/sys/class/net] and [/proc/net/route] is an
    argument. *)

From Stdlib Require Import Ascii.
From S2P Require Import Prelude Strs.
Local Open Scope N_scope.

(** What is read of one interface: whether it has a device behind it, and its
    address file. *)
Record Sys := mkSys {
  sys_names : list string;
  sys_device : string -> bool;
  sys_address : string -> option string;
}.

(** One line of the route table, if it is of a default route. *)
(* src: crates/acryliusd/src/netself.rs 65 75 default_route_interfaces *)
Definition default_route (line : string) : option (u32 * string) :=
  match split_words line with
  | iface :: destination :: cols =>
      if forallb (Ascii.eqb "0") (String.list_ascii_of_string destination)
      then Some (default 0 (cols !! 4%nat ≫= parse_uint u32_max), iface)
      else None
  | _ => None
  end.

Definition route_le (a b : u32 * string) : Prop :=
  a.1 < b.1 \/ (a.1 = b.1 /\ string_leb_prop a.2 b.2).
#[local] Instance route_le_dec a b : Decision (route_le a b).
Proof. unfold route_le, string_leb_prop. apply _. Defined.

(* src: crates/acryliusd/src/netself.rs 54 79 default_route_interfaces *)
Definition default_route_interfaces (table : option string) : list string :=
  match table with
  | None => []
  | Some table =>
      let found := omap default_route (drop 1 (str_split "010" table)) in
      map snd (merge_sort route_le found)
  end.

(* src: crates/acryliusd/src/netself.rs 81 96 hardware_mac *)
Definition hardware_mac (sys : Sys) (iface : string) : option string :=
  if (iface =s "lo") || negb (sys_device sys iface) then None
  else
    mac ← sys_address sys iface;
    let mac := str_lower (str_trim mac) in
    if (str_len mac =? 17) && (str_count ":" mac =? 5)%nat && negb (mac =s "00:00:00:00:00:00")
    then Some mac else None.

(** The loop over the interfaces. *)
(* src: crates/acryliusd/src/netself.rs 43 50 wakeable_macs *)
Fixpoint collect_macs (sys : Sys) (macs order : list string) : list string :=
  match order with
  | [] => macs
  | iface :: order =>
      match hardware_mac sys iface with
      | Some mac => collect_macs sys (if existsb (String.eqb mac) macs then macs else macs ++ [mac]) order
      | None => collect_macs sys macs order
      end
  end.

(* src: crates/acryliusd/src/netself.rs 23 52 wakeable_macs *)
Definition wakeable_macs (sys : Sys) (table : option string) : list string :=
  let order := default_route_interfaces table in
  let rest := List.filter (λ n, negb (existsb (String.eqb n) order)) (sys_names sys) in
  collect_macs sys [] (order ++ sort_unstable rest).

(* src: crates/acryliusd/src/netself.rs 98 110 broadcast_for *)
Definition broadcast_for (ipv4 : string) : string :=
  match str_split "." ipv4 with
  | [a; b; c; d] =>
      if forallb (λ p, if parse_uint 255 p then true else false) [a; b; c; d]
      then str_join "." [a; b; c; "255"%string]
      else "255.255.255.255"
  | _ => "255.255.255.255"
  end.

(** ** What is announced *)

Lemma existsb_eqb x l : existsb (String.eqb x) l = true <-> x ∈ l.
Proof.
  rewrite existsb_exists. split.
  - intros (y & Hy & ->%String.eqb_eq). by apply list_elem_of_In.
  - intros Hx. exists x. split; [by apply list_elem_of_In|apply String.eqb_refl].
Qed.

(** The address of some interface of a list. *)
Definition mac_of (sys : Sys) (ifaces : list string) (mac : string) : Prop :=
  ∃ iface, iface ∈ ifaces /\ hardware_mac sys iface = Some mac.

(** The loop adds, in order, what is not there yet. *)
Lemma collect_macs_spec sys order macs :
  NoDup macs -> ∃ new, collect_macs sys macs order = macs ++ new /\ NoDup (macs ++ new) /\
    ∀ m, m ∈ macs ++ new <-> m ∈ macs \/ mac_of sys order m.
Proof.
  revert macs. induction order as [|iface order IH]; intros macs Hnd.
  { exists []. rewrite app_nil_r. split_and!; [done|done|]. intros m. unfold mac_of. set_solver. }
  assert (∀ m, mac_of sys (iface :: order) m <-> hardware_mac sys iface = Some m \/ mac_of sys order m) as Hm.
  { intros m. unfold mac_of. split.
    - intros (i & [->|Hi]%elem_of_cons & E); [by left|right; eauto].
    - intros [E|(i & Hi & E)]; [exists iface|exists i]; set_solver. }
  cbn [collect_macs]. destruct (hardware_mac sys iface) as [mac|] eqn:E.
  - destruct (existsb (String.eqb mac) macs) eqn:Ex.
    + apply existsb_eqb in Ex. destruct (IH macs Hnd) as (new & -> & H1 & H2). exists new.
      split_and!; [done|done|]. intros m. rewrite H2, Hm. naive_solver.
    + assert (mac ∉ macs) as Hn by (rewrite <- existsb_eqb, Ex; done).
      destruct (IH (macs ++ [mac])) as (new & -> & H1 & H2).
      { apply NoDup_app. split_and!; [done| |apply NoDup_singleton]. set_solver. }
      exists (mac :: new). rewrite <- app_assoc in *. split_and!; [done|done|].
      intros m. rewrite H2, Hm. set_solver.
  - destruct (IH macs Hnd) as (new & -> & H1 & H2). exists new. split_and!; [done|done|].
    intros m. rewrite H2, Hm. naive_solver.
Qed.

Lemma collect_macs_app sys macs l k :
  collect_macs sys macs (l ++ k) = collect_macs sys (collect_macs sys macs l) k.
Proof. revert macs. induction l as [|i l IH]; intros macs; [done|]. cbn. destruct (hardware_mac sys i); apply IH. Qed.

(** A hardware address is seventeen characters in six groups, and not all zero. *)
Lemma hardware_mac_form sys iface mac :
  hardware_mac sys iface = Some mac ->
  str_len mac = 17 /\ str_count ":" mac = 5%nat /\ mac <> "00:00:00:00:00:00"%string /\
  iface <> "lo"%string /\ sys_device sys iface = true.
Proof.
  unfold hardware_mac. destruct (String.eqb_spec iface "lo") as [|Hlo]; [done|]. cbn [orb].
  destruct (sys_device sys iface); cbn [negb]; [|done].
  intros (a & _ & E)%bind_Some; cbn in E; revert E;
    match goal with |- context [str_lower (str_trim ?x)] => set (m := str_lower (str_trim x)) end;
    destruct (N.eqb_spec (str_len m) 17); cbn [andb]; try done;
    destruct (Nat.eqb_spec (str_count ":" m) 5); cbn [andb]; try done;
    destruct (String.eqb_spec m "00:00:00:00:00:00"); cbn [negb]; try done; by intros [= <-].
Qed.

(** The addresses announced are those of every interface with
    hardware behind it, each once, those of routed interfaces before the rest. *)
Theorem wakeable_macs_spec sys table :
  ∃ routed rest, wakeable_macs sys table = routed ++ rest /\ NoDup (routed ++ rest) /\
    (∀ m, m ∈ routed <-> mac_of sys (default_route_interfaces table) m) /\
    (∀ m, m ∈ rest -> mac_of sys (sys_names sys) m) /\
    (∀ m, mac_of sys (sys_names sys) m -> m ∈ routed ++ rest) /\
    ∀ m, m ∈ routed ++ rest -> str_len m = 17 /\ str_count ":" m = 5%nat.
Proof.
  unfold wakeable_macs. set (order := default_route_interfaces table).
  set (others := sort_unstable _). rewrite collect_macs_app.
  destruct (collect_macs_spec sys order [] (NoDup_nil_2)) as (routed & E1 & Hnd & Hr).
  cbn [app] in E1, Hnd, Hr. rewrite E1.
  destruct (collect_macs_spec sys others routed Hnd) as (rest & E2 & Hnd2 & Ho). rewrite E2.
  assert (∀ i, i ∈ others <-> i ∈ sys_names sys /\ i ∉ order) as Hi.
  { intros i. unfold others. rewrite elem_of_sort_unstable, list_elem_of_In, filter_In, <- list_elem_of_In.
    by rewrite negb_true_iff, <- not_true_iff_false, existsb_eqb. }
  assert (∀ m, m ∈ routed <-> mac_of sys order m) as Hr'.
  { intros m. rewrite Hr. split; [by intros [?%elem_of_nil|]|by right]. }
  exists routed, rest. split_and!; [done|done|done|..].
  - intros m Hm. assert (m ∈ routed ++ rest) as Hin by (apply elem_of_app; by right).
    apply Ho in Hin as [Hin|(i & [Hi1 _]%Hi & E)]; [|by exists i].
    apply NoDup_app in Hnd2 as (_ & Hd & _). by destruct (Hd m Hin).
  - intros m (i & Hin & E). apply Ho. destruct (decide (i ∈ order)) as [Hio|Hio].
    + left. apply Hr'. by exists i.
    + right. exists i. split; [by apply Hi|done].
  - intros m Hm. apply Ho in Hm as [Hm|(i & _ & E)].
    + apply Hr' in Hm as (i & _ & E). apply hardware_mac_form in E. naive_solver.
    + apply hardware_mac_form in E. naive_solver.
Qed.

(** An address of four numbers keeps its first three. *)
Lemma broadcast_for_spec a b c d :
  str_count "." a = 0%nat -> str_count "." b = 0%nat -> str_count "." c = 0%nat -> str_count "." d = 0%nat ->
  is_Some (parse_uint 255 a) -> is_Some (parse_uint 255 b) -> is_Some (parse_uint 255 c) ->
  is_Some (parse_uint 255 d) ->
  broadcast_for (str_join "." [a; b; c; d]) = str_join "." [a; b; c; "255"%string].
Proof.
  intros Ha Hb Hc Hd [? Ea] [? Eb] [? Ec] [? Ed]. unfold broadcast_for.
  rewrite str_split_join by (repeat constructor; done). cbn [forallb]. by rewrite Ea, Eb, Ec, Ed.
Qed.
