(* ===== verification/Ipc.v ===== *)
(** * [acryliusd/src/ipc.rs]: what travels over the control socket

    Requests, responses and reports, and how a report is worded.  [serde] puts
    them on the wire as JSON, a line each. *)

From Stdlib Require Import Ascii.
From S2P Require Import Prelude Vocab Strs Floats Utf8.
Local Open Scope N_scope.

(* src: crates/acryliusd/src/ipc.rs 7 75 Request *)
Inductive Request :=
| RStatus
| RPair
| RApprove
| RDeny
| RDevices
| RNearby
| RRevoke (device : string)
| RConnect (device : string) (addr : option string)
| RPing (device : string)
| RPairWith (addr : string)
| RSession (device action : string)
| RClipboard (device : string) (push : option string)
| RMedia (device action : string) (player : option string) (value : option Z)
| RCommands (device : string)
| RRun (device id : string)
| RSend (device path : string)
| ROffers
| RAnswer (transfer : u64) (accept : bool)
| RWake (device mac : string).

(* src: crates/acryliusd/src/ipc.rs 77 87 Status *)
Record Status := mkStatus {
  st_name : string; st_device_id : string; st_fingerprint : string; st_port : u16;
  st_peers : usize; st_caps_in : list string; st_caps_out : list string;
}.
(* src: crates/acryliusd/src/ipc.rs 89 97 Device *)
Record Device := mkDevice {
  dv_device_id : string; dv_name : string; dv_platform : string; dv_fingerprint : string;
  dv_reachable : bool;
}.
(* src: crates/acryliusd/src/ipc.rs 99 106 Confirmation *)
Record Confirmation := mkConfirmation { cf_name : string; cf_fingerprint : string; cf_sas : string }.
(* src: crates/acryliusd/src/ipc.rs 108 121 Nearby *)
Record Nearby := mkNearby {
  nb_fingerprint : string; nb_name : string; nb_addr : string; nb_transport : u16; nb_pairing : bool;
}.
(* src: crates/acryliusd/src/ipc.rs 213 226 Player *)
Record Player := mkPlayer {
  pl_id : string; pl_status : string; pl_title : string; pl_artist : string;
  pl_position_ms : u64; pl_length_ms : u64; pl_volume_percent : option u8;
  pl_can_control : bool; pl_active : bool;
}.
(* src: crates/acryliusd/src/ipc.rs 228 233 Command *)
Record Command := mkCommand { cm_id : string; cm_name : string }.

(* src: crates/acryliusd/src/ipc.rs 157 211 Report *)
Inductive Report :=
| Refused (code message : string)
| ReportSession (session_id kind : string) (locked : bool)
| SessionChanged (session_id : string) (was_locked locked : bool)
| ReportClipboard (text : string)
| ReportOffer (ty name : string) (size : u64)
| Transfer (transfer : u64) (ok : bool) (detail : string)
| ReportMedia (active : string) (players : list Player) (system_volume : option u8)
| ReportCommands (commands : list Command)
| ReportExited (code : Z) (truncated : bool)
| Opaque (ty : string) (n : usize).

(* src: crates/acryliusd/src/ipc.rs 123 155 Response *)
Inductive Response :=
| ROk
| RStatusIs (s : Status)
| RDevicesAre (devices : list Device)
| RNearbyAre (nearby : list Nearby)
| REvent (text : string)
| RReport (report : Report)
| RConfirm (name fingerprint sas : string)
| RError (message : string).

(** [format!("{n:02}")], [{:<w}]: padded to a number of characters. *)
Definition pad2 (n : N) : string := if n <? 10 then "0" +:+ fmt_u64 n else fmt_u64 n.
Fixpoint spaces (n : nat) : string :=
  match n with O => EmptyString | S n => String " " (spaces n) end.
Definition pad_right (w : nat) (s : string) : string := s +:+ spaces (w - length (chars s)).

(** [i32]'s and [i64]'s [Display]. *)
Definition fmt_int (z : Z) : string :=
  match z with
  | Z0 => "0"
  | Zpos p => fmt_u64 (Npos p)
  | Zneg p => "-" +:+ fmt_u64 (Npos p)
  end.

(* src: crates/acryliusd/src/ipc.rs 363 366 clock *)
Definition clock (ms : u64) : string :=
  let secs := ms / 1000 in
  fmt_u64 (secs / 60) +:+ ":" +:+ pad2 (secs mod 60).

(* src: crates/acryliusd/src/ipc.rs 342 346 short_transfer *)
Definition short_transfer (t : u64) : u64 := TransferId_short t.

(* src: crates/acryliusd/src/ipc.rs 287 308 Report::render *)
Definition render_player (p : Player) : string :=
  let dash := of_chars [0x20; 0x2014; 0x20] in
  (if pl_active p then "*" else " ") +:+ " " +:+ pad_right 12 (pl_id p) +:+ " "
  +:+ pad_right 8 (pl_status p) +:+ " " +:+ pl_title p
  +:+ (if pl_artist p =s "" then "" else dash +:+ pl_artist p)
  +:+ (if 0 <? pl_length_ms p
       then "  [" +:+ clock (pl_position_ms p) +:+ "/" +:+ clock (pl_length_ms p) +:+ "]" else "")
  +:+ match pl_volume_percent p with Some v => "  vol " +:+ fmt_u64 v +:+ "%" | None => "" end
  +:+ (if pl_can_control p then "" else "  (reports only)").

(* src: crates/acryliusd/src/ipc.rs 348 361 human *)
Definition human : u64 -> string := size_in ["KB"; "MB"; "GB"].

Definition locked_word (b : bool) : string := if b then "locked" else "unlocked".

(* src: crates/acryliusd/src/ipc.rs 236 340 Report::render *)
Definition render_report (r : Report) : string :=
  match r with
  | Refused code message => "refused: " +:+ message +:+ " (" +:+ code +:+ ")"
  | ReportSession id kind locked => "session " +:+ id +:+ " (" +:+ kind +:+ ") is " +:+ locked_word locked
  | SessionChanged id was locked =>
      "session " +:+ id +:+ " was " +:+ locked_word was +:+ " and is now " +:+ locked_word locked
  | ReportClipboard text => text
  | ReportOffer ty name size => ty +:+ " offers " +:+ name +:+ " (" +:+ human size +:+ ")"
  | Transfer transfer ok detail =>
      let n := fmt_u64 (short_transfer transfer) in
      if ok then "transfer " +:+ n +:+ " finished"
      else if detail =s "" then "transfer " +:+ n +:+ " was refused"
      else "transfer " +:+ n +:+ " failed: " +:+ detail
  | ReportMedia _ players system_volume =>
      match players with
      | [] => match system_volume with
              | Some v => "nothing is playing (output volume " +:+ fmt_u64 v +:+ "%)"
              | None => "nothing is playing"
              end
      | _ => str_join "010" (map render_player players ++
               match system_volume with
               | Some v => ["  " +:+ pad_right 12 "system" +:+ " " +:+ pad_right 8 "" +:+
                            " output volume " +:+ fmt_u64 v +:+ "%"]
               | None => []
               end)
      end
  | ReportCommands [] => "no commands offered"
  | ReportCommands commands => str_join "010" (map (λ c, cm_id c +:+ "  " +:+ cm_name c) commands)
  | ReportExited code truncated => "exit " +:+ fmt_int code +:+ (if truncated then " (output truncated)" else "")
  | Opaque ty n => ty +:+ " (" +:+ fmt_u64 n +:+ " bytes)"
  end.

(** A number somebody reads and types back names the transfer it was written
    for. *)
Lemma short_transfer_named t : written_as t (short_transfer t) = true.
Proof. unfold written_as, short_transfer. by rewrite N.eqb_refl, orb_true_r. Qed.
