(* ===== verification/Control.v ===== *)
(** * [acryliusd/src/control.rs]: the control socket

    What a line on the socket makes the daemon do.  A request sends events to
    the core, may then listen to what the core has to say until its patience
    runs out, and writes responses; what is heard is an argument, and how it
    ended.  JSON is [serde]'s, the metadata of a file the system's. *)

From Stdlib Require Import Ascii.
From S2P Require Import Prelude Externals B64 Ids Envelope Link Vocab Plugin Session Clipboard Media Command Share Wol Ping.
From S2P Require Import Strs Floats Utf8 Fs Files Ipc.
Local Open Scope N_scope.

(* src: crates/acrylius-proto/src/b64.rs 20 30 B64Error *)
Definition b64_error_text (e : B64Error) : string :=
  match e with
  | BadLength n => "base64url input has an impossible length (" +:+ fmt_u64 n +:+ " bytes)"
  | BadByte n => "base64url input contains a byte outside the alphabet at index " +:+ fmt_u64 n
  | NonCanonical => "base64url input has non-canonical trailing bits"
  | WrongSize expected actual =>
      "expected " +:+ fmt_u64 expected +:+ " decoded bytes, got " +:+ fmt_u64 actual
  end.

(* src: crates/acryliusd/src/control.rs 34 45 socket_path *)
Definition socket_path (state : path) (explicit_state : bool) (runtime_dir : option string) : path :=
  if explicit_state then path_join state "acrylius.sock"
  else path_join (match runtime_dir with Some d => components d | None => state end) "acrylius.sock".

(** ** What an event means to who waits *)

(* src: crates/acryliusd/src/control.rs 47 58 Verdict *)
Inductive Verdict :=
| VReply (ty : string) (body : bytes)
| VRefused (message : string)
| VGone
| VIgnore.

(* src: crates/acryliusd/src/control.rs 60 94 verdict *)
Definition verdict (e : UiEvent) (id : DeviceId) (cap : string) (expect : list string) : Verdict :=
  match e with
  | UiPlugin peer c ty body =>
      if bool_decide (peer = id) && (c =s cap) && existsb (String.eqb ty) expect
      then VReply ty body else VIgnore
  | UiError peer code detail =>
      if bool_decide (peer = Some id)
      then VRefused (detail +:+ " (" +:+ error_code_str code +:+ ")") else VIgnore
  | UiPeerUnreachable peer => if bool_decide (peer = id) then VGone else VIgnore
  | _ => VIgnore
  end.

(* src: crates/acryliusd/src/control.rs 96 112 about *)
Definition about (e : UiEvent) (who : DeviceId) : bool :=
  match e with
  | UiPeerReachable peer _ | UiPeerUnreachable peer | UiPlugin peer _ _ _ | UiPairingComplete peer _ =>
      bool_decide (peer = who)
  | UiError peer _ _ => bool_decide (peer = Some who)
  | UiDiscovered _ _ _ _ _ | UiUndiscovered _ | UiRevoked _ | UiPairingSas _ _ _ | UiPairingFailed _ => false
  end.

(* src: crates/acryliusd/src/control.rs 114 144 render *)
Definition render (e : UiEvent) : string :=
  let nl := String "010" EmptyString in
  match e with
  | UiPairingSas name fingerprint sas =>
      name +:+ " wants to pair" +:+ nl +:+ "  fingerprint " +:+ fp_str fingerprint +:+ nl
      +:+ "  code on both screens: " +:+ sas +:+ nl +:+ "  run `acryliusctl pair approve` if they match"
  | UiDiscovered _ name addr _ pairing =>
      "found " +:+ name +:+ " at " +:+ addr +:+ (if pairing then ", waiting to pair" else "")
  | UiUndiscovered fingerprint => fp_str fingerprint +:+ " has left the network"
  | UiPairingComplete peer name => "paired with " +:+ name +:+ " (" +:+ did_str peer +:+ ")"
  | UiRevoked peer => "forgot " +:+ did_str peer
  | UiPairingFailed reason => "pairing failed: " +:+ reason
  | UiPeerReachable peer name => name +:+ " (" +:+ did_str peer +:+ ") is reachable"
  | UiPeerUnreachable peer => did_str peer +:+ " is unreachable"
  | UiPlugin _ cap ty body => cap +:+ " " +:+ ty +:+ " (" +:+ fmt_u64 (len body) +:+ " bytes)"
  | UiError _ code detail => "error [" +:+ error_code_str code +:+ "]: " +:+ detail
  end.

(* src: crates/acryliusd/src/control.rs 146 155 Handles *)
Record Handles := mkHandles {
  h_transport : TransportId;
  h_bulk : option FileBulk;
  h_status : option Status;
  h_devices : list Device;
  h_nearby : list Nearby;
  h_pending_pair : option Confirmation;
}.
#[global] Instance Handles_eta : Eta Handles := λ h,
  mkHandles (h_transport h) (h_bulk h) (h_status h) (h_devices h) (h_nearby h) (h_pending_pair h).

(** What the receiver of the broadcast yields: events, or that it was closed or
    fell behind.  Where a list of these ends the waiting ends. *)
Inductive Heard := Ev (e : UiEvent) | Lost.

(** ** Decoding a reply *)

(* src: crates/acryliusd/src/control.rs 958 971 human *)
Definition human : u64 -> string := size_in ["KiB"; "MiB"; "GiB"; "TiB"].

Section control.
  Context `{!Sha256} `{!Cbor ErrorBody} `{!Cbor SessionState} `{!Cbor SessionOutcome} `{!Cbor ClipboardSet}.
  Context `{!Cbor Offer} `{!Cbor Finished} `{!Cbor MediaState} `{!Cbor MediaCommand} `{!Cbor CommandList}.
  Context `{!Cbor Exited} `{!Cbor RunRequest} `{!Cbor RelayRequest}.
  (** [{:?}] of a string. *)
  Context (quoted : string -> string).

(* src: crates/acryliusd/src/control.rs 873 886 report *)
Definition report_player (active : string) (p : MediaPlayer) : Player :=
  mkPlayer (mp_id p) (mp_status p) (mp_title p) (mp_artist p) (mp_position_ms p) (mp_length_ms p)
    (mp_volume_percent p) (mp_can_control p) (mp_id p =s active).

(** The cases of one capability, tried in order. *)
(* src: crates/acryliusd/src/control.rs 824 907 report *)
Definition report_known (cap ty : string) (body : bytes) : option Report :=
  if cap =s SESSION_CAP then
    match cbor_decode (T := SessionState) body with
    | Some s => Some (ReportSession (ss_session_id s) (ss_kind s) (ss_locked s))
    | None =>
        match cbor_decode (T := SessionOutcome) body with
        | Some o => Some (SessionChanged (so_session_id o) (so_was_locked o) (so_locked o))
        | None => None
        end
    end
  else if cap =s CLIPBOARD_CAP then
    (λ c, ReportClipboard (from_utf8_lossy (cs_data c))) <$> cbor_decode (T := ClipboardSet) body
  else if cap =s SHARE_CAP then
    match cbor_decode (T := Offer) body with
    | Some o => Some (ReportOffer ty (of_name o) (of_size o))
    | None => (λ f, Transfer (fin_transfer f) (fin_ok f) (fin_detail f)) <$> cbor_decode (T := Finished) body
    end
  else if cap =s MEDIA_CAP then
    (λ s, ReportMedia (ms_active s) (map (report_player (ms_active s)) (ms_players s)) (ms_system_volume s))
      <$> cbor_decode (T := MediaState) body
  else if cap =s COMMAND_CAP then
    match cbor_decode (T := CommandList) body with
    | Some l => Some (ReportCommands (map (λ c, mkCommand (ce_id c) (ce_name c)) (commands l)))
    | None => (λ e, ReportExited (ex_code e) (ex_truncated e)) <$> cbor_decode (T := Exited) body
    end
  else None.

(* src: crates/acryliusd/src/control.rs 806 912 report *)
Definition report (cap ty : string) (body : bytes) : Report :=
  if ty =s "err" then
    match cbor_decode (T := ErrorBody) body with
    | Some e => Refused (eb_code e) (eb_message e)
    | None => Refused "unknown" "refused"
    end
  else default (Opaque ty (len body)) (report_known cap ty body).

(** ** Asking a peer *)

(* src: crates/acryliusd/src/control.rs 713 721 Ask *)
Record Ask := mkAsk { a_cap : string; a_ty : string; a_body : bytes; a_expect : list string }.

Inductive Waited := Replied (ty : string) (body : bytes) | RefusedBy (message : string) | PeerGone | TimedOut.

(** The loop over the broadcast. *)
(* src: crates/acryliusd/src/control.rs 761 773 plugin_request *)
Fixpoint wait_for (id : DeviceId) (cap : string) (expect : list string) (heard : list Heard) : Waited :=
  match heard with
  | [] => TimedOut
  | Lost :: _ => PeerGone
  | Ev e :: heard =>
      match verdict e id cap expect with
      | VReply ty body => Replied ty body
      | VRefused m => RefusedBy m
      | VGone => PeerGone
      | VIgnore => wait_for id cap expect heard
      end
  end.

(** Events sent to the core, responses written. *)
Definition Outcome : Type := list Event * list Response.

(* src: crates/acryliusd/src/control.rs 723 804 plugin_request *)
Definition plugin_request (device : string) (ask : Ask) (heard : list Heard) : Outcome :=
  match DeviceId_parse device with
  | Err e => ([], [RError (b64_error_text e)])
  | Ok id =>
      ([Local (LocalPlugin id (a_cap ask) (a_ty ask) (a_body ask))],
       if bool_decide (a_expect ask = []) then [ROk]
       else match wait_for id (a_cap ask) (a_expect ask) heard with
            | Replied ty body => [RReport (report (a_cap ask) ty body)]
            | RefusedBy m => [RError m]
            | PeerGone => [RError "peer unreachable"]
            | TimedOut => [RError "timed out"]
            end)
  end.

(** ** Pairing *)

(* src: crates/acryliusd/src/control.rs 914 948 stream_pairing *)
Fixpoint stream_pairing (heard : list Heard) : list Response :=
  match heard with
  | [] | Lost :: _ => []
  | Ev e :: heard =>
      match e with
      | UiPairingSas name fingerprint sas => RConfirm name (fp_str fingerprint) sas :: stream_pairing heard
      | UiPairingComplete _ _ | UiPairingFailed _ => [REvent (render e)]
      | _ => REvent (render e) :: stream_pairing heard
      end
  end.

(* src: crates/acryliusd/src/control.rs 269 287 handle_conn *)
Definition on_pair (h : Handles) (heard : list Heard) : Outcome :=
  ([], match h_pending_pair h with
       | Some p => [RConfirm (cf_name p) (cf_fingerprint p) (cf_sas p)]
       | None => []
       end ++ stream_pairing heard).

(* src: crates/acryliusd/src/control.rs 314 321 handle_conn *)
Definition on_pair_with (addr : string) (h : Handles) (heard : list Heard) : Outcome :=
  ([Local (RequestPairing (h_transport h) addr)], stream_pairing heard).

(* src: crates/acryliusd/src/control.rs 298 313 handle_conn *)
Definition on_revoke (device : string) : Outcome :=
  match DeviceId_parse device with
  | Ok id => ([Local (Revoke id)], [ROk])
  | Err e => ([], [RError (b64_error_text e)])
  end.

(** ** Connecting and pinging *)

(* src: crates/acryliusd/src/control.rs 335 343 handle_conn *)
Fixpoint first_about (id : DeviceId) (heard : list Heard) : option UiEvent :=
  match heard with
  | [] | Lost :: _ => None
  | Ev e :: heard => if about e id then Some e else first_about id heard
  end.

(* src: crates/acryliusd/src/control.rs 322 366 handle_conn *)
Definition on_connect (device : string) (addr : option string) (h : Handles) (heard : list Heard) : Outcome :=
  match DeviceId_parse device with
  | Err e => ([], [RError (b64_error_text e)])
  | Ok id =>
      (match addr with
       | Some addr => [Local (SetPeerAddress id (h_transport h) addr)]
       | None => []
       end ++ [Local (Connect id)],
       match first_about id heard with
       | Some e => [REvent (render e)]
       | None => [RError "timed out"]
       end)
  end.

(* src: crates/acryliusd/src/control.rs 648 663 handle_conn *)
Fixpoint wait_pong (id : DeviceId) (heard : list Heard) : bool :=
  match heard with
  | [] | Lost :: _ => false
  | Ev (UiPlugin peer _ ty _) :: heard =>
      if bool_decide (peer = id) && (ty =s "pong") then true else wait_pong id heard
  | Ev (UiPeerUnreachable peer) :: heard => if bool_decide (peer = id) then false else wait_pong id heard
  | Ev _ :: heard => wait_pong id heard
  end.

(* src: crates/acryliusd/src/control.rs 637 694 handle_conn *)
Definition on_ping (device : string) (heard : list Heard) : Outcome :=
  match DeviceId_parse device with
  | Err e => ([], [RError (b64_error_text e)])
  | Ok id =>
      ([Local (LocalPlugin id PING_CAP "ping" (as_bytes "acryliusctl"))],
       if wait_pong id heard then [REvent "pong"] else [RError "no pong"])
  end.

(** ** Requests to a plugin *)

(* src: crates/acryliusd/src/control.rs 367 391 handle_conn *)
Definition on_session (device action : string) (heard : list Heard) : Outcome :=
  if negb (existsb (String.eqb action) ["query"; "lock"; "unlock"]%string)
  then ([], [RError (quoted action +:+ " is not query, lock or unlock")])
  else plugin_request device (mkAsk SESSION_CAP action [] ["state"; "result"; "err"]) heard.

(* src: crates/acryliusd/src/control.rs 392 416 handle_conn *)
Definition on_media (device action : string) (player : option string) (value : option i64)
    (heard : list Heard) : Outcome :=
  let body := to_vec_or_default (mkMediaCommand (default ""%string player) (default 0%Z value)) in
  plugin_request device (mkAsk MEDIA_CAP action body ["state"; "err"]) heard.

(* src: crates/acryliusd/src/control.rs 417 436 handle_conn *)
Definition on_clipboard (device : string) (push : option string) (heard : list Heard) : Outcome :=
  let '(ty, body) := match push with Some text => ("push"%string, as_bytes text) | None => ("get"%string, []) end in
  let expect := match push with Some _ => [] | None => ["set"; "err"]%string end in
  plugin_request device (mkAsk CLIPBOARD_CAP ty body expect) heard.

(* src: crates/acryliusd/src/control.rs 587 602 handle_conn *)
Definition on_commands (device : string) (heard : list Heard) : Outcome :=
  plugin_request device (mkAsk COMMAND_CAP "list" [] ["list"]) heard.
(* src: crates/acryliusd/src/control.rs 603 619 handle_conn *)
Definition on_run (device id : string) (heard : list Heard) : Outcome :=
  plugin_request device (mkAsk COMMAND_CAP "run" (to_vec_or_default (mkRunRequest id)) ["exited"; "err"]) heard.
(* src: crates/acryliusd/src/control.rs 620 636 handle_conn *)
Definition on_wake (device mac : string) (heard : list Heard) : Outcome :=
  plugin_request device (mkAsk WOL_CAP "relay" (to_vec_or_default (mkRelayRequest mac)) ["ok"; "err"]) heard.

(** ** Files *)

(** [meta] is what the system says of the path: whether it is a file, and its
    size, or an error's text. *)
(* src: crates/acryliusd/src/control.rs 437 509 handle_conn *)
Definition on_send (device p : string) (meta : result (bool * u64) string) (h : Handles) (heard : list Heard)
    : Outcome * Handles :=
  match h_bulk h with
  | None => ([], [RError "this machine has no download directory, so it sends nothing"], h)
  | Some f =>
      if negb (str_starts_with "/" p)
      then ([], [RError (p +:+ " is a relative path, and this daemon's directory is not yours")], h)
      else match meta with
      | Err e => ([], [RError (p +:+ ": " +:+ e)], h)
      | Ok (false, _) => ([], [RError (p +:+ " is not a file")], h)
      | Ok (true, size) =>
          let name := default "file"%string (file_name (components p)) in
          let '(offer, f) := FileBulk_offer (components p) size name "" f in
          let body := to_vec_or_default offer in
          (plugin_request device (mkAsk SHARE_CAP "offer" body ["finished"; "reject"; "err"]) heard,
           h <| h_bulk := Some f |>)
      end
  end.

(* src: crates/acryliusd/src/control.rs 511 533 handle_conn *)
Definition on_offers (h : Handles) : Outcome :=
  let lines := match h_bulk h with
               | Some f => map (λ o, pad_right 6 (fmt_u64 (TransferId_short (of_transfer o))) +:+ " " +:+
                                  pad_right 28 (of_name o) +:+ " " +:+ human (of_size o)) (FileBulk_pending f)
               | None => []
               end in
  ([], [REvent (match lines with [] => "nothing offered" | _ => str_join "010" lines end)]).

(* src: crates/acryliusd/src/control.rs 535 585 handle_conn *)
Definition on_answer (typed : u64) (accept : bool) (h : Handles) (heard : list Heard) : Outcome * Handles :=
  match h_bulk h with
  | None => ([], [RError "this machine receives no files"], h)
  | Some f =>
      match resolve f typed with
      | None => ([], [RError ("no offer numbered " +:+ fmt_u64 typed)], h)
      | Some t =>
          match peer_for f t with
          | None => ([], [RError ("no offer numbered " +:+ fmt_u64 typed)], h)
          | Some peer =>
              let body := to_vec_or_default (mkFinished t accept "") in
              let expect := if accept then ["finished"; "err"]%string else [] in
              let f := if accept then f else forget t f in
              (plugin_request peer (mkAsk SHARE_CAP (if accept then "accept" else "reject") body expect) heard,
               h <| h_bulk := Some f |>)
          end
      end
  end.

(** ** A request *)

(* src: crates/acryliusd/src/control.rs 223 296 handle_conn *)
Definition handle_request (req : Request) (meta : result (bool * u64) string) (h : Handles)
    (heard : list Heard) : Outcome * Handles :=
  match req with
  | RStatus => ([], [match h_status h with Some s => RStatusIs s | None => RError "starting" end], h)
  | RDevices => ([], [RDevicesAre (h_devices h)], h)
  | RNearby => ([], [RNearbyAre (h_nearby h)], h)
  | RPair => (on_pair h heard, h)
  | RApprove => ([Local (ConfirmPairing true)], [ROk], h)
  | RDeny => ([Local (ConfirmPairing false)], [ROk], h)
  | RRevoke device => (on_revoke device, h)
  | RPairWith addr => (on_pair_with addr h heard, h)
  | RConnect device addr => (on_connect device addr h heard, h)
  | RSession device action => (on_session device action heard, h)
  | RMedia device action player value => (on_media device action player value heard, h)
  | RClipboard device push => (on_clipboard device push heard, h)
  | RSend device p => on_send device p meta h heard
  | ROffers => (on_offers h, h)
  | RAnswer transfer accept => on_answer transfer accept h heard
  | RCommands device => (on_commands device heard, h)
  | RRun device id => (on_run device id heard, h)
  | RWake device mac => (on_wake device mac heard, h)
  | RPing device => (on_ping device heard, h)
  end.

(** One line of the connection; [parse] is [serde_json]'s. *)
(* src: crates/acryliusd/src/control.rs 227 243 handle_conn *)
Definition on_line (parse : string -> result Request string) (line : string)
    (meta : result (bool * u64) string) (h : Handles) (heard : list Heard) : Outcome * Handles :=
  if str_trim line =s "" then ([], [], h)
  else match parse line with
  | Err e => ([], [RError e], h)
  | Ok req => handle_request req meta h heard
  end.

(** ** Whose answer is whose *)

(** What a request waiting for [id] passes over. *)
Definition passed_over (id : DeviceId) (cap : string) (expect : list string) (h : Heard) : Prop :=
  ∃ e, h = Ev e /\ verdict e id cap expect = VIgnore.

Lemma verdict_spec e id cap expect :
  match verdict e id cap expect with
  | VReply ty body => e = UiPlugin id cap ty body /\ ty ∈ expect
  | VRefused _ => ∃ code detail, e = UiError (Some id) code detail
  | VGone => e = UiPeerUnreachable id
  | VIgnore => True
  end.
Proof.
  destruct e as [| | | | | | |peer|peer c ty body|peer code detail]; cbn [verdict]; try done.
  - by case_bool_decide; subst.
  - case_bool_decide as Ep; cbn [andb]; [|done]. subst peer.
    destruct (String.eqb_spec c cap) as [->|]; cbn [andb]; [|done].
    destruct (existsb (String.eqb ty) expect) eqn:Ex; [|done]. split; [done|].
    apply existsb_exists in Ex as (y & Hy & ->%String.eqb_eq). by apply list_elem_of_In.
  - case_bool_decide; [|done]. subst peer. eauto.
Qed.

(** Where the waiting ends: at the first event that is not passed over. *)
Lemma wait_for_first id cap expect heard :
  ∃ pre post, heard = pre ++ post /\ Forall (passed_over id cap expect) pre /\
    match wait_for id cap expect heard with
    | Replied ty body => head post = Some (Ev (UiPlugin id cap ty body)) /\ ty ∈ expect
    | RefusedBy _ => ∃ code detail, head post = Some (Ev (UiError (Some id) code detail))
    | PeerGone => head post = Some (Ev (UiPeerUnreachable id)) \/ head post = Some Lost
    | TimedOut => post = []
    end.
Proof.
  induction heard as [|[e|] heard IH]; [by exists [], []| |by exists [], (Lost :: heard); cbn; eauto].
  cbn [wait_for]. pose proof (verdict_spec e id cap expect) as Hv.
  destruct (verdict e id cap expect) as [ty body|m| |] eqn:E.
  - destruct Hv as [-> Hty]. by exists [], (Ev (UiPlugin id cap ty body) :: heard).
  - destruct Hv as (code & detail & ->). exists [], (Ev (UiError (Some id) code detail) :: heard).
    split_and!; [done|done|]. by exists code, detail.
  - subst e. exists [], (Ev (UiPeerUnreachable id) :: heard). cbn. eauto.
  - destruct IH as (pre & post & -> & Hp & Hw). exists (Ev e :: pre), post. split_and!; [done| |done].
    constructor; [by exists e|done].
Qed.

(** C29 (safety): What a request reports as a peer's answer was said by that peer, of
    that capability and under one of the verbs the request waits for, and
    nothing before it settled the matter: no other device, no other plugin and
    no unsolicited message answers for it. *)
Theorem reply_is_the_peers device ask heard r :
  RReport r ∈ (plugin_request device ask heard).2 ->
  ∃ id ty body pre post, DeviceId_parse device = Ok id /\
    heard = pre ++ Ev (UiPlugin id (a_cap ask) ty body) :: post /\ ty ∈ a_expect ask /\
    Forall (passed_over id (a_cap ask) (a_expect ask)) pre /\ r = report (a_cap ask) ty body.
Proof.
  unfold plugin_request. destruct (DeviceId_parse device) as [id|e]; cbn [snd];
    [|by intros Hr%list_elem_of_singleton].
  case_bool_decide; [by intros Hr%list_elem_of_singleton|].
  destruct (wait_for_first id (a_cap ask) (a_expect ask) heard) as (pre & post & -> & Hp & Hw).
  destruct (wait_for _ _ _ _) as [ty body|m| |]; intros Hr%list_elem_of_singleton; try done.
  injection Hr as ->. destruct post as [|x post]; [by destruct Hw|]. destruct Hw as [[= ->] Hty].
  by exists id, ty, body, pre, post.
Qed.

(** ** A request and what follows from it *)

Lemma plugin_request_one device ask heard : length (plugin_request device ask heard).2 = 1%nat.
Proof.
  unfold plugin_request. destruct (DeviceId_parse device); [|done]. cbn.
  case_bool_decide; [done|]. by destruct (wait_for _ _ _ _).
Qed.

(** Every request but those that wait for a pairing is answered by
    exactly one line, whatever is heard; a pairing is followed until the first
    event that ends it, and no further. *)
Theorem answered_once req meta h heard :
  match req with
  | RPair | RPairWith _ =>
      ∀ pre e post, heard = pre ++ Ev e :: post ->
        (∃ peer name, e = UiPairingComplete peer name) \/ (∃ reason, e = UiPairingFailed reason) ->
        (handle_request req meta h heard).1.2 = (handle_request req meta h (pre ++ [Ev e])).1.2
  | _ => length (handle_request req meta h heard).1.2 = 1%nat
  end.
Proof.
  assert (∀ pre e post, (∃ peer name, e = UiPairingComplete peer name) \/ (∃ reason, e = UiPairingFailed reason) ->
    stream_pairing (pre ++ Ev e :: post) = stream_pairing (pre ++ [Ev e])) as Hs.
  { intros pre e post He. induction pre as [|[x|] pre IH]; [|by destruct x; cbn; rewrite ?IH|done].
    by destruct He as [(? & ? & ->)|(? & ->)]. }
  destruct req; cbn [handle_request fst snd]; try done; try apply plugin_request_one.
  - intros pre e post -> He. unfold on_pair. cbn. by rewrite Hs.
  - unfold on_revoke. by destruct (DeviceId_parse device).
  - unfold on_connect. destruct (DeviceId_parse device); [|done]. cbn. by destruct (first_about _ _).
  - unfold on_ping. destruct (DeviceId_parse device); [|done]. cbn. by destruct (wait_pong _ _).
  - intros pre e post -> He. by apply Hs.
  - unfold on_session. destruct (negb _); [done|apply plugin_request_one].
  - unfold on_clipboard. destruct push; apply plugin_request_one.
  - unfold on_send. destruct (h_bulk h); [|done]. destruct (negb _); [done|].
    destruct meta as [[[] size]|e]; [|done..]. destruct (FileBulk_offer _ _ _ _ _). cbn [fst].
    apply plugin_request_one.
  - unfold on_answer. destruct (h_bulk h) as [f|]; [|done]. destruct (resolve f transfer) as [t|]; [|done].
    destruct (peer_for f t); [|done]. apply plugin_request_one.
Qed.

Lemma plugin_request_sends device ask heard ev :
  ev ∈ (plugin_request device ask heard).1 ->
  ∃ id, DeviceId_parse device = Ok id /\ ev = Local (LocalPlugin id (a_cap ask) (a_ty ask) (a_body ask)).
Proof.
  unfold plugin_request. destruct (DeviceId_parse device) as [id|e]; [|by intros ?%elem_of_nil].
  intros ->%list_elem_of_singleton. by exists id.
Qed.

(** A pairing is confirmed only by asking for just that, and a device
    forgotten only by naming it: nothing else that can be put on the socket
    touches what this machine trusts. *)
Theorem trust_needs_its_verb req meta h heard ev :
  ev ∈ (handle_request req meta h heard).1.1 ->
  match ev with
  | Local (ConfirmPairing true) => req = RApprove
  | Local (ConfirmPairing false) => req = RDeny
  | Local (Revoke id) => ∃ device, req = RRevoke device /\ DeviceId_parse device = Ok id
  | Local _ => True
  | _ => False
  end.
Proof.
  assert (∀ device ask, ev ∈ (plugin_request device ask heard).1 ->
    ∃ id, ev = Local (LocalPlugin id (a_cap ask) (a_ty ask) (a_body ask))) as Hp.
  { intros device ask (id & _ & ->)%plugin_request_sends. by exists id. }
  destruct req; cbn [handle_request fst snd];
    try (by intros ?%elem_of_nil); try (by intros ->%list_elem_of_singleton);
    try (by intros (? & ->)%Hp).
  - unfold on_revoke. destruct (DeviceId_parse device) eqn:E; cbn; [|by intros ?%elem_of_nil].
    intros ->%list_elem_of_singleton. by exists device.
  - unfold on_connect. destruct (DeviceId_parse device); cbn; [|by intros ?%elem_of_nil].
    destruct addr; cbn; rewrite ?elem_of_cons, elem_of_nil; naive_solver.
  - unfold on_ping. destruct (DeviceId_parse device); cbn; [|by intros ?%elem_of_nil].
    by intros ->%list_elem_of_singleton.
  - unfold on_session. destruct (negb _); [by intros ?%elem_of_nil|by intros (? & ->)%Hp].
  - unfold on_clipboard. destruct push; by intros (? & ->)%Hp.
  - unfold on_send. destruct (h_bulk h); [|by intros ?%elem_of_nil].
    destruct (negb _); [by intros ?%elem_of_nil|].
    destruct meta as [[[] size]|e]; [|by intros ?%elem_of_nil..]. destruct (FileBulk_offer _ _ _ _ _).
    by intros (? & ->)%Hp.
  - unfold on_answer. destruct (h_bulk h) as [f|]; [|by intros ?%elem_of_nil].
    destruct (resolve f transfer) as [t|]; [|by intros ?%elem_of_nil].
    destruct (peer_for f t); [|by intros ?%elem_of_nil]. by intros (? & ->)%Hp.
Qed.

Lemma components_no_slash p n : n ∈ components p -> str_count "/" n = 0%nat.
Proof.
  unfold components. intros [Hn _]%list_elem_of_In%filter_In.
  pose proof (str_split_pieces "/" p) as Hp. rewrite Forall_forall in Hp.
  apply Hp. by apply list_elem_of_In.
Qed.

(** Sending a file tells the peer a name without directories, a size and
    a number; the path stays here, under that number, in the files on offer. *)
Theorem send_names_only device p meta h heard ev :
  ev ∈ (on_send device p meta h heard).1.1 ->
  ∃ id f offer size f', DeviceId_parse device = Ok id /\ h_bulk h = Some f /\ meta = Ok (true, size) /\
    ev = Local (LocalPlugin id SHARE_CAP "offer" (to_vec_or_default offer)) /\
    str_count "/" (of_name offer) = 0%nat /\ of_size offer = size /\ of_transfer offer = fb_next f +u64 1 /\
    h_bulk (on_send device p meta h heard).2 = Some f' /\ fb_outgoing f' !! of_transfer offer = Some (components p).
Proof.
  unfold on_send. destruct (h_bulk h) as [f|]; [|by intros ?%elem_of_nil].
  destruct (negb _); [by intros ?%elem_of_nil|].
  destruct meta as [[[] size]|e]; [|by intros ?%elem_of_nil..].
  destruct (FileBulk_offer _ _ _ _ _) as [offer f'] eqn:E. cbn [fst snd].
  intros (id & Ed & ->)%plugin_request_sends. unfold FileBulk_offer in E. injection E as <- <-.
  eexists id, f, _, size, _. split_and!; try done; [|cbn; by rewrite lookup_insert_eq].
  cbn [of_name]. destruct (file_name (components p)) as [n|] eqn:En; [|done]. cbn.
  apply named_last in En as [En _]. apply (components_no_slash p).
  apply last_Some in En as [l ->]. apply elem_of_app. right. by left.
Qed.

(** Answering an offer, by either number it goes by, tells the device
    that made it, of that transfer; a refused offer is forgotten. *)
Theorem answer_goes_to_its_maker typed accept h heard ev :
  ev ∈ (on_answer typed accept h heard).1.1 ->
  ∃ f t peer offer id, h_bulk h = Some f /\ fb_offers f !! t = Some (peer, offer) /\
    written_as t typed = true /\ DeviceId_parse peer = Ok id /\
    ev = Local (LocalPlugin id SHARE_CAP (if accept then "accept" else "reject")
           (to_vec_or_default (mkFinished t accept ""))) /\
    h_bulk (on_answer typed accept h heard).2 = Some (if accept then f else forget t f).
Proof.
  unfold on_answer. destruct (h_bulk h) as [f|]; [|by intros ?%elem_of_nil].
  pose proof (resolve_spec f typed) as Hr. destruct (resolve f typed) as [t|]; [|by intros ?%elem_of_nil].
  destruct Hr as ([[pe offer] Ho] & Hw & _). unfold peer_for. rewrite Ho. cbn.
  intros (id & Ed & ->)%plugin_request_sends. by exists f, t, pe, offer, id.
Qed.
End control.
