(* ===== verification/TouchDevice.v ===== *)
(** * [acrylius-linux/src/touchpad.rs]: a virtual multitouch touchpad

    Which kernel slot holds which finger, the events of a frame, and the
    effector that owns the device.  The device itself is the kernel's: what is
    written to it is a list of events, and creating it may fail; at the end is how it
    is declared, and that nothing a frame writes is outside that: an event of an
    axis or a key that was not declared would be dropped without a word.  What a reader
    of those events sees is the multitouch protocol's ("type B" slots). *)

From S2P Require Import Prelude Vocab.
Local Open Scope N_scope.

(** ** Events *)

(** [input_linux]'s axes and keys, those used. *)
Inductive Axis := AxisX | AxisY | MtSlot | MtTrackingId | MtPositionX | MtPositionY.
Inductive Key := ButtonTouch | ToolFinger | ToolDoubleTap | ToolTripleTap | ToolQuadtap | ToolQuintTap.

(** An event's kind and code together, and its value ([i32]). *)
(* src: crates/acrylius-linux/src/touchpad.rs 21 50 Ev *)
Inductive Ev := EvAbs (a : Axis) (value : Z) | EvKey (k : Key) (value : Z) | SynReport.

(* src: crates/acrylius-linux/src/touchpad.rs 19 19 SLOTS *)
Definition SLOTS : nat := 10.
(* src: crates/acrylius-linux/src/touchpad.rs 170 176 TOOL_KEYS *)
Definition TOOL_KEYS : list Key := [ToolFinger; ToolDoubleTap; ToolTripleTap; ToolQuadtap; ToolQuintTap].

(* src: crates/acrylius-linux/src/touchpad.rs 54 58 Slots *)
Record Slots := mkSlots { held : list (option u8); next_tracking : Z }.
(* src: crates/acrylius-linux/src/touchpad.rs 60 67 Slots::default *)
Definition Slots_default : Slots := mkSlots (replicate SLOTS None) 1.

(** [i32::wrapping_add(1)], then never zero or below. *)
(* src: crates/acrylius-linux/src/touchpad.rs 121 121 Slots::frame *)
Definition next_id (n : Z) : Z :=
  Z.max 1 (if (n =? 2147483647)%Z then -2147483648 else n + 1).

(** [iter().position]. *)
Fixpoint position {A} (p : A -> bool) (l : list A) : option nat :=
  match l with
  | [] => None
  | x :: l => if p x then Some 0%nat else S <$> position p l
  end.

(* src: crates/acrylius-linux/src/touchpad.rs 77 92 Slots::frame *)
Fixpoint lift (slot : nat) (points : list TouchPoint) (held : list (option u8))
    : list Ev * list (option u8) :=
  match held with
  | [] => ([], [])
  | h :: rest =>
      let '(evs, rest) := lift (S slot) points rest in
      match h with
      | Some id =>
          if existsb (λ p, tp_id p =? id) points then (evs, Some id :: rest)
          else (EvAbs MtSlot (Z.of_nat slot) :: EvAbs MtTrackingId (-1) :: evs, None :: rest)
      | None => (evs, None :: rest)
      end
  end.

Definition holds_id (id : u8) (h : option u8) : bool := bool_decide (h = Some id).
Definition is_free (h : option u8) : bool := bool_decide (h = None).

(* src: crates/acrylius-linux/src/touchpad.rs 95 132 Slots::frame *)
Definition place (p : TouchPoint) (s : Slots) : list Ev * Slots :=
  let at_ (slot : nat) (evs : list Ev) :=
    EvAbs MtSlot (Z.of_nat slot) :: evs ++
      [EvAbs MtPositionX (Z.of_N (tp_x p)); EvAbs MtPositionY (Z.of_N (tp_y p))] in
  match position (holds_id (tp_id p)) (held s) with
  | Some slot => (at_ slot [], s)
  | None =>
      match position is_free (held s) with
      | Some slot =>
          (at_ slot [EvAbs MtTrackingId (next_tracking s)],
           mkSlots (<[slot := Some (tp_id p)]> (held s)) (next_id (next_tracking s)))
      | None => ([], s)
      end
  end.
Fixpoint place_all (points : list TouchPoint) (s : Slots) : list Ev * Slots :=
  match points with
  | [] => ([], s)
  | p :: points =>
      let '(e1, s) := place p s in
      let '(e2, s) := place_all points s in
      (e1 ++ e2, s)
  end.

(** The single-touch axes, the buttons and the report. *)
(* src: crates/acrylius-linux/src/touchpad.rs 135 161 Slots::frame *)
Definition summary (points : list TouchPoint) (held : list (option u8)) : list Ev :=
  let down := length (List.filter (λ h, negb (is_free h)) held) in
  let single :=
    match position (λ h, negb (is_free h)) held with
    | Some first =>
        match find (λ p, bool_decide (held !! first = Some (Some (tp_id p)))) points with
        | Some p => [EvAbs AxisX (Z.of_N (tp_x p)); EvAbs AxisY (Z.of_N (tp_y p))]
        | None => []
        end
    | None => []
    end in
  let capped := Nat.min down (length TOOL_KEYS) in
  single ++ [EvKey ButtonTouch (if (0 <? down)%nat then 1 else 0)]
  ++ imap (λ n k, EvKey k (if (capped =? n + 1)%nat then 1 else 0)) TOOL_KEYS
  ++ [SynReport].

(* src: crates/acrylius-linux/src/touchpad.rs 72 162 Slots::frame *)
Definition frame (points : list TouchPoint) (s : Slots) : list Ev * Slots :=
  let '(lifted, held') := lift 0 points (held s) in
  let '(placed, s) := place_all points (mkSlots held' (next_tracking s)) in
  (lifted ++ placed ++ summary points (held s), s).

(* src: crates/acrylius-linux/src/touchpad.rs 165 167 Slots::release_all *)
Definition release_all (s : Slots) : list Ev * Slots := frame [] s.

(** ** The effector *)

(** An open device: what was written to it, and its slots. *)
(* src: crates/acrylius-linux/src/touchpad.rs 185 188 Device *)
Record TouchpadDevice := mkTouchpadDevice { written : list Ev; slots : Slots }.
(* src: crates/acrylius-linux/src/touchpad.rs 261 264 Device::create *)
Definition Device_create : TouchpadDevice := mkTouchpadDevice [] Slots_default.
(** [i32::from(_).max(1)] divides the axis's range. *)
(* src: crates/acrylius-linux/src/touchpad.rs 218 221 Device::create *)
Definition resolution (mm : u16) : Z := Z.quot 65535 (Z.of_N (N.max mm 1)).
(** A write to the device may fail; the slots have moved on all the same. *)
(* src: crates/acrylius-linux/src/touchpad.rs 266 275 Device::apply *)
Definition Device_apply (points : list TouchPoint) (ok : bool) (d : TouchpadDevice)
    : result unit string * TouchpadDevice :=
  let '(evs, s) := frame points (slots d) in
  if ok then (Ok tt, mkTouchpadDevice (written d ++ evs) s)
  else (Err "io"%string, mkTouchpadDevice (written d) s).

(* src: crates/acrylius-linux/src/touchpad.rs 291 295 should_apply *)
Definition should_apply (last_applied order : u32) : bool := last_applied <? order.

(* src: crates/acrylius-linux/src/touchpad.rs 304 308 State *)
Record PadState := mkPadState {
  pad_open : option ((u16 * u16) * TouchpadDevice);
  last_applied : u32;
}.
#[global] Instance PadState_eta : Eta PadState := λ s, mkPadState (pad_open s) (last_applied s).
Definition PadState_default : PadState := mkPadState None 0.

(** [ok] is whether the kernel does what it is asked this time. *)
(* src: crates/acrylius-linux/src/touchpad.rs 310 343 TouchpadEffector::run *)
Definition pad_run (order : u32) (op : TouchpadOp) (ok : bool) (s : PadState) : result unit string * PadState :=
  if negb (should_apply (last_applied s) order) then (Ok tt, s)
  else
    let s := s <| last_applied := order |> in
    match op with
    | TBegin w h =>
        if match pad_open s with Some (dims, _) => negb (bool_decide (dims = (w, h))) | None => true end
        then if ok then (Ok tt, s <| pad_open := Some ((w, h), Device_create) |>) else (Err "io"%string, s)
        else (Ok tt, s)
    | TFrame points =>
        match pad_open s with
        | Some (dims, d) =>
            let '(r, d) := Device_apply points ok d in (r, s <| pad_open := Some (dims, d) |>)
        | None => (Ok tt, s)
        end
    | TEnd => (Ok tt, s <| pad_open := None |>)
    end.

(** ** What a reader sees *)

(** The slot in use, and each slot's contact: its tracking id and position. *)
Record View := mkView { cur : Z; contacts : gmap nat (Z * Z * Z) }.
Definition see (e : Ev) (v : View) : View :=
  let at_cur f := mkView (cur v) (alter f (Z.to_nat (cur v)) (contacts v)) in
  match e with
  | EvAbs MtSlot n => mkView n (contacts v)
  | EvAbs MtTrackingId t =>
      if (t <? 0)%Z then mkView (cur v) (delete (Z.to_nat (cur v)) (contacts v))
      else mkView (cur v) (<[Z.to_nat (cur v) := (t, 0, 0)%Z]> (contacts v))
  | EvAbs MtPositionX x => at_cur (λ '(t, _, y), (t, x, y))
  | EvAbs MtPositionY y => at_cur (λ '(t, x, _), (t, x, y))
  | _ => v
  end.
Definition see_all (evs : list Ev) (v : View) : View := fold_left (λ v e, see e v) evs v.

(** Slots and contacts are of the same fingers. *)
Definition Agrees (held : list (option u8)) (v : View) : Prop :=
  ∀ slot, is_Some (contacts v !! slot) <-> ∃ id, held !! slot = Some (Some id).

Record Sound_slots (s : Slots) : Prop := {
  sl_length : length (held s) = SLOTS;
  sl_once slot slot' id : held s !! slot = Some (Some id) -> held s !! slot' = Some (Some id) -> slot = slot';
  sl_next : (1 <= next_tracking s)%Z;
}.

Lemma Slots_default_sound : Sound_slots Slots_default.
Proof.
  split; [done| |done]. intros slot slot' id H. cbn [held Slots_default] in H.
  apply lookup_replicate in H as [? _]. done.
Qed.

Lemma see_all_app a b v : see_all (a ++ b) v = see_all b (see_all a v).
Proof. apply fold_left_app. Qed.

Lemma next_id_pos n : (1 <= next_id n)%Z.
Proof. unfold next_id. lia. Qed.

Lemma position_Some {A} (p : A -> bool) l i :
  position p l = Some i -> ∃ x, l !! i = Some x /\ p x = true.
Proof.
  revert i. induction l as [|x l IH]; intros i; [done|]. cbn. destruct (p x) eqn:E.
  - intros [= <-]. by exists x.
  - intros (j & Hj & ->)%fmap_Some. by apply IH.
Qed.

Lemma position_None {A} (p : A -> bool) l x : position p l = None -> x ∈ l -> p x = false.
Proof.
  induction l as [|y l IH]; [by intros _ ?%elem_of_nil|]. cbn. destruct (p y) eqn:E; [done|].
  intros Hn%fmap_None [->|Hx]%elem_of_cons; [done|by apply IH].
Qed.

(** ** Lifting *)

Lemma lift_held slot points h :
  (lift slot points h).2 = map (λ x, match x with
    | Some id => if existsb (λ p, tp_id p =? id) points then Some id else None
    | None => None
    end) h.
Proof.
  revert slot. induction h as [|x h IH]; intros slot; [done|]. cbn [lift map].
  specialize (IH (S slot)). destruct (lift (S slot) points h) as [evs rest]. cbn in IH. subst rest.
  by destruct x as [id|]; [destruct (existsb _ _)|].
Qed.

Definition goes (points : list TouchPoint) (h : list (option u8)) (n : nat) : bool :=
  match h !! n with Some (Some id) => negb (existsb (λ p, tp_id p =? id) points) | _ => false end.

(** Contacts after lifting: those of the fingers that stay. *)
Lemma lift_view slot points h v k :
  contacts (see_all (lift slot points h).1 v) !! k =
    if (slot <=? k)%nat && goes points h (k - slot) then None else contacts v !! k.
Proof.
  revert slot v. induction h as [|x h IH]; intros slot v; [by destruct (slot <=? k)%nat|]. cbn [lift].
  specialize (IH (S slot)). destruct (lift (S slot) points h) as [evs rest]. cbn [fst] in IH.
  assert (∀ v', contacts (see_all evs v') !! k =
    if (slot <? k)%nat && goes points (x :: h) (k - slot) then None else contacts v' !! k) as Hr.
  { intros v'. rewrite IH. unfold goes. replace (S slot <=? k)%nat with (slot <? k)%nat by done.
    destruct (Nat.ltb_spec slot k); cbn [andb]; [|done].
    by replace (k - slot)%nat with (S (k - S slot)) by lia. }
  destruct (Nat.lt_trichotomy slot k) as [Hk|[->|Hk]].
  - replace (slot <=? k)%nat with true by (symmetry; apply Nat.leb_le; lia).
    replace (slot <? k)%nat with true in Hr by (symmetry; apply Nat.ltb_lt; lia).
    destruct x as [id|]; [|apply Hr]. destruct (existsb (λ p, tp_id p =? id) points); [apply Hr|].
    cbn [fst]. change (see_all (EvAbs MtSlot (Z.of_nat slot) :: EvAbs MtTrackingId (-1) :: evs) v)
      with (see_all evs (mkView (Z.of_nat slot) (delete (Z.to_nat (Z.of_nat slot)) (contacts v)))).
    rewrite Hr. cbn [andb].
    destruct (goes points (Some id :: h) (k - slot)); [done|]. cbn. by rewrite lookup_delete_ne by lia.
  - rewrite Nat.leb_refl, Nat.sub_diag. cbn [andb].
    replace (k <? k)%nat with false in Hr by (symmetry; apply Nat.ltb_ge; lia). cbn [andb] in Hr.
    unfold goes. cbn [lookup list_lookup]. destruct x as [id|]; [|apply Hr].
    destruct (existsb (λ p, tp_id p =? id) points); [apply Hr|]. cbn [fst negb].
    change (see_all (EvAbs MtSlot (Z.of_nat k) :: EvAbs MtTrackingId (-1) :: evs) v)
      with (see_all evs (mkView (Z.of_nat k) (delete (Z.to_nat (Z.of_nat k)) (contacts v)))).
    rewrite Hr. cbn. by rewrite Nat2Z.id, lookup_delete_eq.
  - replace (slot <=? k)%nat with false by (symmetry; apply Nat.leb_gt; lia).
    replace (slot <? k)%nat with false in Hr by (symmetry; apply Nat.ltb_ge; lia). cbn [andb] in Hr |- *.
    destruct x as [id|]; [|apply Hr]. destruct (existsb (λ p, tp_id p =? id) points); [apply Hr|].
    cbn [fst]. change (see_all (EvAbs MtSlot (Z.of_nat slot) :: EvAbs MtTrackingId (-1) :: evs) v)
      with (see_all evs (mkView (Z.of_nat slot) (delete (Z.to_nat (Z.of_nat slot)) (contacts v)))).
    rewrite Hr. cbn. by rewrite lookup_delete_ne by lia.
Qed.

Lemma held_after_lift points h n :
  (lift 0 points h).2 !! n = if goes points h n then Some None else h !! n.
Proof.
  rewrite lift_held, list_lookup_fmap. unfold goes. destruct (h !! n) as [[id|]|]; [|done..]. cbn.
  by destruct (existsb _ _).
Qed.

Lemma lift_agrees points h v :
  Agrees h v -> Agrees (lift 0 points h).2 (see_all (lift 0 points h).1 v).
Proof.
  intros HA n. rewrite lift_view, held_after_lift, Nat.sub_0_r. cbn [Nat.leb andb].
  destruct (goes points h n); [|apply HA]. split; [by intros [? ?]|]. by intros [? ?].
Qed.

(** ** Placing *)

(** The slot a finger is in, once placed; [None] when there is none for it. *)
Definition slot_for (p : TouchPoint) (h : list (option u8)) : option nat :=
  match position (holds_id (tp_id p)) h with
  | Some s => Some s
  | None => position is_free h
  end.

(** A finger is at its point in the slot that is its own; no other contact
    changed, and it kept its tracking id if it had one. *)
Lemma place_view p s v slot :
  Sound_slots s -> Agrees (held s) v -> slot_for p (held s) = Some slot ->
  let '(evs, s') := place p s in let v' := see_all evs v in
  Sound_slots s' /\ Agrees (held s') v' /\
  held s' !! slot = Some (Some (tp_id p)) /\
  (∃ t, contacts v' !! slot = Some (t, Z.of_N (tp_x p), Z.of_N (tp_y p)) /\
    ∀ t0 x y, contacts v !! slot = Some (t0, x, y) -> t = t0) /\
  (∀ k, k <> slot -> contacts v' !! k = contacts v !! k /\ held s' !! k = held s !! k).
Proof.
  intros [Hl Ho Hn] HA Hs. unfold slot_for in Hs. unfold place.
  destruct (position (holds_id (tp_id p)) (held s)) as [i|] eqn:Ei.
  - injection Hs as ->. apply position_Some in Ei as (h & Hh & Hp%bool_decide_eq_true). subst h.
    destruct (proj2 (HA slot)) as [[[t x] y] Hc]; [by eexists|].
    assert (see_all (EvAbs MtSlot (Z.of_nat slot) :: [] ++
        [EvAbs MtPositionX (Z.of_N (tp_x p)); EvAbs MtPositionY (Z.of_N (tp_y p))]) v
      = mkView (Z.of_nat slot) (<[slot := (t, Z.of_N (tp_x p), Z.of_N (tp_y p))]> (contacts v))) as ->.
    { cbn. rewrite Nat2Z.id. f_equal. apply map_eq. intros k. destruct (decide (k = slot)) as [->|Hk].
      - by rewrite !lookup_alter_eq, Hc, lookup_insert_eq.
      - by rewrite !lookup_alter_ne, lookup_insert_ne by done. }
    cbn [contacts]. split_and!; [done| |done| |].
    + intros k. cbn. destruct (decide (k = slot)) as [->|Hk].
      * rewrite lookup_insert_eq. split; [intros _; by eexists|by eexists].
      * rewrite lookup_insert_ne by done. apply HA.
    + exists t. rewrite lookup_insert_eq. split; [done|]. intros t0 x0 y0. rewrite Hc. by intros [= -> _ _].
    + intros k Hk. by rewrite lookup_insert_ne.
  - rewrite Hs. pose proof (position_Some _ _ _ Hs) as (h & Hh & Hp%bool_decide_eq_true). subst h.
    assert (contacts v !! slot = None) as Hc.
    { apply eq_None_not_Some. intros [id Hid]%HA. by rewrite Hh in Hid. }
    assert (slot < length (held s))%nat as Hlt by by eapply lookup_lt_Some.
    assert (∀ k, held s !! k <> Some (Some (tp_id p))) as Hnew.
    { intros k Hk. apply list_elem_of_lookup_2 in Hk. apply (position_None _ _ _ Ei) in Hk.
      unfold holds_id in Hk. by rewrite bool_decide_eq_true_2 in Hk. }
    assert (see_all (EvAbs MtSlot (Z.of_nat slot) :: [EvAbs MtTrackingId (next_tracking s)] ++
        [EvAbs MtPositionX (Z.of_N (tp_x p)); EvAbs MtPositionY (Z.of_N (tp_y p))]) v
      = mkView (Z.of_nat slot)
          (<[slot := (next_tracking s, Z.of_N (tp_x p), Z.of_N (tp_y p))]> (contacts v))) as ->.
    { cbn. rewrite (proj2 (Z.ltb_ge _ _)) by lia. cbn. rewrite Nat2Z.id. f_equal. apply map_eq. intros k.
      destruct (decide (k = slot)) as [->|Hk].
      - by rewrite !lookup_alter_eq, !lookup_insert_eq.
      - by rewrite !lookup_alter_ne, !lookup_insert_ne by done. }
    cbn [contacts held]. split_and!.
    + split; cbn; [by rewrite length_insert| |apply next_id_pos].
      intros a b id. destruct (decide (a = slot)) as [->|Ha], (decide (b = slot)) as [->|Hb];
        rewrite ?list_lookup_insert_eq, ?list_lookup_insert_ne by done; try done.
      * intros [= <-] H. by apply Hnew in H.
      * intros H [= <-]. by apply Hnew in H.
      * apply Ho.
    + intros k. cbn. destruct (decide (k = slot)) as [->|Hk].
      * rewrite lookup_insert_eq, list_lookup_insert_eq by done. split; intros _; by eexists.
      * rewrite lookup_insert_ne, list_lookup_insert_ne by done. apply HA.
    + by apply list_lookup_insert_eq.
    + exists (next_tracking s). rewrite lookup_insert_eq. split; [done|]. by rewrite Hc.
    + intros k Hk. by rewrite lookup_insert_ne, list_lookup_insert_ne by done.
Qed.

Lemma place_sound p s : Sound_slots s -> Sound_slots (place p s).2.
Proof.
  intros [Hl Ho Hn]. unfold place. destruct (position (holds_id (tp_id p)) (held s)) as [i|] eqn:Ei; [done|].
  destruct (position is_free (held s)) as [slot|] eqn:Es; [|done].
  assert (∀ k, held s !! k <> Some (Some (tp_id p))) as Hnew.
  { intros k Hk. apply list_elem_of_lookup_2 in Hk. apply (position_None _ _ _ Ei) in Hk.
    unfold holds_id in Hk. by rewrite bool_decide_eq_true_2 in Hk. }
  split; cbn; [by rewrite length_insert| |apply next_id_pos].
  intros a b id Ha Hb. apply list_lookup_insert_Some in Ha, Hb.
  destruct Ha as [(<- & [= <-] & _)|[Hsa Ha]], Hb as [(<- & E & _)|[Hsb Hb]]; try done.
  - by apply Hnew in Hb.
  - injection E as <-. by apply Hnew in Ha.
  - by apply (Ho a b id).
Qed.

Lemma place_all_sound points : ∀ s, Sound_slots s -> Sound_slots (place_all points s).2.
Proof.
  induction points as [|p points IH]; intros s Hs; [done|]. cbn [place_all].
  pose proof (place_sound p s Hs) as H1. destruct (place p s) as [e1 s1]. specialize (IH s1 H1).
  by destruct (place_all points s1).
Qed.

Lemma slot_for_spec p h slot :
  slot_for p h = Some slot -> h !! slot = Some None \/ h !! slot = Some (Some (tp_id p)).
Proof.
  unfold slot_for. destruct (position (holds_id (tp_id p)) h) as [i|] eqn:E.
  - intros [= <-]. apply position_Some in E as (x & Hx & ->%bool_decide_eq_true). by right.
  - intros (x & Hx & ->%bool_decide_eq_true)%position_Some. by left.
Qed.

Lemma all_held (h : list (option u8)) : (∀ x, x ∈ h -> is_free x = false) -> ∃ l, h = map Some l.
Proof.
  induction h as [|[id|] h IH]; intros Hx; [by exists []| |].
  - destruct IH as [l ->]; [intros x ?; apply Hx; by right|]. by exists (id :: l).
  - by specialize (Hx None ltac:(left)).
Qed.

(** With no more fingers than slots there is one for each. *)
Lemma slot_for_found p s all :
  Sound_slots s -> (length all <= SLOTS)%nat -> tp_id p ∈ all ->
  (∀ n id, held s !! n = Some (Some id) -> id ∈ all) -> is_Some (slot_for p (held s)).
Proof.
  intros [Hl Ho _] Hlen Hp Hall. unfold slot_for.
  destruct (position (holds_id (tp_id p)) (held s)) as [i|] eqn:E; [done|].
  destruct (position is_free (held s)) as [i|] eqn:Ef; [done|]. exfalso.
  destruct (all_held (held s)) as [l El]; [intros x; by apply position_None|].
  rewrite El in *. rewrite length_map in Hl.
  assert (∀ n id, l !! n = Some id -> map Some l !! n = Some (Some id)) as Hlk.
  { intros n id Hn. rewrite list_lookup_fmap. by rewrite Hn. }
  assert (NoDup (tp_id p :: l)) as Hnd.
  { constructor.
    - intros [n Hn]%list_elem_of_lookup. specialize (Hlk n _ Hn). apply list_elem_of_lookup_2 in Hlk.
      apply (position_None _ _ _ E) in Hlk. unfold holds_id in Hlk. by rewrite bool_decide_eq_true_2 in Hlk.
    - apply NoDup_alt. intros i j x Hi Hj. by apply (Ho i j x); apply Hlk. }
  assert (length (tp_id p :: l) <= length all)%nat as Hle.
  { apply submseteq_length, NoDup_submseteq; [done|]. intros x [->|[n Hn]%list_elem_of_lookup]%elem_of_cons;
      [done|]. by apply (Hall n), Hlk. }
  cbn in Hle. unfold SLOTS in *. lia.
Qed.

Abbreviation ids := (map tp_id).

(** What placing a list of fingers leaves of what was there. *)
Record Placed (points : list TouchPoint) (s s' : Slots) (v v' : View) : Prop := {
  pl_sound : Sound_slots s';
  pl_agrees : Agrees (held s') v';
  pl_here p : p ∈ points -> ∃ slot t, held s' !! slot = Some (Some (tp_id p)) /\
    contacts v' !! slot = Some (t, Z.of_N (tp_x p), Z.of_N (tp_y p));
  pl_kept slot id : held s !! slot = Some (Some id) -> held s' !! slot = Some (Some id) /\
    (id ∉ ids points -> contacts v' !! slot = contacts v !! slot) /\
    ∀ t x y, contacts v !! slot = Some (t, x, y) -> ∃ x' y', contacts v' !! slot = Some (t, x', y');
  pl_only slot id : held s' !! slot = Some (Some id) -> held s !! slot = Some (Some id) \/ id ∈ ids points;
}.

Lemma place_all_view points all : ∀ s v,
  Sound_slots s -> Agrees (held s) v -> NoDup (ids points) -> (length all <= SLOTS)%nat ->
  (∀ p, p ∈ points -> tp_id p ∈ all) -> (∀ n id, held s !! n = Some (Some id) -> id ∈ all) ->
  Placed points s (place_all points s).2 v (see_all (place_all points s).1 v).
Proof.
  induction points as [|p points IH]; intros s v Hs HA Hnd Hlen Hp Hall.
  { split; cbn; [done|done|by intros p ?%elem_of_nil|by eauto|by left]. }
  apply NoDup_cons in Hnd as [Hfresh Hnd]. cbn [place_all].
  destruct (slot_for_found p s all Hs Hlen ltac:(apply Hp; left) Hall) as [slot Hslot].
  pose proof (place_view p s v slot Hs HA Hslot) as Hv. destruct (place p s) as [e1 s1].
  destruct Hv as (Hs1 & HA1 & Hh1 & (t & Hc1 & Ht) & Hk1). set (v1 := see_all e1 v) in *.
  assert (∀ n id, held s1 !! n = Some (Some id) -> held s !! n = Some (Some id) \/ id = tp_id p) as Honly1.
  { intros n id. destruct (decide (n = slot)) as [->|Hn]; [rewrite Hh1; intros [= <-]; by right|].
    destruct (Hk1 n Hn) as [_ ->]. by left. }
  destruct (IH s1 v1 Hs1 HA1 Hnd Hlen) as [P1 P2 P3 P4 P5].
  { intros q Hq. apply Hp. by right. }
  { intros n id [Hn| ->]%Honly1; [by eapply Hall|apply Hp; left]. }
  destruct (place_all points s1) as [e2 s2]. cbn [fst snd] in *.
  split; cbn [fst snd]; rewrite ?see_all_app; fold v1; [done|done|..].
  - intros q [->|Hq]%elem_of_cons; [|by apply P3]. exists slot, t.
    destruct (P4 slot (tp_id p) Hh1) as (H1 & H2 & _). split; [done|]. by rewrite H2.
  - intros k id Hk. destruct (decide (k = slot)) as [->|Hne].
    + destruct (slot_for_spec p (held s) slot Hslot) as [E|E]; [congruence|].
      assert (id = tp_id p) as -> by congruence. destruct (P4 slot (tp_id p) Hh1) as (H1 & H2 & _).
      split_and!; [done| |].
      * intros Hn. destruct Hn. by left.
      * intros t0 x y Hc. rewrite H2 by done. rewrite Hc1. rewrite <- (Ht t0 x y Hc). by eexists _, _.
    + destruct (Hk1 k Hne) as [E1 E2]. rewrite <- E2 in Hk. destruct (P4 k id Hk) as (H1 & H2 & H3).
      split_and!; [done| |].
      * intros Hn. rewrite H2, E1; [done|]. intros ?. apply Hn. by right.
      * intros t0 x y Hc. apply (H3 t0 x y). by rewrite E1.
  - intros k id [Hk|Hk]%P5; [|right; by right]. apply Honly1 in Hk as [Hk| ->]; [by left|right; by left].
Qed.

Lemma see_summary points h v : see_all (summary points h) v = v.
Proof.
  unfold summary. rewrite !see_all_app.
  assert (see_all match position (λ x, negb (is_free x)) h with
    | Some first => match find (λ p, bool_decide (h !! first = Some (Some (tp_id p)))) points with
                    | Some p => [EvAbs AxisX (Z.of_N (tp_x p)); EvAbs AxisY (Z.of_N (tp_y p))]
                    | None => [] end
    | None => [] end v = v) as ->.
  { destruct (position _ h) as [i|]; [|done]. by destruct (find _ points). }
  done.
Qed.

(** ** One report *)

Lemma lift_no_report slot points h : SynReport ∉ (lift slot points h).1.
Proof.
  revert slot. induction h as [|x h IH]; intros slot; [by intros ?%elem_of_nil|]. cbn [lift].
  specialize (IH (S slot)). destruct (lift (S slot) points h) as [e r].
  destruct x; [destruct (existsb _ _)|]; cbn in *; rewrite ?not_elem_of_cons; done.
Qed.

Lemma place_no_report p s : SynReport ∉ (place p s).1.
Proof.
  unfold place. destruct (position _ _); [|destruct (position _ _)]; cbn;
    rewrite ?not_elem_of_cons; split_and?; try done; by intros ?%elem_of_nil.
Qed.

Lemma place_all_no_report points : ∀ s, SynReport ∉ (place_all points s).1.
Proof.
  induction points as [|p points IH]; intros s; [by intros ?%elem_of_nil|]. cbn.
  pose proof (place_no_report p s) as H1. destruct (place p s) as [e1 s1].
  specialize (IH s1). destruct (place_all points s1) as [e2 s2]. cbn in *. by rewrite not_elem_of_app.
Qed.

Lemma summary_ends points h : ∃ before, summary points h = before ++ [SynReport] /\ SynReport ∉ before.
Proof.
  unfold summary. rewrite !app_assoc. eexists. split; [done|]. rewrite !not_elem_of_app. split_and!.
  - destruct (position _ _); [destruct (find _ _)|]; rewrite ?not_elem_of_cons;
      split_and?; try done; by intros ?%elem_of_nil.
  - cbn. rewrite !not_elem_of_cons. split_and!; try done; by intros ?%elem_of_nil.
  - cbn. rewrite !not_elem_of_cons. split_and!; try done; by intros ?%elem_of_nil.
Qed.

(** ** A frame *)

Lemma lift_keeps points s v :
  Sound_slots s -> Agrees (held s) v ->
  Sound_slots (mkSlots (lift 0 points (held s)).2 (next_tracking s)) /\
  (∀ n id, (lift 0 points (held s)).2 !! n = Some (Some id) -> held s !! n = Some (Some id) /\ id ∈ ids points) /\
  (∀ n id, held s !! n = Some (Some id) -> id ∈ ids points ->
     (lift 0 points (held s)).2 !! n = Some (Some id) /\
     contacts (see_all (lift 0 points (held s)).1 v) !! n = contacts v !! n).
Proof.
  intros [Hl Ho Hn] HA.
  assert (∀ id, existsb (λ p, tp_id p =? id) points = true <-> id ∈ ids points) as Hin.
  { intros id. rewrite existsb_exists, list_elem_of_fmap.
    split; intros (p & H1 & H2); exists p.
    - apply N.eqb_eq in H2. by rewrite list_elem_of_In.
    - rewrite <- list_elem_of_In. split; [done|]. by apply N.eqb_eq. }
  assert (∀ n id, (lift 0 points (held s)).2 !! n = Some (Some id) ->
    held s !! n = Some (Some id) /\ id ∈ ids points) as Hback.
  { intros n id. rewrite held_after_lift. unfold goes. destruct (held s !! n) as [[i|]|]; [|done..].
    destruct (existsb _ _) eqn:E; [|done]. cbn. intros [= ->]. by rewrite <- Hin. }
  split_and!; [split; cbn| |].
  - by rewrite lift_held, length_map.
  - intros a b id [Ha _]%Hback [Hb _]%Hback. by apply (Ho a b id).
  - done.
  - done.
  - intros n id Hid Hp. apply Hin in Hp. rewrite held_after_lift, lift_view, Nat.sub_0_r. cbn [Nat.leb andb].
    unfold goes. by rewrite Hid, Hp.
Qed.

(** The slots stay well formed whatever the frame. *)
Lemma lift_sound points s :
  Sound_slots s -> Sound_slots (mkSlots (lift 0 points (held s)).2 (next_tracking s)).
Proof.
  intros [Hl Ho Hn]. rewrite lift_held. split; cbn; [by rewrite length_map| |done].
  assert (∀ n id, map (λ x, match x with
    | Some id => if existsb (λ p, tp_id p =? id) points then Some id else None
    | None => None end) (held s) !! n = Some (Some id) -> held s !! n = Some (Some id)) as Hb.
  { intros n id. rewrite list_lookup_fmap. destruct (held s !! n) as [[i|]|]; [|done..]. cbn.
    destruct (existsb _ _); [|done]. by intros [= ->]. }
  intros a b id Ha%Hb Hb'%Hb. by apply (Ho a b id).
Qed.
Lemma frame_sound points s : Sound_slots s -> Sound_slots (frame points s).2.
Proof.
  intros Hs. unfold frame. pose proof (lift_sound points s Hs) as H1.
  destruct (lift 0 points (held s)) as [e h]. pose proof (place_all_sound points _ H1) as H2.
  by destruct (place_all points _).
Qed.

(** C37 (refinement): Whoever reads the events of a frame as multitouch slots sees
    exactly the fingers of the frame, each where the phone says, and nothing
    else; a finger that was down keeps its slot and its tracking id, so it is
    seen to move and not to be another; and one report ends the frame. *)
Theorem frame_shows points s v :
  Sound_slots s -> Agrees (held s) v -> NoDup (ids points) -> (length points <= SLOTS)%nat ->
  let '(evs, s') := frame points s in
  let v' := see_all evs v in
  Sound_slots s' /\ Agrees (held s') v' /\
  (∀ id x y, mkTouchPoint id x y ∈ points <->
     ∃ slot t, held s' !! slot = Some (Some id) /\ contacts v' !! slot = Some (t, Z.of_N x, Z.of_N y)) /\
  (∀ slot id t x y, held s !! slot = Some (Some id) -> id ∈ ids points ->
     contacts v !! slot = Some (t, x, y) ->
     held s' !! slot = Some (Some id) /\ ∃ x' y', contacts v' !! slot = Some (t, x', y')) /\
  ∃ before, evs = before ++ [SynReport] /\ SynReport ∉ before.
Proof.
  intros Hs HA Hnd Hlen. unfold frame.
  pose proof (lift_agrees points (held s) v HA) as HA1.
  destruct (lift_keeps points s v Hs HA) as (Hs1 & Hback & Hstay).
  pose proof (lift_no_report 0 points (held s)) as Hn1.
  destruct (lift 0 points (held s)) as [lifted h1]. cbn [fst snd] in *.
  set (s1 := mkSlots h1 (next_tracking s)) in *. set (v1 := see_all lifted v) in *.
  pose proof (place_all_view points (ids points) s1 v1 Hs1 HA1 Hnd) as HP.
  pose proof (place_all_no_report points s1) as Hn2.
  destruct HP as [P1 P2 P3 P4 P5].
  { by rewrite length_map. }
  { intros p Hp. by apply list_elem_of_fmap_2. }
  { intros n id Hid. by eapply Hback. }
  destruct (place_all points s1) as [placed s']. cbn [fst snd] in *.
  destruct (summary_ends points (held s')) as (b & Hb & Hnb).
  rewrite !see_all_app, see_summary. fold v1. split_and!; [done|done|..].
  - intros id x y. split; [apply P3|]. intros (slot & t & Hid & Hc).
    assert (id ∈ ids points) as Hp.
    { destruct (P5 slot id Hid) as [Hh|?]; [|done]. by eapply Hback. }
    apply list_elem_of_fmap in Hp as (p & -> & Hp). destruct (P3 p Hp) as (slot' & t' & Hid' & Hc').
    rewrite (sl_once _ P1 slot slot' (tp_id p) Hid Hid') in Hc. rewrite Hc' in Hc.
    injection Hc as _ ?%N2Z.inj ?%N2Z.inj. by destruct p; cbn in *; subst.
  - intros slot id t x y Hid Hp Hc. destruct (Hstay slot id Hid Hp) as [Hh1 Hc1].
    destruct (P4 slot id Hh1) as (Hh & _ & Hk). split; [done|]. apply (Hk t x y). by rewrite Hc1.
  - exists (lifted ++ placed ++ b). rewrite Hb, !app_assoc. split; [done|]. by rewrite !not_elem_of_app.
Qed.

Lemma frames_open_nothing frames s :
  pad_open s = None -> pad_open (fold_left (λ s '(n, ps), (pad_run n (TFrame ps) true s).2) frames s) = None.
Proof.
  revert s. induction frames as [|[n ps] frames IH]; intros s Hs; [done|]. apply IH.
  unfold pad_run. destruct (should_apply _ _); [|done]. cbn. by rewrite Hs.
Qed.

(** A frame that overtakes the begin of its session makes the begin stale: it
    is dropped, and no later frame opens the device. *)
Lemma overtaken_begin_is_lost w h frames :
  let s1 := (pad_run 2 (TFrame []) true PadState_default).2 in
  let s2 := (pad_run 1 (TBegin w h) true s1).2 in
  pad_open (fold_left (λ s '(n, ps), (pad_run n (TFrame ps) true s).2) frames s2) = None.
Proof. by apply frames_open_nothing. Qed.

Local Open Scope Z_scope.

(** ** Opening the device *)

(** [input_linux]'s requests, those used. *)
Inductive EventKind := Synchronize | KeyEvents | AbsoluteEvents.
Record AbsoluteInfoSetup := mkAbs { abs_axis : Axis; abs_maximum : Z; abs_resolution : Z }.
Inductive Ioctl :=
| SetEvbit (k : EventKind)
| SetKeybit (k : Key)
| SetPointer
| SetAbsbit (a : Axis)
| Create (vendor product version : Z) (name : string) (abs : list AbsoluteInfoSetup).

(* src: crates/acrylius-linux/src/touchpad.rs 17 17 MAX_POS *)
Definition MAX_POS : Z := 65535.
(* src: crates/acrylius-linux/src/touchpad.rs 208 215 Device::create *)
Definition AXES : list Axis := [AxisX; AxisY; MtSlot; MtTrackingId; MtPositionX; MtPositionY].
(* src: crates/acrylius-linux/src/touchpad.rs 220 250 Device::create *)
Definition absolute_info (w_mm h_mm : u16) : list AbsoluteInfoSetup :=
  [mkAbs AxisX MAX_POS (resolution w_mm); mkAbs AxisY MAX_POS (resolution h_mm);
   mkAbs MtPositionX MAX_POS (resolution w_mm); mkAbs MtPositionY MAX_POS (resolution h_mm);
   mkAbs MtSlot (Z.of_nat SLOTS - 1) 0; mkAbs MtTrackingId MAX_POS 0].
(* src: crates/acrylius-linux/src/touchpad.rs 191 260 Device::create *)
Definition setup (w_mm h_mm : u16) : list Ioctl :=
  [SetEvbit Synchronize; SetEvbit KeyEvents; SetEvbit AbsoluteEvents; SetKeybit ButtonTouch]
  ++ map SetKeybit TOOL_KEYS ++ [SetPointer] ++ map SetAbsbit AXES
  ++ [Create 0xac71 0x0001 1 "Acrylius Touchpad" (absolute_info w_mm h_mm)].

(** The requests one after the other, until one fails. *)
(* src: crates/acrylius-linux/src/touchpad.rs 190 265 Device::create *)
Fixpoint make_requests (rs : list Ioctl) (answer : Ioctl -> result unit string) : result (list Ioctl) string :=
  match rs with
  | [] => Ok []
  | r :: rs => try! _ := answer r in try! done_ := make_requests rs answer in Ok (r :: done_)
  end.
(* src: crates/acrylius-linux/src/touchpad.rs 191 264 Device::create *)
Definition open_device (w_mm h_mm : u16) (uinput : result unit string) (answer : Ioctl -> result unit string)
    : result TouchpadDevice string :=
  try! _ := uinput in
  try! _ := make_requests (setup w_mm h_mm) answer in
  Ok Device_create.

(** When it is dropped the fingers are lifted, whatever comes of it. *)
(* src: crates/acrylius-linux/src/touchpad.rs 283 288 Device *)
Definition drop_device (ok : bool) (d : TouchpadDevice) : TouchpadDevice := (Device_apply [] ok d).2.

(** ** What a frame writes is declared *)

Definition declared_key (rs : list Ioctl) (k : Key) : Prop := SetEvbit KeyEvents ∈ rs /\ SetKeybit k ∈ rs.
(** An axis is declared twice, its bit and its range. *)
Definition declared_abs (rs : list Ioctl) (a : Axis) (max : Z) : Prop :=
  SetEvbit AbsoluteEvents ∈ rs /\ SetAbsbit a ∈ rs /\
  ∃ v p n name abs r, Create v p n name abs ∈ rs /\ mkAbs a max r ∈ abs.

(** In range, but for tracking ids, which only tell contacts apart and -1. *)
Definition within (rs : list Ioctl) (e : Ev) : Prop :=
  match e with
  | SynReport => SetEvbit Synchronize ∈ rs
  | EvKey k v => declared_key rs k /\ (v = 0 \/ v = 1)
  | EvAbs MtTrackingId v => (∃ max, declared_abs rs MtTrackingId max) /\ -1 <= v
  | EvAbs a v => ∃ max, declared_abs rs a max /\ 0 <= v <= max
  end.

Lemma declared w h a :
  declared_abs (setup w h) a (match a with MtSlot => Z.of_nat SLOTS - 1 | _ => MAX_POS end).
Proof.
  unfold declared_abs, setup. split_and!; [set_solver| |].
  - rewrite !elem_of_app. right; right; right; left. apply list_elem_of_fmap_2. destruct a; set_solver.
  - assert (∃ r, mkAbs a (match a with MtSlot => Z.of_nat SLOTS - 1 | _ => MAX_POS end) r ∈ absolute_info w h) as [r Hr].
    { unfold absolute_info. destruct a; eexists; rewrite !elem_of_cons; eauto 10. }
    repeat eexists; [|exact Hr]. rewrite !elem_of_app. do 4 right. by left.
Qed.
Lemma within_position w h v : (v <= u16_max)%N ->
  Forall (within (setup w h)) [EvAbs AxisX (Z.of_N v); EvAbs AxisY (Z.of_N v); EvAbs MtPositionX (Z.of_N v); EvAbs MtPositionY (Z.of_N v)].
Proof.
  intros Hv. assert (0 <= Z.of_N v <= MAX_POS) as Hr by (unfold u16_max, MAX_POS in *; lia).
  repeat constructor; eexists; (split; [apply declared|done]).
Qed.
Lemma within_slot w h slot : (slot < SLOTS)%nat -> within (setup w h) (EvAbs MtSlot (Z.of_nat slot)).
Proof. intros Hs. eexists. split; [apply declared|]. lia. Qed.
Lemma within_tracking w h t : -1 <= t -> within (setup w h) (EvAbs MtTrackingId t).
Proof. intros Ht. split; [|done]. eexists. apply declared. Qed.
Lemma within_key w h k v : v = 0 \/ v = 1 -> within (setup w h) (EvKey k v).
Proof.
  intros Hv. split; [|done]. split; [set_solver|]. unfold setup. rewrite !elem_of_app.
  destruct k; [left; set_solver|right; left; apply list_elem_of_fmap_2; set_solver..].
Qed.
Lemma within_report w h : within (setup w h) SynReport.
Proof. cbn. set_solver. Qed.

Definition in_range (p : TouchPoint) : Prop := (tp_x p <= u16_max)%N /\ (tp_y p <= u16_max)%N.

Lemma lift_within w h points hs : ∀ slot,
  (slot + length hs <= SLOTS)%nat -> Forall (within (setup w h)) (lift slot points hs).1.
Proof.
  induction hs as [|x hs IH]; intros slot Hs; cbn [lift]; [constructor|]. cbn [length] in Hs.
  specialize (IH (S slot) ltac:(lia)). destruct (lift (S slot) points hs) as [evs rest]. cbn [fst] in IH.
  destruct x as [id|]; [|done]. destruct (existsb _ _); [done|].
  constructor; [apply within_slot; lia|]. constructor; [apply within_tracking; lia|done].
Qed.

Lemma place_within w h p s :
  in_range p -> Sound_slots s -> Forall (within (setup w h)) (place p s).1.
Proof.
  intros [Hx Hy] [Hl _ Hn]. pose proof (within_position w h _ Hx) as Px. pose proof (within_position w h _ Hy) as Py.
  apply Forall_cons in Px as [_ Px]. apply Forall_cons in Px as [_ [Px _]%Forall_cons].
  apply Forall_cons in Py as [_ [_ [_ [Py _]%Forall_cons]%Forall_cons]%Forall_cons].
  assert (∀ q slot, position q (held s) = Some slot -> (slot < SLOTS)%nat) as Hs.
  { intros q slot (y & E & _)%position_Some. rewrite <- Hl. by eapply lookup_lt_Some. }
  unfold place. destruct (position (holds_id (tp_id p)) (held s)) as [slot|] eqn:E.
  - constructor; [by apply within_slot, (Hs _ _ E)|]. by repeat constructor.
  - destruct (position is_free (held s)) as [slot|] eqn:E'; [|constructor].
    constructor; [by apply within_slot, (Hs _ _ E')|]. constructor; [apply within_tracking; lia|]. by repeat constructor.
Qed.

Lemma place_all_within w h points : ∀ s,
  Forall in_range points -> Sound_slots s -> Forall (within (setup w h)) (place_all points s).1.
Proof.
  induction points as [|p points IH]; intros s Hp Hs; [constructor|]. apply Forall_cons in Hp as [Hp Hps].
  cbn [place_all]. pose proof (place_within w h p s Hp Hs) as H1. pose proof (place_sound p s Hs) as Hs1.
  destruct (place p s) as [e1 s1]. specialize (IH s1 Hps Hs1). destruct (place_all points s1) as [e2 s2].
  by apply Forall_app.
Qed.

Lemma summary_within w h points hs :
  Forall in_range points -> Forall (within (setup w h)) (summary points hs).
Proof.
  intros Hp. unfold summary. rewrite !Forall_app. split_and!.
  - destruct (position _ _) as [first|]; [|constructor].
    destruct (find _ points) as [p|] eqn:Ef; [|constructor]. apply find_some in Ef as [Hin _].
    rewrite Forall_forall in Hp. apply list_elem_of_In in Hin. destruct (Hp p Hin) as [Hx Hy].
    pose proof (within_position w h _ Hx) as [Px _]%Forall_cons.
    pose proof (within_position w h _ Hy) as [_ [Py _]%Forall_cons]%Forall_cons. by repeat constructor.
  - constructor; [|constructor]. apply within_key. destruct (0 <? _)%nat; auto.
  - apply Forall_forall. intros e (i & k & -> & _)%elem_of_lookup_imap. apply within_key.
    destruct (_ =? _)%nat; auto.
  - constructor; [apply within_report|constructor].
Qed.

(** Whatever fingers are shown and whatever the surface measures, every event
    written is of a kind, key or axis the device was opened with, keys go up
    and down, a position is within its axis and a slot one of the ten. *)
Theorem frames_within_device w h points s :
  Sound_slots s -> Forall in_range points ->
  Forall (within (setup w h)) (frame points s).1 /\ Forall (within (setup w h)) (release_all s).1.
Proof.
  assert (∀ points, Sound_slots s -> Forall in_range points -> Forall (within (setup w h)) (frame points s).1) as Hf.
  { clear points. intros points Hs Hp. unfold frame. pose proof (lift_within w h points (held s) 0) as Hw.
    pose proof (frame_sound points s Hs) as Hfs. unfold frame in Hfs.
    pose proof (lift_sound points s Hs) as Hls.
    destruct (lift 0 points (held s)) as [lifted h']. cbn [fst snd] in *.
    pose proof (place_all_within w h points (mkSlots h' (next_tracking s)) Hp Hls) as Hpw.
    destruct (place_all points _) as [placed s']. cbn [fst] in *. rewrite !Forall_app. split_and!.
    - apply Hw. by rewrite (sl_length s Hs).
    - done.
    - by apply summary_within. }
  intros Hs Hp. split; [by apply Hf|]. apply Hf; [done|constructor].
Qed.

(** Tracking ids go on past the maximum that is declared for them. *)
Lemma tracking_passes_maximum :
  ∃ s p, Sound_slots s /\ EvAbs MtTrackingId 65536 ∈ (place p s).1.
Proof.
  exists (mkSlots (replicate SLOTS None) 65536), (mkTouchPoint 0 0 0). split.
  - split; [done| |done]. intros slot slot' id [? _]%lookup_replicate. done.
  - vm_compute. right; left.
Qed.
