(* ===== verification/Usb.v ===== *)
(** * [acrylius-linux/src/usb.rs]: the touchpad over a cable

    The phone listens on loopback; this end reaches it through usbmuxd's
    socket, says hello, then replays touches on a device of [TouchDevice].
    Modelled: usbmuxd's binary messages, the list of attached devices, the
    phone's messages, the pacer that restores the spacing of samples delivered
    in batches, and the session's loop turn by turn.  [tokio::select!] picks a
    branch; which one is an argument, with what makes a branch ready as a guard.
    The CBOR bodies are those of the touchpad plugin and stay parameters. *)

From S2P Require Import Prelude Externals Ids Envelope Link Vocab Plugin Touchpad Fs TouchDevice.
Local Open Scope N_scope.

(* src: crates/acrylius-linux/src/usb.rs 18 19 PORT *)
Definition PORT : u16 := 1972.
(* src: crates/acrylius-linux/src/usb.rs 23 28 MUX_HEADER *)
Definition MUX_HEADER : u32 := 16.
Definition MUX_RESULT : u32 := 1.
Definition MUX_CONNECT : u32 := 2.
Definition MUX_LISTEN : u32 := 3.
Definition MUX_ATTACHED : u32 := 4.
Definition MUX_DETACHED : u32 := 5.
(* src: crates/acrylius-linux/src/usb.rs 30 30 MAX_MESSAGE *)
Definition MAX_MESSAGE : u32 := 4096.

(** Instants and durations, in microseconds. *)
Definition micros := N.
(* src: crates/acrylius-linux/src/usb.rs 35 38 STALL *)
Definition STALL : micros := 300000.
(* src: crates/acrylius-linux/src/usb.rs 40 42 PLAYOUT *)
Definition PLAYOUT : micros := 10000.

(* src: crates/acrylius-linux/src/usb.rs 44 55 Msg *)
Inductive Msg :=
| MsgBegin (w h : u16)
| MsgFrame (points : list TouchPoint) (t_us : option u32)
| MsgEnd.

Inductive UsbError := UIo (k : ErrorKind) | UInvalid (what : string) | UPad (what : string).

Definition io_ {A} (r : result A ErrorKind) : result A UsbError := map_err UIo r.

(** ** The pacer *)

(** [anchor]: when a sample arrived, and when the phone says it was taken. *)
Definition Pacer := option (micros * u32).

(** [u32::wrapping_sub]. *)
Definition wrapping_sub32 (a b : u32) : u32 := wrap32 (a + 4294967296 - b).

(* src: crates/acrylius-linux/src/usb.rs 65 77 Pacer::due *)
Definition due (t_us : u32) (arrived : micros) (p : Pacer) : micros * Pacer :=
  let predicted := (λ '(at_, t0), at_ + wrapping_sub32 t_us t0) <$> p in
  let '(predicted, p) :=
    match predicted with
    | Some q => if q <=? arrived then (q, p) else (arrived, Some (arrived, t_us))
    | None => (arrived, Some (arrived, t_us))
    end in
  (N.max (predicted + PLAYOUT) arrived, p).

(** ** usbmuxd *)

(** [x.to_le_bytes()] and [u32::from_le_bytes]. *)
Definition to_le_bytes (k : nat) (x : N) : bytes := reverse (to_be_bytes k x).
Definition from_le_bytes (b : bytes) : N := from_be_bytes (reverse b).

(* src: crates/acrylius-linux/src/usb.rs 292 297 connect_body *)
Definition connect_body (device : u32) (port : u16) : bytes :=
  to_le_bytes 4 device ++ to_be_bytes 2 port ++ [Byte.x00; Byte.x00].

(** The request of [mux_open]; its callers' bodies are 0 and 8 bytes. *)
(* src: crates/acrylius-linux/src/usb.rs 303 308 mux_open *)
Definition mux_message (kind : u32) (body : bytes) : bytes :=
  concat (map (to_le_bytes 4) [len body + MUX_HEADER; 0; kind; 1]) ++ body.

(* src: crates/acrylius-linux/src/usb.rs 318 330 mux_read *)
Definition mux_read (s : stream) : result ((u32 * bytes) * stream) UsbError :=
  let word s := try! x := io_ (read_exact 4 s) in Ok (from_le_bytes x.1, x.2) in
  try! l := word s in
  try! version := word l.2 in
  try! kind := word version.2 in
  try! tag := word kind.2 in
  let length := l.1 in
  if (length <? MUX_HEADER) || (MAX_MESSAGE <? length - MUX_HEADER)
  then Err (UInvalid "usbmuxd message of")
  else
    try! body := io_ (read_exact (N.to_nat (length - MUX_HEADER)) tag.2) in
    Ok ((kind.1, body.1), body.2).

(** What usbmuxd's first message makes of the request: the stream is the
    phone's from there on. *)
(* src: crates/acrylius-linux/src/usb.rs 309 315 mux_open *)
Definition mux_open (s : stream) : result stream UsbError :=
  try! r := mux_read s in
  let '(kind, code) := r.1 in
  if (kind =? MUX_RESULT) && bool_decide (code = replicate 4 Byte.x00) then Ok r.2
  else Err (UInvalid "usbmuxd answered").

(** One message of a listening connection: the devices attached, and what is
    published ([None]: nothing new is). *)
(* src: crates/acrylius-linux/src/usb.rs 276 284 watch_devices *)
Definition on_mux (m : u32 * bytes) (attached : list u32) : list u32 * option (option u32) :=
  let '(kind, body) := m in
  if (length body <? 4)%nat then (attached, None)
  else
    let id := from_le_bytes (take 4 body) in
    if kind =? MUX_ATTACHED then let a := attached ++ [id] in (a, Some (head a))
    else if kind =? MUX_DETACHED then
      let a := List.filter (λ d, negb (d =? id)) attached in (a, Some (head a))
    else (attached, None).

(** One connection to usbmuxd: what is published until it ends. *)
(* src: crates/acrylius-linux/src/usb.rs 274 287 watch_devices *)
Definition watch_once (ms : list (u32 * bytes)) : list (option u32) :=
  (fold_left (λ '(a, out) m, let '(a, p) := on_mux m a in (a, out ++ option_list p)) ms ([], [])).2
  ++ [None].

(** ** The phone's messages *)

Section usb.
Context `{!Cbor Begin} `{!Cbor TouchFrame}.

(* src: crates/acrylius-linux/src/usb.rs 80 114 decode *)
Definition decode (msg : bytes) : result Msg string :=
  match msg with
  | [] => Err "empty message"%string
  | kind :: body =>
      match Byte.to_N kind with
      | 0 =>
          try! b := ok_or (cbor_decode body) "malformed begin"%string in
          if (w_mm b =? 0) || (h_mm b =? 0) then Err "zero-sized surface"%string
          else Ok (MsgBegin (w_mm b) (h_mm b))
      | 1 =>
          try! f := ok_or (cbor_decode body) "malformed frame"%string in
          if MAX_POINTS <? len (tf_points f) then Err "more points than slots"%string
          else Ok (MsgFrame (map (λ q, mkTouchPoint (pt_id q) (pt_x q) (pt_y q)) (tf_points f)) (tf_t_us f))
      | 2 => Ok MsgEnd
      | _ => Err "unknown message kind"%string
      end
  end.

(* src: crates/acrylius-linux/src/usb.rs 118 133 read_message *)
Definition read_message (rd : stream) : result (bytes * stream) UsbError :=
  try! n := io_ (read_exact 4 rd) in
  if MAX_MESSAGE <? from_be_bytes n.1 then Err (UInvalid "message exceeds the cap")
  else io_ (read_exact (N.to_nat (from_be_bytes n.1)) n.2).

(** ** A session *)

(* src: crates/acrylius-linux/src/usb.rs 158 162 session *)
Definition hello (device_id : bytes) : result bytes UsbError :=
  if u32_max <? len device_id then Err (UIo OtherError)
  else Ok (to_be_bytes 4 (len device_id) ++ device_id).

(** The locals of the loop.  [heard] is the caller's. *)
(* src: crates/acrylius-linux/src/usb.rs 164 170 session *)
Record UsbSession := mkUsbSession {
  queue : list (micros * Msg);
  pacer : Pacer;
  queued_down : bool;
  device : option ((u16 * u16) * TouchpadDevice);
  down : bool;
  last_heard : micros;
  heard : bool;
}.
#[global] Instance UsbSession_eta : Eta UsbSession := λ s,
  mkUsbSession (queue s) (pacer s) (queued_down s) (device s) (down s) (last_heard s) (heard s).
(* src: crates/acrylius-linux/src/usb.rs 165 170 session *)
Definition session_start (now : micros) : UsbSession :=
  mkUsbSession [] None false None false now false.

Definition pad (r : result unit string) : result unit UsbError := map_err UPad r.

(** [ok]: whether the kernel does what it is asked this time. *)
(* src: crates/acrylius-linux/src/usb.rs 219 246 apply *)
Definition apply (msg : Msg) (ok : bool) (s : UsbSession) : result unit UsbError * UsbSession :=
  match msg with
  | MsgBegin w h =>
      if match device s with Some (dims, _) => negb (bool_decide (dims = (w, h))) | None => true end
      then if ok then (Ok tt, s <| device := Some ((w, h), Device_create) |>)
           else (Err (UPad "io"), s)
      else (Ok tt, s)
  | MsgFrame points _ =>
      let s := s <| down := negb (bool_decide (points = [])) |> in
      match device s with
      | Some (dims, d) =>
          let '(r, d) := Device_apply points ok d in (pad r, s <| device := Some (dims, d) |>)
      | None => (Ok tt, s)
      end
  | MsgEnd => (Ok tt, s <| down := false |> <| device := None |>)
  end.

(** The head of the loop: everything due is applied, in the order it came. *)
(* src: crates/acrylius-linux/src/usb.rs 173 177 session *)
Fixpoint drain (fuel : nat) (now : micros) (ok : nat -> bool) (s : UsbSession)
    : result unit UsbError * UsbSession :=
  match fuel, queue s with
  | S fuel, (at_, msg) :: rest =>
      if at_ <=? now then
        match apply msg (ok fuel) (s <| queue := rest |>) with
        | (Ok _, s) => drain fuel now ok s
        | (Err e, s) => (Err e, s)
        end
      else (Ok tt, s)
  | _, _ => (Ok tt, s)
  end.

(** A message was read. *)
(* src: crates/acrylius-linux/src/usb.rs 182 208 session *)
Definition on_read (arrived : micros) (read : result bytes UsbError) (s : UsbSession)
    : result unit UsbError * UsbSession :=
  match try! b := read in map_err UInvalid (decode b) with
  | Err e => (Err e, s)
  | Ok msg =>
      let s := s <| heard := true |> <| last_heard := arrived |> in
      let '(at_, s) :=
        match msg with
        | MsgFrame points t_us =>
            let p := if queued_down s then pacer s else None in
            let s := s <| queued_down := negb (bool_decide (points = [])) |> in
            match t_us with
            | Some t => let '(at_, p) := due t arrived p in (at_, s <| pacer := p |>)
            | None => (arrived, s <| pacer := p |>)
            end
        | MsgBegin _ _ => (arrived, s)
        | MsgEnd => (arrived, s <| queued_down := false |>)
        end in
      (Ok tt, s <| queue ::= λ q, q ++ [(at_, msg)] |>)
  end.

(** Nothing was heard for [STALL] with fingers down and nothing queued. *)
(* src: crates/acrylius-linux/src/usb.rs 209 214 session *)
Definition on_stall (ok : bool) (s : UsbSession) : result unit UsbError * UsbSession :=
  let s := s <| down := false |> in
  match device s with
  | Some (dims, d) =>
      let '(r, d) := Device_apply [] ok d in (pad r, s <| device := Some (dims, d) |>)
  | None => (Ok tt, s)
  end.

(** The branches of the [select!]. *)
Inductive Arm := Woke | Read (arrived : micros) (read : result bytes UsbError) | Stalled (ok : bool).

(** What makes a branch ready at [t], the loop's head having run at [now]. *)
Definition ready (now t : micros) (a : Arm) (s : UsbSession) : Prop :=
  now <= t /\
  match a with
  | Woke => ∃ at_ m, head (queue s) = Some (at_, m) /\ at_ <= t
  | Read arrived _ => arrived = t
  | Stalled _ => down s = true /\ queue s = [] /\ last_heard s + STALL <= t
  end.

Definition take_arm (a : Arm) (s : UsbSession) : result unit UsbError * UsbSession :=
  match a with
  | Woke => (Ok tt, s)
  | Read arrived read => on_read arrived read s
  | Stalled ok => on_stall ok s
  end.

(** One turn: the head at [now], then a branch.  The first error ends the session. *)
(* src: crates/acrylius-linux/src/usb.rs 171 216 session *)
Definition turn (now : micros) (ok : nat -> bool) (a : Arm) (s : UsbSession)
    : result unit UsbError * UsbSession :=
  match drain (length (queue s)) now ok s with
  | (Ok _, s) => take_arm a s
  | (Err e, s) => (Err e, s)
  end.
End usb.

(** ** Theorems *)

Lemma due_window t arrived p : arrived <= (due t arrived p).1 <= arrived + PLAYOUT.
Proof.
  unfold due. destruct p as [[at_ t0]|]; cbn -[N.max PLAYOUT]; [|lia].
  destruct (N.leb_spec (at_ + wrapping_sub32 t t0) arrived); cbn -[N.max PLAYOUT]; lia.
Qed.

(** A sample is never replayed before it arrived nor more than
    [PLAYOUT] after, whatever the phone's clock says, wrapped or not; and one
    that is neither ahead of its anchor's clock nor later than [PLAYOUT]
    leaves exactly as long after the anchor as it was taken after it. *)
Theorem pacer_bounds t arrived p :
  arrived <= (due t arrived p).1 <= arrived + PLAYOUT /\
  (∀ at_ t0, p = Some (at_, t0) ->
    at_ + wrapping_sub32 t t0 <= arrived <= at_ + wrapping_sub32 t t0 + PLAYOUT ->
    due t arrived p = (at_ + PLAYOUT + wrapping_sub32 t t0, p)) /\
  (∀ d p', due t arrived p = (d, p') -> p' = p \/ p' = Some (arrived, t)).
Proof.
  split; [apply due_window|]. unfold due. split.
  - intros at_ t0 -> H. cbn -[N.max PLAYOUT]. rewrite (proj2 (N.leb_le _ _)) by lia. f_equal. lia.
  - intros d p'. destruct p as [[at_ t0]|]; cbn [fmap option_fmap option_map]; [destruct (_ <=? _)|]; intros [= _ <-]; auto.
Qed.

Lemma from_to_le_bytes k x : x < 256 ^ N.of_nat k -> from_le_bytes (to_le_bytes k x) = x.
Proof. intros Hx. unfold from_le_bytes, to_le_bytes. rewrite reverse_involutive. by apply from_to_be_bytes. Qed.
Lemma length_to_le_bytes k x : length (to_le_bytes k x) = k.
Proof. unfold to_le_bytes. by rewrite length_reverse, length_to_be_bytes. Qed.

Lemma read_word x rest c :
  read_exact 4 (mkStream (to_le_bytes 4 x ++ rest) c) = Ok (to_le_bytes 4 x, mkStream rest c).
Proof. rewrite <- (length_to_le_bytes 4 x) at 1. apply read_exact_app. Qed.

(** What is said to usbmuxd is read back whole, its kind and its
    body, and not a byte of what follows on the stream. *)
Theorem mux_roundtrip kind body rest c :
  kind <= u32_max -> len body <= MAX_MESSAGE ->
  mux_read (mkStream (mux_message kind body ++ rest) c) = Ok ((kind, body), mkStream rest c).
Proof.
  intros Hk Hb. unfold mux_message, mux_read, MAX_MESSAGE, MUX_HEADER, u32_max in *.
  assert (∀ x, x <= 4294967295 -> from_le_bytes (to_le_bytes 4 x) = x) as Hle.
  { intros x Hx. apply from_to_le_bytes. cbn. lia. }
  cbn [map concat]. rewrite app_nil_r, <- !app_assoc. do 4 (rewrite read_word; cbn -[read_exact to_le_bytes from_le_bytes]).
  rewrite !Hle by lia. rewrite (proj2 (N.ltb_ge _ _)) by lia.
  rewrite (proj2 (N.ltb_ge _ (len body + 16 - 16))) by lia. cbn -[read_exact].
  replace (N.to_nat (len body + 16 - 16)) with (length body) by (unfold len; lia).
  by rewrite read_exact_app.
Qed.

(** Whatever the length announced, no more than the cap is read. *)
Lemma read_message_bounded rd b rd' : read_message rd = Ok (b, rd') -> len b <= MAX_MESSAGE.
Proof.
  unfold read_message, io_. destruct (read_exact 4 rd) as [[n s]|]; cbn -[from_be_bytes MAX_MESSAGE]; [|done].
  destruct (N.ltb_spec MAX_MESSAGE (from_be_bytes n)); [done|].
  destruct (read_exact _ s) as [[x s']|] eqn:E; [|done]. intros [= <- <-].
  apply read_exact_inv in E as [E _]. unfold len. lia.
Qed.

(** A device that went away is not published, and one still there is only
    while every earlier one is gone. *)
Lemma watch_publishes kind body attached :
  (4 <= length body)%nat ->
  let id := from_le_bytes (take 4 body) in
  (kind = MUX_ATTACHED -> (on_mux (kind, body) attached).2 = Some (head (attached ++ [id]))) /\
  (kind = MUX_DETACHED -> id ∉ (on_mux (kind, body) attached).1 /\
     (on_mux (kind, body) attached).2 <> Some (Some id)).
Proof.
  intros Hl id. unfold on_mux. rewrite (proj2 (Nat.ltb_ge _ _)) by done. fold id.
  split; intros ->; cbn; [done|].
  assert (id ∉ List.filter (λ d, negb (d =? id)) attached) as Hn.
  { rewrite list_elem_of_In, filter_In. intros [_ H]. by rewrite N.eqb_refl in H. }
  split; [done|]. destruct (List.filter _ _); [done|]. cbn. intros [= ->]. apply Hn. by left.
Qed.

Section session.
Context `{!Cbor Begin} `{!Cbor TouchFrame}.

(** A session that has gone on until [t] without an error. *)
Inductive Running : micros -> UsbSession -> Prop :=
| running_start t : Running t (session_start t)
| running_turn t now t' ok a s s1 s2 :
    Running t s -> t <= now ->
    drain (length (queue s)) now ok s = (Ok tt, s1) ->
    ready now t' a s1 -> take_arm a s1 = (Ok tt, s2) ->
    Running t' s2.

(** The fingers the device holds down. *)
Definition fingers (s : UsbSession) : list u8 :=
  match device s with Some (_, d) => omap id (held (slots d)) | None => [] end.

Record SessionInv (t : micros) (s : UsbSession) : Prop := {
  si_queue at_ m : (at_, m) ∈ queue s -> at_ <= last_heard s + PLAYOUT;
  si_heard : last_heard s <= t;
  si_down : down s = false -> fingers s = [];
}.

Lemma released d ok : omap id (held (slots (Device_apply [] ok d).2)) = [].
Proof.
  unfold Device_apply, frame. pose proof (lift_held 0 [] (held (slots d))) as E.
  destruct (lift 0 [] (held (slots d))) as [e h]. cbn in E. subst h. cbn.
  assert (omap id (map (λ x : option u8, match x with Some _ => None | None => None end : option u8)
    (held (slots d))) = []) as E.
  { induction (held (slots d)) as [|[i|] l IH]; [done|exact IH..]. }
  by destruct ok.
Qed.

Lemma apply_inv msg ok t s r s' :
  SessionInv t s -> apply msg ok s = (Ok r, s') ->
  SessionInv t s' /\ queue s' = queue s /\ last_heard s' = last_heard s.
Proof.
  intros [Hq Hh Hd]. unfold apply. destruct msg as [w h|points o|].
  - destruct (match device s with Some _ => _ | None => _ end); [destruct ok; [|done]|];
      intros [= _ <-]; by split.
  - set (s1 := s <| down := _ |>). change (device s1) with (device s).
    destruct (device s) as [[dims d]|] eqn:Ed.
    + pose proof (released d ok) as Hr.
      destruct (Device_apply points ok d) as [r' d'] eqn:Ea. destruct r'; [|done]. intros [= _ <-].
      split; [split|]; [exact Hq|exact Hh| |done]. cbn. unfold fingers. cbn.
      destruct (bool_decide_reflect (points = [])) as [->|]; [|done]. intros _. by rewrite Ea in Hr.
    + intros [= _ <-]. split; [split|]; [exact Hq|exact Hh| |done]. intros _. unfold fingers. cbn. by rewrite Ed.
  - intros [= _ <-]. by split.
Qed.

Lemma drain_inv fuel now ok : ∀ t s s1,
  SessionInv t s -> drain fuel now ok s = (Ok tt, s1) ->
  SessionInv t s1 /\ last_heard s1 = last_heard s /\
  ((length (queue s) <= fuel)%nat -> ∀ at_ m, head (queue s1) = Some (at_, m) -> now < at_).
Proof.
  induction fuel as [|fuel IH]; intros t s s1 HI.
  { intros [= <-]. split_and!; [done|done|]. destruct (queue s); [done|]. cbn. lia. }
  cbn [drain]. destruct (queue s) as [|[at_ m] rest] eqn:Eq.
  { intros [= <-]. split_and!; [done|done|]. by rewrite Eq. }
  destruct (N.leb_spec at_ now).
  - assert (SessionInv t (s <| queue := rest |>)) as HI1.
    { destruct HI as [H1 H2 H3]. split; cbn; [|done|exact H3].
      intros a m' Hin. apply (H1 a m'). rewrite Eq. by right. }
    destruct (apply m (ok fuel) _) as [[[]|e] s'] eqn:Ea; [|done]. intros Hd.
    destruct (apply_inv _ _ _ _ _ _ HI1 Ea) as (HI' & Hq & Hl).
    destruct (IH t s' s1 HI' Hd) as (HI1' & Hl' & Hrest). split_and!; [done|by rewrite Hl', Hl|].
    intros Hle. apply Hrest. rewrite Hq. cbn in *. lia.
  - intros [= <-]. split_and!; [done|done|]. rewrite Eq. intros _ a m' [= <- <-]. done.
Qed.

Lemma on_read_inv t arrived read s s' :
  SessionInv t s -> t <= arrived -> on_read arrived read s = (Ok tt, s') -> SessionInv arrived s'.
Proof.
  intros [Hq Hh Hd] Ht. unfold on_read.
  destruct (try! b := read in map_err UInvalid (decode b)) as [msg|]; [|done].
  assert (∀ q u p at_, at_ <= arrived + PLAYOUT ->
    SessionInv arrived (mkUsbSession (queue s ++ [(at_, q)]) p u (device s) (down s) arrived true)) as Hnew.
  { intros q u p at_ Ha. split; cbn; [|done|exact Hd]. intros a m [Hin|Hin]%elem_of_app.
    - specialize (Hq a m Hin). lia.
    - apply list_elem_of_singleton in Hin. by injection Hin as -> ->. }
  destruct msg as [w h|points [tu|]|].
  - intros [= <-]. apply Hnew. lia.
  - cbn -[PLAYOUT due]. destruct (due tu arrived _) as [at_ p'] eqn:Ed. intros [= <-]. apply Hnew.
    pose proof (due_window tu arrived (if queued_down s then pacer s else None)) as Hb.
    rewrite Ed in Hb. apply Hb.
  - intros [= <-]. apply Hnew. lia.
  - intros [= <-]. apply Hnew. lia.
Qed.

Lemma stall_lifts ok s : fingers (on_stall ok s).2 = [].
Proof.
  unfold on_stall. cbn. destruct (device s) as [[dims d]|] eqn:Ed.
  - pose proof (released d ok) as Hr. destruct (Device_apply [] ok d) as [r d']. exact Hr.
  - unfold fingers. cbn. by rewrite Ed.
Qed.

Lemma running_inv t s : Running t s -> SessionInv t s.
Proof.
  induction 1 as [t|t now t' ok a s s1 s2 _ IH Hn Hd Hr Ha].
  { split; cbn; [by intros ? ? ?%elem_of_nil|lia|done]. }
  destruct (drain_inv _ _ _ _ _ _ IH Hd) as (HI1 & _ & _). destruct Hr as [Ht Hr].
  assert (SessionInv t' s1) as HI1'.
  { destruct HI1 as [H1 H2 H3]. split; [done|lia|done]. }
  destruct a as [|arrived read|ok']; cbn in Ha.
  - by injection Ha as <-.
  - subst arrived. by apply (on_read_inv t' t' read s1).
  - pose proof (stall_lifts ok' s1) as Hf. rewrite Ha in Hf.
    destruct HI1' as [H1 H2 _]. revert Ha. unfold on_stall. cbn. destruct (device s1) as [[dims d]|].
    + destruct (Device_apply [] ok' d) as [[[]|e] d']; [|done]. intros [= <-]. by split.
    + intros [= <-]. by split.
Qed.

(** C38 (liveness): When the phone falls silent no finger stays down: once
    [PLAYOUT] has passed since it was last heard everything it sent is applied,
    and if that leaves a finger down the stall timer is armed, is due [STALL]
    after it was last heard, and lifts every finger, even if writing that to
    the device fails. *)
Theorem silence_lifts t s now ok s1 :
  Running t s -> last_heard s + PLAYOUT <= now ->
  drain (length (queue s)) now ok s = (Ok tt, s1) ->
  queue s1 = [] /\
  (fingers s1 = [] \/
   ∀ ok', ready now (N.max now (last_heard s + STALL)) (Stalled ok') s1 /\
     fingers (take_arm (Stalled ok') s1).2 = []).
Proof.
  intros HI%running_inv Hnow Hd. destruct (drain_inv _ _ _ _ _ _ HI Hd) as (HI1 & Hl & Hq).
  assert (queue s1 = []) as E.
  { destruct (queue s1) as [|[a m] q] eqn:Eq; [done|]. exfalso.
    specialize (Hq ltac:(done) a m eq_refl). pose proof (si_queue _ _ HI1 a m) as Hb.
    rewrite Eq in Hb. specialize (Hb ltac:(left)). lia. }
  split; [done|]. destruct (down s1) eqn:Ed; [right|left; by apply (si_down _ _ HI1)].
  intros ok'. split; [|apply stall_lifts]. split; [lia|]. split_and!; [done|done|lia].
Qed.

(** Messages as the decoder leaves them: a surface has a size, and a frame no
    more fingers than the device has slots. *)
Definition well_formed (m : Msg) : Prop :=
  match m with
  | MsgBegin w h => 0 < w /\ 0 < h
  | MsgFrame points _ => (length points <= SLOTS)%nat
  | MsgEnd => True
  end.

Lemma decode_well_formed b m : decode b = Ok m -> well_formed m.
Proof.
  destruct b as [|k body]; [done|]. cbn [decode]. destruct (Byte.to_N k) as [|[p|[p|p|]|]]; [|done|done|done| |].
  - destruct (cbor_decode body) as [x|]; [|done]. cbn.
    destruct (N.eqb_spec (w_mm x) 0), (N.eqb_spec (h_mm x) 0); cbn; try done. intros [= <-]. cbn. lia.
  - by intros [= <-].
  - destruct (cbor_decode body) as [f|]; [|done]. cbn -[len].
    destruct (N.ltb_spec MAX_POINTS (len (tf_points f))) as [|H]; [done|]. intros [= <-]. cbn.
    unfold MAX_POINTS, SLOTS, len in *. rewrite length_map. lia.
Qed.

Record Typed (s : UsbSession) : Prop := {
  ty_queue at_ m : (at_, m) ∈ queue s -> well_formed m;
  ty_device dims d : device s = Some (dims, d) -> Sound_slots (slots d) /\ 0 < dims.1 /\ 0 < dims.2;
}.

Lemma Device_apply_sound points ok d : Sound_slots (slots d) -> Sound_slots (slots (Device_apply points ok d).2).
Proof.
  intros H. unfold Device_apply. pose proof (frame_sound points _ H) as Hf.
  destruct (frame points (slots d)). by destruct ok.
Qed.

Lemma apply_typed msg ok s : Typed s -> well_formed msg -> Typed (apply msg ok s).2.
Proof.
  intros [Hq Hd] Hm. unfold apply. destruct msg as [w h|points o|].
  - destruct (match device s with Some _ => _ | None => _ end); [destruct ok|]; split; try exact Hq; try exact Hd.
    cbn. intros dims d [= <- <-]. split; [apply Slots_default_sound|done].
  - set (s1 := s <| down := _ |>). change (device s1) with (device s).
    destruct (device s) as [[dims d]|] eqn:E; [|split; [exact Hq|intros dims d; cbn; by rewrite E]].
    destruct (Hd dims d eq_refl) as [Hs Hw]. pose proof (Device_apply_sound points ok d Hs) as Ha.
    destruct (Device_apply points ok d) as [r d']. split; [exact Hq|]. cbn. by intros ? ? [= <- <-].
  - by split.
Qed.

Lemma drain_typed fuel now ok : ∀ s, Typed s -> Typed (drain fuel now ok s).2.
Proof.
  induction fuel as [|fuel IH]; intros s Hs; [done|]. cbn [drain].
  destruct (queue s) as [|[at_ m] rest] eqn:Eq; [done|]. destruct (at_ <=? now); [|done].
  assert (Typed (s <| queue := rest |>)) as H1.
  { destruct Hs as [Hq Hd]. split; [|exact Hd]. cbn. intros a m' Hin. apply (Hq a). rewrite Eq. by right. }
  pose proof (apply_typed m (ok fuel) _ H1 ltac:(eapply (ty_queue _ Hs at_); rewrite Eq; left)) as H2.
  destruct (apply m (ok fuel) _) as [[[]|e] s']; [by apply IH|exact H2].
Qed.

Lemma take_arm_typed a s : Typed s -> Typed (take_arm a s).2.
Proof.
  intros Hs. destruct a as [|arrived read|ok]; [done| |]; cbn [take_arm].
  - unfold on_read. destruct (try! b := read in map_err UInvalid (decode b)) as [msg|] eqn:E; [|done].
    assert (well_formed msg) as Hm.
    { destruct read as [b|]; [|done]. cbn in E. destruct (decode b) eqn:Ed; [|done]. cbn in E.
      injection E as <-. by eapply decode_well_formed. }
    destruct Hs as [Hq Hd].
    assert (∀ at_ u p l h, Typed (mkUsbSession (queue s ++ [(at_, msg)]) p u (device s) (down s) l h)) as Hnew.
    { intros at_ u p l h. split; [|exact Hd]. cbn. intros a m [Hin|Hin]%elem_of_app; [by apply (Hq a)|].
      apply list_elem_of_singleton in Hin. by injection Hin as _ ->. }
    destruct msg as [w h|points [tu|]|]; [apply Hnew| |apply Hnew|apply Hnew].
    cbn -[PLAYOUT due]. destruct (due tu arrived _). apply Hnew.
  - unfold on_stall. cbn. destruct (device s) as [[dims d]|] eqn:E; [|destruct Hs; by split].
    destruct (ty_device _ Hs dims d E) as [Hd Hw]. pose proof (Device_apply_sound [] ok d Hd) as Ha.
    destruct (Device_apply [] ok d) as [r d']. split; [exact (ty_queue _ Hs)|]. cbn. by intros ? ? [= <- <-].
Qed.

(** C39 (type): However a session goes, what waits is well formed, a surface with a
    size or no more fingers than slots, and so is the device: it has its ten
    slots, no finger is in two of them, and every tracking id is positive. *)
Theorem session_typed t s : Running t s -> Typed s.
Proof.
  induction 1 as [t|t now t' ok a s s1 s2 _ IH Hn Hd Hr Ha].
  - split; cbn; [by intros ? ? ?%elem_of_nil|done].
  - pose proof (drain_typed (length (queue s)) now ok s IH) as H1. rewrite Hd in H1.
    pose proof (take_arm_typed a s1 H1) as H2. by rewrite Ha in H2.
Qed.
End session.
