(* ===== verification/Logind.v ===== *)
(** * [acrylius-linux/src/session.rs]: locking and unlocking sessions

    What logind says of the sessions, which of them a lock or an unlock is for,
    what is done, and the watch for it to show.  Each time logind is asked is a
    [Look], with how long the answer took, so that the time a client waits can
    be compared with the time the machine takes. *)

From S2P Require Import Prelude Externals Vocab Plugin Session.
Local Open Scope N_scope.

(** [CONFIRM_INTERVAL], in milliseconds. *)
(* src: crates/acrylius-linux/src/session.rs 22 22 CONFIRM_INTERVAL *)
Definition CONFIRM_INTERVAL : u64 := 200.

(* src: crates/acrylius-linux/src/session.rs 56 64 Candidate *)
Record Candidate := mkCandidate { c_id : string; c_kind : string; c_active : bool; c_locked : bool }.

(** [Iterator::min_by_key]: the first of the least. *)
Definition min_by {A} (lt : A -> A -> bool) (l : list A) : option A :=
  match l with
  | [] => None
  | x :: l => Some (fold_left (λ best y, if lt y best then y else best) l x)
  end.
(** Tuples of two flags and a text compare in order; [false] is below [true]. *)
Definition key_lt (a b : bool * bool * string) : bool :=
  let '(a1, a2, a3) := a in
  let '(b1, b2, b3) := b in
  if negb (eqb a1 b1) then b1
  else if negb (eqb a2 b2) then b2
  else negb (String.leb b3 a3).

Definition unlock_key (c : Candidate) := (negb (c_locked c), negb (c_active c), c_id c).
Definition lock_key (c : Candidate) := (c_locked c, negb (c_active c), c_id c).
(** The report's key has no flag for the lock. *)
Definition query_key (c : Candidate) := (false, negb (c_active c), c_id c).

(* src: crates/acrylius-linux/src/session.rs 66 77 rank_for_unlock *)
Definition rank_for_unlock (l : list Candidate) : option Candidate :=
  min_by (λ a b, key_lt (unlock_key a) (unlock_key b)) l.
(* src: crates/acrylius-linux/src/session.rs 79 86 rank_for_lock *)
Definition rank_for_lock (l : list Candidate) : option Candidate :=
  min_by (λ a b, key_lt (lock_key a) (lock_key b)) l.

(** [compositor] is what it answers, if anything. *)
(* src: crates/acrylius-linux/src/session.rs 88 98 resolve_locked *)
Definition resolve_locked (hint : bool) (kind : string) (active : bool) (compositor : option bool) : bool :=
  if hint then true
  else if negb (kind =s "wayland") || negb active then false
  else default false compositor.

(* src: crates/acrylius-linux/src/session.rs 100 107 Commands *)
Record SessionCommands := mkSessionCommands { sc_lock : list string; sc_unlock : list string }.

(** A session as logind describes it: whether its object can be talked to, and
    what it answers; [None] for what it would not say. *)
Record SessionRow := mkSessionRow {
  row_id : string;
  row_uid : u32;
  row_proxy : result unit string;
  row_class : option string;
  row_kind : option string;
  row_active : option bool;
  row_hint : option bool;
}.
(** What one question to logind finds, what the compositor says at that time,
    and how many milliseconds it all takes. *)
Record Look := mkLook {
  lk_rows : result (list SessionRow) string;
  lk_compositor : option bool;
  lk_took : u64;
}.

(** The lock of a session whose kind and activity are known. *)
Definition row_locked (r : SessionRow) (kind : string) (compositor : option bool) : bool :=
  resolve_locked (default false (row_hint r)) kind (default false (row_active r)) compositor.

(* src: crates/acrylius-linux/src/session.rs 153 177 SessionEffector::candidates *)
Fixpoint candidates_of (uid : u32) (compositor : option bool) (rows : list SessionRow)
    : result (list Candidate) string :=
  match rows with
  | [] => Ok []
  | r :: rows =>
      if negb (row_uid r =? uid) then candidates_of uid compositor rows
      else
        try! _ := row_proxy r in
        match row_class r, row_kind r with
        | Some class, Some kind =>
            if negb (class =s "user") || negb ((kind =s "wayland") || (kind =s "x11"))
            then candidates_of uid compositor rows
            else
              try! rest := candidates_of uid compositor rows in
              Ok (mkCandidate (row_id r) kind (default false (row_active r)) (row_locked r kind compositor) :: rest)
        | _, _ => candidates_of uid compositor rows
        end
  end.
(* src: crates/acrylius-linux/src/session.rs 150 179 SessionEffector::candidates *)
Definition candidates (uid : u32) (l : Look) : result (list Candidate) string :=
  try! rows := lk_rows l in candidates_of uid (lk_compositor l) rows.

(* src: crates/acrylius-linux/src/session.rs 181 192 SessionEffector::proxy_for *)
Definition proxy_for (id : string) (l : Look) : result SessionRow string :=
  try! rows := lk_rows l in
  match find (λ r, row_id r =s id) rows with
  | Some r => try! _ := row_proxy r in Ok r
  | None => Err ("session " +:+ id +:+ " is gone")%string
  end.

(* src: crates/acrylius-linux/src/session.rs 194 201 SessionEffector::read_locked *)
Definition read_locked (id : string) (l : Look) : result bool string :=
  try! r := proxy_for id l in
  match row_kind r with
  | Some kind => Ok (row_locked r kind (lk_compositor l))
  | None => Err "logind"%string
  end.

(* src: crates/acrylius-linux/src/session.rs 203 216 SessionEffector::query *)
Definition session_query (uid : u32) (l : Look) : result SessionState string :=
  try! cands := candidates uid l in
  match min_by (λ a b, key_lt (query_key a) (query_key b)) cands with
  | None => Err "no graphical session for this user"%string
  | Some c => Ok (mkSessionState (c_locked c) (c_id c) (c_kind c) (c_active c))
  end.

(** What is asked of the system. *)
Inductive Asked := RanArgv (argv : list string) | Logind (id : string) (lock : bool).

(** What logind is found to be over a request: when the sessions are listed,
    when the chosen one is looked up, what the call to it answers and how long
    that call, or the command instead of it, takes; then at every poll. *)
Record Seat := mkSeat {
  se_first : Look;
  se_chosen : Look;
  se_call : result unit string;
  se_call_took : u64;
  se_polls : nat -> Look;
}.

(** The polls from the [k]th on, [elapsed] after the first, and when it ends.
    Each takes its time and is followed by a sleep. *)
(* src: crates/acrylius-linux/src/session.rs 272 288 SessionEffector::confirm *)
Fixpoint confirm (fuel : nat) (id : string) (want : bool) (within elapsed : u64) (last : bool)
    (polls : nat -> Look) : bool * u64 :=
  match fuel with
  | O => (last, elapsed)
  | S fuel =>
      if elapsed <? within then
        let l := polls 0%nat in
        let again last := confirm fuel id want within (elapsed + lk_took l + CONFIRM_INTERVAL) last (polls ∘ S) in
        match read_locked id l with
        | Ok now => if eqb now want then (now, elapsed + lk_took l) else again now
        | Err _ => again last
        end
      else (last, elapsed)
  end.
(** A poll takes an interval at least, so this is as many as can be. *)
Definition polls_within (within : u64) : nat := S (N.to_nat (within / CONFIRM_INTERVAL)).

(* src: crates/acrylius-linux/src/session.rs 17 21 UNLOCK_CONFIRM *)
Definition confirm_window (want_locked : bool) : u64 :=
  if want_locked then LOCK_CONFIRM_MS else UNLOCK_CONFIRM_MS.

(** A configured command in place of the call, if there is one; how it fares
    does not matter. *)
(* src: crates/acrylius-linux/src/session.rs 124 148 SessionEffector::run_command *)
Definition run_command (want_locked : bool) (cmds : SessionCommands) : option Asked :=
  match (if want_locked then sc_lock cmds else sc_unlock cmds) with
  | [] => None
  | argv => Some (RanArgv argv)
  end.

(** The outcome, what was asked of the system, and the milliseconds it took. *)
(* src: crates/acrylius-linux/src/session.rs 218 270 SessionEffector::act *)
Definition session_act (want_locked : bool) (uid : u32) (cmds : SessionCommands) (s : Seat)
    : result SessionOutcome string * list Asked * u64 :=
  let t := lk_took (se_first s) in
  match candidates uid (se_first s) with
  | Err e => (Err e, [], t)
  | Ok cands =>
      match (if want_locked then rank_for_lock cands else rank_for_unlock cands) with
      | None => (Err "no graphical session for this user"%string, [], t)
      | Some chosen =>
          let was_locked := c_locked chosen in
          if eqb was_locked want_locked then (Ok (mkSessionOutcome was_locked was_locked (c_id chosen)), [], t)
          else
            let '(called, asked, t) :=
              match run_command want_locked cmds with
              | Some ran => (Ok tt, [ran], t + se_call_took s)
              | None =>
                  let t := t + lk_took (se_chosen s) in
                  match proxy_for (c_id chosen) (se_chosen s) with
                  | Err e => (Err e, [], t)
                  | Ok _ => (se_call s, [Logind (c_id chosen) want_locked], t + se_call_took s)
                  end
              end in
            match called with
            | Err e => (Err e, asked, t)
            | Ok _ =>
                let within := confirm_window want_locked in
                let '(locked, spent) :=
                  confirm (polls_within within) (c_id chosen) want_locked within 0 (negb want_locked) (se_polls s) in
                (Ok (mkSessionOutcome was_locked locked (c_id chosen)), asked, t + spent)
            end
      end
  end.

(** ** Which session *)

Lemma key_lt_trans a b c : key_lt a b = false -> key_lt b c = false -> key_lt a c = false.
Proof.
  destruct a as [[a1 a2] a3], b as [[b1 b2] b3], c as [[c1 c2] c3]. unfold key_lt.
  destruct a1, b1, c1, a2, b2, c2; cbn; try done;
    rewrite !negb_false_iff; intros H1 H2; apply Is_true_true; apply Is_true_true in H1, H2;
    change (string_leb_prop c3 a3); by trans b3.
Qed.

Lemma key_lt_total a b : key_lt a b = true -> key_lt b a = false.
Proof.
  destruct a as [[a1 a2] a3], b as [[b1 b2] b3]. unfold key_lt.
  destruct a1, b1, a2, b2; cbn; try done; rewrite negb_true_iff, negb_false_iff; intros H;
    (destruct (total string_leb_prop a3 b3) as [Ht|Ht]; apply Is_true_true in Ht; [done|congruence]).
Qed.

(** The least, and no earlier one as small. *)
Lemma min_by_spec {A} (key : A -> bool * bool * string) l :
  match min_by (λ a b, key_lt (key a) (key b)) l with
  | Some x => x ∈ l /\ ∀ y, y ∈ l -> key_lt (key y) (key x) = false
  | None => l = []
  end.
Proof.
  destruct l as [|x l]; [done|]. cbn [min_by].
  assert (∀ best, let x := fold_left (λ best y, if key_lt (key y) (key best) then y else best) l best in
    (x = best \/ x ∈ l) /\ key_lt (key best) (key x) = false /\
    ∀ y, y ∈ l -> key_lt (key y) (key x) = false) as H.
  { induction l as [|y l IH]; intros best; cbn.
    - split_and!; [by left| |by intros ? ?%elem_of_nil].
      destruct (key_lt (key best) (key best)) eqn:E; [|done]. by rewrite (key_lt_total _ _ E) in E.
    - destruct (key_lt (key y) (key best)) eqn:E.
      + destruct (IH y) as (H1 & H2 & H3). split_and!.
        * right. destruct H1 as [->|?]; [by left|by right].
        * apply (key_lt_trans _ (key y)); [by apply key_lt_total|done].
        * intros z [->|Hz]%elem_of_cons; [done|by apply H3].
      + destruct (IH best) as (H1 & H2 & H3). split_and!.
        * destruct H1 as [->|?]; [by left|right; by right].
        * done.
        * intros z [->|Hz]%elem_of_cons; [by apply (key_lt_trans _ (key best))|by apply H3]. }
  destruct (H x) as (H1 & H2 & H3). split.
  - destruct H1 as [->|?]; [by left|by right].
  - intros y [->|Hy]%elem_of_cons; [done|by apply H3].
Qed.

(** The one chosen is a candidate; it is as wished already only if they all are. *)
Lemma rank_spec (want : bool) l :
  match (if want then rank_for_lock l else rank_for_unlock l) with
  | Some c => c ∈ l /\ (c_locked c = want -> ∀ y, y ∈ l -> c_locked y = want)
  | None => l = []
  end.
Proof.
  set (key := if want then lock_key else unlock_key).
  assert ((if want then rank_for_lock l else rank_for_unlock l) = min_by (λ a b, key_lt (key a) (key b)) l)
    as -> by (subst key; by destruct want).
  pose proof (min_by_spec key l) as Hm. destruct (min_by _ l) as [c|]; [|done].
  destruct Hm as [Hin Hleast]. split; [done|]. intros Ew y Hy. specialize (Hleast y Hy). subst key.
  unfold lock_key, unlock_key, key_lt in Hleast. destruct want, (c_locked y); rewrite ?Ew in Hleast; done.
Qed.

(** ** The watch *)

(** When the [k]th poll begins, from the first. *)
Fixpoint begun (polls : nat -> Look) (k : nat) : u64 :=
  match k with
  | O => 0
  | S k => lk_took (polls 0%nat) + CONFIRM_INTERVAL + begun (polls ∘ S) k
  end.

(** Given fuel for the polls there is time for, the watch sees the change if and
    only if a poll that begins in time does. *)
Lemma confirm_sees id want within fuel : ∀ elapsed last polls,
  within <= elapsed + CONFIRM_INTERVAL * N.of_nat fuel -> last <> want ->
  ((confirm fuel id want within elapsed last polls).1 = want <->
   ∃ k, elapsed + begun polls k < within /\ read_locked id (polls k) = Ok want).
Proof.
  induction fuel as [|fuel IH]; intros elapsed last polls Hf Hl; cbn [confirm]; cbv zeta.
  { split; [done|]. intros (k & Hk & _). lia. }
  destruct (N.ltb_spec elapsed within) as [Hlt|Hge]; [|split; [done|intros (k & Hk & _); lia]].
  assert (∀ last', last' <> want -> read_locked id (polls 0%nat) <> Ok want ->
    ((confirm fuel id want within (elapsed + lk_took (polls 0%nat) + CONFIRM_INTERVAL) last' (polls ∘ S)).1 = want <->
     ∃ k, elapsed + begun polls k < within /\ read_locked id (polls k) = Ok want)) as Hagain.
  { intros last' Hl' Hr. rewrite IH by (done || lia). split; intros (k & Hk & Hrk).
    - exists (S k). split; [cbn [begun]; lia|done].
    - destruct k as [|k]; [done|]. exists k. split; [cbn [begun] in Hk; lia|done]. }
  destruct (read_locked id (polls 0%nat)) as [now|e] eqn:Er; [|by apply Hagain].
  destruct (Bool.eqb_spec now want) as [->|Hn]; [|apply Hagain; [done|by intros [= ?]]].
  split; [|done]. intros _. exists 0%nat. cbn [begun]. split; [lia|done].
Qed.

(** And it is over soon after the time for it. *)
Lemma confirm_ends id want within b fuel : ∀ elapsed last polls,
  (∀ k, lk_took (polls k) <= b) -> elapsed <= within + b + CONFIRM_INTERVAL ->
  (confirm fuel id want within elapsed last polls).2 <= within + b + CONFIRM_INTERVAL.
Proof.
  induction fuel as [|fuel IH]; intros elapsed last polls Hb He; cbn [confirm]; cbv zeta; [done|].
  pose proof (Hb 0%nat). destruct (N.ltb_spec elapsed within); [|done].
  assert (∀ last', (confirm fuel id want within (elapsed + lk_took (polls 0%nat) + CONFIRM_INTERVAL) last' (polls ∘ S)).2
    <= within + b + CONFIRM_INTERVAL) as Hagain by (intros last'; apply IH; [intros k; apply (Hb (S k))|lia]).
  destruct (read_locked id (polls 0%nat)) as [now|e]; [|done]. destruct (eqb now want); [cbn; lia|done].
Qed.

Lemma polls_enough within : within <= 0 + CONFIRM_INTERVAL * N.of_nat (polls_within within).
Proof.
  unfold polls_within, CONFIRM_INTERVAL. rewrite Nat2N.inj_succ, N2Nat.id.
  pose proof (N.div_mod within 200 ltac:(done)). pose proof (N.mod_lt within 200 ltac:(done)). lia.
Qed.

(** What an answer that took a watch was. *)
Lemma act_cases want uid cmds s r asked t :
  session_act want uid cmds s = (r, asked, t) ->
  let within := confirm_window want in
  let watch c := confirm (polls_within within) (c_id c) want within 0 (negb want) (se_polls s) in
  let t1 := lk_took (se_first s) + lk_took (se_chosen s) + se_call_took s in
  ((∃ e, r = Err e) /\ t <= t1) \/
  ∃ cands c, candidates uid (se_first s) = Ok cands /\ c ∈ cands /\
    ((c_locked c = want /\ (∀ y, y ∈ cands -> c_locked y = want) /\
      r = Ok (mkSessionOutcome want want (c_id c)) /\ asked = [] /\ t <= t1) \/
     (c_locked c <> want /\ r = Ok (mkSessionOutcome (c_locked c) (watch c).1 (c_id c)) /\
      asked = [default (Logind (c_id c) want) (run_command want cmds)] /\ t <= t1 + (watch c).2)).
Proof.
  unfold session_act. cbv zeta. destruct (candidates uid (se_first s)) as [cands|e]; [|intros [= <- <- <-]; left; split; [by eexists|lia]].
  pose proof (rank_spec want cands) as Hr.
  destruct (if want then rank_for_lock cands else rank_for_unlock cands) as [c|];
    [|intros [= <- <- <-]; left; split; [by eexists|lia]].
  destruct Hr as [Hin Hall]. destruct (Bool.eqb_spec (c_locked c) want) as [Ew|Ew].
  { intros [= <- <- <-]. right. exists cands, c. split_and!; [done..|]. left. rewrite Ew. split_and!; auto; lia. }
  destruct (run_command want cmds) as [ran|].
  2: destruct (proxy_for (c_id c) (se_chosen s)); [|intros [= <- <- <-]; left; split; [by eexists|lia]].
  2: destruct (se_call s); [|intros [= <- <- <-]; left; split; [by eexists|lia]].
  all: destruct (confirm _ _ _ _ _ _ _) as [locked spent] eqn:Ec; intros [= <- <- <-]; right; exists cands, c;
    split_and!; [done..|]; right; rewrite Ec; split_and!; try done; cbn [fst snd]; lia.
Qed.

(** C31 (functional): Locking and unlocking are never claimed but seen: the answer says the session is as
    wished exactly when every session of the person was so already, and nothing was
    done, or when a poll begun in the time for it found it so.  What is done
    is the configured command or a call for a session that was not yet as wished. *)
Theorem act_is_seen want uid cmds s o asked t :
  session_act want uid cmds s = (Ok o, asked, t) ->
  ∃ cands c, candidates uid (se_first s) = Ok cands /\ c ∈ cands /\
    c_id c = so_session_id o /\ c_locked c = so_was_locked o /\
    if eqb (c_locked c) want then asked = [] /\ so_locked o = want /\ ∀ y, y ∈ cands -> c_locked y = want
    else
      asked = [default (Logind (so_session_id o) want) (run_command want cmds)] /\
      (so_locked o = want <->
       ∃ k, begun (se_polls s) k < confirm_window want /\ read_locked (so_session_id o) (se_polls s k) = Ok want).
Proof.
  intros [[[e He] _]|(cands & c & Hc & Hin & [(Ew & Hall & [= ->] & -> & _)|(Ew & [= ->] & -> & _)])]%act_cases; [done|..];
    exists cands, c; split_and!; try done; destruct (Bool.eqb_spec (c_locked c) want); try done.
  split; [done|]. cbn [so_locked so_session_id].
  exact (confirm_sees (c_id c) want _ _ 0 (negb want) (se_polls s) (polls_enough _) ltac:(by destruct want)).
Qed.

(** How long it takes, whatever comes of it. *)
Lemma act_time want uid cmds s b :
  (∀ k, lk_took (se_polls s k) <= b) ->
  (session_act want uid cmds s).2 <=
    lk_took (se_first s) + lk_took (se_chosen s) + se_call_took s + confirm_window want + b + CONFIRM_INTERVAL.
Proof.
  intros Hb. destruct (session_act want uid cmds s) as [[r asked] t] eqn:H. apply act_cases in H. cbv zeta in H.
  cbn [snd]. destruct H as [[_ H]|(cands & c & _ & _ & [(_ & _ & _ & _ & H)|(_ & _ & _ & H)])]; [lia..|].
  pose proof (confirm_ends (c_id c) want (confirm_window want) b (polls_within (confirm_window want)) 0 (negb want)
    (se_polls s) Hb ltac:(lia)). lia.
Qed.

(** A session that is locked when the client asks for that is not picked for a
    lock while another is open, nor one that is open for an unlock. *)
Lemma lock_takes_an_open_one l c y :
  rank_for_lock l = Some c -> y ∈ l -> c_locked y = false -> c_locked c = false.
Proof.
  intros E Hy Hl. pose proof (rank_spec true l) as H. rewrite E in H. destruct H as [_ H].
  destruct (c_locked c); [|done]. by rewrite (H eq_refl y Hy) in Hl.
Qed.
