(* ===== verification/Paths.v ===== *)
(** * [std::path::PathBuf] as text, and the environment

    [Fs] names files by their components.  The start-up code and the command
    line client also build and compare paths before anything is opened, where
    an empty or relative path and a doubled separator matter: here a path is
    its text.  The environment and the files that are only read are
    arguments. *)

From Stdlib Require Import Ascii.
From S2P Require Import Prelude Strs Utf8 Fs Bulk.
Local Open Scope N_scope.

(** ** Paths *)

Fixpoint ends_with_slash (s : string) : bool :=
  match s with
  | EmptyString => false
  | String c EmptyString => Ascii.eqb c "/"
  | String _ s => ends_with_slash s
  end.
Definition is_absolute (s : string) : bool := str_starts_with "/" s.

(** [PathBuf::join]. *)
Definition pb_join (a b : string) : string :=
  if is_absolute b then b
  else if (a =s "") || ends_with_slash a then a +:+ b
  else a +:+ "/" +:+ b.

(** Paths are compared by their components: repeated separators, a final one
    and inner dots do not count, the root and a leading dot do. *)
Definition leading_dot (s : string) : bool :=
  match str_split "/" s with w :: _ => w =s "." | [] => false end.
Definition path_eqb (a b : string) : bool :=
  eqb (is_absolute a) (is_absolute b) && eqb (leading_dot a) (leading_dot b)
  && bool_decide (components a = components b).

(** [Path::display], [to_string_lossy]. *)
Definition display (s : string) : string := from_utf8_lossy (as_bytes s).

(** The file a path names, for a process that runs in [cwd]. *)
Definition file_at (cwd : path) (s : string) : path := path_join cwd s.

(** ** Text *)

(** [str::lines]: the ends of lines and a carriage return before them go. *)
Definition strip_cr (s : string) : string :=
  match last (as_bytes s) with
  | Some c => if Byte.eqb c (byte_of 13) then of_bytes (removelast (as_bytes s)) else s
  | None => s
  end.
Definition str_lines (s : string) : list string :=
  let ls := str_split "010" s in
  map strip_cr (match last ls with Some EmptyString => removelast ls | _ => ls end).

(** [str::trim], and [trim_matches] of a class of characters. *)
Definition text_trim (s : string) : string := of_chars (trim (chars s)).
Definition trim_matches (p : char -> bool) (s : string) : string :=
  of_chars (reverse (trim_start_by p (reverse (trim_start_by p (chars s))))).
Definition DQUOTE : char := 34.
Definition QUOTE : char := 39.

(** ** What is read *)

Record Surroundings := mkSurroundings {
  env_var : string -> option string;
  read_text : string -> result string ErrorKind;
  is_dir : string -> bool;
  (** whether a directory has an entry, if it can be listed *)
  has_entry : string -> option bool;
}.

(** [PathBuf::from(env::var_os("HOME").unwrap_or_default())]. *)
Definition home_dir (sys : Surroundings) : string := default EmptyString (env_var sys "HOME").

(** ** Facts *)

Lemma pb_join_absolute a b : is_absolute a = true -> is_absolute (pb_join a b) = true.
Proof.
  intros Ha. unfold pb_join. destruct (is_absolute b) eqn:Eb; [done|].
  destruct a as [|c a]; [done|]. by destruct ((String c a =s "") || ends_with_slash (String c a)).
Qed.

Lemma str_split_slash a b : str_split "/" (a +:+ String "/" b) = str_split "/" a ++ str_split "/" b.
Proof.
  induction a as [|c a IH]; [done|].
  change (String c a +:+ String "/" b)%string with (String c (a +:+ String "/" b)). cbn [str_split].
  rewrite IH. destruct (Ascii.eqb c "/"); [done|].
  destruct (str_split "/" a) as [|w ws] eqn:E; [|done]. by destruct (str_split_nonempty "/" a).
Qed.

Lemma components_slash a b : components (a +:+ String "/" b) = components a ++ components b.
Proof. unfold components. by rewrite str_split_slash, List.filter_app. Qed.

Lemma components_ends a : ends_with_slash a = true -> ∃ a', a = a' +:+ "/" /\ components a = components a'.
Proof.
  intros Ha. assert (∃ a', a = a' +:+ "/"%string) as [a' ->].
  { induction a as [|c a IH]; [done|]. destruct a as [|d a].
    - cbn in Ha. apply Ascii.eqb_eq in Ha as ->. by exists EmptyString.
    - destruct (IH Ha) as [a' Ea]. exists (String c a'). cbn. by rewrite Ea. }
  exists a'. split; [done|]. change "/"%string with (String "/" EmptyString).
  rewrite components_slash. unfold components at 2. cbn. by rewrite app_nil_r.
Qed.

(** Joining the texts is joining the components. *)
Lemma components_join a b :
  components (pb_join a b) = if is_absolute b then components b else components a ++ components b.
Proof.
  unfold pb_join. destruct (is_absolute b) eqn:Eb; [done|].
  destruct (String.eqb_spec a "") as [->|Hne]; [done|]. cbn [orb].
  destruct (ends_with_slash a) eqn:Ea.
  - destruct (components_ends a Ea) as (a' & -> & ->).
    assert ((a' +:+ "/") +:+ b = a' +:+ String "/" b)%string as -> by (by rewrite str_app_assoc).
    apply components_slash.
  - apply components_slash.
Qed.

Lemma file_at_join cwd a b :
  a <> ""%string -> file_at cwd (pb_join a b) = path_join (file_at cwd a) b.
Proof.
  intros Hne. unfold file_at, path_join. fold (is_absolute (pb_join a b)) (is_absolute a) (is_absolute b).
  rewrite components_join. unfold is_absolute in *. unfold pb_join, is_absolute.
  destruct (str_starts_with "/" b) eqn:Eb; [by rewrite Eb|].
  rewrite (proj2 (String.eqb_neq a "")) by done. cbn [orb].
  assert (∀ c, str_starts_with "/" (a +:+ c) = str_starts_with "/" a) as Hs by (by destruct a).
  destruct (ends_with_slash a); rewrite Hs; destruct (str_starts_with "/" a); by rewrite ?app_assoc.
Qed.
