(* ===== verification/Host.v ===== *)
(** * [acrylius-linux]: the mixer, the compositor, the clipboard watcher, the user id

    The tools of the sound server, the sockets of the compositor, the reader of
    the clipboard and the files of the kernel answer through arguments; what
    the crate makes of the answers is here.  A sound tool may change the machine it is run
    on, so it works on a state of its own. *)

From Stdlib Require Import Ascii.
From stdpp Require Import sorting.
From S2P Require Import Prelude Strs Floats Utf8 Bulk Fs Paths.
Local Open Scope N_scope.

(** ** Words *)

(** [str::split_whitespace]. *)
Fixpoint ws_words (word : list char) (s : list char) : list string :=
  let here := match word with [] => [] | _ => [of_chars (reverse word)] end in
  match s with
  | [] => here
  | c :: s => if is_whitespace c then here ++ ws_words [] s else ws_words (c :: word) s
  end.
Definition split_whitespace (s : string) : list string := ws_words [] (chars s).

(** ** [mixer.rs] *)

(* src: crates/acrylius-linux/src/mixer.rs 67 69 to_percent *)
Definition to_percent (fraction : f64) : u8 := f64_percent fraction.

(* src: crates/acrylius-linux/src/mixer.rs 14 22 volume *)
Definition wpctl_volume (text : string) : option u8 :=
  if str_contains "[MUTED]" text then Some 0
  else v ← split_whitespace text !! 1%nat; to_percent <$> parse_f64 v.

Definition PERCENT : char := 37.
(** [str::trim_end_matches]. *)
Definition trim_end_matches (p : char -> bool) (s : string) : string :=
  of_chars (reverse (trim_start_by p (reverse (chars s)))).
(* src: crates/acrylius-linux/src/mixer.rs 25 30 volume *)
Definition pactl_volume (text : string) : option u8 :=
  v ← str_split "/" text !! 1%nat;
  N.min 100 <$> parse_uint 255 (trim_end_matches (N.eqb PERCENT) (text_trim v)).

Inductive SoundError := NoSoundServer | NotReadBack | DidNotMove (landed : u8).
(* src: crates/acrylius-linux/src/mixer.rs 47 63 set_volume *)
Definition sound_error_to_string (e : SoundError) : string :=
  match e with
  | NoSoundServer => "no sound server here to set a volume on"
  | NotReadBack => "the volume could not be read back"
  | DidNotMove landed => "the volume did not move: it is still " +:+ fmt_u64 landed +:+ "%"
  end%string.

Section mixer.
  (** A tool run on a machine: what it printed, if it could be started and
      succeeded. *)
  Context {W : Type} (tool : W -> string -> list string -> option bytes * W).

(* src: crates/acrylius-linux/src/mixer.rs 73 86 run *)
Definition run (w : W) (program : string) (args : list string) : option string * W :=
  let '(out, w) := tool w program args in ((λ b, text_trim (from_utf8_lossy b)) <$> out, w).

(* src: crates/acrylius-linux/src/mixer.rs 12 33 volume *)
Definition volume (w : W) : option u8 * W :=
  match run w "wpctl" ["get-volume"; "@DEFAULT_AUDIO_SINK@"] with
  | (Some text, w) => (wpctl_volume text, w)
  | (None, w) =>
      match run w "pactl" ["get-sink-volume"; "@DEFAULT_SINK@"] with
      | (Some text, w) => (pactl_volume text, w)
      | (None, w) => (None, w)
      end
  end%string.

(** One of the two tools, the second if the first fails: whether one did it. *)
Definition either (w : W) (first second : list string) : bool * W :=
  match run w "wpctl" first with
  | (Some _, w) => (true, w)
  | (None, w) => let '(out, w) := run w "pactl" second in (match out with Some _ => true | None => false end, w)
  end.

(* src: crates/acrylius-linux/src/mixer.rs 36 65 set_volume *)
Definition set_volume (w : W) (percent : u8) : result u8 SoundError * W :=
  let percent := N.min percent 100 in
  let arg := (fmt_u64 percent +:+ "%")%string in
  match either w ["set-volume"; "@DEFAULT_AUDIO_SINK@"; arg] ["set-sink-volume"; "@DEFAULT_SINK@"; arg] with
  | (false, w) => (Err NoSoundServer, w)
  | (true, w) =>
      let w := if (0 <? percent)%N
               then snd (either w ["set-mute"; "@DEFAULT_AUDIO_SINK@"; "0"] ["set-sink-mute"; "@DEFAULT_SINK@"; "0"])
               else w in
      match volume w with
      | (None, w) => (Err NotReadBack, w)
      | (Some landed, w) => (if (5 <? u64_abs_diff landed percent)%N then Err (DidNotMove landed) else Ok landed, w)
      end
  end%string.
End mixer.

(** The argument vectors that read the volume, and those that set it. *)
Definition reading_tools : list (list string) :=
  [["wpctl"; "get-volume"; "@DEFAULT_AUDIO_SINK@"]; ["pactl"; "get-sink-volume"; "@DEFAULT_SINK@"]]%string.
Definition setting_tools (percent : u8) : list (list string) :=
  let arg := (fmt_u64 percent +:+ "%")%string in
  [["wpctl"; "set-volume"; "@DEFAULT_AUDIO_SINK@"; arg]; ["pactl"; "set-sink-volume"; "@DEFAULT_SINK@"; arg];
   ["wpctl"; "set-mute"; "@DEFAULT_AUDIO_SINK@"; "0"]; ["pactl"; "set-sink-mute"; "@DEFAULT_SINK@"; "0"]]%string.

(** A machine that answers from a list, in order, and one that always answers
    the same; both keep what was started. *)
Definition in_turn (w : list (option bytes) * list (list string)) (program : string) (args : list string)
    : option bytes * (list (option bytes) * list (list string)) :=
  (default None (head w.1), (tail w.1, w.2 ++ [program :: args])).
Definition always (sound : string -> list string -> option bytes) (started : list (list string)) (program : string)
    (args : list string) : option bytes * list (list string) :=
  (sound program args, started ++ [program :: args]).

(** ** [compositor.rs] *)

(** [Path::components().count()]: the root and a leading dot count. *)
Definition component_count (s : string) : nat :=
  ((if is_absolute s then 1 else 0) + (if leading_dot s then 1 else 0) + length (components s))%nat.

(** [Vec::dedup]: of neighbours that are equal the first stays. *)
Fixpoint dedup_after (kept : string) (l : list string) : list string :=
  match l with
  | [] => []
  | x :: l => if path_eqb x kept then dedup_after kept l else x :: dedup_after x l
  end.
Definition dedup (l : list string) : list string :=
  match l with [] => [] | x :: l => x :: dedup_after x l end.

(* src: crates/acrylius-linux/src/compositor.rs 47 62 order *)
Definition order (hypr : string) (signature : option string) (newest_first : list string) : list string :=
  dedup
    (match signature with
     | Some sig => if Nat.eqb (component_count sig) 1 then [pb_join (pb_join hypr sig) ".socket.sock"] else []
     | None => []
     end ++ map (λ d, pb_join d ".socket.sock") newest_first).

(** A stable sort by a time, the latest first. *)
Fixpoint insert_newest (x : Z * string) (l : list (Z * string)) : list (Z * string) :=
  match l with
  | [] => [x]
  | y :: l' => if (fst y <=? fst x)%Z then x :: l else y :: insert_newest x l'
  end.
Fixpoint sort_newest (l : list (Z * string)) : list (Z * string) :=
  match l with [] => [] | x :: l => insert_newest x (sort_newest l) end.

(** [entries]: the names in the directory, each with when it was modified if that
    is known; those that cannot be read are left out, all of them if the
    directory cannot be. *)
(* src: crates/acrylius-linux/src/compositor.rs 19 43 candidates *)
Definition candidates (runtime signature : option string) (entries : list (string * option Z)) : list string :=
  match runtime with
  | None => []
  | Some runtime =>
      let hypr := pb_join runtime "hypr" in
      let found := omap (λ '(name, modified), (λ t, (t, pb_join hypr name)) <$> modified) entries in
      order hypr signature (map snd (sort_newest found))
  end.

Section compositor.
  (** What a socket answers to [j/locked] within a second, and the [locked]
      field of that. *)
  Context (reply_of : string -> option string) (json_locked : string -> option bool).

(* src: crates/acrylius-linux/src/compositor.rs 78 89 ask *)
Definition ask (path : string) : option bool := reply_of path ≫= json_locked.

Fixpoint first_answer (paths : list string) : option bool :=
  match paths with
  | [] => None
  | path :: paths => match ask path with Some v => Some v | None => first_answer paths end
  end.
(* src: crates/acrylius-linux/src/compositor.rs 66 76 locked *)
Definition locked (runtime signature : option string) (entries : list (string * option Z)) : option bool :=
  first_answer (candidates runtime signature entries).
End compositor.

(** ** [clipboard.rs] *)

(** How [get_contents] and reading its pipe end. *)
Inductive Pasted := PastedText (b : bytes) | PasteBroken | PasteNoSeats | PasteEmpty | PasteNoMime | PasteOther.

(* src: crates/acrylius-linux/src/clipboard.rs 18 33 read *)
Definition read (p : Pasted) : result (option bytes) unit :=
  match p with
  | PastedText buf => Ok (Some buf)
  | PasteNoSeats | PasteEmpty | PasteNoMime => Ok None
  | PasteBroken | PasteOther => Err tt
  end.

(** A turn of the watch: the value last seen, and what is reported. *)
(* src: crates/acrylius-linux/src/clipboard.rs 66 75 watch *)
Definition watch_turn (last : option bytes) (p : Pasted) : option bytes * option bytes :=
  match read p with
  | Ok (Some current) =>
      if bool_decide (last = Some current) then (last, None) else (Some current, Some current)
  | Ok None => (None, None)
  | Err _ => (last, None)
  end.

(** What each poll reports. *)
(* src: crates/acrylius-linux/src/clipboard.rs 63 78 watch *)
Fixpoint watch (last : option bytes) (polls : list Pasted) : list (option bytes) :=
  match polls with
  | [] => []
  | p :: polls => let '(last, report) := watch_turn last p in report :: watch last polls
  end.

(** ** [lib.rs] *)

Fixpoint find_map {A B} (f : A -> option B) (l : list A) : option B :=
  match l with [] => None | x :: l => match f x with Some y => Some y | None => find_map f l end end.
(* src: crates/acrylius-linux/src/lib.rs 21 31 uid *)
Definition uid (status : option string) : u32 :=
  default u32_max
    (s ← status;
     v ← find_map (str_strip_prefix "Uid:") (str_lines s);
     w ← head (split_whitespace v);
     parse_uint u32_max w).

(** ** The mixer *)

(** What a percentage, up to the 150 a sink can be driven to, looks like in the
    answer of [wpctl]. *)
Definition two_decimals (p : N) : string :=
  fmt_u64 (p / 100) +:+ "." +:+ fmt_u64 (p mod 100 / 10) +:+ fmt_u64 (p mod 10).

(** Every volume [wpctl] can print is read as the percentage it stands for, above 100 as
    100: the binary fractions in between lose none. *)
Lemma wpctl_read_back p : p <= 150 -> wpctl_volume ("Volume: " +:+ two_decimals p) = Some (N.min p 100).
Proof.
  intros Hp. assert (Forall (λ k, wpctl_volume ("Volume: " +:+ two_decimals (N.of_nat k)) = Some (N.min (N.of_nat k) 100))
    (seq 0 151)) as H.
  { apply (Forall_impl (λ k, bool_decide (wpctl_volume ("Volume: " +:+ two_decimals (N.of_nat k)) = Some (N.min (N.of_nat k) 100)))
      _ _); [|by intros ? ?%bool_decide_unpack]. apply forallb_True. by vm_compute. }
  rewrite Forall_forall in H. specialize (H (N.to_nat p)). rewrite N2Nat.id in H. apply H.
  apply elem_of_seq. lia.
Qed.

Section mixer_theorems.
  Context {W : Type} (tool : W -> string -> list string -> option bytes * W).

Lemma run_tool w program args out w' :
  run tool w program args = (Some out, w') -> ∃ b, tool w program args = (Some b, w').
Proof. unfold run. destruct (tool w program args) as [[b|] w1]; [|done]. intros [= _ <-]. by exists b. Qed.

(** One of the two tools did what was asked, in the state the first left. *)
Lemma either_true w first second w' :
  either tool w first second = (true, w') ->
  ∃ w0 b, tool w0 "wpctl" first = (Some b, w') /\ w0 = w \/
          tool w0 "pactl" second = (Some b, w') /\ run tool w "wpctl" first = (None, w0).
Proof.
  unfold either. destruct (run tool w "wpctl" first) as [[out|] w1] eqn:E1.
  - intros [= <-]. apply run_tool in E1 as [b ?]. exists w, b. by left.
  - destruct (run tool w1 "pactl" second) as [[out|] w2] eqn:E2; [|done]. intros [= <-].
    apply run_tool in E2 as [b ?]. exists w1, b. by right.
Qed.

(** Setting the volume succeeds only if a tool of the sound server accepted
    the percentage, never more than 100, and the volume read back last is
    within five of it; what is reported is what was read.  When no tool accepts
    it nothing else is tried; when it cannot be read, or did not move, that is
    the error. *)
Theorem volume_set_is_read w percent r w' :
  set_volume tool w percent = (r, w') ->
  let p := N.min percent 100 in
  let arg := (fmt_u64 p +:+ "%")%string in
  let accepted w1 := ∃ w0 b, tool w0 "wpctl" ["set-volume"; "@DEFAULT_AUDIO_SINK@"; arg] = (Some b, w1) \/
                             tool w0 "pactl" ["set-sink-volume"; "@DEFAULT_SINK@"; arg] = (Some b, w1) in
  match r with
  | Ok landed => ∃ w1 w2, accepted w1 /\ volume tool w2 = (Some landed, w') /\ landed <= p + 5 /\ p <= landed + 5
  | Err NoSoundServer =>
      ∃ w1, run tool w "wpctl" ["set-volume"; "@DEFAULT_AUDIO_SINK@"; arg] = (None, w1) /\
            run tool w1 "pactl" ["set-sink-volume"; "@DEFAULT_SINK@"; arg] = (None, w')
  | Err NotReadBack => ∃ w1 w2, accepted w1 /\ volume tool w2 = (None, w')
  | Err (DidNotMove landed) =>
      ∃ w1 w2, accepted w1 /\ volume tool w2 = (Some landed, w') /\ (p + 5 < landed \/ landed + 5 < p)
  end%string.
Proof.
  intros E p arg accepted. unfold set_volume in E. fold p arg in E.
  destruct (either tool w _ _) as [[] w1] eqn:E1.
  - assert (accepted w1) as Ha.
    { apply either_true in E1 as (w0 & b & [[? _]|[? _]]); exists w0, b; auto. }
    cbv zeta in E. set (w2 := if 0 <? p then _ else _) in E. clearbody w2.
    destruct (volume tool w2) as [[landed|] w3] eqn:E3.
    + unfold u64_abs_diff in E. destruct (5 <? _) eqn:E5 in E; injection E as <- <-; exists w1, w2; split_and!; try done;
        destruct (N.leb_spec p landed); rewrite ?N.ltb_lt, ?N.ltb_ge in E5; lia.
    + injection E as <- <-. by exists w1, w2.
  - unfold either in E1. destruct (run tool w "wpctl" _) as [[out|] w0] eqn:E2; [done|].
    destruct (run tool w0 "pactl" _) as [[out|] w2] eqn:E3; [done|].
    injection E1 as <-. injection E as <- <-. by exists w0.
Qed.

(** Whatever holds of what was started, and stays so with a tool more, holds when
    the volume was read, or set. *)
Lemma run_keeps (P : W -> Prop) w program args :
  P w -> (P w -> P (tool w program args).2) -> P (run tool w program args).2.
Proof. intros Hw H. unfold run. specialize (H Hw). by destruct (tool w program args). Qed.

Lemma volume_keeps (P : W -> Prop) w :
  (∀ w program args, program :: args ∈ reading_tools -> P w -> P (tool w program args).2) ->
  P w -> P (volume tool w).2.
Proof.
  intros H Hw. unfold volume.
  pose proof (run_keeps P w "wpctl" ["get-volume"; "@DEFAULT_AUDIO_SINK@"]%string Hw
    ltac:(apply H; by left)) as H1.
  destruct (run tool w "wpctl" _) as [[text|] w1]; [done|]. cbn in H1.
  pose proof (run_keeps P w1 "pactl" ["get-sink-volume"; "@DEFAULT_SINK@"]%string H1
    ltac:(apply H; right; by left)) as H2.
  by destruct (run tool w1 "pactl" _) as [[text|] w2].
Qed.

Lemma either_keeps (P : W -> Prop) w first second :
  (∀ w, P w -> P (tool w "wpctl" first).2) -> (∀ w, P w -> P (tool w "pactl" second).2) ->
  P w -> P (either tool w first second).2.
Proof.
  intros Hf Hs Hw. unfold either. pose proof (run_keeps P w "wpctl" first Hw (Hf w)) as H1.
  destruct (run tool w "wpctl" first) as [[out|] w1]; [done|]. cbn in H1.
  pose proof (run_keeps P w1 "pactl" second H1 (Hs w1)) as H2. by destruct (run tool w1 "pactl" second) as [[out|] w2].
Qed.

Lemma set_volume_keeps (P : W -> Prop) w percent :
  (∀ w program args, program :: args ∈ setting_tools (N.min percent 100) ++ reading_tools ->
     P w -> P (tool w program args).2) ->
  P w -> P (set_volume tool w percent).2.
Proof.
  intros H Hw. unfold set_volume. cbv zeta.
  match goal with |- context[either tool w ?a ?b] => pose proof (either_keeps P w a b) as H1; destruct (either tool w a b) as [b1 w1] end.
  cbn [snd] in H1. specialize (H1 ltac:(intros; apply H; [set_solver|done]) ltac:(intros; apply H; [set_solver|done]) Hw).
  destruct b1; [|done].
  match goal with |- context[volume tool ?w] => assert (P w) as H2 end.
  { destruct (0 <? _); [|done]. apply either_keeps; [intros; apply H; [set_solver|done]..|done]. }
  pose proof (volume_keeps P _ ltac:(intros; apply H; [set_solver|done]) H2) as H3.
  destruct (volume tool _) as [[landed|] w3]; [|done]. by destruct (5 <? _).
Qed.
End mixer_theorems.

(** ** The compositor *)

Lemma insert_newest_perm x l : insert_newest x l ≡ₚ x :: l.
Proof.
  induction l as [|y l IH]; [done|]. cbn. destruct (_ <=? _)%Z; [done|]. rewrite IH. constructor.
Qed.
Lemma sort_newest_perm l : sort_newest l ≡ₚ l.
Proof. induction l as [|x l IH]; [done|]. cbn. by rewrite insert_newest_perm, IH. Qed.

Notation newer := (λ x y : Z * string, (fst y <= fst x)%Z).
Lemma insert_newest_sorted x l : StronglySorted newer l -> StronglySorted newer (insert_newest x l).
Proof.
  induction 1 as [|y l Hs IH Hy]; cbn; [by repeat constructor|].
  destruct (Z.leb_spec (fst y) (fst x)).
  - constructor; [by constructor|]. constructor; [done|]. eapply Forall_impl; [done|]. cbn. intros; lia.
  - constructor; [done|]. rewrite insert_newest_perm. constructor; [lia|done].
Qed.
(** The directories are tried in the order of their age. *)
Lemma sort_newest_sorted l : StronglySorted newer (sort_newest l).
Proof. induction l; cbn; [constructor|]. by apply insert_newest_sorted. Qed.

Lemma dedup_after_incl k l x : x ∈ dedup_after k l -> x ∈ l.
Proof.
  revert k. induction l as [|y l IH]; intros k; cbn; [done|].
  destruct (path_eqb y k); [by right; eapply IH|].
  intros [->|H]%elem_of_cons; [left|right; by eapply IH].
Qed.
Lemma dedup_incl l x : x ∈ dedup l -> x ∈ l.
Proof.
  destruct l as [|y l]; [done|]. intros [->|H]%elem_of_cons; [left|right]. by eapply dedup_after_incl.
Qed.
Lemma path_eqb_components a b : path_eqb a b = true -> components a = components b.
Proof. unfold path_eqb. intros [_ H]%andb_true_iff. by apply bool_decide_eq_true in H. Qed.
Lemma dedup_after_covers k l x : x ∈ l -> ∃ y, (y = k \/ y ∈ dedup_after k l) /\ components y = components x.
Proof.
  revert k. induction l as [|z l IH]; intros k; cbn; [by intros ?%elem_of_nil|].
  intros [->|H]%elem_of_cons; destruct (path_eqb z k) eqn:E.
  - exists k. split; [by left|]. symmetry. by apply path_eqb_components.
  - exists z. split; [right; by left|done].
  - destruct (IH k H) as (y & [->|?] & ?); eauto.
  - destruct (IH z H) as (y & [->|?] & ?); eexists; (split; [|done]); right; [by left|by right].
Qed.
Lemma dedup_covers l x : x ∈ l -> ∃ y, y ∈ dedup l /\ components y = components x.
Proof.
  destruct l as [|z l]; [by intros ?%elem_of_nil|]. intros [->|H]%elem_of_cons; [exists z; split; [by left|done]|].
  destruct (dedup_after_covers z l x H) as (y & [->|?] & ?); eexists; (split; [|done]); [by left|by right].
Qed.

(** Who is asked for a text with a single component that is not the root: under [hypr], one level down, or
    [hypr] itself for a dot. *)
Lemma signature_component sig :
  component_count sig = 1%nat -> is_absolute sig = false -> leading_dot sig = false -> ∃ w, components sig = [w].
Proof.
  unfold component_count. intros H Ha Hl. rewrite Ha, Hl in H. destruct (components sig) as [|w [|? ?]]; [done| |done]. by exists w.
Qed.

Lemma socket_components d : components (pb_join d ".socket.sock") = components d ++ [".socket.sock"]%string.
Proof. by rewrite components_join. Qed.

(** Every socket asked is one level below the compositor's directory of the
    session, under an entry of it or under the signature of the environment,
    which must be a single component for that; no entry with a known time is
    left out. *)
Theorem sockets_of_the_session runtime signature entries :
  (∀ sig, signature = Some sig -> is_absolute sig = false /\ leading_dot sig = false) ->
  Forall (λ e, ∃ w, components (fst e) = [w] /\ is_absolute (fst e) = false) entries ->
  let hypr := components runtime ++ ["hypr"]%string in
  (∀ p, p ∈ candidates (Some runtime) signature entries ->
     ∃ w, components p = hypr ++ [w; ".socket.sock"]%string /\
       (signature ≫= (λ s, head (components s)) = Some w \/ ∃ e, e ∈ entries /\ components (fst e) = [w])) /\
  (∀ name t, (name, Some t) ∈ entries ->
     ∃ p, p ∈ candidates (Some runtime) signature entries /\
       components p = hypr ++ components name ++ [".socket.sock"]%string).
Proof.
  intros Hsig Hent hypr. unfold candidates.
  set (found := omap _ entries).
  assert (components (pb_join runtime "hypr") = hypr) as Eh by (by rewrite components_join).
  rewrite Forall_forall in Hent. split.
  - intros p Hp%dedup_incl. apply elem_of_app in Hp as [Hp|Hp].
    + destruct signature as [sig|]; [|by apply elem_of_nil in Hp]. destruct (Hsig sig eq_refl) as [Ha Hl].
      destruct (Nat.eqb_spec (component_count sig) 1) as [Hc|]; [|by apply elem_of_nil in Hp].
      apply list_elem_of_singleton in Hp as ->. destruct (signature_component sig Hc Ha Hl) as [w Ew].
      exists w. split; [|left; cbn; by rewrite Ew].
      rewrite socket_components, components_join, Ha, Eh, Ew, <- app_assoc. done.
    + apply list_elem_of_fmap in Hp as (d & -> & Hd). apply list_elem_of_fmap in Hd as ([t d'] & -> & Hd). cbn [snd].
      rewrite sort_newest_perm in Hd. apply list_elem_of_omap in Hd as ([name [t'|]] & Hin & [= -> <-]).
      destruct (Hent _ Hin) as (w & Ew & Ha). cbn [fst] in Ew, Ha. exists w. split; [|right; eauto].
      rewrite socket_components, components_join, Ha, Eh, Ew, <- app_assoc. done.
  - intros name t Hin. destruct (Hent _ Hin) as (w & Ew & Ha). cbn [fst] in Ew, Ha.
    edestruct (dedup_covers) as (y & Hy & Ey); [|exists y; split; [exact Hy|rewrite Ey]].
    + apply elem_of_app. right. apply list_elem_of_fmap. exists (pb_join (pb_join runtime "hypr") name). split; [done|].
      apply list_elem_of_fmap. exists (t, pb_join (pb_join runtime "hypr") name). split; [done|].
      rewrite sort_newest_perm. apply list_elem_of_omap. by exists (name, Some t).
    + cbv beta. by rewrite socket_components, components_join, Ha, Eh, <- app_assoc.
Qed.

(** The root is a single component, though it is a separator: what is asked then
    is not in the directory of the session at all. *)
Example root_signature_escapes hypr : order hypr (Some "/"%string) [] = ["/.socket.sock"%string].
Proof. done. Qed.

(** Only neighbours are dropped: the socket of a signature that is not the newest
    is asked twice. *)
Example signature_asked_twice :
  order "/r/hypr" (Some "live"%string) ["/r/hypr/newest"; "/r/hypr/live"]%string
  = ["/r/hypr/live/.socket.sock"; "/r/hypr/newest/.socket.sock"; "/r/hypr/live/.socket.sock"]%string.
Proof. reflexivity. Qed.

(** The first socket that answers decides; without one there is no opinion. *)
Lemma first_answer_spec reply_of json_locked paths :
  match first_answer reply_of json_locked paths with
  | Some v => ∃ pre p post, paths = pre ++ p :: post /\ ask reply_of json_locked p = Some v /\
                Forall (λ q, ask reply_of json_locked q = None) pre
  | None => Forall (λ q, ask reply_of json_locked q = None) paths
  end.
Proof.
  induction paths as [|p paths IH]; cbn; [constructor|]. destruct (ask reply_of json_locked p) as [v|] eqn:E.
  - exists [], p, paths. split_and!; [done|done|constructor].
  - destruct (first_answer _ _ _) as [v|]; [|by constructor].
    destruct IH as (pre & q & post & -> & ? & ?). exists (p :: pre), q, post. split_and!; [done|done|by constructor].
Qed.

(** ** The clipboard *)

(** The value seen last, among polls that could see. *)
Definition seen_last (last : option bytes) (polls : list Pasted) : option bytes :=
  List.fold_left (λ last p, match read p with Ok seen => seen | Err _ => last end) polls last.

Lemma watch_turn_last last p : fst (watch_turn last p) = seen_last last [p].
Proof.
  unfold watch_turn, seen_last. cbn. destruct (read p) as [[b|]|]; try done. by case_bool_decide.
Qed.

(** A poll of the clipboard reports a value exactly when it finds that value
    and the last poll that could look did not: each copy is sent once, the same
    text again only if the clipboard was seen otherwise in between, and a poll
    that fails is as if it had not been made. *)
Theorem watch_reports_changes polls last i c :
  watch last polls !! i = Some (Some c) <->
  (∃ p, polls !! i = Some p /\ read p = Ok (Some c)) /\ seen_last last (take i polls) <> Some c.
Proof.
  revert last i. induction polls as [|p polls IH]; intros last i; [split; [done|by intros [(? & ? & ?) ?]]|].
  cbn [watch]. destruct (watch_turn last p) as [last' report] eqn:E.
  pose proof (watch_turn_last last p) as Hl. rewrite E in Hl. cbn [fst] in Hl. subst last'.
  destruct i as [|i]; cbn [lookup list_lookup take].
  - unfold seen_last at 1. cbn. unfold watch_turn in E.
    assert ((∃ p0, Some p = Some p0 /\ read p0 = Ok (Some c)) <-> read p = Ok (Some c)) as ->
      by (split; [intros (? & [= <-] & ?)|]; eauto). destruct (read p) as [[b|]|[]] eqn:Er;
      [destruct (bool_decide_reflect (last = Some b)) as [Hb|Hb]|..]; injection E as _ <-;
      rewrite ?Er; intuition congruence.
  - rewrite IH. done.
Qed.
