(* ===== verification/Players.v ===== *)
(** * [acrylius-linux/src/media.rs]: the media players of a desktop

    Reading what the players on the bus say of themselves, which one a command
    is for, the call it becomes, and the watch for it to show.  A player answers
    through a record, each field what one call finds, [None] if it fails; all
    that is read of the machine at one time is a [Reading], with how long it
    took. *)

From Stdlib Require Import SpecFloat.
From S2P Require Import Host.
From S2P Require Import Prelude Externals Strs Floats Vocab Plugin Media.
Local Open Scope N_scope.

(* src: crates/acrylius-linux/src/media.rs 13 13 PREFIX *)
Definition PREFIX : string := "org.mpris.MediaPlayer2.".
(* src: crates/acrylius-linux/src/media.rs 24 26 AGGREGATOR *)
Definition AGGREGATOR : string := "playerctld".
(* src: crates/acrylius-linux/src/media.rs 19 22 CONTROL_INTERVAL *)
Definition CONTROL_INTERVAL : u64 := 60.

(** A value of a player's metadata, by its type on the bus. *)
Inductive MetaValue :=
| MText (s : string) | MTexts (l : list string) | MPath (p : string)
| MInt64 (z : i64) | MUint64 (n : u64) | MOther.

(* src: crates/acrylius-linux/src/media.rs 75 88 as_text *)
Definition as_text (value : option MetaValue) : string :=
  match value with
  | Some (MText s) => s
  | Some (MTexts l) => String.concat ", " l
  | _ => ""
  end.

(** [i64::try_from] and [u64::try_from] take their own width only. *)
(* src: crates/acrylius-linux/src/media.rs 103 110 as_micros *)
Definition as_micros (value : option MetaValue) : u64 :=
  match value with
  | Some (MInt64 n) => Z.to_N n
  | Some (MUint64 n) => n
  | _ => 0
  end.

(** What a player answers. *)
(* src: crates/acrylius-linux/src/media.rs 28 69 Player *)
Record PlayerBus := mkPlayerBus {
  pb_identity : option string;
  pb_status : option string;
  pb_metadata : option (gmap string MetaValue);
  pb_position : option i64;
  pb_volume : option f64;
  pb_can_go_next : option bool;
  pb_can_go_previous : option bool;
  pb_can_seek : option bool;
  pb_can_control : option bool;
}.

(** The names on the bus, every player that can be reached, what the tools of the
    sound server print, and the milliseconds all that took. *)
Record Reading := mkReading {
  rd_on_bus : option (list string);
  rd_player : string -> option PlayerBus;
  rd_sound : string -> list string -> option bytes;
  rd_took : u64;
}.
(** The machine's volume, and the processes a reading starts to learn it, if it
    gets so far. *)
Definition rd_volume (r : Reading) : option u8 := (volume (always (rd_sound r)) []).1.
Definition rd_started (r : Reading) : list (list string) :=
  match rd_on_bus r with None => [] | Some _ => (volume (always (rd_sound r)) []).2 end.

(** The names on the bus that are players', in order. *)
(* src: crates/acrylius-linux/src/media.rs 124 138 MediaEffector::names *)
Definition player_names (on_bus : list string) : list string :=
  sort_unstable (List.filter (λ n,
    match str_strip_prefix PREFIX n with Some id => negb (id =s AGGREGATOR) | None => false end) on_bus).

(** [CanControl], and what the person hears of, of the one a nameless command
    goes to. *)
(* src: crates/acrylius-linux/src/media.rs 313 326 pick_active *)
Definition pick_active (players : list MediaPlayer) : string :=
  let best (want : string) :=
    match find (λ p, (mp_status p =s want) && mp_can_control p) players with
    | Some p => Some p
    | None => find (λ p, mp_status p =s want) players
    end in
  let chosen :=
    match best PLAYING with
    | Some p => Some p
    | None => match best PAUSED with Some p => Some p | None => head players end
    end in
  match chosen with Some p => mp_id p | None => ""%string end.

(** Calls to a player, or to the mixer. *)
Inductive MprisCall :=
| CallPlay | CallPause | CallPlayPause | CallNext | CallPrevious | CallStop
| CallSeek (offset_us : i64)
| CallSetPosition (track : string) (us : i64)
| CallSetVolume (level : f64).
Inductive MediaCall := Mpris (bus : string) (c : MprisCall) | SetMachineVolume (percent : u8).

(** [u64::saturating_mul], then [i64::try_from]. *)
Definition us_of_ms (ms : u64) : Z := Z.min i64_max (Z.of_N (N.min (ms * 1000) u64_max)).

(** The level of a percentage. *)
Definition level_of (percent : u8) : f64 := f64_div (f64_of_N percent) f64_hundred.

(** What the player answers while a command is carried out: whether the call
    goes through, its metadata and position before, its volume after, and how
    long it all takes. *)
Record PlayerAnswers := mkPlayerAnswers {
  pa_called : result unit string;
  pa_metadata : option (gmap string MetaValue);
  pa_position : option i64;
  pa_volume : option f64;
  pa_took : u64;
}.

(** A volume that was set is read back; only one that did not move is refused. *)
(* src: crates/acrylius-linux/src/media.rs 263 282 MediaEffector::control *)
Definition checked (name : string) (action : MediaAction) (a : PlayerAnswers) : result unit string :=
  match action with
  | SetVolume percent =>
      let landed := default percent (f64_percent <$> pa_volume a) in
      if 5 <? u64_abs_diff landed percent
      then Err (name +:+ " ignores volume changes; use the player's own controls")%string
      else Ok tt
  | _ => Ok tt
  end.

Section players.
  (** [str::to_lowercase], and which texts are object paths. *)
  Context (to_lowercase : string -> string) (object_path : string -> bool).

(* src: crates/acrylius-linux/src/media.rs 90 101 as_track_id *)
Definition as_track_id (value : option MetaValue) : option string :=
  match value with
  | Some (MPath p) => Some p
  | Some (MText t) => if object_path t then Some t else None
  | _ => None
  end.

(* src: crates/acrylius-linux/src/media.rs 140 178 MediaEffector::read *)
Definition read_player (bus : string) (b : PlayerBus) : MediaPlayer :=
  let id := default bus (str_strip_prefix PREFIX bus) in
  let metadata := default ∅ (pb_metadata b) in
  {| mp_name := default id (pb_identity b);
     mp_id := id;
     mp_status := to_lowercase (default "stopped"%string (pb_status b));
     mp_title := as_text (metadata !! "xesam:title"%string);
     mp_artist := as_text (metadata !! "xesam:artist"%string);
     mp_album := as_text (metadata !! "xesam:album"%string);
     mp_length_ms := as_micros (metadata !! "mpris:length"%string) / 1000;
     mp_position_ms := Z.to_N (default 0%Z (pb_position b)) / 1000;
     mp_volume_percent := f64_percent <$> pb_volume b;
     mp_can_go_next := default false (pb_can_go_next b);
     mp_can_go_previous := default false (pb_can_go_previous b);
     mp_can_seek := default false (pb_can_seek b);
     mp_can_control := default false (pb_can_control b) |}.

(** The players that answered, in the order of their names. *)
(* src: crates/acrylius-linux/src/media.rs 180 199 MediaEffector::state *)
Definition media_state (r : Reading) : MediaState :=
  match rd_on_bus r with
  | None => mkMediaState [] "" None
  | Some on_bus =>
      let players := omap (λ bus, read_player bus <$> rd_player r bus) (player_names on_bus) in
      mkMediaState players (pick_active players) (rd_volume r)
  end.

(** Which call an action is, if the player has what it takes. *)
(* src: crates/acrylius-linux/src/media.rs 236 264 MediaEffector::control *)
Definition call_of (name : string) (action : MediaAction) (a : PlayerAnswers) : result MprisCall string :=
  match action with
  | Play => Ok CallPlay
  | Pause => Ok CallPause
  | PlayPause => Ok CallPlayPause
  | Next => Ok CallNext
  | Previous => Ok CallPrevious
  | Stop => Ok CallStop
  | Seek offset_ms => Ok (CallSeek (clamp64 (offset_ms * 1000)))
  | SetPosition ms =>
      try! track := ok_or (as_track_id (default ∅ (pa_metadata a) !! "mpris:trackid"%string))
        (name +:+ " reports no track id")%string in
      let us := us_of_ms ms in
      if (us =? 0)%Z then Ok (CallSeek (- clamp64 (default 0%Z (pa_position a) + 1000000)))
      else Ok (CallSetPosition track us)
  | SetVolume percent => Ok (CallSetVolume (level_of percent))
  end.

(** [mixer] is what setting the machine's volume answers. *)
(* src: crates/acrylius-linux/src/media.rs 201 284 MediaEffector::control *)
Definition media_control (player : string) (action : MediaAction) (r : Reading)
    (mixer : result u8 string) (a : PlayerAnswers) : result (option MediaState) string * list MediaCall * u64 :=
  match action, player with
  | SetVolume percent, EmptyString =>
      (match mixer with Ok _ => Ok None | Err e => Err e end, [SetMachineVolume percent], pa_took a)
  | _, _ =>
      let state := media_state r in
      let target := if player =s "" then ms_active state else player in
      if target =s "" then (Err "nothing is playing"%string, [], rd_took r)
      else match find_player target state with
      | None => (Err ("no player called " +:+ target)%string, [], rd_took r)
      | Some found =>
          if negb (mp_can_control found)
          then (Err (mp_name found +:+ " does not accept control")%string, [], rd_took r)
          else match call_of (mp_name found) action a with
          | Err e => (Err e, [], rd_took r + pa_took a)
          | Ok call =>
              (try! _ := pa_called a in
               try! _ := checked (mp_name found) action a in Ok (Some state),
               [Mpris (PREFIX +:+ target) call],
               rd_took r + pa_took a + match action with SetVolume _ => 150 | _ => 0 end)
          end
      end
  end.

(** The readings from the first on, [elapsed] after the command: each follows a
    sleep.  Without fuel the time is up as well.  With the answer, when it came
    and how many readings were made. *)
(* src: crates/acrylius-linux/src/media.rs 294 310 MediaEffector::control_and_settle *)
Fixpoint settle (fuel : nat) (player : string) (action : MediaAction) (before : option MediaState)
    (elapsed : u64) (readings : nat -> Reading) : MediaState * u64 * nat :=
  let now := media_state (readings 0%nat) in
  let elapsed := elapsed + CONTROL_INTERVAL + rd_took (readings 0%nat) in
  match before with
  | None => (now, elapsed, 1%nat)
  | Some b =>
      if negb (bool_decide (landed action player b now = Some false)) then (now, elapsed, 1%nat)
      else if CONTROL_CONFIRM_MS <=? elapsed then (now, elapsed, 1%nat)
      else match fuel with
      | O => (now, elapsed, 1%nat)
      | S fuel => let '(now, elapsed, n) := settle fuel player action before elapsed (readings ∘ S) in (now, elapsed, S n)
      end
  end.
Definition readings_within : nat := N.to_nat (CONTROL_CONFIRM_MS / CONTROL_INTERVAL).

(** The answer, the calls made, the milliseconds it took, and the readings made
    after the command. *)
(* src: crates/acrylius-linux/src/media.rs 285 311 MediaEffector::control_and_settle *)
Definition control_and_settle (player : string) (action : MediaAction) (r : Reading)
    (mixer : result u8 string) (a : PlayerAnswers) (readings : nat -> Reading)
    : result MediaState string * list MediaCall * u64 * nat :=
  match media_control player action r mixer a with
  | (Err e, calls, t) => (Err e, calls, t, 0%nat)
  | (Ok before, calls, t) =>
      let '(now, spent, n) := settle readings_within player action before 0 readings in (Ok now, calls, t + spent, n)
  end.
End players.

(** ** Who is playing *)

Lemma pick_active_named players :
  match players with
  | [] => pick_active players = ""%string
  | _ => ∃ p, p ∈ players /\ mp_id p = pick_active players
  end.
Proof.
  destruct players as [|q players']; [done|]. set (l := q :: players'). unfold pick_active.
  assert (∀ f p, find f l = Some p -> p ∈ l) as Hf.
  { intros f p [Hin _]%find_some. by apply list_elem_of_In. }
  repeat match goal with
  | |- context [find ?f l] => destruct (find f l) as [p|] eqn:?; [by eauto|]
  end.
  exists q. split; [left|done].
Qed.


Lemma find_some_elem {A} (f : A -> bool) l x : find f l = Some x -> x ∈ l /\ f x = true.
Proof. intros [Hin H]%find_some. split; [by apply list_elem_of_In|done]. Qed.
Lemma find_elem {A} (f : A -> bool) l x : x ∈ l -> f x = true -> is_Some (find f l).
Proof.
  intros Hin Hf. destruct (find f l) as [y|] eqn:E; [by eexists|].
  by rewrite (find_none f l E x ltac:(by apply list_elem_of_In)) in Hf.
Qed.

(** If a player plays and takes commands, the active one is such a player. *)
Lemma pick_active_playing players p :
  p ∈ players -> mp_status p = PLAYING -> mp_can_control p = true ->
  ∃ q, q ∈ players /\ mp_status q = PLAYING /\ mp_can_control q = true /\ mp_id q = pick_active players.
Proof.
  intros Hin Hs Hc. unfold pick_active.
  destruct (find_elem (λ p, (mp_status p =s PLAYING) && mp_can_control p) players p Hin) as [q Hq];
    [by rewrite Hs, Hc, String.eqb_refl|].
  rewrite Hq. apply find_some_elem in Hq as [Hq [E%String.eqb_eq ?]%andb_prop]. by exists q.
Qed.

(** ** Volumes *)

Lemma percent_all : Forall (λ p, f64_percent (level_of (N.of_nat p)) = N.min (N.of_nat p) 100) (seq 0 256).
Proof.
  apply (Forall_impl (λ p, bool_decide (f64_percent (level_of (N.of_nat p)) = N.min (N.of_nat p) 100) = true));
    [|by intros ? ?%bool_decide_eq_true].
  assert (forallb (λ p, bool_decide (f64_percent (level_of (N.of_nat p)) = N.min (N.of_nat p) 100)) (seq 0 256) = true) as H
    by (vm_compute; reflexivity).
  apply Forall_forall. intros x Hx%list_elem_of_In. by apply (proj1 (forallb_forall _ _) H).
Qed.

(** A percentage survives the way through a player's level and back. *)
Lemma percent_roundtrip p : p < 256 -> f64_percent (level_of p) = N.min p 100.
Proof.
  intros Hp. rewrite <- (N2Nat.id p). apply (proj1 (Forall_forall _ _) percent_all).
  apply elem_of_seq. lia.
Qed.

(** A player that keeps the level it is told is believed; one that stays where it was,
    more than five off, is reported. *)
Lemma volume_believed name p a :
  p <= 100 -> pa_volume a = Some (level_of p) -> checked name (SetVolume p) a = Ok tt.
Proof.
  intros Hp E. cbn. rewrite E. cbn. rewrite percent_roundtrip by lia. rewrite N.min_l by lia.
  unfold u64_abs_diff. by rewrite N.sub_diag.
Qed.
Lemma volume_ignored name p q a :
  q <= 100 -> pa_volume a = Some (level_of q) -> (p + 5 < q \/ q + 5 < p) ->
  ∃ e, checked name (SetVolume p) a = Err e.
Proof.
  intros Hp E Hd. cbn. rewrite E. cbn. rewrite percent_roundtrip by lia. rewrite N.min_l by lia.
  unfold u64_abs_diff. destruct (N.ltb_spec 5 (q - p + (p - q))); [by eexists|lia].
Qed.

(** ** Positions *)

(** Back to the start is a seek that cannot stop short of it. *)
Lemma rewind_reaches_start op name a here :
  pa_position a = Some here -> (0 <= here <= i64_max)%Z ->
  is_Some (as_track_id op (default ∅ (pa_metadata a) !! "mpris:trackid"%string)) ->
  ∃ off, call_of op name (SetPosition 0) a = Ok (CallSeek off) /\ (i64_min <= off)%Z /\ (here + off <= 0)%Z.
Proof.
  intros Ep Hh [t Et]. cbn. rewrite Et, Ep. cbn. eexists. split; [reflexivity|].
  unfold clamp64, i64_max, i64_min in *. lia.
Qed.

(** ** What a reading says of the bus *)

Section theorems.
  Context (to_lowercase : string -> string) (object_path : string -> bool).
  Notation state := (media_state to_lowercase).

Lemma elem_of_player_names n on_bus :
  n ∈ player_names on_bus <-> n ∈ on_bus /\ ∃ id, n = PREFIX +:+ id /\ id <> AGGREGATOR.
Proof.
  unfold player_names. rewrite elem_of_sort_unstable, list_elem_of_In, filter_In, <- list_elem_of_In.
  destruct (str_strip_prefix PREFIX n) as [id|] eqn:E.
  - apply str_strip_prefix_spec in E as ->. split.
    + intros [H Hn]. split; [done|]. exists id. split; [done|]. intros ->. by rewrite String.eqb_refl in Hn.
    + intros (H & id' & E & Hn). split; [done|]. apply str_app_inj_l in E as ->.
      by destruct (String.eqb_spec id' AGGREGATOR).
  - split; [by intros [_ ?]|]. intros (_ & id & E' & _).
    assert (str_strip_prefix PREFIX n = Some id) by (by apply str_strip_prefix_spec). congruence.
Qed.

(** A player of a reading is one on the bus that answered, under its name. *)
Lemma elem_of_state p r :
  p ∈ ms_players (state r) <->
  ∃ on_bus bus b, rd_on_bus r = Some on_bus /\ bus ∈ player_names on_bus /\ rd_player r bus = Some b /\
    p = read_player to_lowercase bus b.
Proof.
  unfold media_state. destruct (rd_on_bus r) as [on_bus|]; cbn [ms_players].
  - rewrite list_elem_of_omap. split.
    + intros (bus & Hb & E). destruct (rd_player r bus) as [b|] eqn:Eb; [|done]. injection E as <-. by exists on_bus, bus, b.
    + intros (? & bus & b & [= <-] & Hb & Eb & ->). exists bus. by rewrite Eb.
  - rewrite elem_of_nil. split; [done|]. by intros (? & ? & ? & ? & _).
Qed.

Lemma read_player_id bus b on_bus :
  bus ∈ player_names on_bus -> PREFIX +:+ mp_id (read_player to_lowercase bus b) = bus.
Proof.
  intros (_ & id & -> & _)%elem_of_player_names. cbn [mp_id read_player].
  by rewrite (proj2 (str_strip_prefix_spec PREFIX (PREFIX +:+ id) id) eq_refl).
Qed.

(** A command of a remote becomes one call at most: with no player named a volume is the
    machine's; otherwise it goes to the player named, or to the active one, which
    is on the bus, answers, accepts control, and is not the aggregator. *)
Theorem control_reaches_one player action r mixer a res calls t :
  media_control to_lowercase object_path player action r mixer a = (res, calls, t) ->
  match calls with
  | [] => ∃ e, res = Err e
  | [SetMachineVolume percent] => player = ""%string /\ action = SetVolume percent
  | [Mpris bus c] =>
      ∃ on_bus id b, rd_on_bus r = Some on_bus /\ bus ∈ on_bus /\ bus = PREFIX +:+ id /\ id <> AGGREGATOR /\
        id = (if player =s "" then ms_active (state r) else player) /\
        rd_player r bus = Some b /\ pb_can_control b = Some true /\
        call_of object_path (default id (pb_identity b)) action a = Ok c
  | _ => False
  end.
Proof.
  unfold media_control. cbv zeta.
  set (target := if player =s "" then ms_active (state r) else player).
  match goal with |- (match _ with SetVolume _ => match _ with EmptyString => _ | String _ _ => ?x end | _ => _ end) = _ -> _ => set (rest := x) end.
  match goal with |- _ -> ?g => assert (rest = (res, calls, t) -> g) as Hrest end.
  { subst rest. destruct (target =s ""); [intros [= <- <- <-]; by eexists|].
    destruct (find_player target (state r)) as [p|] eqn:Ef; [|intros [= <- <- <-]; by eexists].
    apply find_some_elem in Ef as [Hin Hid%String.eqb_eq].
    apply elem_of_state in Hin as (on_bus & bus & b & Hon & Hbus & Hb & ->).
    pose proof (read_player_id bus b on_bus Hbus) as Hn. rewrite Hid in Hn.
    destruct (mp_can_control _) eqn:Ec; cbn [negb]; [|intros [= <- <- <-]; by eexists].
    destruct (call_of object_path (mp_name (read_player to_lowercase bus b)) action a) as [c|e] eqn:Ecall;
      [|intros [= <- <- <-]; by eexists].
    intros [= _ <- _]. rewrite Hn. apply elem_of_player_names in Hbus as (Hbus & id & E & Hagg).
    assert (target = id) as Ht by (rewrite E in Hn; by apply str_app_inj_l in Hn).
    change (mp_name (read_player to_lowercase bus b))
      with (default (mp_id (read_player to_lowercase bus b)) (pb_identity b)) in Ecall.
    rewrite Hid, Ht in Ecall. exists on_bus, id, b. split_and!; try done.
    cbn in Ec. by destruct (pb_can_control b) as [[]|]. }
  destruct action; try exact Hrest. destruct player; [|exact Hrest]. by intros [= _ <- _].
Qed.

(** Names are found: the player of an id is the only one of it. *)
Lemma find_player_of p q r :
  p ∈ ms_players (state r) -> find_player (mp_id p) (state r) = Some q -> q = p.
Proof.
  intros Hp Hq. apply find_some_elem in Hq as [Hq E%String.eqb_eq].
  apply elem_of_state in Hp as (on_bus & bus & b & Hon & Hbus & Hb & ->).
  apply elem_of_state in Hq as (on_bus' & bus' & b' & Hon' & Hbus' & Hb' & ->).
  assert (bus' = bus) as ->.
  { rewrite <- (read_player_id bus b on_bus), <- (read_player_id bus' b' on_bus') by done. by rewrite E. }
  congruence.
Qed.

(** A nameless command for the players goes to one that is playing, if any that takes
    commands is. *)
Theorem nameless_goes_to_what_plays action r mixer a res calls t on_bus bus b :
  to_lowercase "Playing" = PLAYING ->
  rd_on_bus r = Some on_bus -> PREFIX ∉ on_bus -> bus ∈ player_names on_bus -> rd_player r bus = Some b ->
  pb_status b = Some "Playing"%string -> pb_can_control b = Some true ->
  match action with Play | Pause | PlayPause | Next | Previous | Stop => True | _ => False end ->
  media_control to_lowercase object_path "" action r mixer a = (res, calls, t) ->
  ∃ bus' b' c, bus' ∈ on_bus /\ rd_player r bus' = Some b' /\
    to_lowercase (default "stopped"%string (pb_status b')) = PLAYING /\ pb_can_control b' = Some true /\
    calls = [Mpris bus' c] /\ call_of object_path "" action a = Ok c.
Proof.
  intros Hlow Hon Hdot Hbus Hb Hs Hc Ha H.
  destruct (pick_active_playing (ms_players (state r)) (read_player to_lowercase bus b)) as (q & Hq & Hqs & Hqc & Hqid).
  { apply elem_of_state. by exists on_bus, bus, b. }
  { cbn. by rewrite Hs. } { cbn. by rewrite Hc. }
  assert (ms_active (state r) = mp_id q) as Hact by (unfold media_state in *; rewrite Hon in *; done).
  assert (find_player (mp_id q) (state r) = Some q) as Hf.
  { destruct (find_elem (λ p, mp_id p =s mp_id q) (ms_players (state r)) q Hq (String.eqb_refl _)) as [q' Hq'].
    change (find_player (mp_id q) (state r) = Some q') in Hq'. rewrite Hq'. f_equal. by apply (find_player_of q q' r). }
  pose proof Hq as (on' & bus' & b' & Hon' & Hbus' & Hb' & ->)%elem_of_state.
  assert (on' = on_bus) as -> by congruence.
  assert (pb_can_control b' = Some true) as Hc' by (cbn in Hqc; by destruct (pb_can_control b') as [[]|]).
  pose proof (read_player_id bus' b' on_bus Hbus') as Hn. apply elem_of_player_names in Hbus' as Hbus2. destruct Hbus2 as (Hin & id & Eid & _).
  unfold media_control in H. cbv zeta in H. change (""%string =s "") with true in H. cbn beta iota in H.
  rewrite Hact, Hf, Hqc in H.
  exists bus', b'.
  assert (mp_id (read_player to_lowercase bus' b') =s "" = false) as Hne.
  { destruct (String.eqb_spec (mp_id (read_player to_lowercase bus' b')) "") as [E|]; [|done].
    rewrite E in Hn. change (PREFIX +:+ "")%string with PREFIX in Hn. by rewrite <- Hn in Hin. }
  rewrite Hne in H. destruct action; try done; injection H as _ <- _; eexists;
    (split_and!; [done|done|exact Hqs|done|exact (f_equal (λ b, [Mpris b _]) Hn)|done]).
Qed.

(** ** The watch *)

(** When the [k]th reading is there, after the command. *)
Fixpoint ended (readings : nat -> Reading) (k : nat) : u64 :=
  CONTROL_INTERVAL + rd_took (readings 0%nat) +
  match k with O => 0 | S k => ended (readings ∘ S) k end.

Lemma ended_ge readings k : CONTROL_INTERVAL * N.of_nat (S k) <= ended readings k.
Proof.
  revert readings. induction k as [|k IH]; intros readings; cbn [ended]; [lia|].
  specialize (IH (readings ∘ S)). lia.
Qed.

(** What lets a reading be the answer. *)
Definition Settles (player : string) (action : MediaAction) (before : option MediaState) (now : MediaState)
    (at_ : u64) : Prop :=
  match before with
  | None => True
  | Some b => landed action player b now <> Some false \/ CONTROL_CONFIRM_MS <= at_
  end.

(** The answer is the first reading in which the command has landed, or that cannot
    tell, or that comes when the time is up; there is one. *)
Lemma settle_first player action before fuel : ∀ elapsed readings,
  CONTROL_CONFIRM_MS <= elapsed + CONTROL_INTERVAL * N.of_nat (S fuel) ->
  ∃ k, settle to_lowercase fuel player action before elapsed readings
       = (state (readings k), elapsed + ended readings k, S k) /\
    Settles player action before (state (readings k)) (elapsed + ended readings k) /\
    ∀ j, (j < k)%nat -> ~ Settles player action before (state (readings j)) (elapsed + ended readings j).
Proof.
  induction fuel as [|fuel IH]; intros elapsed readings Hf; cbn [settle].
  all: set (now := state (readings 0%nat)); set (t := elapsed + CONTROL_INTERVAL + rd_took (readings 0%nat)).
  all: assert (elapsed + ended readings 0 = t) as E0 by (cbn [ended]; lia).
  all: assert (Settles player action before now t ->
    ∃ k, (now, t, 1%nat) = (state (readings k), elapsed + ended readings k, S k) /\
    Settles player action before (state (readings k)) (elapsed + ended readings k) /\
    ∀ j, (j < k)%nat -> ~ Settles player action before (state (readings j)) (elapsed + ended readings j)) as Hnow
    by (intros HS; exists 0%nat; rewrite E0; split_and!; [done|done|lia]).
  all: destruct before as [b|]; [|by apply Hnow].
  all: case_bool_decide as El; cbn [negb]; [|apply Hnow; by left].
  all: destruct (N.leb_spec CONTROL_CONFIRM_MS t) as [Hle|Hlt]; [apply Hnow; by right|].
  { lia. }
  destruct (IH t (readings ∘ S)) as (k & -> & HS & Hj); [lia|]. clear Hnow.
  assert (∀ i, t + ended (readings ∘ S) i = elapsed + ended readings (S i)) as Et by (intros i; cbn [ended]; lia).
  rewrite Et in HS |- *. exists (S k). split_and!; [done|done|].
  intros [|j] Hlt'; [|rewrite <- Et; by apply (Hj j); lia]. rewrite E0. intros [?|?]; [done|lia].
Qed.

(** What is left before the watch, and how long it took. *)
Lemma control_before player action r mixer a :
  let '(res, _, t) := media_control to_lowercase object_path player action r mixer a in
  t <= rd_took r + pa_took a + 150 /\
  match res with
  | Ok before => before = (match action, player with SetVolume _, EmptyString => None | _, _ => Some (state r) end)
  | Err _ => True
  end.
Proof.
  destruct (media_control to_lowercase object_path player action r mixer a) as [[res calls] t] eqn:Ec.
  revert Ec. unfold media_control. cbv zeta.
  match goal with |- (match _ with SetVolume _ => match _ with EmptyString => _ | String _ _ => ?x end | _ => _ end) = _ -> _ => set (rest := x) end.
  assert (rest = (res, calls, t) -> t <= rd_took r + pa_took a + 150 /\
    match res with Ok before => before = Some (state r) | Err _ => True end) as Hrest.
  { subst rest. destruct (_ =s ""); [intros [= <- <- <-]; split; [lia|done]|].
    destruct (find_player _ _); [|intros [= <- <- <-]; split; [lia|done]].
    destruct (negb _); [intros [= <- <- <-]; split; [lia|done]|].
    destruct (call_of _ _ _ _); [|intros [= <- <- <-]; split; [lia|done]].
    intros [= <- <- <-]. split; [by destruct action; lia|]. destruct (pa_called a); [|done].
    cbn [result_bind]. by destruct (checked _ _ _). }
  destruct action; try exact Hrest. destruct player; [|exact Hrest]. intros [= <- <- <-]. split; [lia|].
  by destruct mixer.
Qed.

Lemma ended_S readings k : ended readings (S k) = ended readings k + CONTROL_INTERVAL + rd_took (readings (S k)).
Proof.
  revert readings. induction k as [|k IH]; intros readings; [cbn; lia|].
  cbn [ended] in *. specialize (IH (readings ∘ S)). cbn in IH |- *. lia.
Qed.

(** A command that is carried out is answered, with a reading made after it: the first in
    which it has landed or that cannot tell, or the one that comes when the time
    for it is up, which is over soon after. *)
Theorem settled_first player action r mixer a readings b :
  (∀ k, rd_took (readings k) <= b) ->
  let '(res, calls, t, _) := control_and_settle to_lowercase object_path player action r mixer a readings in
  t <= rd_took r + pa_took a + 150 + CONTROL_CONFIRM_MS + b + CONTROL_INTERVAL /\
  match res with
  | Err e => ∃ t', media_control to_lowercase object_path player action r mixer a = (Err e, calls, t')
  | Ok now =>
      let before := match action, player with SetVolume _, EmptyString => None | _, _ => Some (state r) end in
      ∃ k, now = state (readings k) /\ Settles player action before now (ended readings k) /\
        ∀ j, (j < k)%nat -> ~ Settles player action before (state (readings j)) (ended readings j)
  end.
Proof.
  intros Hb. unfold control_and_settle. pose proof (control_before player action r mixer a) as H.
  destruct (media_control to_lowercase object_path player action r mixer a) as [[res0 calls0] t0].
  destruct H as [Ht Hbefore]. destruct res0 as [before|e]; [|split; [lia|by exists t0]].
  destruct (settle_first player action before readings_within 0 readings) as (k & Ek & HS & Hj); [vm_compute; done|].
  rewrite Ek. split; [|subst before; by exists k].
  enough (ended readings k <= CONTROL_CONFIRM_MS + CONTROL_INTERVAL + b) by lia.
  destruct k as [|k]; [cbn [ended]; specialize (Hb 0%nat); lia|].
  assert (ended readings k < CONTROL_CONFIRM_MS) as Hk.
  { specialize (Hj k ltac:(lia)). unfold Settles in Hj. clear Hbefore. destruct before; [|by destruct Hj]. lia. }
  rewrite ended_S. specialize (Hb (S k)). lia.
Qed.
End theorems.
