(* ===== verification/Desktop.v ===== *)
(** * [acrylius-linux]: what a desktop does for the core

    Wake-up packets (wol.rs), configured commands (command.rs), and the effector
    (effector.rs) that offers them with the sessions of [Logind] and the players
    of [Players].  The network, processes, logind, the compositor and the players
    answer through arguments. *)

From Stdlib Require Import Ascii.
From S2P Require Import Host.
From S2P Require Import Prelude Externals Strs Floats Ids Vocab Plugin Command Wol Session Media TouchDevice Logind Players.
Local Open Scope N_scope.

(** ** Wake-up packets *)

(** [char::to_digit(16)] of a digit, as a byte. *)
Definition hex_val (c : ascii) : N :=
  let n := N_of_ascii c in
  if n <=? 57 then n - 48 else if n <=? 70 then n - 55 else n - 87.

Fixpoint hex_digits (s : string) : list N :=
  match s with
  | EmptyString => []
  | String c s => if is_ascii_hexdigit c then hex_val c :: hex_digits s else hex_digits s
  end.
Fixpoint pairs (l : list N) : bytes :=
  match l with
  | a :: b :: l => byte_of (N.lor (N.shiftl a 4) b) :: pairs l
  | _ => []
  end.

(** What is not read here of texts: [str::to_lowercase] beyond ASCII, and which
    texts are object paths. *)
Class Texts := { str_to_lowercase : string -> string; object_path : string -> bool }.

Section desktop.
  (** [{:?}] of a text. *)
  Context (quoted : string -> string) {TX : Texts}.

(* src: crates/acrylius-linux/src/wol.rs 10 25 parse_mac *)
Definition parse_mac (mac : string) : result bytes string :=
  let hex := hex_digits mac in
  if negb (length hex =? 12)%nat then Err (quoted mac +:+ " is not a MAC address")%string
  else Ok (pairs hex).

(* src: crates/acrylius-linux/src/wol.rs 27 39 build *)
Definition build (mac : bytes) (secure_on : option bytes) : bytes :=
  replicate 6 Byte.xff ++ concat (replicate 16 mac) ++ default [] secure_on.

Section wol.
  (** Socket addresses, name resolution ([None]: it failed) and whether a
      datagram leaves. *)
  Context {Addr : Type} (to_socket_addrs : string -> u16 -> option (list Addr)).
  Context (send_to : bytes -> Addr -> bool).

Fixpoint packets_of (macs : list string) : result (list bytes) string :=
  match macs with
  | [] => Ok []
  | m :: macs => try! mac := parse_mac m in try! rest := packets_of macs in Ok (build mac None :: rest)
  end.

(** The datagrams tried, in order. *)
(* src: crates/acrylius-linux/src/wol.rs 52 69 send *)
Definition datagrams (packets : list bytes) (destinations : list string) (port : u16) : list (bytes * Addr) :=
  concat (map (λ dest, concat (map (λ a, map (λ p, (p, a)) packets)
    (default [] (to_socket_addrs dest port)))) destinations).

(** [bound]: a socket could be had. *)
(* src: crates/acrylius-linux/src/wol.rs 41 77 send *)
Definition wol_send (bound : bool) (macs destinations : list string) (port : u16)
    : result usize string * list (bytes * Addr) :=
  match packets_of macs with
  | Err e => (Err e, [])
  | Ok packets =>
      if negb bound then (Err "io"%string, [])
      else
        let tried := datagrams packets destinations port in
        let sent := len (List.filter (λ '(p, a), send_to p a) tried) in
        (if sent =? 0 then Err "no wake packet could be sent"%string else Ok sent, tried)
  end.
End wol.

(** ** Configured commands *)

(* src: crates/acrylius-linux/src/command.rs 16 16 DEFAULT_OUTPUT_CAP *)
Definition DEFAULT_OUTPUT_CAP : usize := 64 * 1024.

(* src: crates/acrylius-linux/src/command.rs 18 30 CommandSpec *)
Record CommandSpec := mkCommandSpec {
  cs_name : string;
  cs_program : string;
  cs_args : list string;
  cs_needs_confirm : bool;
  cs_timeout_secs : option u64;
}.
Abbreviation CommandCatalog := (gmap string CommandSpec).

(* src: crates/acrylius-linux/src/command.rs 43 54 CommandCatalog::manifest *)
Definition catalog_manifest (c : CommandCatalog) : list CommandEntry :=
  map (λ '(id, spec), mkCommandEntry id (cs_name spec) (cs_needs_confirm spec)) (bt_iter c).

Fixpoint validate_entries (l : list (string * CommandSpec)) : result unit string :=
  match l with
  | [] => Ok tt
  | (id, spec) :: l =>
      if negb (str_starts_with "/" (cs_program spec))
      then Err ("command " +:+ quoted id +:+ " has a relative program " +:+ quoted (cs_program spec) +:+ "; use an absolute path")%string
      else if id =s "" then Err "a command id may not be empty"%string
      else validate_entries l
  end.
(* src: crates/acrylius-linux/src/command.rs 66 81 CommandCatalog::validate *)
Definition catalog_validate (c : CommandCatalog) : result unit string := validate_entries (bt_iter c).

(** The sizes of the reads of a pipe until one is empty. *)
(* src: crates/acrylius-linux/src/command.rs 83 96 drain *)
Fixpoint drain (reads : list usize) (cap seen : usize) : bool :=
  match reads with
  | [] => cap <? seen
  | n :: reads => if n =? 0 then cap <? seen else drain reads cap (u64_saturating_add seen n)
  end.

(** What became of a process. *)
Inductive Process :=
| SpawnFailed (e : string)
| TimedOut
| WaitFailed (e : string)
| Finished (out err : list usize) (code : option Z).

(* src: crates/acrylius-linux/src/command.rs 98 144 run *)
Definition command_run (p : Process) (run_id : u32) : result Exited string :=
  match p with
  | SpawnFailed e | WaitFailed e => Err e
  | TimedOut => Ok (mkExited run_id (-1) true)
  | Finished out err code =>
      Ok (mkExited run_id (default (-1)%Z code)
            (drain out DEFAULT_OUTPUT_CAP 0 || drain err DEFAULT_OUTPUT_CAP 0))
  end.

(** ** The effector *)

(* src: crates/acrylius-linux/src/effector.rs 13 29 LinuxEffector *)
Record LinuxEffector := mkLinuxEffector {
  le_session : option SessionCommands;
  le_media : bool;
  le_catalog : CommandCatalog;
  le_has_wayland : bool;
  le_touchpad : option PadState;
  le_run_counter : u32;
}.
#[global] Instance LinuxEffector_eta : Eta LinuxEffector := λ e,
  mkLinuxEffector (le_session e) (le_media e) (le_catalog e) (le_has_wayland e) (le_touchpad e) (le_run_counter e).

(* src: crates/acrylius-linux/src/effector.rs 95 116 LinuxEffector::supported *)
Definition supported (e : LinuxEffector) : list EffectKind :=
  [KWol]
  ++ (if le_session e then [KSession] else [])
  ++ (if le_has_wayland e then [KClipboard] else [])
  ++ (if bool_decide (le_catalog e = ∅) then [] else [KCommand])
  ++ (if le_media e then [KMedia] else [])
  ++ (if le_touchpad e then [KTouchpad] else []).

(** What the rest of the machine makes of an effect; the sound tools run to set
    the volume print what [m_mixer] lists, in turn. *)
Record Machine := mkMachine {
  m_uid : u32;
  m_seat : Seat;
  m_clipboard : result (option bytes) string;
  m_clipboard_set : result unit string;
  m_process : Process;
  m_wol : result usize string;
  m_reading : Reading;
  m_mixer : list (option bytes);
  m_player : PlayerAnswers;
  m_readings : nat -> Reading;
  m_uinput : bool;
}.

  Context `{!Cbor SessionState} `{!Cbor SessionOutcome} `{!Cbor CommandList} `{!Cbor Exited} `{!Cbor MediaState}.

(* src: crates/acrylius-linux/src/effector.rs 85 90 LinuxEffector::encode *)
Definition encode {T} `{!Cbor T} (x : T) : EffectResult :=
  match to_vec x with
  | Some b => EffectOk b
  | None => EffectFail "could not encode a reply: "
  end.
Definition answer {A} (f : A -> EffectResult) (r : result A string) : EffectResult :=
  match r with Ok a => f a | Err e => EffectFail e end.

(** Setting the machine's volume, for a command that names no player: the answer
    and the processes started. *)
Definition mixer_set (action : MediaAction) (answers : list (option bytes)) : result u8 string * list (list string) :=
  match action with
  | SetVolume percent =>
      let '(r, (_, started)) := set_volume in_turn (answers, []) percent in (map_err sound_error_to_string r, started)
  | _ => (Err EmptyString, [])
  end.
(** What carrying out a command for the players starts: the tools that set the volume, or
    those of the reading it goes by; and those of every reading after it. *)
Definition media_started (player : string) (action : MediaAction) (m : Machine) (readings : nat) : list (list string) :=
  (match action, player with
   | SetVolume _, EmptyString => (mixer_set action (m_mixer m)).2
   | _, _ => rd_started (m_reading m)
   end) ++ concat (map (λ k, rd_started (m_readings m k)) (seq 0 readings)).
Definition argv_of (a : Asked) : option (list string) := match a with RanArgv argv => Some argv | Logind _ _ => None end.

(** The argument vectors of the processes it starts, or tries to, in order,
    are the second part of the outcome. *)
(* src: crates/acrylius-linux/src/effector.rs 118 222 LinuxEffector::run *)
Definition run_effect (eff : Effect) (m : Machine) (e : LinuxEffector)
    : EffectResult * list (list string) * LinuxEffector :=
  match eff with
  | QuerySession =>
      (if le_session e then answer encode (session_query (m_uid m) (se_first (m_seat m))) else EffectUnsupported, [], e)
  | LockSession | UnlockSession =>
      let want := match eff with LockSession => true | _ => false end in
      match le_session e with
      | Some commands =>
          let '(r, asked, _) := session_act want (m_uid m) commands (m_seat m) in
          (answer encode r, omap argv_of asked, e)
      | None => (EffectUnsupported, [], e)
      end
  | ClipboardRead =>
      (if le_has_wayland e then answer (λ d, EffectOk (default [] d)) (m_clipboard m) else EffectUnsupported, [], e)
  | ClipboardWrite _ _ =>
      (if le_has_wayland e then answer (λ _, EffectOk []) (m_clipboard_set m) else EffectUnsupported, [], e)
  | ListCommands => (encode (mkCommandList (catalog_manifest (le_catalog e))), [], e)
  | RunCommand id =>
      match le_catalog e !! id with
      | None => (EffectFail (quoted id +:+ " is not a configured command")%string, [], e)
      | Some spec =>
          let run_id := wrap32 (le_run_counter e + 1) in
          (answer encode (command_run (m_process m) run_id), [cs_program spec :: cs_args spec], e <| le_run_counter := run_id |>)
      end
  | SendMagicPacket _ _ _ => (answer (λ n, encode (mkExited 0 0 (n =? 0))) (m_wol m), [], e)
  | MediaQuery =>
      if le_media e
      then (encode (media_state str_to_lowercase (m_reading m)), rd_started (m_reading m), e)
      else (EffectUnsupported, [], e)
  | MediaControl player action =>
      if le_media e
      then
        let '(r, _, _, n) := control_and_settle str_to_lowercase object_path player action (m_reading m)
                               (mixer_set action (m_mixer m)).1 (m_player m) (m_readings m) in
        (answer encode r, media_started player action m n, e)
      else (EffectUnsupported, [], e)
  | Touchpad order op =>
      match le_touchpad e with
      | Some t =>
          let '(r, t) := pad_run order op (m_uinput m) t in
          (answer (λ _, EffectOk []) r, [], e <| le_touchpad := Some t |>)
      | None => (EffectUnsupported, [], e)
      end
  | CustomEffect _ _ _ => (EffectUnsupported, [], e)
  end.
End desktop.

(** ** Two readers of one address *)

Definition hex_char (n : N) : ascii := ascii_of_N (if n <? 10 then n + 48 else n + 87).
Fixpoint hex_text (l : list N) : string :=
  match l with [] => EmptyString | n :: l => String (hex_char n) (hex_text l) end.

Lemma hex_digit_char c :
  is_ascii_hexdigit c = true -> hex_char (hex_val c) = to_lowercase c /\ hex_val c < 16.
Proof. destruct c as [[] [] [] [] [] [] [] []]; vm_compute; done. Qed.

Lemma hex_char_inj a b : a < 16 -> b < 16 -> hex_char a = hex_char b -> a = b.
Proof.
  intros Ha Hb E. unfold hex_char in E. apply (f_equal N_of_ascii) in E.
  revert E. rewrite !N_ascii_embedding by (destruct (_ <? 10); lia).
  destruct (N.ltb_spec a 10), (N.ltb_spec b 10); lia.
Qed.

(** Normalising is spelling the digits. *)
Lemma normalize_digits s : normalize_mac s = hex_text (hex_digits s) /\ Forall (λ n, n < 16) (hex_digits s).
Proof.
  induction s as [|c s [IH1 IH2]]; [done|]. cbn. destruct (is_ascii_hexdigit c) eqn:E; [|done].
  apply hex_digit_char in E as [<- Hlt]. cbn. rewrite IH1. split; [done|by constructor].
Qed.

Lemma hex_text_inj l l' :
  Forall (λ n, n < 16) l -> Forall (λ n, n < 16) l' -> hex_text l = hex_text l' -> l = l'.
Proof.
  intros Hl. revert l'. induction Hl as [|a l Ha Hl IH]; intros [|b l'] Hl'; cbn [hex_text]; try done.
  apply Forall_cons in Hl' as [Hb Hl']. generalize (hex_char_inj a b Ha Hb).
  generalize (hex_char a), (hex_char b). intros x y Hxy [= -> E2]. f_equal; [by apply Hxy|by apply IH].
Qed.

Lemma hex_text_length l : str_len (hex_text l) = len l.
Proof.
  unfold str_len, len. f_equal. induction l as [|n l IH]; [done|].
  change (S (length (as_bytes (hex_text l))) = S (length l)). by rewrite IH.
Qed.

Lemma nibbles_inj a b c d :
  a < 16 -> b < 16 -> c < 16 -> d < 16 ->
  byte_of (N.lor (N.shiftl a 4) b) = byte_of (N.lor (N.shiftl c 4) d) -> a = c /\ b = d.
Proof.
  intros Ha Hb Hc Hd E. apply (f_equal Byte.to_N) in E. rewrite !byte_of_mod in E.
  assert (∀ x y, x < 16 -> y < 16 -> N.lor (N.shiftl x 4) y = x * 16 + y) as Hor.
  { intros x y Hx Hy. rewrite N.shiftl_mul_pow2. change (2 ^ 4) with 16.
    rewrite <- N.lxor_lor, <- N.add_nocarry_lxor; [done|..];
      (apply N.bits_inj; intros n; rewrite N.land_spec, N.bits_0;
       change 16 with (2 ^ 4);
       destruct (N.lt_ge_cases n 4) as [Hn|Hn];
       [by rewrite N.mul_pow2_bits_low by done|
        replace y with (y mod 2 ^ 4) by (by apply N.mod_small);
        rewrite N.mod_pow2_bits_high by done; by rewrite andb_false_r]). }
  rewrite !Hor in E by done. rewrite !N.mod_small in E by lia. lia.
Qed.

Lemma pairs_inj n : ∀ l l',
  length l = (2 * n)%nat -> length l' = (2 * n)%nat ->
  Forall (λ n, n < 16) l -> Forall (λ n, n < 16) l' -> pairs l = pairs l' -> l = l'.
Proof.
  induction n as [|n IH]; intros l l' Hl Hl' HF HF' E.
  { destruct l; [|cbn in Hl; lia]. by destruct l'; [|cbn in Hl'; lia]. }
  destruct l as [|a [|b l]]; [cbn in Hl; lia..|]. destruct l' as [|c [|d l']]; [cbn in Hl'; lia..|].
  rewrite !Forall_cons in HF. rewrite !Forall_cons in HF'. destruct HF as (Ha & Hb & HF), HF' as (Hc & Hd & HF').
  cbn [pairs] in E. assert (∀ (x y : Byte.byte) s t, x :: s = y :: t -> x = y /\ s = t) as Hinj by (by intros ? ? ? ? [= -> ->]).
  apply Hinj in E as [E1 E2].
  apply nibbles_inj in E1 as [-> ->]; [|done..]. do 2 f_equal. cbn in Hl, Hl'. apply IH; try done; lia.
Qed.

Section theorems.
  Context (quoted : string -> string) {TX : Texts}.

(** The two ends of a relayed wake-up read addresses alike: what
    the core takes for one, twelve digits once normalised, is what the host can
    put into a packet; and two texts are one address to the core, which looks
    in its allowlist, exactly when they are the same six bytes on the wire. *)
Theorem mac_readers_agree m m' :
  ((∃ b, parse_mac quoted m = Ok b) <-> str_len (normalize_mac m) = 12) /\
  (str_len (normalize_mac m) = 12 -> str_len (normalize_mac m') = 12 ->
   (normalize_mac m = normalize_mac m' <-> parse_mac quoted m = parse_mac quoted m')).
Proof.
  destruct (normalize_digits m) as [E HF], (normalize_digits m') as [E' HF'].
  assert (∀ m, str_len (normalize_mac m) = 12 <-> length (hex_digits m) = 12%nat) as Hlen.
  { intros x. destruct (normalize_digits x) as [-> _]. rewrite hex_text_length. unfold len. lia. }
  assert (∀ x, length (hex_digits x) = 12%nat -> parse_mac quoted x = Ok (pairs (hex_digits x))) as Hp.
  { intros x Hx. unfold parse_mac. by rewrite Hx. }
  split.
  - rewrite Hlen. split; [|intros H; eexists; by apply Hp]. intros [b Hb]. unfold parse_mac in Hb.
    destruct (Nat.eqb_spec (length (hex_digits m)) 12); [done|by cbn in Hb].
  - rewrite !Hlen. intros Hm Hm'. rewrite !Hp by done. rewrite E, E'. split.
    + intros ?%hex_text_inj; [congruence|done..].
    + intros [= H]. f_equal. by apply (pairs_inj 6).
Qed.

Lemma pairs_length n : ∀ l, length l = (2 * n)%nat -> length (pairs l) = n.
Proof.
  induction n as [|n IH]; intros [|a [|b l]] Hl; cbn in Hl; try lia; [done|].
  cbn. rewrite IH; [done|]. lia.
Qed.

(** The packet: six bytes of ones and the address sixteen times. *)
Lemma packet_length m b :
  parse_mac quoted m = Ok b -> length b = 6%nat /\ length (build b None) = 102%nat.
Proof.
  unfold parse_mac. destruct (Nat.eqb_spec (length (hex_digits m)) 12) as [Hl|]; [|done]. cbn. intros [= <-].
  pose proof (pairs_length 6 _ Hl) as H. split; [done|]. unfold build. cbn [replicate concat default].
  rewrite !length_app, H. done.
Qed.

(** ** The effector *)

  Context `{!Cbor SessionState} `{!Cbor SessionOutcome} `{!Cbor CommandList} `{!Cbor Exited} `{!Cbor MediaState}.

Definition Supports (e : LinuxEffector) (k : EffectKind) : Prop :=
  match k with
  | KWol => True
  | KSession => is_Some (le_session e)
  | KClipboard => le_has_wayland e = true
  | KCommand => le_catalog e <> ∅
  | KMedia => le_media e = true
  | KTouchpad => is_Some (le_touchpad e)
  | KShare | KCustom => False
  end.

Lemma elem_if {A} (b : bool) (x y : A) : y ∈ (if b then [x] else []) <-> b = true /\ y = x.
Proof. destruct b; [rewrite list_elem_of_singleton|rewrite elem_of_nil]; naive_solver. Qed.

Lemma supported_spec e k : k ∈ supported e <-> Supports e k.
Proof.
  unfold supported. rewrite !elem_of_app, list_elem_of_singleton.
  assert (k ∈ (if bool_decide (le_catalog e = ∅) then [] else [KCommand]) <-> le_catalog e <> ∅ /\ k = KCommand)
    as -> by (case_bool_decide; rewrite ?list_elem_of_singleton, ?elem_of_nil; naive_solver).
  assert (∀ A (x : option A) kk, k ∈ (if x then [kk] else []) <-> is_Some x /\ k = kk) as Ho
    by (intros A [x|] kk; rewrite ?list_elem_of_singleton, ?elem_of_nil;
        [naive_solver|split; [done|by intros [[? [=]] _]]]).
  rewrite !Ho.
  rewrite !elem_if. destruct k; cbn; intuition congruence.
Qed.

Lemma encode_answers {T} `{!Cbor T} (x : T) : encode x <> EffectUnsupported.
Proof. unfold encode. by destruct (to_vec x). Qed.
Lemma answer_answers {A} (f : A -> EffectResult) r :
  (∀ a, f a <> EffectUnsupported) -> answer f r <> EffectUnsupported.
Proof. destruct r; cbn; auto. Qed.

(** The processes an effect may start: the command asked for by its id, the
    person's own command to lock or unlock, or the tools of the sound server. *)
Definition may_start (eff : Effect) (e : LinuxEffector) (argv : list string) : Prop :=
  match eff with
  | RunCommand id => ∃ spec, le_catalog e !! id = Some spec /\ argv = cs_program spec :: cs_args spec
  | LockSession => ∃ commands, le_session e = Some commands /\ argv = sc_lock commands /\ argv <> []
  | UnlockSession => ∃ commands, le_session e = Some commands /\ argv = sc_unlock commands /\ argv <> []
  | MediaQuery => argv ∈ reading_tools
  | MediaControl player action =>
      argv ∈ reading_tools \/
      ∃ percent, player = ""%string /\ action = SetVolume percent /\ argv ∈ setting_tools (N.min percent 100)
  | _ => False
  end.

Lemma rd_started_tools r argv : argv ∈ rd_started r -> argv ∈ reading_tools.
Proof.
  unfold rd_started. destruct (rd_on_bus r); [|by intros ?%elem_of_nil].
  revert argv. apply (volume_keeps (always (rd_sound r)) (λ started, ∀ argv, argv ∈ started -> argv ∈ reading_tools)).
  - intros w program args Hp Hw argv [?|Ha%list_elem_of_singleton]%elem_of_app; [by apply Hw|by subst].
  - by intros ? ?%elem_of_nil.
Qed.

Lemma mixer_set_tools action answers argv :
  argv ∈ (mixer_set action answers).2 ->
  ∃ percent, action = SetVolume percent /\ argv ∈ setting_tools (N.min percent 100) ++ reading_tools.
Proof.
  destruct action as [| | | | | | | |percent]; cbn [mixer_set]; try by intros ?%elem_of_nil.
  pose proof (set_volume_keeps in_turn
    (λ w, ∀ argv, argv ∈ w.2 -> argv ∈ setting_tools (N.min percent 100) ++ reading_tools) (answers, []) percent) as H.
  destruct (set_volume in_turn (answers, []) percent) as [r [rest started]]. cbn [snd] in *.
  intros Hin. exists percent. split; [done|]. revert Hin. apply H.
  - intros w program args Hp Hw a [?|Ha%list_elem_of_singleton]%elem_of_app; [by apply Hw|by subst].
  - by intros ? ?%elem_of_nil.
Qed.

Lemma media_started_tools player action m n argv e :
  argv ∈ media_started player action m n -> may_start (MediaControl player action) e argv.
Proof.
  unfold media_started. rewrite elem_of_app. intros [Hin|Hin]; cbn [may_start].
  - assert (argv ∈ (mixer_set action (m_mixer m)).2 /\ player = ""%string \/ argv ∈ rd_started (m_reading m)) as [[H ->]|H].
    { destruct action; try (by right). destruct player; [by left|by right]. }
    + apply mixer_set_tools in H as (p & -> & [H|H]%elem_of_app); [right; by exists p|by left].
    + left. by eapply rd_started_tools.
  - left. apply list_elem_of_In, in_concat in Hin as (l & Hl & Hin). apply in_map_iff in Hl as (k & <- & _).
    apply list_elem_of_In in Hin. by eapply rd_started_tools.
Qed.

Lemma act_starts want uid commands s r asked t argv :
  session_act want uid commands s = (r, asked, t) -> argv ∈ omap argv_of asked ->
  argv = (if want then sc_lock commands else sc_unlock commands) /\ argv <> [].
Proof.
  unfold session_act. destruct (Logind.candidates _ _) as [cands|]; [|by intros [= _ <- _] ?%elem_of_nil].
  destruct (if want then _ else _) as [chosen|]; [|by intros [= _ <- _] ?%elem_of_nil].
  destruct (eqb _ _); [by intros [= _ <- _] ?%elem_of_nil|]. unfold run_command. intros E Hin.
  assert (∀ id lock, argv ∈ omap argv_of [Logind id lock] -> False) as Hno by (by intros ? ? ?%elem_of_nil).
  set (argv0 := if want then sc_lock commands else sc_unlock commands) in *.
  destruct argv0 as [|program args].
  - destruct (proxy_for _ _); [|injection E as _ <- _; by apply elem_of_nil in Hin].
    destruct (se_call s); [destruct (confirm _ _ _ _ _ _ _)|]; injection E as _ <- _; by destruct (Hno _ _ Hin).
  - destruct (confirm _ _ _ _ _ _ _). injection E as _ <- _. by apply list_elem_of_singleton in Hin as ->.
Qed.

Lemma run_effect_starts eff m e r started e' argv :
  run_effect quoted eff m e = (r, started, e') -> argv ∈ started -> may_start eff e argv.
Proof.
  destruct eff as [| | | | | |id| |player action|macs dests port|order op|ns verb payload]; cbn [run_effect];
    intros E Hin; try (injection E as _ <- _; by apply elem_of_nil in Hin).
  - destruct (le_session e) as [commands|] eqn:Es; [|injection E as _ <- _; by apply elem_of_nil in Hin].
    destruct (session_act true _ _ _) as [[r0 asked] t] eqn:Ea. injection E as _ <- _.
    destruct (act_starts _ _ _ _ _ _ _ _ Ea Hin). by exists commands.
  - destruct (le_session e) as [commands|] eqn:Es; [|injection E as _ <- _; by apply elem_of_nil in Hin].
    destruct (session_act false _ _ _) as [[r0 asked] t] eqn:Ea. injection E as _ <- _.
    destruct (act_starts _ _ _ _ _ _ _ _ Ea Hin). by exists commands.
  - destruct (le_catalog e !! id) as [spec|] eqn:El; injection E as _ <- _; [|by apply elem_of_nil in Hin].
    apply list_elem_of_singleton in Hin as ->. by exists spec.
  - destruct (le_media e); injection E as _ <- _; [by eapply rd_started_tools|by apply elem_of_nil in Hin].
  - destruct (le_media e); [|injection E as _ <- _; by apply elem_of_nil in Hin].
    destruct (control_and_settle _ _ _ _ _ _ _ _) as [[[res calls] t] n]. injection E as _ <- _.
    by eapply media_started_tools.
  - destruct (le_touchpad e); [destruct (pad_run _ _ _ _)|]; injection E as _ <- _; by apply elem_of_nil in Hin.
Qed.

(** What a machine says it supports it does: an effect of a kind it
    lists is never answered as unsupported; one of a kind it does not list
    leaves it as it is; and the processes it starts are those the effect is
    for. *)
Theorem supported_is_done eff m e r started e' :
  run_effect quoted eff m e = (r, started, e') ->
  (effect_kind eff ∈ supported e -> r <> EffectUnsupported) /\
  (effect_kind eff ∉ supported e -> e' = e /\ started = [] /\ (effect_kind eff = KCommand \/ r = EffectUnsupported)) /\
  (∀ argv, argv ∈ started -> may_start eff e argv).
Proof.
  rewrite supported_spec. intros E.
  split_and!; [| |intros argv Hin; by eapply run_effect_starts].
  - destruct eff as [| | | | | |id| |player action|macs dests port|order op|ns verb payload]; cbn [effect_kind Supports run_effect] in *;
      intros Hs; try done; try (lazymatch type of Hs with is_Some _ => destruct Hs as [x Hs] end);
      try rewrite Hs in E.
    all: try (injection E as <- _ _; first [apply encode_answers|apply answer_answers; intros ?; first [done|apply encode_answers]]).
    + destruct (session_act _ _ _ _) as [[r0 asked] t]. injection E as <- _ _. apply answer_answers. intros ?. apply encode_answers.
    + destruct (session_act _ _ _ _) as [[r0 asked] t]. injection E as <- _ _. apply answer_answers. intros ?. apply encode_answers.
    + destruct (le_catalog e !! id); injection E as <- _ _; [|done].
      apply answer_answers. intros ?. apply encode_answers.
    + destruct (control_and_settle _ _ _ _ _ _ _ _) as [[[res calls] t] n]. injection E as <- _ _.
      apply answer_answers. intros ?. apply encode_answers.
    + destruct (pad_run _ _ _ _). injection E as <- _ _. by apply answer_answers.
  - destruct eff as [| | | | | |id| |player action|macs dests port|order op|ns verb payload]; cbn [effect_kind Supports run_effect] in *;
      intros Hn; try done.
    all: try (destruct (le_session e); [destruct Hn; by eexists|]).
    all: try (destruct (le_has_wayland e); [done|]).
    all: try (destruct (le_media e); [done|]).
    all: try (destruct (le_touchpad e); [destruct Hn; by eexists|]).
    all: try (injection E as <- <- <-; by auto).
    destruct (le_catalog e !! id) as [spec|] eqn:El; [|injection E as <- <- <-; by auto].
    destruct Hn. intros Hc. by rewrite Hc, lookup_empty in El.
Qed.

(** A configuration that is accepted runs absolute paths only, and no command
    without a name. *)
Lemma validate_spec c :
  catalog_validate quoted c = Ok tt <->
  ∀ id spec, c !! id = Some spec -> id <> ""%string /\ str_starts_with "/" (cs_program spec) = true.
Proof.
  unfold catalog_validate.
  assert (∀ l, validate_entries quoted l = Ok tt <->
    ∀ id spec, (id, spec) ∈ l -> id <> ""%string /\ str_starts_with "/" (cs_program spec) = true) as H.
  { induction l as [|[id spec] l IH]; cbn [validate_entries].
    - split; [by intros _ ? ? ?%elem_of_nil|done].
    - destruct (str_starts_with "/" (cs_program spec)) eqn:Es; cbn [negb].
      + destruct (String.eqb_spec id "") as [->|Hne].
        * split; [done|]. intros Hl. destruct (Hl ""%string spec ltac:(left)) as [[] _]. done.
        * rewrite IH. split; [|intros Hl i sp Hin; apply Hl; by right].
          intros Hl i sp [[= -> ->]|Hin]%elem_of_cons; [done|by apply Hl].
      + split; [done|]. intros Hl. destruct (Hl id spec ltac:(left)) as [_ Hs]. congruence. }
  rewrite H. split; intros Hl id spec Hin; apply Hl; by apply elem_of_bt_iter.
Qed.
End theorems.
