(* ===== verification/FfiTypes.v ===== *)
(** * [acrylius-ffi/src/types.rs]: the vocabulary a phone speaks

    The core's events, actions and reports as flat values that cross into
    Swift, and the conversions both ways.  Going in, only the id of a device
    can be refused; going out, everything has its image. *)

From S2P Require Import Prelude Externals Strs B64 Ids Envelope Link Peer Vocab Media Desktop.
Local Open Scope N_scope.

(** ** Links *)

(* src: crates/acrylius-ffi/src/types.rs 12 17 FfiTransportKind *)
Inductive FfiTransportKind := FfiTcpLan | FfiUnixLoopback | FfiBleGatt | FfiCustomTransport (name : string).
(* src: crates/acrylius-ffi/src/types.rs 23 27 FfiPeerState *)
Inductive FfiPeerState := FfiUnreachable | FfiConnecting | FfiReachable.
#[global] Instance FfiPeerState_eq_dec : EqDecision FfiPeerState.
Proof. solve_decision. Defined.
(* src: crates/acrylius-ffi/src/types.rs 55 60 FfiLatency *)
Inductive FfiLatency := FfiLoopback | FfiLan | FfiBle | FfiWan.
(* src: crates/acrylius-ffi/src/types.rs 63 66 FfiBulk *)
Inductive FfiBulk := FfiBulkNone | FfiSideChannel.

(* src: crates/acrylius-ffi/src/types.rs 29 38 FfiPeerState::from *)
Definition FfiPeerState_from (s : PeerState) : FfiPeerState :=
  match s with Unreachable => FfiUnreachable | Connecting => FfiConnecting | Reachable => FfiReachable end.

(* src: crates/acrylius-ffi/src/types.rs 41 52 FfiTransportKind::from *)
Definition FfiTransportKind_from (k : TransportKind) : FfiTransportKind :=
  match k with
  | TcpLan => FfiTcpLan
  | UnixLoopback => FfiUnixLoopback
  | BleGatt => FfiBleGatt
  | CustomTransport name => FfiCustomTransport name
  end.

(* src: crates/acrylius-ffi/src/types.rs 69 77 FfiLinkAttrs *)
Record FfiLinkAttrs := mkFfiLinkAttrs {
  fa_transport : u16;
  fa_kind : FfiTransportKind;
  fa_max_message : u32;
  fa_reliable : bool;
  fa_ordered : bool;
  fa_latency : FfiLatency;
  fa_bulk : FfiBulk;
}.

(* src: crates/acrylius-ffi/src/types.rs 79 108 LinkAttrs::from *)
Definition LinkAttrs_from (a : FfiLinkAttrs) : LinkAttrs := {|
  la_transport := fa_transport a;
  la_kind := match fa_kind a with
             | FfiTcpLan => TcpLan
             | FfiUnixLoopback => UnixLoopback
             | FfiBleGatt => BleGatt
             | FfiCustomTransport name => CustomTransport name
             end;
  la_max_message := fa_max_message a;
  la_reliable := fa_reliable a;
  la_ordered := fa_ordered a;
  la_latency := match fa_latency a with
                | FfiLoopback => Loopback | FfiLan => Lan | FfiBle => LatBle | FfiWan => Wan
                end;
  la_bulk := match fa_bulk a with FfiBulkNone => BulkNone | FfiSideChannel => SideChannel end;
|}.

(* src: crates/acrylius-ffi/src/types.rs 114 125 ble_attrs *)
Definition ffi_ble_attrs (transport : u16) : FfiLinkAttrs :=
  let a := ble_attrs transport in
  mkFfiLinkAttrs transport FfiBleGatt (la_max_message a) (la_reliable a) (la_ordered a) FfiBle FfiBulkNone.
(* src: crates/acrylius-ffi/src/types.rs 131 133 link_id *)
Definition ffi_link_id (transport : u16) (counter : u64) : u64 := LinkId_new transport counter.
(* src: crates/acrylius-ffi/src/types.rs 139 150 tcp_lan_attrs *)
Definition ffi_tcp_lan_attrs (transport : u16) : FfiLinkAttrs :=
  let a := tcp_lan transport in
  mkFfiLinkAttrs transport FfiTcpLan (la_max_message a) (la_reliable a) (la_ordered a) FfiLan FfiSideChannel.

(** ** Events *)

(* src: crates/acrylius-ffi/src/types.rs 153 157 FfiLinkDown *)
Inductive FfiLinkDown := FfiClosed | FfiTransport (detail : string) | FfiProtocol (code : string).

(* src: crates/acrylius-ffi/src/types.rs 162 167 FfiDiscoveredPeer *)
Record FfiDiscoveredPeer := mkFfiDiscoveredPeer {
  fd_fingerprint : option string; fd_name : string; fd_addr : string; fd_pairing : bool }.

(* src: crates/acrylius-ffi/src/types.rs 251 255 FfiEffectResult *)
Inductive FfiEffectResult := FfiOk (data : bytes) | FfiFailed (detail : string) | FfiUnsupported.

(* src: crates/acrylius-ffi/src/types.rs 170 248 FfiEvent *)
Inductive FfiEvent :=
| FfiLinkUp (link : u64) (attrs : FfiLinkAttrs) (dial : option u64)
| FfiLinkRecv (link : u64) (msg : bytes)
| FfiLinkDownE (link : u64) (reason : FfiLinkDown)
| FfiDialFailed (dial : u64) (reason : string)
| FfiDiscovered (transport : u16) (peer : FfiDiscoveredPeer)
| FfiUndiscovered (transport : u16) (addr : string)
| FfiTick
| FfiRequestPairing (transport : u16) (addr : string)
| FfiConfirmPairing (accept : bool)
| FfiSetPeerAddress (peer : string) (transport : u16) (addr : string)
| FfiConnect (peer : string)
| FfiReconsiderRoutes
| FfiDisconnect (peer : string)
| FfiRevoke (peer : string)
| FfiPluginCommand (peer cap ty : string) (body : bytes)
| FfiEffectDone (token : u64) (r : FfiEffectResult)
| FfiBulkListening (transfer : u64) (endpoint : string)
| FfiBulkStarted (transfer : u64)
| FfiBulkFinished (transfer : u64) (ok : bool) (detail : string).

(* src: crates/acrylius-ffi/src/types.rs 270 277 FfiError *)
Inductive FfiError := BadInput (detail : string) | EffectError (detail : string).

(* src: crates/acrylius-ffi/src/types.rs 257 265 EffectResult::from *)
Definition EffectResult_from (r : FfiEffectResult) : EffectResult :=
  match r with
  | FfiOk data => EffectOk data
  | FfiFailed detail => EffectFail detail
  | FfiUnsupported => EffectUnsupported
  end.

(** The [Display] of the errors of ids.rs. *)
(* src: crates/acrylius-proto/src/b64.rs 20 30 B64Error *)
Definition b64_error_to_string (e : B64Error) : string :=
  match e with
  | BadLength n => "base64url input has an impossible length (" +:+ fmt_u64 n +:+ " bytes)"
  | BadByte i => "base64url input contains a byte outside the alphabet at index " +:+ fmt_u64 i
  | NonCanonical => "base64url input has non-canonical trailing bits"
  | WrongSize expected actual => "expected " +:+ fmt_u64 expected +:+ " decoded bytes, got " +:+ fmt_u64 actual
  end.

(* src: crates/acrylius-ffi/src/types.rs 313 323 Event::try_from *)
Definition DiscoveredPeer_from (p : FfiDiscoveredPeer) : DiscoveredPeer := {|
  dp_fingerprint := f ← fd_fingerprint p; match Fingerprint_parse f with Ok f => Some f | Err _ => None end;
  dp_name := fd_name p;
  dp_addr := fd_addr p;
  dp_pairing := fd_pairing p;
|}.

(* src: crates/acrylius-ffi/src/types.rs 302 307 Event::try_from *)
Definition LinkDownReason_from (r : FfiLinkDown) : LinkDownReason :=
  match r with
  | FfiClosed | FfiProtocol _ => Closed
  | FfiTransport detail => TransportFailed detail
  end.

Section events.
  (** [{:?}] of a text. *)
  Context (quoted : string -> string).

(* src: crates/acrylius-ffi/src/types.rs 279 283 peer *)
Definition ffi_peer (s : string) : result DeviceId FfiError :=
  map_err (λ e, BadInput ("device id " +:+ quoted s +:+ ": " +:+ b64_error_to_string e)%string)
    (DeviceId_parse s).

(* src: crates/acrylius-ffi/src/types.rs 285 380 Event::try_from *)
Definition Event_try_from (e : FfiEvent) : result Event FfiError :=
  match e with
  | FfiLinkUp link attrs dial => Ok (LinkUp link (LinkAttrs_from attrs) dial)
  | FfiLinkRecv link msg => Ok (LinkRecv link msg)
  | FfiLinkDownE link reason => Ok (LinkDown link (LinkDownReason_from reason))
  | FfiDialFailed dial reason => Ok (DialFailed dial reason)
  | FfiDiscovered transport peer => Ok (Discovered transport (DiscoveredPeer_from peer))
  | FfiUndiscovered transport addr => Ok (Undiscovered transport addr)
  | FfiTick => Ok Tick
  | FfiRequestPairing transport addr => Ok (Local (RequestPairing transport addr))
  | FfiConfirmPairing accept => Ok (Local (ConfirmPairing accept))
  | FfiSetPeerAddress p transport addr =>
      try! peer := ffi_peer p in Ok (Local (SetPeerAddress peer transport addr))
  | FfiConnect p => try! peer := ffi_peer p in Ok (Local (Connect peer))
  | FfiReconsiderRoutes => Ok (Local ReconsiderRoutes)
  | FfiDisconnect p => try! peer := ffi_peer p in Ok (Local (Disconnect peer))
  | FfiRevoke p => try! peer := ffi_peer p in Ok (Local (Revoke peer))
  | FfiPluginCommand p cap ty body =>
      try! peer := ffi_peer p in Ok (Local (LocalPlugin peer cap ty body))
  | FfiEffectDone token r => Ok (EffectDone token (EffectResult_from r))
  | FfiBulkListening transfer endpoint => Ok (BulkListening transfer endpoint)
  | FfiBulkStarted transfer => Ok (BulkStarted transfer)
  | FfiBulkFinished transfer ok detail => Ok (BulkFinished transfer ok detail)
  end.
End events.

(** ** Effects *)

(* src: crates/acrylius-ffi/src/types.rs 387 396 FfiEffectKind *)
Inductive FfiEffectKind :=
| FKSession | FKClipboard | FKCommand | FKWol | FKMedia | FKShare | FKTouchpad | FKCustom.
(* src: crates/acrylius-ffi/src/types.rs 398 411 EffectKind::from *)
Definition EffectKind_from (k : FfiEffectKind) : EffectKind :=
  match k with
  | FKSession => KSession
  | FKClipboard => KClipboard
  | FKCommand => KCommand
  | FKWol => KWol
  | FKMedia => KMedia
  | FKShare => KShare
  | FKTouchpad => KTouchpad
  | FKCustom => KCustom
  end.

(* src: crates/acrylius-ffi/src/types.rs 457 461 FfiTouchPoint *)
Record FfiTouchPoint := mkFfiTouchPoint { ftp_id : u8; ftp_x : u16; ftp_y : u16 }.

(* src: crates/acrylius-ffi/src/types.rs 414 454 FfiEffect *)
Inductive FfiEffect :=
| FfiLockSession
| FfiUnlockSession
| FfiQuerySession
| FfiClipboardRead
| FfiClipboardWrite (mime : string) (data : bytes)
| FfiListCommands
| FfiRunCommand (id : string)
| FfiMediaQuery
| FfiMediaControl (player verb : string) (value : i64)
| FfiSendMagicPacket (macs dests : list string) (port : u16)
| FfiTouchpad (verb : string) (order : u32) (w_mm h_mm : u16) (points : list FfiTouchPoint)
| FfiCustomEffect (ns verb : string) (payload : bytes).

(** [i64::try_from(ms).unwrap_or(i64::MAX)]. *)
Definition i64_of_ms (ms : u64) : i64 := if (Z.of_N ms <=? i64_max)%Z then Z.of_N ms else i64_max.

(* src: crates/acrylius-ffi/src/types.rs 476 488 FfiEffect::from *)
Definition media_verb (action : MediaAction) : string * i64 :=
  match action with
  | Play => ("play"%string, 0%Z)
  | Pause => ("pause"%string, 0%Z)
  | PlayPause => ("playpause"%string, 0%Z)
  | Next => ("next"%string, 0%Z)
  | Previous => ("previous"%string, 0%Z)
  | Stop => ("stop"%string, 0%Z)
  | Seek offset_ms => ("seek"%string, offset_ms)
  | SetPosition ms => ("position"%string, i64_of_ms ms)
  | SetVolume percent => ("volume"%string, Z.of_N percent)
  end.

(* src: crates/acrylius-ffi/src/types.rs 498 524 FfiEffect::from *)
Definition FfiTouchpad_from (order : u32) (op : TouchpadOp) : FfiEffect :=
  match op with
  | TBegin w_mm h_mm => FfiTouchpad "begin" order w_mm h_mm []
  | TFrame points => FfiTouchpad "frame" order 0 0 (map (λ p, mkFfiTouchPoint (tp_id p) (tp_x p) (tp_y p)) points)
  | TEnd => FfiTouchpad "end" order 0 0 []
  end.

(* src: crates/acrylius-ffi/src/types.rs 463 528 FfiEffect::from *)
Definition FfiEffect_from (e : Effect) : FfiEffect :=
  match e with
  | LockSession => FfiLockSession
  | UnlockSession => FfiUnlockSession
  | QuerySession => FfiQuerySession
  | ClipboardRead => FfiClipboardRead
  | ClipboardWrite mime data => FfiClipboardWrite mime data
  | ListCommands => FfiListCommands
  | RunCommand id => FfiRunCommand id
  | MediaQuery => FfiMediaQuery
  | MediaControl player action =>
      let '(verb, value) := media_verb action in FfiMediaControl player verb value
  | SendMagicPacket macs dests port => FfiSendMagicPacket macs dests port
  | Touchpad order op => FfiTouchpad_from order op
  | CustomEffect ns verb payload => FfiCustomEffect ns verb payload
  end.

(** ** Reports and actions *)

(* src: crates/acrylius-ffi/src/types.rs 531 589 FfiUiEvent *)
Inductive FfiUiEvent :=
| FfiPairingSas (name fingerprint sas : string)
| FfiPairingComplete (peer name : string)
| FfiRevoked (peer : string)
| FfiPairingFailed (reason : string)
| FfiUiDiscovered (fingerprint name addr : string) (transport : u16) (pairing : bool)
| FfiUiUndiscovered (fingerprint : string)
| FfiPeerReachable (peer name : string)
| FfiPeerUnreachable (peer : string)
| FfiPlugin (peer cap ty : string) (body : bytes)
| FfiUiError (peer : option string) (code detail : string).

(* src: crates/acrylius-ffi/src/types.rs 591 652 FfiUiEvent::from *)
Definition FfiUiEvent_from (e : UiEvent) : FfiUiEvent :=
  match e with
  | UiDiscovered fingerprint name addr transport pairing =>
      FfiUiDiscovered (fp_str fingerprint) name addr transport pairing
  | UiUndiscovered fingerprint => FfiUiUndiscovered (fp_str fingerprint)
  | UiPairingSas name fingerprint sas => FfiPairingSas name (fp_str fingerprint) sas
  | UiPairingComplete peer name => FfiPairingComplete (did_str peer) name
  | UiRevoked peer => FfiRevoked (did_str peer)
  | UiPairingFailed reason => FfiPairingFailed reason
  | UiPeerReachable peer name => FfiPeerReachable (did_str peer) name
  | UiPeerUnreachable peer => FfiPeerUnreachable (did_str peer)
  | UiPlugin peer cap ty body => FfiPlugin (did_str peer) cap ty body
  | UiError peer code detail => FfiUiError (did_str <$> peer) (error_code_str code) detail
  end.

(* src: crates/acrylius-ffi/src/types.rs 658 661 FfiSensitivity *)
Inductive FfiSensitivity := FfiSecret | FfiOrdinary.

(* src: crates/acrylius-ffi/src/types.rs 727 730 FfiTxt *)
Record FfiTxt := mkFfiTxt { txt_key : string; txt_value : string }.

(* src: crates/acrylius-ffi/src/types.rs 664 723 FfiAction *)
Inductive FfiAction :=
| FfiDial (transport : u16) (addr : string) (dial : u64)
| FfiLinkSend (link : u64) (msg : bytes)
| FfiClose (link : u64)
| FfiDoEffect (token : u64) (effect : FfiEffect)
| FfiPersist (key : string) (value : option bytes) (sensitivity : FfiSensitivity)
| FfiAdvertise (transport : u16) (enable : bool) (txt : list FfiTxt)
| FfiDiscover (transport : u16) (enable : bool)
| FfiUi (event : FfiUiEvent)
| FfiBulkSend (transfer : u64) (endpoint : string) (key : bytes)
| FfiBulkListen (transfer offered_as : u64) (key : bytes) (expect_bytes : u64)
| FfiBulkUnsupported (transfer : u64).

(* src: crates/acrylius-ffi/src/types.rs 732 806 FfiAction::from *)
Definition FfiAction_from (a : Action) : FfiAction :=
  match a with
  | Dial transport addr dial => FfiDial transport addr dial
  | LinkSend link msg => FfiLinkSend link msg
  | Close link _ => FfiClose link
  | DoEffect token effect => FfiDoEffect token (FfiEffect_from effect)
  | Persist key value sensitivity =>
      FfiPersist key value (match sensitivity with Secret => FfiSecret | Ordinary => FfiOrdinary end)
  | Advertise transport enable txt =>
      FfiAdvertise transport enable (map (λ '(k, v), mkFfiTxt k v) txt)
  | Discover transport enable => FfiDiscover transport enable
  | BulkSend transfer endpoint key => FfiBulkSend transfer endpoint key
  | BulkListen transfer offered_as key expect_bytes => FfiBulkListen transfer offered_as key expect_bytes
  | BulkCancel transfer => FfiBulkUnsupported transfer
  | Ui e => FfiUi (FfiUiEvent_from e)
  end.

(* src: crates/acrylius-ffi/src/types.rs 809 814 FfiOutcome *)
Record FfiOutcome := mkFfiOutcome { fo_actions : list FfiAction; fo_next_deadline_ms : option u64 }.

(** ** Theorems *)

(** The device an event is about: as the phone writes it, and as the core has it. *)
Definition ffi_device (e : FfiEvent) : option string :=
  match e with
  | FfiSetPeerAddress p _ _ | FfiConnect p | FfiDisconnect p | FfiRevoke p | FfiPluginCommand p _ _ _ => Some p
  | _ => None
  end.
Definition event_device (ev : Event) : option DeviceId :=
  match ev with
  | Local (SetPeerAddress p _ _ | Connect p | Disconnect p | Revoke p | LocalPlugin p _ _ _) => Some p
  | _ => None
  end.

(** Ids that are their own canonical text, as all those made of keys are. *)
Definition good_id (id : DeviceId) : Prop := DeviceId_parse (did_str id) = Ok id.
Definition good_fp (f : Fingerprint) : Prop := Fingerprint_parse (fp_str f) = Ok f.
(** What a phone has words for: everything but the core's own reason for a link to go. *)
Definition sayable (ev : Event) : Prop :=
  match ev with
  | LinkDown _ (Protocol _) => False
  | Discovered _ p => ∀ f, dp_fingerprint p = Some f -> good_fp f
  | _ => ∀ id, event_device ev = Some id -> good_id id
  end.

Lemma LinkAttrs_from_onto a : ∃ f, LinkAttrs_from f = a.
Proof.
  destruct a as [t k m r o l b].
  exists (mkFfiLinkAttrs t (FfiTransportKind_from k) m r o
    (match l with Loopback => FfiLoopback | Lan => FfiLan | LatBle => FfiBle | Wan => FfiWan end)
    (match b with BulkNone => FfiBulkNone | SideChannel => FfiSideChannel end)).
  unfold LinkAttrs_from. cbn. by destruct k, l, b.
Qed.

(** The attributes handed to a phone are the core's own. *)
Lemma attrs_agree t :
  LinkAttrs_from (ffi_ble_attrs t) = ble_attrs t /\ LinkAttrs_from (ffi_tcp_lan_attrs t) = tcp_lan t.
Proof. done. Qed.

Section theorems.
  Context (quoted : string -> string).

Lemma ffi_peer_spec s :
  match ffi_peer quoted s with
  | Ok id => id = mkDeviceId s /\ ∃ d, s = B64.encode d /\ len d = DID_BYTES
  | Err _ => ∀ d, s = B64.encode d -> len d <> DID_BYTES
  end.
Proof.
  unfold ffi_peer, DeviceId_parse. destruct (parse_id mkDeviceId DID_BYTES s) as [id|e] eqn:E; cbn.
  - by apply parse_id_canonical in E.
  - intros d -> Hl. rewrite <- Hl, parse_id_encode in E. done.
Qed.

Lemma ffi_peer_good id : good_id id -> ffi_peer quoted (did_str id) = Ok id.
Proof. unfold good_id, ffi_peer. by intros ->. Qed.

(** An event of a phone becomes the core's event about the same
    device, or is refused, which happens exactly when the device it names is
    not the canonical text of an id; and whatever a host may tell the core can
    be said by a phone, save that a link broke the protocol. *)
Theorem events_cross :
  (∀ e, match Event_try_from quoted e with
        | Ok ev => did_str <$> event_device ev = ffi_device e /\
            ∀ s, ffi_device e = Some s -> ∃ d, s = B64.encode d /\ len d = DID_BYTES
        | Err _ => ∃ s, ffi_device e = Some s /\ ∀ d, s = B64.encode d -> len d <> DID_BYTES
        end) /\
  (∀ ev, sayable ev -> ∃ e, Event_try_from quoted e = Ok ev).
Proof.
  split.
  - intros e. destruct e; cbn [Event_try_from ffi_device event_device fmap option_fmap option_map]; try done.
    all: pose proof (ffi_peer_spec peer) as Hp; destruct (ffi_peer quoted peer) as [id|err]; cbn [result_bind];
      [destruct Hp as [-> Hd]; split; [done|by intros ? [= <-]]|by exists peer].
  - intros ev Hs. destruct ev as [link attrs dial|link msg|link r|dial why|t p|t a| |tr ep|tr|tr ok d|c|tok r].
    + destruct (LinkAttrs_from_onto attrs) as [f <-]. by exists (FfiLinkUp link f dial).
    + by exists (FfiLinkRecv link msg).
    + destruct r as [|d|c]; [by exists (FfiLinkDownE link FfiClosed)|by exists (FfiLinkDownE link (FfiTransport d))|done].
    + by exists (FfiDialFailed dial why).
    + destruct p as [f n a b]. exists (FfiDiscovered t (mkFfiDiscoveredPeer (fp_str <$> f) n a b)).
      cbn. do 2 f_equal. unfold DiscoveredPeer_from. cbn. f_equal. destruct f as [f|]; [|done].
      cbn. cbn in Hs. by rewrite (Hs f eq_refl).
    + by exists (FfiUndiscovered t a).
    + by exists FfiTick.
    + by exists (FfiBulkListening tr ep).
    + by exists (FfiBulkStarted tr).
    + by exists (FfiBulkFinished tr ok d).
    + cbn in Hs. destruct c as [t a|b|p t a|p| |p|p|p cap ty body]; try specialize (Hs p eq_refl).
      * by exists (FfiRequestPairing t a).
      * by exists (FfiConfirmPairing b).
      * exists (FfiSetPeerAddress (did_str p) t a). cbn. by rewrite ffi_peer_good.
      * exists (FfiConnect (did_str p)). cbn. by rewrite ffi_peer_good.
      * by exists FfiReconsiderRoutes.
      * exists (FfiDisconnect (did_str p)). cbn. by rewrite ffi_peer_good.
      * exists (FfiRevoke (did_str p)). cbn. by rewrite ffi_peer_good.
      * exists (FfiPluginCommand (did_str p) cap ty body). cbn. by rewrite ffi_peer_good.
    + destruct r as [d|d|]; [by exists (FfiEffectDone tok (FfiOk d))|by exists (FfiEffectDone tok (FfiFailed d))|
        by exists (FfiEffectDone tok FfiUnsupported)].
Qed.
End theorems.

(** *** Media verbs *)

Lemma simple_action_verb ty a : simple_action ty = Some a -> media_verb a = (ty, 0%Z).
Proof.
  unfold simple_action.
  repeat match goal with
  | |- context [?x =s ?y] => destruct (String.eqb_spec x y) as [->|_]; [by intros [= <-]|]
  end. done.
Qed.

Lemma i64_of_ms_inj a b :
  i64_of_ms a = i64_of_ms b -> a = b \/ (i64_max <= Z.of_N a /\ i64_max <= Z.of_N b)%Z.
Proof. unfold i64_of_ms. destruct (Z.leb_spec (Z.of_N a) i64_max), (Z.leb_spec (Z.of_N b) i64_max); lia. Qed.

(** A command for a player that the media plugin lets through
    reaches a phone as the very verb and value it was asked for (a bare verb
    with value zero), and read as a command those are the same action again. *)
Theorem media_verbs_cross ty cmd action :
  action_for ty cmd = Ok action -> (i64_min <= mc_value cmd <= i64_max)%Z ->
  let '(verb, value) := media_verb action in
  verb = ty /\ (value = mc_value cmd \/ (is_Some (simple_action ty) /\ value = 0%Z)) /\
  ∀ player, action_for verb (mkMediaCommand player value) = Ok action.
Proof.
  intros Ha Hr. apply action_for_spec in Ha as [Ha|[[-> ->]|[(-> & Hv & ->)|(-> & Hv & ->)]]].
  - pose proof (simple_action_verb ty action Ha) as ->. split_and!; [done|right; by eexists|].
    intros player. apply action_for_spec. by left.
  - split_and!; [done|by left|]. intros player. apply action_for_spec. auto.
  - cbn [media_verb]. unfold i64_of_ms. rewrite Z2N.id by done. rewrite (proj2 (Z.leb_le _ _)) by lia.
    split_and!; [done|by left|]. intros player. apply action_for_spec. auto 6.
  - cbn [media_verb]. rewrite Z2N.id by lia. split_and!; [done|by left|].
    intros player. apply action_for_spec. auto 7.
Qed.

(** *** Nothing else is lost *)

Definition same_action (a b : Action) : Prop :=
  match a, b with
  | Close l _, Close l' _ => l = l'
  | DoEffect t (MediaControl p (SetPosition ms)), DoEffect t' (MediaControl p' (SetPosition ms')) =>
      t = t' /\ p = p' /\ (ms = ms' \/ (i64_max <= Z.of_N ms /\ i64_max <= Z.of_N ms')%Z)
  | _, _ => a = b
  end.

Lemma FfiUiEvent_from_inj a b : FfiUiEvent_from a = FfiUiEvent_from b -> a = b.
Proof.
  assert (∀ x y, did_str x = did_str y -> x = y) as Hd by (intros [] []; cbn; by intros ->).
  assert (∀ x y, fp_str x = fp_str y -> x = y) as Hf by (intros [] []; cbn; by intros ->).
  assert (∀ x y : option DeviceId, did_str <$> x = did_str <$> y -> x = y) as Ho.
  { intros [x|] [y|]; cbn; try done. by intros [= ->%Hd]. }
  destruct a, b; cbn; try done; intros [=]; subst; f_equal; auto.
  all: try (by apply (inj error_code_str)).
Qed.

Lemma touch_points_inj l l' :
  map (λ p, mkFfiTouchPoint (tp_id p) (tp_x p) (tp_y p)) l = map (λ p, mkFfiTouchPoint (tp_id p) (tp_x p) (tp_y p)) l' ->
  l = l'.
Proof.
  revert l'. induction l as [|[i x y] l IH]; intros [|[i' x' y'] l']; cbn; try done.
  intros [= -> -> -> ?]. f_equal. auto.
Qed.

Lemma media_verb_inj a b :
  media_verb a = media_verb b ->
  match a, b with
  | SetPosition ms, SetPosition ms' => ms = ms' \/ (i64_max <= Z.of_N ms /\ i64_max <= Z.of_N ms')%Z
  | _, _ => a = b
  end.
Proof.
  destruct a, b; cbn [media_verb]; try done; intros [= E].
  - by subst.
  - by apply i64_of_ms_inj.
  - f_equal. lia.
Qed.

Lemma FfiEffect_from_inj t t' e e' :
  FfiEffect_from e = FfiEffect_from e' -> t = t' -> same_action (DoEffect t e) (DoEffect t' e').
Proof.
  intros E ->. cbn.
  destruct e as [| | | | | | | |p a|macs dests port|o op|ns v pl],
    e' as [| | | | | | | |p' a'|macs' dests' port'|o' op'|ns' v' pl']; try done; cbn in E;
    try (by injection E as ->); try (by injection E as -> -> ->); try (by destruct op);
    try (by destruct op'); try (by injection E as -> ->);
    try (by destruct (media_verb a)); try (by destruct (media_verb a')).
  - destruct (media_verb a) as [v z] eqn:Ev, (media_verb a') as [v' z'] eqn:Ev'. injection E as -> -> ->.
    rewrite <- Ev' in Ev. apply media_verb_inj in Ev. destruct a, a'; try done; try by rewrite Ev.
  - by destruct (media_verb a), op'.
  - by destruct op, (media_verb a').
  - destruct op as [w h|l|], op' as [w' h'|l'|]; cbn in E; try done.
    + by injection E as -> -> ->.
    + injection E as -> El. by rewrite (touch_points_inj _ _ El).
    + by injection E as ->.
Qed.

(** Of what the core asks of a phone nothing is lost on the way but why a
    link is closed: two actions that look alike to the phone are the same one,
    up to positions no track has (past the largest signed number). *)
Theorem actions_cross a b : FfiAction_from a = FfiAction_from b -> same_action a b.
Proof.
  destruct a, b; cbn [FfiAction_from]; try done; intros E;
    try (injection E; intros; subst; done).
  - injection E as -> Ee. by apply FfiEffect_from_inj.
  - injection E as -> -> Es. cbn. f_equal. by destruct sensitivity, sensitivity0.
  - injection E as -> -> El. cbn. f_equal. revert txt0 El.
    induction txt as [|[k v] txt IH]; intros [|[k' v'] txt']; cbn; try done.
    intros [= -> -> ?]. f_equal. auto.
  - injection E as Ee. cbn. f_equal. by apply FfiUiEvent_from_inj.
Qed.
