(* ===== verification/FfiBodies.v ===== *)
(** * [acrylius-ffi/src/bodies.rs]: the bodies of messages, for a phone

    The plugins' CBOR bodies as flat records, encoders and decoders, and the
    packet a phone wakes a machine with. *)

From Stdlib Require Import Ascii.
From S2P Require Import Prelude Externals Strs Utf8 Ids Envelope Vocab Plugin.
From S2P Require Import Command Wol Touchpad Session Media Clipboard Share.
From S2P Require Import Desktop FfiTypes.
Local Open Scope N_scope.

(* src: crates/acrylius-ffi/src/bodies.rs 9 13 bad *)
Definition bad (what : string) : FfiError := BadInput ("this is not a " +:+ what)%string.

(** [minicbor::decode(..).map_err(|_| bad(..))], and [to_vec(..).unwrap_or_default()]. *)
Definition decode_as (T : Type) `{!Cbor T} (what : string) (body : bytes) : result T FfiError :=
  ok_or (cbor_decode body) (bad what).
Definition encode_as {T : Type} `{!Cbor T} (x : T) : bytes := default [] (to_vec x).

(* src: crates/acrylius-ffi/src/bodies.rs 16 22 FfiSessionState *)
Record FfiSessionState := mkFfiSessionState {
  fss_locked : bool; fss_session_id : string; fss_kind : string; fss_active : bool }.
(* src: crates/acrylius-ffi/src/bodies.rs 36 41 FfiSessionOutcome *)
Record FfiSessionOutcome := mkFfiSessionOutcome {
  fso_was_locked : bool; fso_locked : bool; fso_session_id : string }.
(* src: crates/acrylius-ffi/src/bodies.rs 54 59 FfiCommand *)
Record FfiCommand := mkFfiCommand { fc_id : string; fc_name : string; fc_needs_confirm : bool }.
(* src: crates/acrylius-ffi/src/bodies.rs 81 85 FfiExited *)
Record FfiExited := mkFfiExited { fx_run_id : u32; fx_code : Z; fx_truncated : bool }.
(* src: crates/acrylius-ffi/src/bodies.rs 98 101 FfiClipboard *)
Record FfiClipboard := mkFfiClipboard { fcl_mime : string; fcl_text : string }.
(* src: crates/acrylius-ffi/src/bodies.rs 113 120 FfiWolConfig *)
Record FfiWolConfig := mkFfiWolConfig {
  fw_macs : list string; fw_broadcast : string; fw_port : u16; fw_last_ipv4 : string }.
(* src: crates/acrylius-ffi/src/bodies.rs 134 148 FfiMediaPlayer *)
Record FfiMediaPlayer := mkFfiMediaPlayer {
  fm_id : string; fm_name : string; fm_status : string; fm_title : string; fm_artist : string;
  fm_album : string; fm_length_ms : u64; fm_position_ms : u64; fm_volume_percent : option u8;
  fm_can_go_next : bool; fm_can_go_previous : bool; fm_can_seek : bool; fm_can_control : bool }.
(* src: crates/acrylius-ffi/src/bodies.rs 151 158 FfiMediaState *)
Record FfiMediaState := mkFfiMediaState {
  fms_players : list FfiMediaPlayer; fms_active : string; fms_system_volume : option u8 }.
(* src: crates/acrylius-ffi/src/bodies.rs 241 246 FfiOffer *)
Record FfiOffer := mkFfiOffer { fof_transfer : u64; fof_name : string; fof_size : u64; fof_mime : string }.
(* src: crates/acrylius-ffi/src/bodies.rs 272 276 FfiTransferEnd *)
Record FfiTransferEnd := mkFfiTransferEnd { fe_transfer : u64; fe_ok : bool; fe_detail : string }.

Section bodies.
  Context `{!Sha256} `{!Cbor SessionState} `{!Cbor SessionOutcome} `{!Cbor CommandList} `{!Cbor RunRequest}
    `{!Cbor Exited} `{!Cbor ClipboardSet} `{!Cbor WolConfig} `{!Cbor MediaState} `{!Cbor MediaCommand}
    `{!Cbor Offer} `{!Cbor Share.Finished} `{!Cbor ErrorBody} `{!Cbor Begin} `{!Cbor TouchFrame}.

(* src: crates/acrylius-ffi/src/bodies.rs 25 33 decode_session_state *)
Definition decode_session_state (body : bytes) : result FfiSessionState FfiError :=
  try! s := decode_as SessionState "session state" body in
  Ok (mkFfiSessionState (ss_locked s) (ss_session_id s) (ss_kind s) (ss_active s)).

(* src: crates/acrylius-ffi/src/bodies.rs 44 51 decode_session_outcome *)
Definition decode_session_outcome (body : bytes) : result FfiSessionOutcome FfiError :=
  try! o := decode_as SessionOutcome "session outcome" body in
  Ok (mkFfiSessionOutcome (so_was_locked o) (so_locked o) (so_session_id o)).

(* src: crates/acrylius-ffi/src/bodies.rs 62 72 decode_command_list *)
Definition decode_command_list (body : bytes) : result (list FfiCommand) FfiError :=
  try! l := decode_as CommandList "command list" body in
  Ok (map (λ c, mkFfiCommand (ce_id c) (ce_name c) (needs_confirm c)) (commands l)).

(* src: crates/acrylius-ffi/src/bodies.rs 76 78 encode_run_request *)
Definition encode_run_request (id : string) : bytes := encode_as (mkRunRequest id).

(* src: crates/acrylius-ffi/src/bodies.rs 88 95 decode_exited *)
Definition decode_exited (body : bytes) : result FfiExited FfiError :=
  try! e := decode_as Exited "command outcome" body in
  Ok (mkFfiExited (ex_run_id e) (ex_code e) (ex_truncated e)).

(* src: crates/acrylius-ffi/src/bodies.rs 104 110 decode_clipboard *)
Definition decode_clipboard (body : bytes) : result FfiClipboard FfiError :=
  try! c := decode_as ClipboardSet "clipboard value" body in
  Ok (mkFfiClipboard (cs_mime c) (from_utf8_lossy (cs_data c))).

(* src: crates/acrylius-ffi/src/bodies.rs 123 131 decode_wol_config *)
Definition decode_wol_config (body : bytes) : result FfiWolConfig FfiError :=
  try! c := decode_as WolConfig "wake configuration" body in
  Ok (mkFfiWolConfig (macs c) (broadcast c) (port c) (last_ipv4 c)).

(* src: crates/acrylius-ffi/src/bodies.rs 167 181 decode_media_state *)
Definition FfiMediaPlayer_of (p : MediaPlayer) : FfiMediaPlayer :=
  mkFfiMediaPlayer (mp_id p) (mp_name p) (mp_status p) (mp_title p) (mp_artist p) (mp_album p)
    (mp_length_ms p) (mp_position_ms p) (mp_volume_percent p) (mp_can_go_next p)
    (mp_can_go_previous p) (mp_can_seek p) (mp_can_control p).
(* src: crates/acrylius-ffi/src/bodies.rs 161 186 decode_media_state *)
Definition decode_media_state (body : bytes) : result FfiMediaState FfiError :=
  try! s := decode_as MediaState "media state" body in
  Ok (mkFfiMediaState (map FfiMediaPlayer_of (ms_players s)) (ms_active s) (ms_system_volume s)).

(* src: crates/acrylius-ffi/src/bodies.rs 192 194 encode_media_command *)
Definition encode_media_command (player : string) (value : i64) : bytes :=
  encode_as (mkMediaCommand player value).

(* src: crates/acrylius-ffi/src/bodies.rs 229 237 encode_session_state *)
Definition encode_session_state (state : FfiSessionState) : bytes :=
  encode_as (mkSessionState (fss_locked state) (fss_session_id state) (fss_kind state) (fss_active state)).

(* src: crates/acrylius-ffi/src/bodies.rs 250 258 encode_share_offer *)
Definition encode_share_offer (o : FfiOffer) : bytes :=
  encode_as (mkOffer (fof_transfer o) (fof_name o) (fof_size o) (fof_mime o)).
(* src: crates/acrylius-ffi/src/bodies.rs 261 269 decode_share_offer *)
Definition decode_share_offer (body : bytes) : result FfiOffer FfiError :=
  try! o := decode_as Offer "share offer" body in
  Ok (mkFfiOffer (of_transfer o) (of_name o) (of_size o) (of_mime o)).

(* src: crates/acrylius-ffi/src/bodies.rs 282 289 encode_share_end *)
Definition encode_share_end (e : FfiTransferEnd) : bytes :=
  encode_as (mkFinished (fe_transfer e) (fe_ok e) (fe_detail e)).
(* src: crates/acrylius-ffi/src/bodies.rs 292 299 decode_share_finished *)
Definition decode_share_finished (body : bytes) : result FfiTransferEnd FfiError :=
  try! f := decode_as Share.Finished "share result" body in
  Ok (mkFfiTransferEnd (fin_transfer f) (fin_ok f) (fin_detail f)).

(* src: crates/acrylius-ffi/src/bodies.rs 308 322 MediaState::from *)
Definition MediaPlayer_from (p : FfiMediaPlayer) : MediaPlayer :=
  mkMediaPlayer (fm_id p) (fm_name p) (fm_status p) (fm_title p) (fm_artist p) (fm_album p)
    (fm_length_ms p) (fm_position_ms p) (fm_volume_percent p) (fm_can_go_next p)
    (fm_can_go_previous p) (fm_can_seek p) (fm_can_control p).
(* src: crates/acrylius-ffi/src/bodies.rs 302 328 MediaState::from *)
Definition MediaState_from (s : FfiMediaState) : MediaState :=
  mkMediaState (map MediaPlayer_from (fms_players s)) (fms_active s) (fms_system_volume s).
(* src: crates/acrylius-ffi/src/bodies.rs 332 334 encode_media_state *)
Definition encode_media_state (s : FfiMediaState) : bytes := encode_as (MediaState_from s).

(* src: crates/acrylius-ffi/src/bodies.rs 338 350 encode_command_list *)
Definition encode_command_list (l : list FfiCommand) : bytes :=
  encode_as (mkCommandList (map (λ c, mkCommandEntry (fc_id c) (fc_name c) (fc_needs_confirm c)) l)).

(* src: crates/acrylius-ffi/src/bodies.rs 354 362 encode_clipboard *)
Definition encode_clipboard (text : string) : bytes :=
  let data := as_bytes text in encode_as (mkClipboardSet TEXT_PLAIN data (hash data)).

(* src: crates/acrylius-ffi/src/bodies.rs 366 374 encode_wol_config *)
Definition encode_wol_config (c : FfiWolConfig) : bytes :=
  encode_as (mkWolConfig (fw_macs c) (fw_broadcast c) (fw_port c) (fw_last_ipv4 c)).

(* src: crates/acrylius-ffi/src/bodies.rs 378 386 decode_error *)
Definition decode_error (body : bytes) : result string FfiError :=
  try! e := decode_as ErrorBody "error" body in
  Ok (if eb_message e =s "" then eb_code e else (eb_message e +:+ " (" +:+ eb_code e +:+ ")")%string).

(* src: crates/acrylius-ffi/src/bodies.rs 433 435 encode_touchpad_begin *)
Definition encode_touchpad_begin (w_mm h_mm : u16) : bytes := encode_as (mkBegin w_mm h_mm).

(** As many points as the shortest column has. *)
(* src: crates/acrylius-ffi/src/bodies.rs 448 453 encode_touchpad_frame *)
Definition points_of (ids : list u8) (xs ys : list u16) : list Point :=
  map (λ '(id, x, y), mkPoint id x y) (zip (zip ids xs) ys).
(* src: crates/acrylius-ffi/src/bodies.rs 441 455 encode_touchpad_frame *)
Definition encode_touchpad_frame (seq : u32) (ids : list u8) (xs ys : list u16) (t_us : option u32) : bytes :=
  encode_as (mkTouchFrame seq (points_of ids xs ys) t_us).
End bodies.

(** ** The packet that wakes a machine *)

Fixpoint as_chunks2 (l : list N) : list (N * N) :=
  match l with a :: b :: l => (a, b) :: as_chunks2 l | _ => [] end.

(** Each pair of digits into its place of an array of six bytes. *)
(* src: crates/acrylius-ffi/src/bodies.rs 215 218 magic_packet *)
Definition address_of (hex : list N) : bytes :=
  fold_left (λ addr '(i, (a, b)), <[i := byte_of (N.lor (N.shiftl a 4) b)]> addr)
    (imap pair (as_chunks2 hex)) (replicate 6 Byte.x00).

Lemma six_pairs hex : length hex = 12%nat -> address_of hex = pairs hex.
Proof.
  intros E. do 12 (destruct hex as [|? hex]; [discriminate E|]). destruct hex; [reflexivity|discriminate E].
Qed.

Lemma iter_extend (a : bytes) n p : Nat.iter n (λ packet, packet ++ a) p = p ++ concat (replicate n a).
Proof.
  induction n as [|n IH]; [by rewrite app_nil_r|]. change (Nat.iter (S n) ?f p) with (f (Nat.iter n f p)).
  cbn beta. rewrite IH, <- app_assoc. f_equal. clear IH.
  induction n as [|n IH]; cbn [replicate concat app] in *; [by rewrite app_nil_r|]. by rewrite <- app_assoc, IH.
Qed.

Section wake.
  Context (quoted : string -> string).

(* src: crates/acrylius-ffi/src/bodies.rs 204 225 magic_packet *)
Definition magic_packet (mac : string) : result bytes FfiError :=
  let hex := hex_digits mac in
  if negb (len hex =? 12) then Err (BadInput (quoted mac +:+ " is not a MAC address")%string)
  else
    let addr := address_of hex in
    let packet := replicate 6 Byte.xff in
    Ok (Nat.iter 16 (λ packet, packet ++ addr) packet).

(** A phone and a desktop wake a machine with the same bytes: the
    phone's packet is the desktop's for that address, and both refuse the same
    texts. *)
Theorem magic_packets_agree mac :
  magic_packet mac = map_err BadInput (try! m := parse_mac quoted mac in Ok (build m None)).
Proof.
  unfold magic_packet, parse_mac, len.
  destruct (Nat.eqb_spec (length (hex_digits mac)) 12) as [E|E].
  - rewrite E. cbn [negb result_bind map_err]. cbn [N.of_nat]. rewrite N.eqb_refl. cbn [negb].
    unfold build. cbn [default].
    by rewrite iter_extend, (six_pairs _ E), app_nil_r.
  - rewrite (proj2 (N.eqb_neq _ _)) by lia. done.
Qed.
End wake.

(** ** What is encoded is read *)

Section crossing.
  Context `{!Sha256} `{!Cbor SessionState} `{!Cbor CommandList} `{!Cbor RunRequest} `{!Cbor ClipboardSet}
    `{!Cbor WolConfig} `{!Cbor MediaState} `{!Cbor MediaCommand} `{!Cbor Offer} `{!Cbor Share.Finished}
    `{!Cbor ErrorBody} `{!Cbor Begin} `{!Cbor TouchFrame}.

Lemma decode_encoded {T} `{!Cbor T} `{!CborLaws T} `{!CborTotal T} (x : T) : cbor_decode (encode_as x) = Some x.
Proof. unfold encode_as. destruct (to_vec_total x) as [b Hb]. rewrite Hb. by apply cbor_decode_to_vec. Qed.
Lemma decode_as_encoded {T} `{!Cbor T} `{!CborLaws T} `{!CborTotal T} what (x : T) :
  decode_as T what (encode_as x) = Ok x.
Proof. unfold decode_as. by rewrite decode_encoded. Qed.

(** Every body a phone can both write and read comes back as it was:
    sessions, lists of commands, texts of the clipboard, wake-up addresses,
    players, offers and how transfers ended. *)
Theorem bodies_round_trip
    `{!CborLaws SessionState} `{!CborTotal SessionState} `{!CborLaws CommandList} `{!CborTotal CommandList}
    `{!CborLaws ClipboardSet} `{!CborTotal ClipboardSet} `{!CborLaws WolConfig} `{!CborTotal WolConfig}
    `{!CborLaws MediaState} `{!CborTotal MediaState} `{!CborLaws Offer} `{!CborTotal Offer}
    `{!CborLaws Share.Finished} `{!CborTotal Share.Finished} :
  (∀ s, decode_session_state (encode_session_state s) = Ok s) /\
  (∀ l, decode_command_list (encode_command_list l) = Ok l) /\
  (∀ l, Forall is_scalar l ->
     decode_clipboard (encode_clipboard (of_chars l)) = Ok (mkFfiClipboard TEXT_PLAIN (of_chars l))) /\
  (∀ c, decode_wol_config (encode_wol_config c) = Ok c) /\
  (∀ s, decode_media_state (encode_media_state s) = Ok s) /\
  (∀ o, decode_share_offer (encode_share_offer o) = Ok o) /\
  (∀ e, decode_share_finished (encode_share_end e) = Ok e).
Proof.
  split_and!.
  - intros []. unfold decode_session_state, encode_session_state. by rewrite decode_as_encoded.
  - intros l. unfold decode_command_list, encode_command_list. rewrite decode_as_encoded. cbn. f_equal.
    rewrite map_map. etrans; [|apply map_id]. by apply map_ext; intros [].
  - intros l Hl. unfold decode_clipboard, encode_clipboard. rewrite decode_as_encoded.
    cbn [result_bind cs_mime cs_data].
    by rewrite lossy_text.
  - intros []. unfold decode_wol_config, encode_wol_config. by rewrite decode_as_encoded.
  - intros []. unfold decode_media_state, encode_media_state, MediaState_from. rewrite decode_as_encoded. cbn.
    do 2 f_equal. rewrite map_map. etrans; [|apply map_id]. by apply map_ext; intros [].
  - intros []. unfold decode_share_offer, encode_share_offer. by rewrite decode_as_encoded.
  - intros []. unfold decode_share_finished, encode_share_end. by rewrite decode_as_encoded.
Qed.

(** A phone drives another device's player: what it encodes is
    refused here, before anything is sent, exactly when it would be refused
    there; else it is sent, and there becomes the one action asked for, which
    is shown to that host by the verb and value the phone gave. *)
Theorem phone_drives_player `{!CborLaws MediaCommand} `{!CborTotal MediaCommand}
    me peer env player value p q cx cx' :
  cbor_decode (T := MediaCommand) [] = None -> (i64_min <= value <= i64_max)%Z ->
  env_ty env <> "query"%string -> env_ty env <> "state"%string -> env_ty env <> "notify"%string ->
  env_body env = encode_media_command player value ->
  match action_for (env_ty env) (mkMediaCommand player value) with
  | Err e =>
      media_on_local peer (env_ty env) (env_body env) p cx = (Err e, (p, cx)) /\
      media_on_message me env q cx' = (Err e, (q, cx'))
  | Ok action =>
      media_on_local peer (env_ty env) (env_body env) p cx =
        (Ok tt, (p, cx_send peer MEDIA_CAP (env_ty env) (env_body env) cx)) /\
      (∃ q' cx2 token, media_on_message me env q cx' = (Ok tt, (q', cx2)) /\
         cx_effects cx2 = cx_effects cx' ++ [(token, MediaControl player action)]) /\
      ∃ v, FfiEffect_from (MediaControl player action) = FfiMediaControl player (env_ty env) v /\
        (v = value \/ (is_Some (simple_action (env_ty env)) /\ v = 0%Z))
  end.
Proof.
  intros Hnil Hr H1 H2 H3 Hb.
  assert (media_command (env_body env) = Ok (mkMediaCommand player value)) as Hc.
  { rewrite Hb. unfold media_command, encode_media_command. case_bool_decide as E.
    - pose proof (decode_encoded (mkMediaCommand player value)) as Hd. rewrite E in Hd. congruence.
    - by rewrite decode_encoded. }
  unfold media_on_local, media_on_message. rewrite Hc. cbn [result_bind].
  rewrite (proj2 (String.eqb_neq _ _) H1), (proj2 (String.eqb_neq _ _) H2), (proj2 (String.eqb_neq _ _) H3).
  destruct (action_for (env_ty env) _) as [action|e] eqn:Ea; cbn [result_bind]; [|done].
  split; [done|]. split.
  - cbn [mc_player]. unfold media_ask, cx_effect. do 3 eexists. split; [done|done].
  - pose proof (media_verbs_cross _ _ _ Ea Hr) as Hv. cbn [FfiEffect_from].
    destruct (media_verb action) as [verb v]. destruct Hv as (-> & Hv & _). by exists v.
Qed.
End crossing.
