(* ===== verification/FfiBulk.v ===== *)
(** * [acrylius-ffi/src/bulk.rs] and [ble.rs]: files and fragments, for a phone

    A second sender and receiver of files, blocking where the runtime's are
    asynchronous, with the framing of [acrylius-proto] in common; and the
    fragments of a Bluetooth link, handed over as they are. *)

From S2P Require Import Prelude Externals Strs Utf8 Fs Bulk Ble RtBulk FfiTypes.
Local Open Scope N_scope.

(** The text of an error; [os] is the operating system's. *)
(* src: crates/acrylius-proto/src/bulk.rs 72 80 ChunkError *)
Definition chunk_error_to_string (e : ChunkError) : string :=
  match e with
  | BadKey => "a bulk key is 32 bytes"
  | Sealed seq => "chunk " +:+ fmt_u64 seq +:+ " would not open: wrong key, or a frame out of order"
  | Unsealed seq => "chunk " +:+ fmt_u64 seq +:+ " could not be sealed"
  end.
Definition io_error_to_string (os : ErrorKind -> string) (e : BulkError) : string :=
  match e with
  | Io k => os k
  | FrameTooLong n => "frame of " +:+ fmt_u64 n +:+ " bytes is too big"
  | TryFromInt => "out of range integral type conversion attempted"
  | Chunk e => chunk_error_to_string e
  | Hello NotOurs => "not an acrylius bulk connection"
  | WrongTransfer named transfer =>
      "that connection is for transfer " +:+ fmt_u64 named +:+ ", not " +:+ fmt_u64 transfer
  | MoreThanOffered => "more arrived than was offered"
  | Short written expect_bytes => fmt_u64 written +:+ " bytes of " +:+ fmt_u64 expect_bytes +:+ " arrived"
  end.

(** ** Sending *)

(** What was written to a connection, and how the next writes to it fare: one
    may fail after some of its bytes have gone out. *)
Record wire := mkWire { written_out : bytes; breaks : list (option nat) }.

Definition write_wire (bs : bytes) (w : wire) : result unit BulkError * wire :=
  match breaks w with
  | Some n :: more => (Err (Io OtherError), mkWire (written_out w ++ take n bs) more)
  | None :: more => (Ok tt, mkWire (written_out w ++ bs) more)
  | [] => (Ok tt, mkWire (written_out w ++ bs) [])
  end.

(* src: crates/acrylius-ffi/src/bulk.rs 42 44 send *)
Definition put_frame (frame : bytes) (w : wire) : result unit BulkError * wire :=
  match write_wire (to_be_bytes 4 (len frame)) w with
  | (Err e, w) => (Err e, w)
  | (Ok _, w) => write_wire frame w
  end.

Section transfer.
  Context `{!Aead}.

(** [reads] is what each read of the file returns; the end of the list is the
    end of the file. *)
(* src: crates/acrylius-ffi/src/bulk.rs 33 47 send *)
Fixpoint ffi_send_loop (key : bytes) (seq sent : u64) (reads : list (result bytes ErrorKind)) (w : wire)
    : result u64 BulkError * wire :=
  match reads with
  | [] => (Ok sent, w)
  | Err e :: _ => (Err (Io e), w)
  | Ok buf :: reads =>
      if len buf =? 0 then (Ok sent, w)
      else match seal key seq buf with
      | Err e => (Err (Chunk e), w)
      | Ok frame =>
          if u32_max <? len frame then (Err TryFromInt, w)
          else match put_frame frame w with
          | (Err e, w) => (Err e, w)
          | (Ok _, w) => ffi_send_loop key (seq +u64 1) (sent +u64 len buf) reads w
          end
      end
  end.

(** [opened], [connected] and [shut] are what those calls answer. *)
(* src: crates/acrylius-ffi/src/bulk.rs 27 51 send *)
Definition ffi_send (transfer : u64) (key : bytes) (opened connected shut : result unit ErrorKind)
    (reads : list (result bytes ErrorKind)) (w : wire) : result u64 BulkError * wire :=
  match opened, connected with
  | Err e, _ | Ok _, Err e => (Err (Io e), w)
  | Ok _, Ok _ =>
      match write_wire (hello transfer) w with
      | (Err e, w) => (Err e, w)
      | (Ok _, w) =>
          match ffi_send_loop key 0 0 reads w with
          | (Err e, w) => (Err e, w)
          | (Ok sent, w) => (match shut with Ok _ => Ok sent | Err e => Err (Io e) end, w)
          end
      end
  end.

(* src: crates/acrylius-ffi/src/bulk.rs 16 25 bulk_send *)
Definition bulk_send (os : ErrorKind -> string) (transfer : u64) (key : bytes)
    (opened connected shut : result unit ErrorKind) (reads : list (result bytes ErrorKind)) (w : wire)
    : result u64 FfiError * wire :=
  let '(r, w) := ffi_send transfer key opened connected shut reads w in
  (map_err (λ e, EffectError (io_error_to_string os e)) r, w).

(** ** Receiving *)

(* src: crates/acrylius-ffi/src/bulk.rs 144 148 temp_beside *)
Definition ffi_temp_beside (dest : path) : path :=
  with_file_name dest (default EmptyString (file_name dest) +:+ ".part").

(* src: crates/acrylius-ffi/src/bulk.rs 150 163 accept *)
Definition ffi_accept (arrived : result stream ErrorKind) (transfer : u64) : result stream BulkError :=
  try! s := map_err Io arrived in
  try! (greeting, s) := map_err Io (read_exact 12 s) in
  try! named := map_err Hello (read_hello greeting) in
  if negb (named =? transfer) then Err (WrongTransfer named transfer) else Ok s.

(* src: crates/acrylius-ffi/src/bulk.rs 176 201 receive *)
Fixpoint ffi_receive_loop (fuel : nat) (key : bytes) (expect_bytes : u64) (file : ino)
    (seq written : u64) (s : stream) : io BulkError u64 :=
  match fuel with
  | O => io_lift (Err (Io OtherError))
  | S fuel =>
      match read_exact 4 s with
      | Err UnexpectedEof => io_ret written
      | Err e => io_lift (Err (Io e))
      | Ok (hdr, s) =>
          let n := from_be_bytes hdr in
          if MAX_FRAME <? n then io_lift (Err (FrameTooLong n))
          else
            do! (frame, s) := io_lift (map_err Io (read_exact (N.to_nat n) s)) in
            do! plain := io_lift (map_err Chunk (open_chunk key seq frame)) in
            let seq := seq +u64 1 in
            let written := written +u64 len plain in
            if expect_bytes <? written then io_lift (Err MoreThanOffered)
            else
              do! _ := io_map_err Io (write_all file plain) in
              ffi_receive_loop fuel key expect_bytes file seq written s
      end
  end.

(** The closure: the temporary is created inside it. *)
(* src: crates/acrylius-ffi/src/bulk.rs 172 209 receive *)
Definition ffi_receive_outcome (key : bytes) (expect_bytes : u64) (tmp : path) (s : stream) : io BulkError u64 :=
  do! file := io_map_err Io (create tmp) in
  do! written := ffi_receive_loop (S (length (incoming s))) key expect_bytes file 0 0 s in
  do! _ := io_map_err Io (flush file) in
  if negb (written =? expect_bytes) then io_lift (Err (Short written expect_bytes)) else io_ret written.

(* src: crates/acrylius-ffi/src/bulk.rs 165 221 receive *)
Definition ffi_receive (key : bytes) (expect_bytes : u64) (dest : path) (s : stream) : io BulkError u64 :=
  let tmp := ffi_temp_beside dest in
  io_match (ffi_receive_outcome key expect_bytes tmp s) (λ outcome,
    match outcome with
    | Ok written => do! _ := io_map_err Io (rename tmp dest) in io_ret written
    | Err e => io_match (remove_file tmp) (λ _, io_lift (Err e))
    end).
End transfer.

(* src: crates/acrylius-ffi/src/bulk.rs 57 59 bulk_safe_name *)
Definition bulk_safe_name (offered : string) : string := safe_component offered.

(** ** The listener *)

(* src: crates/acrylius-ffi/src/bulk.rs 65 72 BulkListener *)
Record BulkListener := mkBulkListener {
  bl_endpoint : string; listener : bool; connected : option stream }.
#[global] Instance BulkListener_eta : Eta BulkListener := λ l,
  mkBulkListener (bl_endpoint l) (listener l) (connected l).

Section listener.
  Context (os : ErrorKind -> string) `{!Aead}.

(** [bound] is the port the operating system picks. *)
(* src: crates/acrylius-ffi/src/bulk.rs 79 95 BulkListener::bind *)
Definition bind_listener (host : string) (bound : result u16 ErrorKind) : result BulkListener FfiError :=
  match bound with
  | Err e => Err (EffectError (os e))
  | Ok port => Ok (mkBulkListener (host +:+ ":" +:+ fmt_u64 port) true None)
  end.

(* src: crates/acrylius-ffi/src/bulk.rs 105 123 BulkListener::accept *)
Definition listener_accept (transfer : u64) (arrived : result stream ErrorKind) (l : BulkListener)
    : result unit FfiError * BulkListener :=
  if negb (listener l) then (Err (EffectError "this listener has already taken its transfer"), l)
  else
    let l := l <| listener := false |> in
    match ffi_accept arrived transfer with
    | Err e => (Err (EffectError (io_error_to_string os e)), l)
    | Ok s => (Ok tt, l <| connected := Some s |>)
    end.

(* src: crates/acrylius-ffi/src/bulk.rs 128 141 BulkListener::receive *)
Definition listener_receive (key : bytes) (expect_bytes : u64) (dest : path) (l : BulkListener) (d : disk)
    : result u64 FfiError * BulkListener * disk :=
  match connected l with
  | None => (Err (EffectError "nothing has connected to this listener"), l, d)
  | Some s =>
      let l := l <| connected := None |> in
      let '(r, d) := ffi_receive key expect_bytes dest s d in
      (map_err (λ e, EffectError (io_error_to_string os e)) r, l, d)
  end.
End listener.

(** ** Fragments *)

(* src: crates/acrylius-ffi/src/ble.rs 14 16 ble_fragment *)
Definition ble_fragment (msg : bytes) (frag : u32) : list bytes := fragment msg frag.
(* src: crates/acrylius-ffi/src/ble.rs 21 23 ble_header_len *)
Definition ble_header_len : u32 := HEADER.
(* src: crates/acrylius-ffi/src/ble.rs 42 46 BleReassembler::new *)
Definition BleReassembler_new (max_message : u32) : Reassembler := Reassembler_new max_message.
(* src: crates/acrylius-ffi/src/ble.rs 56 63 BleReassembler::push *)
Definition ffi_push (r : Reassembler) (frag : bytes) : Reassembler * result (option bytes) FfiError :=
  let '(r, pushed) := push r frag in
  (r, map_err (λ e, BadInput (ble_error_to_string e)) pushed).

(** ** Theorems *)

Section theorems.
  Context `{!Aead}.

(** *** Receiving *)

Lemma ffi_receive_loop_eq key expect file fuel : ∀ seq written s d,
  ffi_receive_loop fuel key expect file seq written s d = receive_loop fuel key expect file seq written s d.
Proof.
  induction fuel as [|fuel IH]; intros seq written s d; [done|]. cbn [ffi_receive_loop receive_loop].
  unfold read_frame. destruct (read_exact 4 s) as [[hdr s1]|[]]; try done.
  destruct (MAX_FRAME <? from_be_bytes hdr); [done|].
  destruct (read_exact _ s1) as [[frame s2]|e]; [|done]. unfold io_bind, io_lift. cbn.
  destruct (open_chunk key seq frame) as [plain|e]; [|done]. cbn.
  destruct (expect <? _); [done|]. unfold io_map_err. destruct (write_all file plain d) as [[[]|e] d']; [|done].
  cbn. apply IH.
Qed.

Lemma ffi_temp_eq dest : ffi_temp_beside dest = temp_beside dest.
Proof. unfold ffi_temp_beside, temp_beside. by destruct (file_name dest). Qed.

Lemma ffi_accept_eq transfer s : ffi_accept (Ok s) transfer = accept transfer s.
Proof. done. Qed.

Lemma remove_reads p d q : q <> p -> read_back (remove_file p d).2 q = read_back d q.
Proof.
  intros Hq. unfold remove_file, attempt.
  assert (∀ d, read_back (match dir d !! p with
    | Some _ => (Ok tt, set_dir (delete p) d) | None => (Err NotFound, d) end : result unit ErrorKind * disk).2 q
    = read_back d q) as Hd.
  { intros d'. destruct (dir d' !! p); [|done]. unfold read_back. cbn. by rewrite lookup_delete_ne. }
  destruct (faults d) as [|[] fs]; [apply Hd|etrans; [apply Hd|done]|done|done].
Qed.

(** C27 (equivalence): A phone and a desktop receive a file alike: the same connections
    are taken for the transfer, and whatever then arrives and whatever calls
    fail, the phone's receiver does to the disk and reports what the desktop's
    does; they differ only where the temporary cannot be created, which both
    report, and the phone clears its path. *)
Theorem receivers_agree transfer key expect dest s d :
  ffi_accept (Ok s) transfer = accept transfer s /\
  match create (temp_beside dest) d with
  | (Ok _, _) => ffi_receive key expect dest s d = receive key expect dest s d
  | (Err e, d1) =>
      receive key expect dest s d = (Err (Io e), d1) /\
      (ffi_receive key expect dest s d).1 = Err (Io e) /\
      ∀ q, q <> temp_beside dest -> read_back (ffi_receive key expect dest s d).2 q = read_back d1 q
  end.
Proof.
  split; [done|]. unfold ffi_receive, ffi_receive_outcome, receive, receive_all. rewrite <- ffi_temp_eq.
  generalize (S (length (incoming s))) as fuel. intros fuel. unfold io_match, io_bind, io_map_err.
  destruct (create (ffi_temp_beside dest) d) as [[file|e] d1]; cbn.
  - rewrite ffi_receive_loop_eq.
    destruct (receive_loop _ _ _ _ _ _ _ d1) as [[w|e] d2]; [|done].
    destruct (flush file d2) as [[[]|e] d3]; cbn; [|done].
    destruct (w =? expect); cbn; [|done].
    by destruct (rename _ _ d3) as [[[]|e] d4].
  - destruct (remove_file (ffi_temp_beside dest) d1) as [r d2] eqn:Er. split_and!; [done|done|].
    intros q Hq. cbn. pose proof (remove_reads _ d1 q Hq) as Hr. by rewrite Er in Hr.
Qed.

(** *** Sending *)

(** A write goes through or leaves a beginning; where nothing breaks it goes through. *)
Definition wrote (bs : bytes) (w : wire) (p : result unit BulkError * wire) : Prop :=
  match p.1 with
  | Ok _ => written_out p.2 = written_out w ++ bs
  | Err _ => ∃ part rest, bs = part ++ rest /\ written_out p.2 = written_out w ++ part
  end /\ (breaks w = [] -> p.1 = Ok tt /\ breaks p.2 = []).

Lemma write_wire_spec bs w : wrote bs w (write_wire bs w).
Proof.
  unfold wrote, write_wire. destruct (breaks w) as [|[n|] more]; cbn; split; try done.
  exists (take n bs), (drop n bs). by rewrite take_drop.
Qed.

Lemma wrote_then bs bs' w p :
  wrote bs w p -> (∀ u, p.1 = Ok u -> wrote bs' p.2 (write_wire bs' p.2)) ->
  wrote (bs ++ bs') w (match p with (Err e, w) => (Err e, w) | (Ok _, w) => write_wire bs' w end).
Proof.
  destruct p as [[u|e] w1]; cbn.
  - intros [H1 H2] Hx. specialize (Hx u eq_refl). cbn in Hx, H1, H2. destruct (write_wire bs' w1) as [r w2].
    destruct Hx as [H3 H4]. cbn in H3, H4. split; cbn.
    + rewrite H1 in H3. destruct r; [by rewrite H3, app_assoc|].
      destruct H3 as (part & rest & -> & H3). exists (bs ++ part), rest. by rewrite H3, !app_assoc.
    + intros Hn. apply H4, H2, Hn.
  - intros [(part & rest & -> & H1) H2] _. split; [|by intros Hn; destruct (H2 Hn)].
    exists part, (rest ++ bs'). by rewrite app_assoc.
Qed.

Lemma put_frame_spec frame w : wrote (to_be_bytes 4 (len frame) ++ frame) w (put_frame frame w).
Proof. apply wrote_then; [apply write_wire_spec|]. intros _ _. apply write_wire_spec. Qed.

(** How writing a file's frames ends, beside what the desktop makes of it. *)
Definition sent_alike (want : result (bytes * u64) BulkError) (w : wire) (p : result u64 BulkError * wire) : Prop :=
  match want with
  | Ok (out, n) =>
      (∃ part rest, out = part ++ rest /\ written_out p.2 = written_out w ++ part /\
         ∀ m, p.1 = Ok m -> m = n /\ rest = []) /\
      (breaks w = [] -> p.1 = Ok n)
  | Err e => (∀ m, p.1 <> Ok m) /\ (breaks w = [] -> p.1 = Err e)
  end.

Lemma sent_alike_cut bs want w e w1 :
  wrote bs w (Err e, w1) ->
  sent_alike (try! (out, n) := want in Ok (bs ++ out, n)) w (Err e, w1).
Proof.
  intros [(part & rest & -> & Hw) Hn]. unfold sent_alike.
  assert (breaks w <> []) as Hne by (intros H0; by destruct (Hn H0)).
  destruct want as [[out n]|e']; cbn [result_bind]; [|done].
  split; [|done]. exists part, (rest ++ out). rewrite <- app_assoc. done.
Qed.

Lemma sent_alike_more bs want w w1 p :
  wrote bs w (Ok tt, w1) -> sent_alike want w1 p ->
  sent_alike (try! (out, n) := want in Ok (bs ++ out, n)) w p.
Proof.
  intros [Hw Hn]. cbn in Hw, Hn. unfold sent_alike. destruct want as [[out n]|e']; cbn [result_bind].
  - intros [(part & rest & -> & Hp & Hm) H0]. split; [|intros Hb; by apply H0, Hn].
    exists (bs ++ part), rest. rewrite Hp, Hw, !app_assoc. done.
  - intros [Hm H0]. split; [done|]. intros Hb. by apply H0, Hn.
Qed.

Lemma ffi_send_loop_spec key bufs : ∀ seq sent w,
  Forall (λ b, 1 <= len b) bufs ->
  sent_alike (send_loop key seq sent bufs) w (ffi_send_loop key seq sent (map Ok bufs) w).
Proof.
  induction bufs as [|buf bufs IH]; intros seq sent w Hb; cbn [map ffi_send_loop send_loop].
  { split; [|done]. exists [], []. cbn. rewrite app_nil_r. split_and!; try done. by intros m [= ->]. }
  apply Forall_cons in Hb as [Hb Hbs]. rewrite (proj2 (N.eqb_neq _ _)) by lia.
  destruct (seal key seq buf) as [frame|e]; cbn [map_err result_bind]; [|done].
  unfold write_frame. destruct (u32_max <? len frame); cbn [result_bind]; [done|].
  pose proof (put_frame_spec frame w) as Hp. destruct (put_frame frame w) as [[[]|e] w1].
  - eapply sent_alike_more; [exact Hp|by apply IH].
  - by apply sent_alike_cut.
Qed.

(** A phone and a desktop put the same bytes on the wire for a
    file read in the same pieces: whatever breaks, what the phone wrote is a
    beginning of what the desktop would write; it reports success only for all
    of it, with the same count; and if nothing breaks it does succeed, or fails
    as the desktop does. *)
Theorem senders_agree transfer key shut bufs w r w' :
  Forall (λ b, 1 <= len b) bufs -> written_out w = [] ->
  ffi_send transfer key (Ok tt) (Ok tt) shut (map Ok bufs) w = (r, w') ->
  match send transfer key bufs with
  | Ok (out, n) =>
      written_out w' `prefix_of` out /\ (∀ m, r = Ok m -> m = n /\ written_out w' = out) /\
      (breaks w = [] -> shut = Ok tt -> r = Ok n)
  | Err e => (∀ m, r <> Ok m) /\ (breaks w = [] -> r = Err e)
  end.
Proof.
  intros Hb Hw E.
  assert (sent_alike (send transfer key bufs) w
    (match ffi_send transfer key (Ok tt) (Ok tt) (Ok tt) (map Ok bufs) w with p => p end)) as Hs.
  { unfold ffi_send, send. pose proof (write_wire_spec (hello transfer) w) as Hh.
    destruct (write_wire (hello transfer) w) as [[[]|e] w1]; [|by apply sent_alike_cut].
    pose proof (ffi_send_loop_spec key bufs 0 0 w1 Hb) as Hl.
    destruct (ffi_send_loop key 0 0 (map Ok bufs) w1) as [[m|e] w2]; by eapply sent_alike_more. }
  unfold ffi_send in E, Hs. destruct (write_wire (hello transfer) w) as [[[]|e] w1].
  - destruct (ffi_send_loop key 0 0 (map Ok bufs) w1) as [[m|e] w2]; injection E as <- <-;
      unfold sent_alike in Hs; destruct (send transfer key bufs) as [[out n]|e'].
    + destruct Hs as [(part & rest & -> & Hp & Hm) Hn]. cbn in Hp, Hm, Hn. rewrite Hw in Hp.
      destruct (Hm m eq_refl) as [-> ->]. rewrite app_nil_r. cbn in Hp. rewrite Hp.
      split_and!; [by exists []; rewrite app_nil_r| |by intros _ ->]. destruct shut; [by intros ? [= ->]|done].
    + destruct Hs as [Hm _]. by destruct (Hm m).
    + destruct Hs as [(part & rest & -> & Hp & Hm) Hn]. cbn in Hp, Hn. rewrite Hp, Hw.
      split_and!; [by exists rest|done|by intros H0 _; specialize (Hn H0)].
    + exact Hs.
  - injection E as <- <-. unfold sent_alike in Hs. destruct (send transfer key bufs) as [[out n]|e'].
    + destruct Hs as [(part & rest & -> & Hp & Hm) Hn]. cbn in Hp, Hn. rewrite Hp, Hw.
      split_and!; [by exists rest|done|by intros H0 _; specialize (Hn H0)].
    + exact Hs.
Qed.
End theorems.

(** ** One listener, one file *)

Section once.
  Context (os : ErrorKind -> string) `{!Aead}.

Inductive ListenerCall :=
| CallAccept (transfer : u64) (arrived : result stream ErrorKind)
| CallReceive (key : bytes) (expect_bytes : u64) (dest : path).

Definition listener_call (c : ListenerCall) (st : BulkListener * disk) : BulkListener * disk :=
  let '(l, d) := st in
  match c with
  | CallAccept transfer arrived => ((listener_accept os transfer arrived l).2, d)
  | CallReceive key expect_bytes dest =>
      let '(_, l, d) := listener_receive os key expect_bytes dest l d in (l, d)
  end.
Definition listener_calls (cs : list ListenerCall) (st : BulkListener * disk) : BulkListener * disk :=
  fold_left (λ st c, listener_call c st) cs st.

(** A connection taken by a call, for the transfer it was asked about. *)
Definition taken_by (cs : list ListenerCall) (s : stream) : Prop :=
  ∃ transfer arrived, CallAccept transfer (Ok arrived) ∈ cs /\ accept transfer arrived = Ok s.

(** Where a listener's calls can have brought it. *)
Definition listener_reach (cs : list ListenerCall) (d : disk) (st : BulkListener * disk) : Prop :=
  (st.2 = d /\ connected st.1 = None) \/
  (st.2 = d /\ listener st.1 = false /\ ∃ s, connected st.1 = Some s /\ taken_by cs s) \/
  (listener st.1 = false /\ connected st.1 = None /\
   ∃ s key expect dest, taken_by cs s /\ CallReceive key expect dest ∈ cs /\
     st.2 = (ffi_receive key expect dest s d).2).

Lemma taken_by_more cs c s : taken_by cs s -> taken_by (cs ++ [c]) s.
Proof. intros (t & a & Hin & Ha). exists t, a. split; [apply elem_of_app; by left|done]. Qed.

Lemma listener_call_reach cs c d st :
  listener_reach cs d st -> listener_reach (cs ++ [c]) d (listener_call c st).
Proof.
  destruct st as [l d1], c as [transfer arrived|key expect dest]; intros Hr; unfold listener_reach in Hr; cbn in Hr.
  - unfold listener_call, listener_accept. destruct (listener l) eqn:El; cbn [negb snd].
    + destruct Hr as [[-> Hc]|[(_ & ? & _)|(? & _)]]; [|congruence..].
      destruct arrived as [s0|e]; [|left; by split].
      rewrite ffi_accept_eq. destruct (accept transfer s0) as [s|e] eqn:Ea; [|left; by split].
      right. left. split_and!; [done|done|]. exists s. split; [done|]. exists transfer, s0.
      split; [apply elem_of_app; right; by left|done].
    + destruct Hr as [Hr|[(-> & ? & s & Hs & Ht)|(? & Hc & s & k & e & p & Ht & Hin & Hd)]].
      * left. exact Hr.
      * right. left. split_and!; [done|done|]. exists s. split; [done|by apply taken_by_more].
      * right. right. split_and!; [done|done|]. exists s, k, e, p. split_and!; [by apply taken_by_more| |done].
        apply elem_of_app. by left.
  - unfold listener_call, listener_receive.
    destruct Hr as [[-> Hc]|[(-> & Hl & s & Hs & Ht)|(Hl & Hc & s & k & e & p & Ht & Hin & Hd)]].
    + rewrite Hc. left. by split.
    + rewrite Hs. destruct (ffi_receive key expect dest s d) as [r d2] eqn:Er. right. right.
      split_and!; [done|done|]. exists s, key, expect, dest. split_and!; [by apply taken_by_more| |by rewrite Er].
      apply elem_of_app. right. by left.
    + rewrite Hc. right. right. split_and!; [done|done|]. exists s, k, e, p.
      split_and!; [by apply taken_by_more| |done]. apply elem_of_app. by left.
Qed.

(** However often and in whatever order a listener is asked to accept
    and to receive, the disk is as it was, or as one receiving left it, of a
    connection that greeted with the number of the transfer accepted. *)
Theorem listener_serves_once host port l cs d :
  bind_listener os host (Ok port) = Ok l ->
  let d' := (listener_calls cs (l, d)).2 in
  d' = d \/ ∃ s key expect dest, taken_by cs s /\ CallReceive key expect dest ∈ cs /\
    d' = (ffi_receive key expect dest s d).2.
Proof.
  intros [= <-]. cbv zeta.
  set (l0 := mkBulkListener _ true None).
  assert (listener_reach cs d (listener_calls cs (l0, d))) as Hr.
  { induction cs as [|c cs IH] using rev_ind; [left; by split|].
    unfold listener_calls. rewrite fold_left_app. by apply listener_call_reach. }
  destruct Hr as [[? _]|[[? _]|(_ & _ & ?)]]; [by left|by left|by right].
Qed.
End once.
