(* ===== verification/RtMirror.v ===== *)
(** * The core and its host's store, together

    The core keeps the devices it trusts in memory and asks its host to write
    and erase records; the host (runtime.rs, [Action::Persist]) does so in the
    order asked, and notes each time its store fails.  [StoreLaws] is what the
    client relies on of any store; both stores of store.rs keep it, whatever
    calls of the system fail.  What the store then holds is what the core knows,
    but for the records whose writing failed, and a core built from it knows the
    same devices. *)

From Stdlib Require Import Ascii.
From S2P Require Import Prelude Externals B64 Ids Frame Hello Envelope PairingKeys Bulk Link Peer.
From S2P Require Import Vocab Noise Plugin CoreState CoreQueries CoreOps CoreHandle CoreSteps CoreRefines CoreTheorems.
From S2P Require Import Strs Fs RtStore.
Local Open Scope N_scope.

(** ** Ids are file names *)

#[local] Transparent alphabet_at.
Lemma alphabet_safe i : alphabet_at i <> byte_of 46 /\ alphabet_at i <> byte_of 47.
Proof.
  unfold alphabet_at. destruct (nth_in_or_default (N.to_nat i) ALPHABET Byte.x00) as [Hin| ->]; [|done].
  assert (forallb (λ b, negb (Byte.eqb b (byte_of 46)) && negb (Byte.eqb b (byte_of 47))) ALPHABET = true) as Hall
    by (vm_compute; reflexivity).
  rewrite forallb_forall in Hall. specialize (Hall _ Hin). apply andb_prop in Hall as [Hd Hs].
  split; intros E; rewrite E in Hd, Hs; done.
Qed.
#[local] Opaque alphabet_at.

Lemma str_count_outside c b : (∀ x, x ∈ b -> ascii_of_byte x <> c) -> str_count c (of_bytes b) = 0%nat.
Proof.
  induction b as [|x b IH]; intros Hb; [done|]. cbn.
  rewrite (proj2 (Ascii.eqb_neq _ _)) by (apply Hb; by left). apply IH. intros y Hy. apply Hb. by right.
Qed.

Lemma encode_safe b x : x ∈ as_bytes (B64.encode b) -> x <> byte_of 46 /\ x <> byte_of 47.
Proof.
  unfold B64.encode. rewrite as_of_bytes. intros Hx. apply list_elem_of_In, in_concat in Hx as (l & Hl & Hx).
  apply in_map_iff in Hl as (ch & <- & _). unfold encode_chunk in Hx. apply in_map_iff in Hx as (i & <- & _).
  apply alphabet_safe.
Qed.

Lemma encode_simple b : 0 < len b -> simple (B64.encode b).
Proof.
  intros Hb. split_and!.
  - intros E. apply (encode_nonempty b); [by intros ->|by rewrite E].
  - rewrite <- (of_as_bytes (B64.encode b)). apply str_count_outside. intros x Hx E.
    apply encode_safe in Hx as [_ Hn]. apply Hn. apply (f_equal byte_of_ascii) in E.
    by rewrite byte_of_ascii_of_byte in E.
  - rewrite <- (of_as_bytes (B64.encode b)). apply str_count_outside. intros x Hx E.
    apply encode_safe in Hx as [Hn _]. apply Hn. apply (f_equal byte_of_ascii) in E.
    by rewrite byte_of_ascii_of_byte in E.
Qed.

Lemma did_simple `{!Sha256} `{!Sha256Laws} pk : simple (did_str (DeviceId_of pk)).
Proof. apply encode_simple. by rewrite length_did_hash. Qed.

Definition file_key (id : DeviceId) : string := record_key (did_str id).
Lemma file_key_inj a b : file_key a = file_key b -> a = b.
Proof. intros E%record_key_inj. by destruct a, b; cbn in E; subst. Qed.

(** ** What a client relies on of a store *)

(** [held] is what is kept for a device.  A write that is reported done is done,
    one that is reported failed has changed nothing, other devices' records stay
    either way, and what is loaded is what is held. *)
Class StoreLaws (T : Type) `{Store T} `{!Sha256} `{!Cbor PeerRecord} := {
  sound : T -> Prop;
  held : T -> DeviceId -> option bytes;
  put_law s id v sens r s' :
    sound s -> (v = None \/ ∃ pk, id = DeviceId_of pk) -> store_put (file_key id) v sens s = (r, s') ->
    sound s' /\ (∀ id', id' <> id -> held s' id' = held s id') /\
    held s' id = match r with Ok _ => v | Err _ => held s id end;
  load_law s rs s' :
    sound s -> store_load s = (Ok rs, s') ->
    ∀ r, r ∈ rs <-> ∃ id v, held s id = Some v /\ cbor_decode v = Some r;
}.

Lemma elem_of_memory_load `{!Cbor PeerRecord} m r :
  r ∈ memory_load_peers m <->
  ∃ k v, entries m !! k = Some v /\ str_starts_with "peer/" k = true /\ cbor_decode v = Some r.
Proof.
  unfold memory_load_peers. rewrite list_elem_of_omap. split.
  - intros ([k v] & Hin & Hd). apply list_elem_of_In, filter_In in Hin as [Hin Hs].
    apply list_elem_of_In, elem_of_bt_iter in Hin. by exists k, v.
  - intros (k & v & Hk & Hs & Hd). exists (k, v). split; [|done].
    apply list_elem_of_In, filter_In. split; [|done]. by apply list_elem_of_In, elem_of_bt_iter.
Qed.

Lemma file_key_peer id : str_starts_with "peer/" (file_key id) = true.
Proof. apply str_starts_with_spec. by exists (did_str id). Qed.

#[global, program] Instance MemoryStore_StoreLaws `{!Sha256} `{!Cbor PeerRecord} : StoreLaws MemoryStore := {
  sound m := ∀ k v, entries m !! k = Some v -> ∃ id, k = file_key id;
  held m id := entries m !! file_key id;
}.
Next Obligation.
  intros ? ? s id v sens r s' Hs _ [= <- <-]. split_and!.
  - intros k w. destruct v; cbn; [intros [[<- _]|[_ Hw]]%lookup_insert_Some|intros [_ Hw]%lookup_delete_Some]; eauto.
  - intros id' Hne. assert (file_key id <> file_key id') by (by intros ?%file_key_inj).
    destruct v; cbn; by rewrite ?lookup_insert_ne, ?lookup_delete_ne.
  - destruct v; cbn; by rewrite ?lookup_insert_eq, ?lookup_delete_eq.
Qed.
Next Obligation.
  intros ? ? s rs s' Hs [= <- <-] r. rewrite elem_of_memory_load. split.
  - intros (k & v & Hk & _ & Hd). destruct (Hs k v Hk) as [id ->]. by exists id, v.
  - intros (id & v & Hk & Hd). exists (file_key id), v. split_and!; [done|apply file_key_peer|done].
Qed.

#[local] Instance simple_dec id : Decision (simple id).
Proof. unfold simple. apply _. Defined.

(** What the file store keeps for a device, and that its directory of records
    holds nothing else but temporaries. *)
Definition file_held (s : FileStore * disk) (id : DeviceId) : option bytes :=
  if decide (simple (did_str id)) then read_back s.2 (record_path s.1 (did_str id)) else None.
Definition file_sound (s : FileStore * disk) : Prop :=
  wf s.2 /\ ∀ q v, parent q = root s.1 ++ ["peer"%string] -> is_tmp q = false -> read_back s.2 q = Some v ->
    ∃ id, simple (did_str id) /\ q = record_path s.1 (did_str id).

Lemma put_leaves_sound st d d' q v r :
  file_sound (st, d) -> put_leaves q v d r d' ->
  (v = None \/ ∃ id, simple (did_str id) /\ q = record_path st (did_str id)) -> file_sound (st, d').
Proof.
  intros [_ Hs] (Hwf & Hother & Hq) Hv. split; [done|]. cbn [fst snd] in *. intros p w Hp Ht Hr.
  destruct (decide (p = q)) as [->|Hne].
  - destruct Hv as [->|Hv]; [|done]. rewrite Hq in Hr. destruct r; [done|]. by eapply Hs.
  - rewrite Hother in Hr by done. by eapply Hs.
Qed.

Lemma record_path_not_dir st id : record_path st id <> root st ++ ["peer"%string].
Proof. unfold record_path. intros E%(f_equal length). rewrite !length_app in E. cbn in E. lia. Qed.

#[global, program] Instance FileStore_StoreLaws `{!Sha256} `{!Sha256Laws} `{!ReadDir} `{!ReadDirLaws} `{!Cbor PeerRecord} :
  StoreLaws (FileStore * disk) := { sound := file_sound; held := file_held }.
Next Obligation.
  intros ? ? ? ? ? [st d] id v sens r s' HS Hv. cbn [store_put FileStore_Store fst snd]. destruct (put st (file_key id) v sens d) as [r1 d'] eqn:E. intros [= <- <-].
  unfold file_held. cbn [fst snd]. pose proof (proj1 HS) as Hwf. cbn in Hwf. destruct (decide (simple (did_str id))) as [Hid|Hid].
  - pose proof (path_for_record st _ Hid) as Hp. assert (put_leaves (record_path st (did_str id)) v d r1 d') as HL.
    { destruct v as [bs|].
      - pose proof (put_bytes_leaves st (file_key id) _ bs sens d Hp (named_record _ _ Hid) (record_not_tmp _ _ Hid) Hwf) as HL.
        by rewrite E in HL.
      - pose proof (put_none_leaves st (file_key id) _ sens d Hp Hwf) as HL. by rewrite E in HL. }
    split; [by eapply put_leaves_sound; [..|right; by exists id]|]. destruct HL as (_ & Ho & Hh). split; [|exact Hh].
    intros id' Hne. case_decide as Hid'; [|done]. apply Ho; [|by apply record_not_tmp].
    intros Ep%record_path_inj. apply Hne. by destruct id, id'; cbn in Ep; subst.
  - destruct Hv as [->|[pk ->]]; [|by destruct Hid; apply did_simple].
    assert (d' = d /\ r1 = Err InvalidInput \/ ∃ q, path_for st (file_key id) = Ok q /\ put_leaves q None d r1 d') as [[-> ->]|(q & Hq & HL)].
    { destruct (path_for st (file_key id)) as [q|e] eqn:Ep.
      - right. exists q. split; [done|]. pose proof (put_none_leaves st _ q sens d Ep Hwf) as HL. by rewrite E in HL.
      - left. unfold put, io_bind, io_lift in E. rewrite Ep in E. injection E as <- <-.
        unfold path_for in Ep. destruct (_ || _); [|done]. by injection Ep as <-. }
    { split_and!; done. }
    split; [by eapply put_leaves_sound; [..|left]|]. destruct HL as (_ & Ho & _). split; [|by destruct r1].
    intros id' Hne. case_decide as Hid'; [|done]. apply Ho; [|by apply record_not_tmp].
    apply path_for_key in Hq as [-> | ->]; [|apply record_path_not_dir].
    intros Ep%record_path_inj. apply Hne. by destruct id, id'; cbn in Ep; subst.
Qed.
Next Obligation.
  intros ? ? ? ? ? [st d] rs s' [Hwf Hs]. cbn [store_load FileStore_Store fst snd]. destruct (load_peers st d) as [[rs1|] d'] eqn:E; [|done].
  intros [= <- <-] r. rewrite (load_peers_Ok st d rs1 d' r E). unfold file_held. cbn [fst snd] in *. split.
  - intros (q & v & Hp & Ht & Hv & Hd). destruct (Hs q v Hp Ht Hv) as (id & Hid & ->). exists id, v. by rewrite decide_True.
  - intros (id & v & Hv & Hd). case_decide as Hid; [|done]. exists (record_path st (did_str id)), v.
    split_and!; [apply parent_record|by apply record_not_tmp|done|done].
Qed.

Section mirror.
  Context `{Externs}.

(** The host's side of one action, on the in-memory store. *)
Definition persist (a : Action) (m : MemoryStore) : MemoryStore :=
  match a with Persist k v _ => memory_put k v m | _ => m end.
Definition replay (out : list Action) (m : MemoryStore) : MemoryStore :=
  fold_left (λ m a, persist a m) out m.

(** Records carry the name they are filed under. *)
Definition Named (c : Core) : Prop :=
  (∀ id r, peers c !! id = Some r -> pr_device_id r = did_str id) /\
  (∀ w a id, pairing c = Some w -> awaiting w = Some a -> record_id (aw_record a) = Some id ->
     pr_device_id (aw_record a) = did_str id).

(** The store holds the encoded record of every trusted device and no other. *)
Definition Mirrors (c : Core) (m : MemoryStore) : Prop :=
  (∀ id, entries m !! file_key id = peers c !! id ≫= to_vec) /\
  (∀ k v, entries m !! k = Some v -> ∃ id, k = file_key id).

Lemma Mirrors_peers c c' m : peers c' = peers c -> Mirrors c m -> Mirrors c' m.
Proof. intros Hp [HM HK]. split; [|done]. intros id. by rewrite Hp. Qed.

(** ** Records filed under their ids *)

Definition file_record (m : gmap DeviceId PeerRecord) (r : PeerRecord) : gmap DeviceId PeerRecord :=
  match record_id r with Some id => <[id := r]> m | None => m end.

(** Records that are all entries of [P], filed, stay within [P] and are all there. *)
Lemma filed_within (P : gmap DeviceId PeerRecord) l m :
  m ⊆ P -> (∀ r, r ∈ l -> ∃ id, record_id r = Some id /\ P !! id = Some r) ->
  fold_left file_record l m ⊆ P /\ m ⊆ fold_left file_record l m /\
  ∀ r, r ∈ l -> ∃ id, record_id r = Some id /\ fold_left file_record l m !! id = Some r.
Proof.
  revert m. induction l as [|x l IH]; intros m Hm Hl; cbn [fold_left].
  { split_and!; [done|done|]. intros r ?%not_elem_of_nil. done. }
  destruct (Hl x) as (i & Hi & HPi); [by left|]. unfold file_record at 2 4 6. rewrite Hi.
  assert (<[i := x]> m ⊆ P) as Hm'.
  { apply map_subseteq_spec. intros j r [[<- <-]|[_ Hr]]%lookup_insert_Some; [done|].
    by apply (lookup_weaken m P). }
  destruct (IH (<[i := x]> m) Hm') as (H1 & H2 & H3); [intros r Hr; apply Hl; by right|].
  assert (fold_left file_record l (<[i := x]> m) !! i = Some x) as Hx.
  { apply (lookup_weaken (<[i := x]> m)); [apply lookup_insert_eq|done]. }
  split_and!; [done| |].
  - apply map_subseteq_spec. intros j r Hr. destruct (decide (j = i)) as [->|Hne].
    + assert (P !! i = Some r) by by apply (lookup_weaken m P). congruence.
    + apply (lookup_weaken (<[i := x]> m)); [by rewrite lookup_insert_ne|done].
  - intros r [->|Hr]%elem_of_cons; [by exists i|by apply H3].
Qed.

Lemma filed_exactly (P : gmap DeviceId PeerRecord) l :
  (∀ r, r ∈ l <-> ∃ id, record_id r = Some id /\ P !! id = Some r) ->
  (∀ id r, P !! id = Some r -> record_id r = Some id) ->
  fold_left file_record l ∅ = P.
Proof.
  intros Hl HP. destruct (filed_within P l ∅) as (H1 & _ & H3).
  { apply map_empty_subseteq. }
  { intros r. apply Hl. }
  apply (anti_symm (⊆)); [done|]. apply map_subseteq_spec. intros id r Hr.
  destruct (H3 r) as (i & Hi & Hf); [apply Hl; eauto|].
  rewrite (HP id r Hr) in Hi. by injection Hi as <-.
Qed.

(** ** Any store

    The host's side on a store that may fail, with the keys whose writing it has
    noted as failed. *)
Section any_store.
  Context {T : Type} `{!Store T} `{!StoreLaws T}.

Definition host_persist (a : Action) (s : T * list string) : T * list string :=
  match a with
  | Persist k v sens =>
      let '(r, st) := store_put k v sens s.1 in
      (st, match r with Ok _ => s.2 | Err _ => s.2 ++ [k] end)
  | _ => s
  end.
Definition host_replay (out : list Action) (s : T * list string) : T * list string :=
  fold_left (λ s a, host_persist a s) out s.

(** It holds the encoded record of every trusted device, and nothing for others,
    but for those whose key was noted. *)
Definition Holds (c : Core) (s : T * list string) : Prop :=
  sound s.1 /\ ∀ id, file_key id ∉ s.2 -> held s.1 id = peers c !! id ≫= to_vec.

Lemma host_replay_push a out s : host_replay (push a out) s = host_persist a (host_replay out s).
Proof. unfold host_replay, push. by rewrite fold_left_app. Qed.
Lemma host_persist_other a s : (∀ k v x, a <> Persist k v x) -> host_persist a s = s.
Proof. destruct a; try done. intros Hne. by edestruct Hne. Qed.

Lemma Holds_peers c c' s : peers c' = peers c -> Holds c s -> Holds c' s.
Proof. intros Hp [HS HH]. split; [done|]. intros id. rewrite Hp. apply HH. Qed.

Lemma Holds_persist c c' s id v sens :
  Holds c s -> (v = None \/ ∃ pk, id = DeviceId_of pk) -> peers c' !! id ≫= to_vec = v ->
  (∀ id', id' <> id -> peers c' !! id' = peers c !! id') ->
  Holds c' (host_persist (Persist (file_key id) v sens) s).
Proof.
  intros [HS HH] Hv Hid Hne. cbn. destruct (store_put _ v sens s.1) as [r st] eqn:E.
  destruct (put_law _ _ _ _ _ _ HS Hv E) as (HS' & Ho & Hh). split; [done|]. cbn. intros id' Hn.
  assert (file_key id' ∉ s.2) as Hn' by (destruct r; [done|]; intros ?; apply Hn, elem_of_app; by left).
  destruct (decide (id' = id)) as [->|Hx].
  - rewrite Hh, Hid. destruct r; [done|]. destruct Hn. apply elem_of_app. right. by left.
  - rewrite Ho, Hne by done. by apply HH.
Qed.

Lemma Holds_write c c' s id r b :
  Holds c s -> peers c' = <[id := r]> (peers c) -> record_id r = Some id -> pr_device_id r = did_str id ->
  to_vec r = Some b -> Holds c' (host_persist (persisted r b) s).
Proof.
  intros HH Hp Hr Hn Hb. unfold persisted. rewrite Hn. apply (Holds_persist c c' s id); [done|..].
  - right. unfold record_id in Hr. apply fmap_Some in Hr as (pk & _ & ->). by exists pk.
  - by rewrite Hp, lookup_insert_eq.
  - intros id' Hne. by rewrite Hp, lookup_insert_ne.
Qed.

Lemma Holds_erase c c' s id :
  Holds c s -> peers c' = delete id (peers c) -> Holds c' (host_persist (erased id) s).
Proof.
  intros HH Hp. unfold erased. apply (Holds_persist c c' s id); [done|by left|..].
  - by rewrite Hp, lookup_delete_eq.
  - intros id' Hne. by rewrite Hp, lookup_delete_ne.
Qed.

(** An action the core may put out between its changes of the trust store
    leaves the store as it is. *)
Lemma Holds_action_ok c0 ev c s a :
  Named c -> filed_by_key c -> Holds c s -> action_ok c0 ev c a -> Holds c (host_persist a s).
Proof.
  intros [HN _] HF HH Ha. destruct a; try done. cbn in Ha. destruct Ha as [-> Ha]. destruct value as [b|].
  - destruct Ha as (r & -> & Hb & id & Hid).
    apply (Holds_write c c s id r b); [done| |by apply HF|by apply HN|done]. by rewrite insert_id.
  - destruct Ha as (id & _ & -> & Hid). apply (Holds_erase c c s id); [done|]. by rewrite delete_id.
Qed.

Lemma record_id_offer l pk hash hello via hs :
  peer_static hs = Some pk -> record_id (aw_record (pairing_offer l pk hash hello via)) = Some (DeviceId_of pk).
Proof.
  unfold peer_static. destruct (get_remote_static _) as [b|]; [|done].
  destruct (N.eqb_spec (len b) 32) as [E|]; [|done]. intros [= ->]. unfold record_id, public_key_array, array32.
  cbn. by rewrite E.
Qed.

Lemma step_holds c0 now ev s0 s s' :
  Named c0 -> Inv ev s.1 -> step c0 now ev s s' ->
  Named s.1 /\ Holds s.1 (host_replay s.2 s0) -> Named s'.1 /\ Holds s'.1 (host_replay s'.2 s0).
Proof.
  intros HN0 HI Hs. pose proof (step_inv _ _ _ _ _ Hs HI) as (_ & HF' & _). destruct HI as (_ & HF & _). intros [HN HM].
  destruct Hs; cbn [fst snd] in *; rewrite ?host_replay_push; try (split; [exact HN|exact HM]).
  - split; [done|]. eapply Holds_action_ok; [done..|]. by eapply emit_action_ok.
  - apply guarded_eq in H0 as (_&_&Hp&_&Hw&_). split; [|by apply (Holds_peers c)].
    unfold Named. by rewrite Hp, Hw.
  - split; [done|]. apply (Holds_peers c); [done|]. destruct H1 as (pt & r & _ & _ & _ & [(? & ? & -> & _)|(? & _ & -> & _)]);
      by rewrite host_persist_other.
  - split; [|done]. split; [apply HN|]. intros w a id [= <-]. done.
  - split; [|done]. split; [apply HN|]. done.
  - split; [|done]. split; [apply HN|]. intros w' a id [= <-]. done.
  - split; [|done]. split; [apply HN|]. intros w' a' id [= <-] [= <-] Hid.
    destruct H3 as (? & ? & ? & ? & ? & hs & ? & pk & ? & _ & _ & _ & _ & _ & _ & _ & _ & Hpk & _ & ->).
    rewrite (record_id_offer _ _ _ _ _ hs Hpk) in Hid. by injection Hid as <-.
  - destruct HN as [HN1 HN2]. assert (pr_device_id (refresh_record rec seen hello) = did_str peer) as Hd
      by (change (pr_device_id rec = did_str peer); by apply HN1).
    split; [split; [|exact HN2]|].
    + cbn. intros id' r [[<- <-]|[_ Hr]]%lookup_insert_Some; [done|by apply HN1].
    + eapply Holds_write; [done|done| |done|done]. apply (HF' peer). cbn. by rewrite lookup_insert_eq.
  - destruct HN as [HN1 HN2]. assert (pr_device_id (aw_record a) = did_str id) as Hd
      by (by apply (proj2 HN0 w a)).
    rewrite (host_persist_other (Ui _)) by done.
    split; [split; [|exact HN2]|by eapply Holds_write].
    cbn. intros id' r [[<- <-]|[_ Hr]]%lookup_insert_Some; [done|by apply HN1].
  - destruct HN as [HN1 HN2]. split; [split; [|exact HN2]|by eapply Holds_erase].
    cbn. intros id' r [_ Hr]%lookup_delete_Some. by apply HN1.
Qed.

Lemma handle_holds `{!ExternsLaws} nw ev c o c' s :
  Good c -> Named c -> Holds c s -> handle nw ev c = Some (o, c') ->
  Named c' /\ Holds c' (host_replay (actions o) s).
Proof.
  intros HG HN HH E. pose proof (handle_inversion nw ev c o c' HG E) as Hr.
  set (c1 := c <| wall_ms := now_wall_ms nw |>) in *.
  enough (Inv ev (c', actions o).1 /\ Named (c', actions o).1 /\ Holds (c', actions o).1 (host_replay (c', actions o).2 s)) by tauto.
  eapply (steps_ind c1 (monotonic_ms nw) ev (λ x, Inv ev x.1 /\ Named x.1 /\ Holds x.1 (host_replay x.2 s))
    (c1, []) (c', actions o)); [|exact Hr|].
  - intros x x' Hs [HI HNH]. split; [by eapply step_inv|by apply (step_holds c1 (monotonic_ms nw) ev s x x' HN HI Hs HNH)].
  - split; [by apply (Good_Inv ev c)|done].
Qed.

(** What is loaded is what the core knows, if no writing failed. *)
Lemma held_loaded `{!ExternsLaws} `{!CborLaws PeerRecord} c s rs s' b :
  filed_by_key c -> Holds c s -> s.2 = [] -> store_load s.1 = (Ok rs, s') -> cb_peers b = rs ->
  peers (build_core b) = peers c.
Proof.
  intros HF [HS HH] Hlog Hl Hb. cbn [build_core peers]. apply (filed_exactly (peers c)); [|exact HF]. subst rs.
  intros r. rewrite (load_law _ _ _ HS Hl). rewrite Hlog in HH. split.
  - intros (id & v & Hv & Hd). rewrite HH in Hv by apply not_elem_of_nil. destruct (peers c !! id) as [r'|] eqn:E; [|done].
    cbn in Hv. rewrite (cbor_decode_to_vec _ _ Hv) in Hd. injection Hd as ->. exists id. split; [by apply HF|done].
  - intros (id & Hid & Hr). destruct (to_vec_total r) as [v Hv]. exists id, v.
    rewrite HH by apply not_elem_of_nil. rewrite Hr. split; [done|by apply cbor_decode_to_vec].
Qed.
End any_store.

(** *** The in-memory store, whose writes do not fail *)

Lemma Mirrors_Holds c m : Mirrors c m <-> Holds c (m, []).
Proof.
  split.
  - intros [HM HK]. split; [exact HK|]. intros id _. apply HM.
  - intros [HK HM]. split; [|exact HK]. intros id. apply HM, not_elem_of_nil.
Qed.
Lemma host_replay_memory out m : host_replay out (m, []) = (replay out m, []).
Proof.
  unfold host_replay, replay. revert m. induction out as [|a out IH]; intros m; [done|].
  cbn [fold_left]. rewrite <- IH. by destruct a.
Qed.

Lemma handle_mirrors `{!ExternsLaws} nw ev c o c' m :
  Good c -> Named c -> Mirrors c m -> handle nw ev c = Some (o, c') ->
  Named c' /\ Mirrors c' (replay (actions o) m).
Proof.
  intros HG HN HM%Mirrors_Holds E. destruct (handle_holds nw ev c o c' _ HG HN HM E) as [HN' HH].
  split; [done|]. apply Mirrors_Holds. by rewrite <- host_replay_memory.
Qed.

(** All the actions of a run, in order. *)
Definition all_actions (os : list Outcome) : list Action := concat (map actions os).

Lemma run_mirrors `{!ExternsLaws} evs c os c' m :
  Good c -> Named c -> Mirrors c m -> run evs c = Some (os, c') ->
  Named c' /\ Mirrors c' (replay (all_actions os) m).
Proof.
  revert c os m. induction evs as [|[nw ev] evs IH]; intros c os m HG HN HM E; cbn [run] in E.
  { by injection E as <- <-. }
  destruct (handle_good_event nw ev c HG) as (o & c1 & E1 & HG1). rewrite E1 in E.
  destruct (handle_mirrors nw ev c o c1 m HG HN HM E1) as [HN1 HM1].
  destruct (run evs c1) as [[os' c2]|] eqn:E2; [|done]. injection E as <- ->.
  unfold all_actions. cbn [map concat]. unfold replay. rewrite fold_left_app.
  by apply (IH c1 os').
Qed.

(** ** Starting again *)

(** The records loaded from a store that mirrors a core are the core's. *)
Lemma loaded_records `{!ExternsLaws} `{!CborLaws PeerRecord} c m r :
  filed_by_key c -> Mirrors c m ->
  r ∈ memory_load_peers m <-> ∃ id, record_id r = Some id /\ peers c !! id = Some r.
Proof.
  intros HF [HM HK]. rewrite elem_of_memory_load. split.
  - intros (k & v & Hk & _ & Hd). destruct (HK k v Hk) as [id ->]. rewrite HM in Hk.
    destruct (peers c !! id) as [r'|] eqn:E; [|done]. cbn in Hk.
    rewrite (cbor_decode_to_vec _ _ Hk) in Hd. injection Hd as ->.
    exists id. split; [by apply HF|done].
  - intros (id & Hid & Hr). destruct (to_vec_total r) as [v Hv].
    exists (file_key id), v. split_and!.
    + by rewrite HM, Hr.
    + apply str_starts_with_spec. by exists (did_str id).
    + by apply cbor_decode_to_vec.
Qed.

Lemma loaded_exactly `{!ExternsLaws} `{!CborLaws PeerRecord} c m b :
  filed_by_key c -> Mirrors c m -> cb_peers b ≡ₚ memory_load_peers m -> peers (build_core b) = peers c.
Proof.
  intros HF HM Hl. cbn [build_core peers]. apply (filed_exactly (peers c)); [|exact HF].
  intros r. rewrite Hl. by apply loaded_records.
Qed.

(** The store a new device starts with. *)
Lemma build_mirrors b m :
  (∀ id r, peers (build_core b) !! id = Some r -> pr_device_id r = did_str id) ->
  Mirrors (build_core b) m -> Named (build_core b) /\ Mirrors (build_core b) m.
Proof. intros Hb HM. split; [|done]. split; [done|]. cbn. done. Qed.

(** A host that carries out every write and erasure it is asked
    for, in order, has at any time just the records of the devices the core
    trusts; whatever happened before, a device started again from its store, in
    whatever order the records are found, trusts the same devices with the same
    keys, secrets and replay watermarks. *)
Theorem restart_remembers `{!ExternsLaws} `{!CborLaws PeerRecord} b b' evs os c m :
  (∀ id r, peers (build_core b) !! id = Some r -> pr_device_id r = did_str id) ->
  Mirrors (build_core b) m -> run evs (build_core b) = Some (os, c) ->
  Mirrors c (replay (all_actions os) m) /\
  (cb_peers b' ≡ₚ memory_load_peers (replay (all_actions os) m) ->
   peers (build_core b') = peers c).
Proof.
  intros Hb HM E. destruct (build_mirrors b m Hb HM) as [HN _].
  destruct (run_mirrors evs _ os c m (build_good b) HN HM E) as [_ HM'].
  split; [done|]. intros Hl.
  destruct (run_good_from evs _ (build_good b)) as (os' & c2 & E' & HG).
  rewrite E in E'. injection E' as <- <-. destruct HG as (_ & HF & _). by eapply loaded_exactly.
Qed.
End mirror.
