(* ===== verification/FfiCore.v ===== *)
(** * [acrylius-ffi/src/lib.rs]: the core of a phone

    The facade over one [Core], with the plugins a phone has.  Everything is
    synchronous behind one lock, so a call is a function on the core; a panic
    under the lock would poison it, and is [None]. *)

From S2P Require Import Prelude Externals Ids Frame Hello Envelope PairingKeys Link Peer Vocab Noise Plugin.
From S2P Require Import Ping Command Wol Touchpad Session Media Clipboard Share.
From S2P Require Import CoreState CoreQueries CoreOps CoreHandle CoreSteps CoreRefines CoreTheorems.
From S2P Require Import Strs Fs RtStore RtMirror FfiTypes FfiBodies.
Local Open Scope N_scope.

(* src: crates/acrylius-ffi/src/lib.rs 26 31 FfiConfig *)
Record FfiConfig := mkFfiConfig {
  fcfg_name : string; fcfg_platform : string;
  fcfg_pairing_window_ms : u64; fcfg_handshake_timeout_ms : u64 }.
#[global] Instance FfiConfig_eta : Eta FfiConfig := λ c,
  mkFfiConfig (fcfg_name c) (fcfg_platform c) (fcfg_pairing_window_ms c) (fcfg_handshake_timeout_ms c).

(* src: crates/acrylius-ffi/src/lib.rs 33 43 FfiConfig::default *)
Definition FfiConfig_default : FfiConfig :=
  let d := CoreConfig_default in
  mkFfiConfig (cfg_name d) "ios" (pairing_window_ms d) (handshake_timeout_ms d).

(* src: crates/acrylius-ffi/src/lib.rs 48 54 default_config *)
Definition default_config (name platform : string) : FfiConfig :=
  FfiConfig_default <| fcfg_name := name |> <| fcfg_platform := platform |>.

(* src: crates/acrylius-ffi/src/lib.rs 78 83 identity *)
Definition ffi_identity `{X25519} (key : bytes) : result Identity FfiError :=
  try! key := ok_or (array32 key) (BadInput "an identity key is 32 bytes") in
  Ok (Identity_from_private key).

(* src: crates/acrylius-ffi/src/lib.rs 74 76 fingerprint_of *)
Definition fingerprint_of `{X25519} `{Sha256} (identity_key : bytes) : result string FfiError :=
  try! i := ffi_identity identity_key in Ok (fp_str (identity_fingerprint i)).

(* src: crates/acrylius-ffi/src/lib.rs 87 105 FfiPeer *)
Record FfiPeer := mkFfiPeer {
  fpr_device_id : string;
  fpr_name : string;
  fpr_platform : string;
  fpr_fingerprint : string;
  fpr_state : FfiPeerState;
  fpr_transport : option FfiTransportKind;
  fpr_trouble : option string;
}.

Section facade.
  Context (quoted : string -> string) `{X25519} `{Externs}.
  Context `{!Cbor ErrorBody} `{!Cbor SessionState} `{!Cbor CommandList} `{!Cbor RunRequest} `{!Cbor ClipboardSet}
    `{!Cbor WolConfig} `{!Cbor RelayRequest} `{!Cbor MediaState} `{!Cbor MediaCommand} `{!Cbor Offer}
    `{!Cbor Accept} `{!Cbor Share.Finished} `{!Cbor Begin} `{!Cbor TouchFrame}.
  Implicit Types c : Core.

(* src: crates/acrylius-ffi/src/lib.rs 135 149 AcryliusCore::new *)
Definition phone_config (config : FfiConfig) : CoreConfig := {|
  cfg_name := fcfg_name config;
  cfg_platform := fcfg_platform config;
  pairing_window_ms := fcfg_pairing_window_ms config;
  handshake_timeout_ms := fcfg_handshake_timeout_ms config;
  reconnect_every_ms := reconnect_every_ms CoreConfig_default;
  dial_timeout_ms := dial_timeout_ms CoreConfig_default;
  accept_pair_requests := accept_pair_requests CoreConfig_default;
  pair_cooldown_ms := pair_cooldown_ms CoreConfig_default;
  pair_denied_cooldown_ms := pair_denied_cooldown_ms CoreConfig_default;
|}.

(* src: crates/acrylius-ffi/src/lib.rs 152 168 AcryliusCore::new *)
Definition phone_plugins : list DynPlugin :=
  [Dyn (mkPingPlugin 0);
   Dyn SessionPlugin_default;
   Dyn (WolPlugin_new (mkWolConfig [] "" 0 "") []);
   Dyn (ClipboardPlugin_new (mkDirections false true));
   Dyn (CommandPlugin_new []);
   Dyn MediaPlugin_default;
   Dyn SharePlugin_default;
   Dyn TouchpadPlugin_default].

(** Records that do not decode are skipped. *)
(* src: crates/acrylius-ffi/src/lib.rs 129 170 AcryliusCore::new *)
Definition phone_builder (config : FfiConfig) (id : Identity) (blobs : list bytes) (effects : list FfiEffectKind)
    : CoreBuilder :=
  with_restored (omap cbor_decode blobs) (with_plugins phone_plugins
    (with_effects (map EffectKind_from effects) (CoreBuilder_new id (phone_config config)))).
(* src: crates/acrylius-ffi/src/lib.rs 122 174 AcryliusCore::new *)
Definition AcryliusCore_new (config : FfiConfig) (identity_key : bytes) (blobs : list bytes)
    (effects : list FfiEffectKind) : result Core FfiError :=
  try! id := ffi_identity identity_key in Ok (build_core (phone_builder config id blobs effects)).

(** The outer [None] is a panic under the lock. *)
(* src: crates/acrylius-ffi/src/lib.rs 182 201 AcryliusCore::handle *)
Definition ffi_handle (mono wall : u64) (event : FfiEvent) c : option (result FfiOutcome FfiError * Core) :=
  match Event_try_from quoted event with
  | Err e => Some (Err e, c)
  | Ok ev =>
      match handle (mkNow mono wall) ev c with
      | None => None
      | Some (out, c) => Some (Ok (mkFfiOutcome (map FfiAction_from (actions out)) (next_deadline_ms out)), c)
      end
  end.

(* src: crates/acrylius-ffi/src/lib.rs 204 210 AcryliusCore::device_id *)
Definition ffi_device_id c : string := did_str (core_device_id c).
(* src: crates/acrylius-ffi/src/lib.rs 213 219 AcryliusCore::fingerprint *)
Definition ffi_fingerprint c : string := fp_str (core_fingerprint c).
(* src: crates/acrylius-ffi/src/lib.rs 224 230 AcryliusCore::pending_sas *)
Definition ffi_pending_sas c : option string := pending_sas c.

(* src: crates/acrylius-ffi/src/lib.rs 233 252 AcryliusCore::peers *)
Definition ffi_peers c : list FfiPeer :=
  omap (λ p,
    id ← record_id p;
    fp ← record_fingerprint p;
    Some (mkFfiPeer (did_str id) (pr_name p) (pr_platform p) (fp_str fp)
      (FfiPeerState_from (peer_state id c)) (FfiTransportKind_from <$> transport_for id c)
      (if bool_decide (peer_state id c = Unreachable) then dial_trouble_for id c else None)))
    (bt_values (peers c)).

(* src: crates/acrylius-ffi/src/lib.rs 255 264 AcryliusCore::restored_peers *)
Definition restored_peers c : u32 := let n := len (bt_values (peers c)) in if n <=? u32_max then n else u32_max.

(* src: crates/acrylius-ffi/src/lib.rs 410 427 media_command_landed *)
Definition media_command_landed (verb player : string) (value : i64) (before now : FfiMediaState) : option bool :=
  match action_for verb (mkMediaCommand player value) with
  | Err _ => None
  | Ok action => landed action player (MediaState_from before) (MediaState_from now)
  end.

(** ** What a phone's calls come to *)

Fixpoint ffi_run (evs : list (u64 * u64 * FfiEvent)) c : option (list (result FfiOutcome FfiError) * Core) :=
  match evs with
  | [] => Some ([], c)
  | (mono, wall, e) :: evs =>
      match ffi_handle mono wall e c with
      | Some (r, c) => match ffi_run evs c with Some (rs, c) => Some (r :: rs, c) | None => None end
      | None => None
      end
  end.

(** The events that were not refused at the boundary, and the outcomes. *)
Definition accepted (evs : list (u64 * u64 * FfiEvent)) : list (Now * Event) :=
  omap (λ '(mono, wall, e),
    match Event_try_from quoted e with Ok ev => Some (mkNow mono wall, ev) | Err _ => None end) evs.
Definition handed_over (rs : list (result FfiOutcome FfiError)) : list FfiOutcome :=
  omap (λ r, match r with Ok o => Some o | Err _ => None end) rs.
Definition FfiOutcome_from (o : Outcome) : FfiOutcome :=
  mkFfiOutcome (map FfiAction_from (actions o)) (next_deadline_ms o).

Lemma ffi_run_spec evs : ∀ c,
  match run (accepted evs) c with
  | Some (os, c') => ∃ rs, ffi_run evs c = Some (rs, c') /\ handed_over rs = map FfiOutcome_from os /\
      Forall2 (λ '(_, _, e) r, ∀ err, r = Err err <-> Event_try_from quoted e = Err err) evs rs
  | None => ffi_run evs c = None
  end.
Proof.
  induction evs as [|[[mono wall] e] evs IH]; intros c; [by exists []|].
  unfold accepted. cbn [omap list_omap ffi_run]. unfold ffi_handle.
  destruct (Event_try_from quoted e) as [ev|err] eqn:E.
  - cbn [run]. destruct (handle (mkNow mono wall) ev c) as [[o c1]|]; [|done].
    specialize (IH c1). unfold accepted in IH. cbn [omap] in IH.
    destruct (run _ c1) as [[os c2]|]; [|by rewrite IH].
    destruct IH as (rs & -> & H1 & H2). eexists. split; [done|]. split.
    + unfold handed_over in *. cbn. by rewrite H1.
    + constructor; [|done]. intros err. rewrite E. by split.
  - specialize (IH c). unfold accepted in IH. cbn [omap] in IH.
    destruct (run _ c) as [[os c2]|]; [|by rewrite IH].
    destruct IH as (rs & -> & H1 & H2). eexists. split; [done|]. split; [done|].
    constructor; [|done]. intros err'. rewrite E. by split; intros [= ->].
Qed.

(** C15 (error): A phone's core never goes down: built from any configuration, stored
    blobs and effects, it answers every sequence of events without a panic
    that would poison its lock; the answer to an event is an error exactly
    when the event cannot be read, which leaves the core as it was; the others
    get what the core returned. *)
Theorem phone_never_poisoned `{!ExternsLaws} config key blobs effects c evs :
  AcryliusCore_new config key blobs effects = Ok c ->
  ∃ rs c' os, ffi_run evs c = Some (rs, c') /\ Good c' /\
    run (accepted evs) c = Some (os, c') /\ handed_over rs = map FfiOutcome_from os /\
    Forall2 (λ '(_, _, e) r, ∀ err, r = Err err <-> Event_try_from quoted e = Err err) evs rs.
Proof.
  unfold AcryliusCore_new. destruct (ffi_identity key) as [id|]; [|done]. intros [= <-].
  destruct (run_good_from (accepted evs) _ (build_good (phone_builder config id blobs effects)))
    as (os & c' & E & HG).
  pose proof (ffi_run_spec evs (build_core (phone_builder config id blobs effects))) as Hs. rewrite E in Hs.
  destruct Hs as (rs & Hr & Ho & Hf). by exists rs, c', os.
Qed.

(** ** The phone's memory *)

Definition keep (a : FfiAction) (m : gmap string bytes) : gmap string bytes :=
  match a with
  | FfiPersist key (Some v) _ => <[key := v]> m
  | FfiPersist key None _ => delete key m
  | _ => m
  end.
Definition keep_all (os : list FfiOutcome) (m : gmap string bytes) : gmap string bytes :=
  fold_left (λ m a, keep a m) (concat (map fo_actions os)) m.

Lemma keep_persist a m : keep (FfiAction_from a) (entries m) = entries (persist a m).
Proof. destruct a as [| | | |k [v|] s| | | | | |]; done. Qed.

Lemma keep_all_replay os m : keep_all (map FfiOutcome_from os) (entries m) = entries (replay (all_actions os) m).
Proof.
  unfold keep_all, all_actions, replay.
  assert (concat (map fo_actions (map FfiOutcome_from os)) = map FfiAction_from (concat (map actions os))) as ->.
  { rewrite map_map, concat_map, map_map. done. }
  revert m. induction (concat (map actions os)) as [|a l IH]; intros m; cbn; [done|].
  rewrite keep_persist. apply IH.
Qed.

(** The store holds the records of the devices the core trusts, under their names. *)
Definition Remembers c (m : gmap string bytes) : Prop := Named c /\ Mirrors c (mkMemoryStore m).

Lemma load_values m :
  (∀ k v, m !! k = Some v -> str_starts_with "peer/" k = true) ->
  omap cbor_decode (map snd (map_to_list m)) ≡ₚ memory_load_peers (mkMemoryStore m).
Proof.
  intros Hk. unfold memory_load_peers. cbn [entries].
  assert (List.filter (λ '(k, _), str_starts_with "peer/" k) (bt_iter m) = bt_iter m) as ->.
  { assert (∀ l, (∀ k v, (k, v) ∈ l -> m !! k = Some v) -> List.filter (λ '(k, _), str_starts_with "peer/" k) l = l) as Hall.
    { induction l as [|[k v] l IH]; intros Hl; [done|]. cbn [List.filter].
      rewrite (Hk k v) by (apply Hl; by left). f_equal. apply IH. intros k' v' Hin. apply Hl. by right. }
    apply Hall. intros k v. by rewrite elem_of_bt_iter. }
  unfold bt_iter. rewrite merge_sort_Permutation.
  induction (map_to_list m) as [|[k v] l IH]; [done|]. cbn. destruct (cbor_decode v); by rewrite IH.
Qed.

Lemma new_remembers config key blobs effects c m :
  AcryliusCore_new config key blobs effects = Ok c ->
  (∀ id r, peers c !! id = Some r -> pr_device_id r = did_str id) ->
  Mirrors c (mkMemoryStore m) -> Remembers c m.
Proof.
  unfold AcryliusCore_new. destruct (ffi_identity key) as [id|]; [|done]. intros [= <-] Hn HM.
  by apply build_mirrors.
Qed.

Lemma first_start config key effects c : AcryliusCore_new config key [] effects = Ok c -> Remembers c ∅.
Proof.
  unfold AcryliusCore_new. destruct (ffi_identity key) as [id|]; [|done]. intros [= <-].
  apply build_mirrors; cbn.
  - by intros ? ? ?%lookup_empty_Some.
  - split; cbn; [|by intros ? ? ?%lookup_empty_Some]. intros i. by rewrite !lookup_empty.
Qed.

(** C14 (invariant): A phone that keeps what it is asked to keep and drops what it is
    asked to drop has, after any run of events, just the records of the
    devices its core trusts; a core built later from all the values it keeps, in
    any order, trusts the same devices, with the same keys, secrets and
    watermarks, and is again one the phone remembers, so this goes on over any
    number of restarts. *)
Theorem phone_remembers `{!ExternsLaws} `{!CborLaws PeerRecord} config key blobs effects c evs m rs c' :
  AcryliusCore_new config key blobs effects = Ok c -> Remembers c m ->
  ffi_run evs c = Some (rs, c') ->
  let m' := keep_all (handed_over rs) m in
  Remembers c' m' /\
  ∀ config2 key2 blobs2 effects2 c2,
    blobs2 ≡ₚ map snd (map_to_list m') -> AcryliusCore_new config2 key2 blobs2 effects2 = Ok c2 ->
    peers c2 = peers c' /\ Remembers c2 m'.
Proof.
  intros Hnew [HN HM] Hrun. cbv zeta.
  assert (Good c) as HG.
  { unfold AcryliusCore_new in Hnew. destruct (ffi_identity key); [|done]. injection Hnew as <-. apply build_good. }
  destruct (run_good_from (accepted evs) c HG) as (os & c1 & E & HG1).
  pose proof (ffi_run_spec evs c) as Hs. rewrite E in Hs. destruct Hs as (rs' & E' & Ho & _).
  rewrite Hrun in E'. injection E' as <- <-.
  destruct (run_mirrors (accepted evs) c os c' (mkMemoryStore m) HG HN HM E) as [HN' HM'].
  rewrite Ho. pose proof (keep_all_replay os (mkMemoryStore m)) as Hk. cbn [entries] in Hk. rewrite Hk.
  assert (∀ x, mkMemoryStore (entries x) = x) as Heta by (by intros []).
  split; [split; [done|by rewrite Heta]|].
  intros config2 key2 blobs2 effects2 c2 Hb Hnew2.
  assert (peers c2 = peers c') as Hp.
  { unfold AcryliusCore_new in Hnew2. destruct (ffi_identity key2) as [id2|]; [|done]. injection Hnew2 as <-.
    eapply loaded_exactly; [apply HG1|exact HM'|]. unfold phone_builder. rewrite builder_spec. cbn [cb_peers]. rewrite Hb.
    rewrite load_values, Heta; [done|]. intros k v Hv. destruct (proj2 HM' k v Hv) as [id ->].
    apply str_starts_with_spec. by exists (did_str id). }
  split; [done|]. eapply new_remembers; [done| |].
  - rewrite Hp. apply HN'.
  - rewrite Heta. by eapply Mirrors_peers.
Qed.

(** ** What a phone shows of its peers *)

Lemma first_state_spec peer l :
  match first_state peer l with
  | Some Reachable => ∃ u, Up u ∈ l /\ ul_peer u = peer
  | Some Connecting => True
  | Some Unreachable => False
  | None => ∀ u, Up u ∈ l -> ul_peer u <> peer
  end.
Proof.
  induction l as [|st l IH]; cbn; [by intros ? ?%elem_of_nil|].
  assert (match first_state peer l with
    | Some Reachable => ∃ u, Up u ∈ st :: l /\ ul_peer u = peer
    | Some Connecting => True | Some Unreachable => False
    | None => (∀ u, st = Up u -> ul_peer u <> peer) -> ∀ u, Up u ∈ st :: l -> ul_peer u <> peer end) as Hl.
  { destruct (first_state peer l) as [[]|]; [done|done| |].
    - destruct IH as (u & Hin & Hu). exists u. split; [by right|done].
    - intros Hst u Hin. apply elem_of_cons in Hin as [<-|Hin]; [by apply Hst|by apply IH]. }
  destruct st as [p|h|u].
  - destruct (first_state peer l) as [[]|]; try done. by apply Hl.
  - case_bool_decide; [done|]. destruct (first_state peer l) as [[]|]; try done. by apply Hl.
  - case_bool_decide as Hu; [exists u; split; [by left|done]|].
    destruct (first_state peer l) as [[]|]; try done. apply Hl. by intros u' [= <-].
Qed.

Lemma state_and_transport peer c :
  (peer_state peer c = Reachable -> is_Some (transport_for peer c)) /\
  (peer_state peer c = Unreachable -> transport_for peer c = None).
Proof.
  unfold peer_state, transport_for. pose proof (first_state_spec peer (bt_values (links c))) as Hs.
  destruct (best_link peer c) as [[i u]|] eqn:Eb; cbn.
  - split; [by eexists|]. apply best_link_Some in Eb as [Hl Hp].
    assert (Up u ∈ bt_values (links c)) as Hin by (apply elem_of_bt_values; by exists i).
    destruct (first_state peer _) as [[]|]; try done. by destruct (Hs u).
  - split; [|done]. rewrite best_link_None in Eb.
    destruct (first_state peer _) as [[]|]; try done.
    + destruct Hs as (u & Hin & Hu). apply elem_of_bt_values in Hin as [j Hj]. by destruct (Eb j u).
    + by destruct (dialling peer c).
Qed.

Definition report_of c (x : DeviceId * PeerRecord) : FfiPeer :=
  let '(id, p) := x in
  mkFfiPeer (did_str id) (pr_name p) (pr_platform p) (fp_str (Fingerprint_of (pr_public_key p)))
    (FfiPeerState_from (peer_state id c)) (FfiTransportKind_from <$> transport_for id c)
    (if bool_decide (peer_state id c = Unreachable) then dial_trouble_for id c else None).

Lemma record_id_Some p id :
  record_id p = Some id ->
  id = DeviceId_of (pr_public_key p) /\ record_fingerprint p = Some (Fingerprint_of (pr_public_key p)).
Proof.
  unfold record_id, record_fingerprint, public_key_array.
  destruct (array32 (pr_public_key p)) as [k|] eqn:E; [|done]. apply array32_Some in E as [-> _]. by intros [= <-].
Qed.

Lemma ffi_peers_eq c : filed_by_key c -> ffi_peers c = map (report_of c) (bt_iter (peers c)).
Proof.
  intros HF. unfold ffi_peers, bt_values.
  assert (∀ id r, (id, r) ∈ bt_iter (peers c) -> record_id r = Some id) as Hall.
  { intros id r Hin%elem_of_bt_iter. by apply HF. }
  induction (bt_iter (peers c)) as [|[id r] l IH]; [done|].
  pose proof (Hall id r ltac:(by left)) as Hid. destruct (record_id_Some r id Hid) as [_ Hfp].
  cbn [fmap list_fmap omap list_omap snd map report_of]. rewrite Hid. cbn [mbind option_bind]. rewrite Hfp. cbn.
  f_equal. apply IH. intros ? ? ?. apply Hall. by right.
Qed.

(** A phone lists every device it trusts, once; each by an id that
    it can say again in a command, which will be about that device; one that
    is reachable has a transport, one that is unreachable has none, and only
    then the reason it could not be reached. *)
Theorem peers_reported `{!Sha256Laws} c :
  Good c ->
  map fpr_device_id (ffi_peers c) = map did_str (bt_keys (peers c)) /\ NoDup (map fpr_device_id (ffi_peers c)) /\
  ∀ p, p ∈ ffi_peers c -> ∃ id r,
    peers c !! id = Some r /\ fpr_device_id p = did_str id /\ fpr_name p = pr_name r /\
    Event_try_from quoted (FfiConnect (fpr_device_id p)) = Ok (Local (Connect id)) /\
    fpr_state p = FfiPeerState_from (peer_state id c) /\
    (fpr_state p = FfiReachable -> is_Some (fpr_transport p)) /\
    (fpr_state p = FfiUnreachable -> fpr_transport p = None) /\
    fpr_trouble p = (if bool_decide (fpr_state p = FfiUnreachable) then dial_trouble_for id c else None).
Proof.
  intros (_ & HF & _). rewrite (ffi_peers_eq c HF).
  assert (map fpr_device_id (map (report_of c) (bt_iter (peers c))) = map did_str (bt_keys (peers c))) as E.
  { unfold bt_keys. rewrite map_map. change (bt_iter (peers c)).*1 with (map fst (bt_iter (peers c))).
    rewrite map_map. by apply map_ext; intros []. }
  split_and!; [done| |].
  - rewrite E. change (map did_str ?l) with (did_str <$> l). apply NoDup_fmap; [by intros [] [] [= ->]|].
    apply bt_keys_NoDup.
  - intros p Hp. apply list_elem_of_In, in_map_iff in Hp as ([id r] & <- & Hin).
    apply list_elem_of_In, elem_of_bt_iter in Hin. exists id, r. cbn [report_of fpr_device_id fpr_name fpr_state fpr_transport fpr_trouble].
    destruct (record_id_Some r id (HF id r Hin)) as [Hid _].
    destruct (state_and_transport id c) as [Hr Hu].
    destruct (ids_parse_of (pr_public_key r)) as (_ & Hg & _). rewrite <- Hid in Hg.
    split_and!; try done.
    + cbn. by rewrite (ffi_peer_good quoted id Hg).
    + intros Hs. apply fmap_is_Some, Hr. by destruct (peer_state id c).
    + intros Hs. rewrite Hu; [done|]. by destruct (peer_state id c).
    + by destruct (peer_state id c).
Qed.
End facade.
