(* ===== verification/RtRuntime.v ===== *)
(** * [acrylius-rt/src/runtime.rs]: the action pump

    One task owns the core; everything else, transports, effects and bulk
    transfers, reaches it through one queue of events.  The machine here takes
    an event off the queue or a tick from the timer, hands it to the core and
    carries out the actions that come back; in between, the tasks it started
    go on by themselves, in any order.  The store is any that keeps [StoreLaws]
    ([RtMirror]): its writes may fail, which is noted and nothing more. *)

From S2P Require Import Prelude Externals Ids Frame Hello Envelope PairingKeys Bulk Link Peer.
From S2P Require Import Vocab Noise Plugin CoreState CoreQueries CoreOps CoreHandle CoreSteps CoreRefines CoreTheorems CoreClock.
From S2P Require Import Strs Fs RtStore RtTcp RtMirror.
Local Open Scope N_scope.

(** ** Bulk tasks *)

(** Where the task carrying a transfer stands. *)
(* src: crates/acrylius-rt/src/runtime.rs 295 366 Runtime::apply *)
Inductive TaskState :=
| TListening (transfer : TransferId) (offered_as : u64) (key : bytes) (expect_bytes : u64)
| TAccepting (transfer : TransferId)
| TReceiving (transfer : TransferId)
| TSending (transfer : TransferId) (endpoint : string) (key : bytes).

Definition task_transfer (s : TaskState) : TransferId :=
  match s with
  | TListening t _ _ _ | TAccepting t | TReceiving t | TSending t _ _ => t
  end.

(** What the host answers to the call the task waits in: an endpoint when it
    listened, nothing otherwise, or an error's text. *)
(* src: crates/acrylius-rt/src/runtime.rs 21 55 BulkHost *)
Inductive Answer := Endpoint (e : string) | Done | Failed (why : string).

(** The event a task sends on an answer, and what it goes on to. *)
(* src: crates/acrylius-rt/src/runtime.rs 306 364 Runtime::apply *)
Definition task_step (s : TaskState) (a : Answer) : option (Event * option TaskState) :=
  match s, a with
  | TListening t _ _ _, Endpoint e => Some (BulkListening t e, Some (TAccepting t))
  | TListening t _ _ _, Failed why => Some (BulkFinished t false why, None)
  | TAccepting t, Done => Some (BulkStarted t, Some (TReceiving t))
  | TAccepting t, Failed why => Some (BulkFinished t false why, None)
  | TReceiving t, Done | TSending t _ _, Done => Some (BulkFinished t true "", None)
  | TReceiving t, Failed why | TSending t _ _, Failed why => Some (BulkFinished t false why, None)
  | _, _ => None
  end.

(** Everything a task sends for a list of answers, and where it is left. *)
Fixpoint task_run (s : TaskState) (answers : list Answer) : list Event * option TaskState :=
  match answers with
  | [] => ([], Some s)
  | a :: answers =>
      match task_step s a with
      | None => ([], Some s)
      | Some (ev, None) => ([ev], None)
      | Some (ev, Some s') => let '(evs, st) := task_run s' answers in (ev :: evs, st)
      end
  end.

(** A task that ends has told the core so, once and last; before
    that it has said where it listens, if it got to listen, and that bytes are
    moving, if the far end connected, and nothing else; a sending task says
    only how it ended. *)
Theorem task_reports t s answers evs :
  task_transfer s = t -> task_run s answers = (evs, None) ->
  ∃ pre ok why, evs = pre ++ [BulkFinished t ok why] /\
    match s with
    | TListening _ _ _ _ => pre = [] \/ ∃ e, pre = [BulkListening t e] \/ pre = [BulkListening t e; BulkStarted t]
    | TAccepting _ => pre = [] \/ pre = [BulkStarted t]
    | TReceiving _ | TSending _ _ _ => pre = []
    end.
Proof.
  intros <- E.
  destruct s as [t n k x|t|t|t e k], answers as [|[e0| |w0] [|[e1| |w1] [|[e2| |w2] l]]]; cbn in E |- *;
    try done; injection E as <-;
    first [by eexists [], _, _; eauto | by eexists [_], _, _; eauto 6 | by eexists [_; _], _, _; eauto 8].
Qed.

Section runtime.
  Context `{Externs} {T : Type} `{!Store T}.

(** ** State *)

(** Channels are the lists of what was sent on them; the queue to the core is
    what it has not taken yet.  [cancelled] are the calls of the host's
    [cancel], and [unpersisted] the keys in the error lines the loop has logged. *)
(* src: crates/acrylius-rt/src/runtime.rs 60 75 Runtime *)
Record Runtime := mkRuntime {
  rt_core : Core;
  inbox : list Event;
  transports : gmap TransportId (list TransportCmd);
  effects : list (EffectToken * Effect);
  rt_store : T;
  unpersisted : list string;
  rt_ui : option (list UiEvent);
  bulk : bool;
  cancelled : list TransferId;
  running : gmap TransferId N;
  tasks : gmap N TaskState;
  next_task : N;
  pairing_shown : bool;
  deadline : option u64;
}.
#[global] Instance Runtime_eta : Eta Runtime := λ r,
  mkRuntime (rt_core r) (inbox r) (transports r) (effects r) (rt_store r) (unpersisted r) (rt_ui r) (bulk r)
    (cancelled r) (running r) (tasks r) (next_task r) (pairing_shown r) (deadline r).

(** A transport's [send] on each or on one channel. *)
Definition send_all (cmd : TransportCmd) (r : Runtime) : Runtime :=
  r <| transports ::= fmap (λ l, l ++ [cmd]) |>.
Definition send_one (t : TransportId) (cmd : TransportCmd) (r : Runtime) : Runtime :=
  r <| transports ::= alter (λ l, l ++ [cmd]) t |>.
Definition queue (ev : Event) (r : Runtime) : Runtime := r <| inbox ::= λ l, l ++ [ev] |>.

(* src: crates/acrylius-rt/src/runtime.rs 212 225 Runtime::txt *)
Definition txt (c : Core) (pairing : bool) : list (string * string) :=
  [("v", "1"); ("fp", fp_str (core_fingerprint c)); ("id", did_str (core_device_id c));
   ("pair", if pairing then "1" else "0")]%string.

(* src: crates/acrylius-rt/src/runtime.rs 229 235 Runtime::bulk_failed *)
Definition bulk_failed (transfer : TransferId) (why : string) (r : Runtime) : Runtime :=
  queue (BulkFinished transfer false why) r.

(** [tokio::spawn] of a transfer's task, its handle kept under the transfer. *)
Definition spawn_bulk (transfer : TransferId) (s : TaskState) (r : Runtime) : Runtime :=
  r <| running ::= <[transfer := next_task r]> |> <| tasks ::= <[next_task r := s]> |>
    <| next_task ::= N.succ |>.

(* src: crates/acrylius-rt/src/runtime.rs 237 386 Runtime::apply *)
Definition apply (r : Runtime) (a : Action) : Runtime :=
  match a with
  | Dial transport addr dial => send_one transport (TDial dial addr) r
  | LinkSend link msg => send_all (TSend link msg) r
  | Close link _ => send_all (TClose link) r
  | DoEffect token effect => r <| effects ::= λ l, l ++ [(token, effect)] |>
  | Persist key value sensitivity =>
      let '(res, st) := store_put key value sensitivity (rt_store r) in
      let r := r <| rt_store := st |> in
      match res with Ok _ => r | Err _ => r <| unpersisted ::= λ l, l ++ [key] |> end
  | Advertise transport enable t => send_one transport (TAdvertise enable t) r
  | Discover transport enable => send_one transport (TDiscover enable) r
  | BulkListen transfer offered_as key expect_bytes =>
      if negb (bulk r) then bulk_failed transfer "this host cannot receive files" r
      else spawn_bulk transfer (TListening transfer offered_as key expect_bytes) r
  | BulkSend transfer endpoint key =>
      if negb (bulk r) then bulk_failed transfer "this host cannot send files" r
      else spawn_bulk transfer (TSending transfer endpoint key) r
  | BulkCancel transfer =>
      let r := match running r !! transfer with
               | Some k => r <| running ::= delete transfer |> <| tasks ::= delete k |>
               | None => r
               end in
      if bulk r then r <| cancelled ::= λ l, l ++ [transfer] |> else r
  | Ui e => match rt_ui r with Some l => r <| rt_ui := Some (l ++ [e]) |> | None => r end
  end.

(** A finished transfer's handle leaves the map before the core is told. *)
(* src: crates/acrylius-rt/src/runtime.rs 178 181 Runtime::run *)
Definition forget_finished (ev : Event) (r : Runtime) : Runtime :=
  match ev with BulkFinished t _ _ => r <| running ::= delete t |> | _ => r end.

(* src: crates/acrylius-rt/src/runtime.rs 192 204 Runtime::run *)
Definition readvertise (r : Runtime) : Runtime :=
  let now_pairing := pairing_open (rt_core r) in
  if Bool.eqb now_pairing (pairing_shown r) then r
  else send_all (TAdvertise true (txt (rt_core r) now_pairing)) (r <| pairing_shown := now_pairing |>).

(** One turn of the loop; [None] is a panic of the core. *)
(* src: crates/acrylius-rt/src/runtime.rs 178 209 Runtime::run *)
Definition turn (nw : Now) (ev : Event) (r : Runtime) : option Runtime :=
  let r := forget_finished ev r in
  match handle nw ev (rt_core r) with
  | None => None
  | Some (o, c) =>
      let r := r <| rt_core := c |> <| deadline := next_deadline_ms o |> in
      Some (readvertise (fold_left apply (actions o) r))
  end.

(* src: crates/acrylius-rt/src/runtime.rs 78 94 Runtime::new *)
Definition Runtime_new (c : Core) (st : T) (has_bulk : bool) (ui : bool)
    (ts : list TransportId) : Runtime :=
  mkRuntime c [] (list_to_map (map (λ t, (t, [])) ts)) [] st [] (if ui then Some [] else None)
    has_bulk [] ∅ ∅ 0 false None.

(** What [run] does before its loop. *)
(* src: crates/acrylius-rt/src/runtime.rs 147 155 Runtime::run *)
Definition start (r : Runtime) : Runtime :=
  let pairing := pairing_open (rt_core r) in
  send_all (TDiscover true)
    (send_all (TAdvertise true (txt (rt_core r) pairing)) (r <| pairing_shown := pairing |>)).

(** When the timer may fire. *)
(* src: crates/acrylius-rt/src/runtime.rs 157 176 Runtime::run *)
Definition timer_due (nw : Now) (r : Runtime) : Prop :=
  match deadline r with Some d => d <= monotonic_ms nw | None => True end.

(** What can happen next. *)
Inductive rt_step (r : Runtime) : Runtime -> Prop :=
| rt_take nw ev rest r' :
    inbox r = ev :: rest -> turn nw ev (r <| inbox := rest |>) = Some r' -> rt_step r r'
| rt_tick nw r' : timer_due nw r -> turn nw Tick r = Some r' -> rt_step r r'
| rt_event ev : rt_step r (queue ev r)
| rt_effect i token effect res :
    effects r !! i = Some (token, effect) ->
    rt_step r (queue (EffectDone token res) (r <| effects ::= delete i |>))
| rt_task k s a ev next :
    tasks r !! k = Some s -> task_step s a = Some (ev, next) ->
    rt_step r (queue ev (r <| tasks ::= match next with Some s' => insert k s' | None => delete k end |>)).

(** ** What holds at any time *)

Definition is_advert (c : TransportCmd) : bool := match c with TAdvertise _ _ => true | _ => false end.
(** The advertisement a transport was last given. *)
Definition shown (log : list TransportCmd) : option TransportCmd := last (List.filter is_advert log).

Definition advertises (c : Core) (ts : gmap TransportId (list TransportCmd)) : Prop :=
  map_Forall (λ _ log, shown log = Some (TAdvertise true (txt c (pairing_open c)))) ts.

(** What the pump keeps of the store's business. *)
Definition kept (r : Runtime) : T * list string := (rt_store r, unpersisted r).

Record Healthy `{!StoreLaws T} (r : Runtime) : Prop := {
  he_good : Good (rt_core r);
  he_named : Named (rt_core r);
  he_store : Holds (rt_core r) (kept r);
  he_pairing : pairing_shown r = pairing_open (rt_core r);
  he_advert : advertises (rt_core r) (transports r);
}.

Lemma shown_snoc log c : shown (log ++ [c]) = if is_advert c then Some c else shown log.
Proof.
  unfold shown. rewrite List.filter_app. cbn [List.filter]. destruct (is_advert c).
  - by rewrite last_snoc.
  - by rewrite app_nil_r.
Qed.

(** What an action other than an advertisement leaves of the transports' view. *)
Definition same_shown (ts ts' : gmap TransportId (list TransportCmd)) : Prop :=
  ∀ P, map_Forall (λ _ log, P (shown log)) ts -> map_Forall (λ _ log, P (shown log)) ts'.

Lemma same_shown_all cmd (ts : gmap TransportId (list TransportCmd)) :
  is_advert cmd = false -> same_shown ts (fmap (λ l, l ++ [cmd]) ts).
Proof.
  intros Hc P HP t log. rewrite lookup_fmap. intros (l & Hl & ->)%fmap_Some.
  rewrite shown_snoc, Hc. by apply (HP t).
Qed.

Lemma same_shown_one t cmd (ts : gmap TransportId (list TransportCmd)) :
  is_advert cmd = false -> same_shown ts (alter (λ l, l ++ [cmd]) t ts).
Proof.
  intros Hc P HP t' log Hl. apply lookup_alter_Some in Hl as [(-> & l & Hl & ->)|[_ Hl]].
  - rewrite shown_snoc, Hc. by apply (HP t').
  - by apply (HP t').
Qed.

Lemma same_shown_refl ts : same_shown ts ts.
Proof. by intros P. Qed.
#[local] Hint Resolve same_shown_refl : core.

(** What carrying out an action does to the parts the invariant is about. *)
Lemma apply_keeps r a :
  (∀ t e x, a <> Advertise t e x) ->
  rt_core (apply r a) = rt_core r /\ kept (apply r a) = host_persist a (kept r) /\
  pairing_shown (apply r a) = pairing_shown r /\ deadline (apply r a) = deadline r /\
  same_shown (transports r) (transports (apply r a)).
Proof.
  intros Ha. destruct a; cbn [apply];
    try (split_and!; try done; by (apply same_shown_one || apply same_shown_all)).
  - unfold kept. cbn. destruct (store_put _ _ _ _) as [[]  st]; by split_and!.
  - exfalso. by eapply Ha.
  - destruct (bulk r); cbn [negb]; split_and!; done.
  - destruct (bulk r); cbn [negb]; split_and!; done.
  - destruct (running r !! transfer); destruct (bulk r) eqn:Eb; cbn; rewrite ?Eb; split_and!; done.
  - destruct (rt_ui r); split_and!; done.
Qed.

Lemma apply_all_keeps acts r :
  Forall (λ a, ∀ t e x, a <> Advertise t e x) acts ->
  let r' := fold_left apply acts r in
  rt_core r' = rt_core r /\ kept r' = host_replay acts (kept r) /\
  pairing_shown r' = pairing_shown r /\ deadline r' = deadline r /\
  same_shown (transports r) (transports r').
Proof.
  intros Ha. revert r. induction Ha as [|a acts Ha _ IH]; intros r; cbv zeta; cbn [fold_left].
  { by split_and!. }
  destruct (apply_keeps r a Ha) as (E1 & E2 & E3 & E4 & E5).
  destruct (IH (apply r a)) as (F1 & F2 & F3 & F4 & F5). unfold host_replay. cbn [fold_left].
  rewrite F1, F2, F3, F4, E1, E2, E3, E4. split_and!; try done.
  intros P HP. by apply F5, E5.
Qed.

Lemma txt_identity c c' p : identity c' = identity c -> txt c' p = txt c p.
Proof. unfold txt, core_fingerprint, core_device_id. by intros ->. Qed.
End runtime.

Section theorems.
  Context `{Externs} `{!ExternsLaws} {T : Type} `{!Store T} `{!StoreLaws T}.
  Implicit Types r : Runtime (T := T).

Lemma handle_never_advertises nw ev c o c' :
  Good c -> handle nw ev c = Some (o, c') ->
  identity c' = identity c /\ Forall (λ a, ∀ t e x, a <> Advertise t e x) (actions o).
Proof.
  intros HG E. pose proof (handle_inversion nw ev c o c' HG E) as Hr. split.
  - destruct (steps_link_origin _ _ _ _ Hr) as [(E1 & _) _]. exact E1.
  - apply steps_actions in Hr. eapply Forall_impl; [exact Hr|].
    intros a (s1 & _ & Ha) t e x ->. done.
Qed.

Lemma readvertise_advertises r r0 :
  pairing_shown r = pairing_open (rt_core r0) -> identity (rt_core r) = identity (rt_core r0) ->
  advertises (rt_core r0) (transports r) ->
  pairing_shown (readvertise r) = pairing_open (rt_core (readvertise r)) /\
  advertises (rt_core (readvertise r)) (transports (readvertise r)).
Proof.
  intros Hp Hi Ha. unfold readvertise.
  destruct (Bool.eqb (pairing_open (rt_core r)) (pairing_shown r)) eqn:E.
  - apply eqb_prop in E. split; [done|]. unfold advertises in *. rewrite E, Hp.
    by rewrite (txt_identity (rt_core r0) (rt_core r)).
  - cbn. split; [done|]. intros t log. rewrite lookup_fmap. intros (l & Hl & ->)%fmap_Some.
    by rewrite shown_snoc.
Qed.

Lemma turn_healthy nw ev r :
  Healthy r -> ∃ r', turn nw ev r = Some r' /\ Healthy r' /\
    ∃ o, handle nw ev (rt_core r) = Some (o, rt_core r') /\ deadline r' = next_deadline_ms o.
Proof.
  intros [H1 H2 H3 H4 H5]. unfold turn.
  assert (∃ r1, forget_finished ev r = r1 /\ rt_core r1 = rt_core r /\ kept r1 = kept r /\
    pairing_shown r1 = pairing_shown r /\ transports r1 = transports r) as (r1 & -> & E1 & E2 & E3 & E4).
  { eexists. split; [reflexivity|]. by destruct ev. }
  rewrite E1. destruct (handle_good_event nw ev (rt_core r) H1) as (o & c & E & HG). rewrite E.
  destruct (handle_holds nw ev _ o c _ H1 H2 H3 E) as [HN HM].
  destruct (handle_never_advertises nw ev _ o c H1 E) as [Hid Hact].
  set (r2 := r1 <| rt_core := c |> <| deadline := next_deadline_ms o |>).
  destruct (apply_all_keeps (actions o) r2 Hact) as (F1 & F2 & F3 & F4 & F5).
  set (r3 := fold_left apply (actions o) r2) in *. cbn in F1, F2, F3, F4.
  destruct (readvertise_advertises r3 r) as [G1 G2].
  { by rewrite F3, E3. }
  { by rewrite F1. }
  { apply (F5 (λ x, x = Some (TAdvertise true (txt (rt_core r) (pairing_open (rt_core r)))))).
    unfold r2. cbn. by rewrite E4. }
  assert (rt_core (readvertise r3) = c /\ kept (readvertise r3) = kept r3 /\
    deadline (readvertise r3) = deadline r3) as (K1 & K2 & K3).
  { unfold readvertise. destruct (Bool.eqb _ _); cbn; by rewrite ?F1. }
  exists (readvertise r3). split; [done|]. split.
  - split; [by rewrite K1|by rewrite K1| |done|done]. rewrite K1, K2, F2. change (kept r2) with (kept r1). by rewrite E2.
  - exists o. by rewrite K1, K3, F4.
Qed.

Lemma step_healthy r r' : rt_step r r' -> Healthy r -> Healthy r'.
Proof.
  intros Hs HH. destruct Hs as [nw ev rest r' Hi Ht|nw r' Hd Ht|ev|i token effect res Hi|k s a ev next Hk Ht].
  - destruct (turn_healthy nw ev (r <| inbox := rest |>)) as (r2 & E & HH' & _);
      [by destruct HH|]. rewrite Ht in E. by injection E as ->.
  - destruct (turn_healthy nw Tick r HH) as (r2 & E & HH' & _). rewrite Ht in E. by injection E as ->.
  - by destruct HH.
  - by destruct HH.
  - by destruct HH.
Qed.

(** The records of a new core are the ones its store holds. *)
Definition opened (b : CoreBuilder) (m : T) : Prop :=
  (∀ id rec, peers (build_core b) !! id = Some rec -> pr_device_id rec = did_str id) /\ Holds (build_core b) (m, []).

Lemma start_healthy b m has_bulk ui ts :
  opened b m -> Healthy (start (Runtime_new (build_core b) m has_bulk ui ts)).
Proof.
  intros [Hb HM].
  split; [apply build_good|by split|done|done|]. unfold start, send_all. cbn.
  intros t log. rewrite !lookup_fmap. intros (l & Hl & ->)%fmap_Some.
  apply fmap_Some in Hl as (l' & Hl' & ->). by rewrite !shown_snoc.
Qed.

Lemma reached_healthy b m has_bulk ui ts r :
  opened b m -> rtc rt_step (start (Runtime_new (build_core b) m has_bulk ui ts)) r -> Healthy r.
Proof.
  intros HO. apply (rtc_ind_r Healthy); [by apply start_healthy|].
  intros x y _ Hs Hx. by eapply step_healthy.
Qed.

(** C23 (invariant): however events, ticks, effects and transfers interleave, and
    whichever writes of the store fail, on any store that keeps [StoreLaws] (the file store does, whatever calls of the system fail, and so does the
    in-memory one) and held, when the runtime was made, just the records its new core
    was built with, each under its own device's id, the pump never meets a panic of the core; for every device the store
    holds exactly its record while it is trusted and nothing otherwise, unless
    a write under its key has failed and was logged; while none has, a core started from
    what is loaded trusts the same devices; and every transport was last told to
    advertise pairing exactly when a pairing is open. *)
Theorem runtime_invariant `{!CborLaws PeerRecord} b m has_bulk ui ts r :
  opened b m -> rtc rt_step (start (Runtime_new (build_core b) m has_bulk ui ts)) r ->
  (∀ nw ev, is_Some (turn nw ev r)) /\
  (∀ id, file_key id ∉ unpersisted r -> held (rt_store r) id = peers (rt_core r) !! id ≫= to_vec) /\
  (∀ b' rs st', unpersisted r = [] -> store_load (rt_store r) = (Ok rs, st') -> cb_peers b' = rs ->
     peers (build_core b') = peers (rt_core r)) /\
  ∀ t log, transports r !! t = Some log ->
    shown log = Some (TAdvertise true (txt (rt_core r) (pairing_open (rt_core r)))).
Proof.
  intros HO Hr. pose proof (reached_healthy b m has_bulk ui ts r HO Hr) as HH.
  split_and!.
  - intros nw ev. destruct (turn_healthy nw ev r HH) as (r' & E & _). by eexists.
  - by destruct HH as [_ _ [_ HS] _ _].
  - intros b' rs st' Hu Hl Hb. destruct HH as [(_ & HF & _) HN HS _ _]. by apply (held_loaded _ (kept r) rs st').
  - by destruct HH.
Qed.

(** The pump does not spin.  A turn on the timer's tick ends with the
    timer set to a moment still ahead, or with no timer at all, unless a plugin
    asked to be woken at once. *)
Theorem tick_turn_moves_on b m has_bulk ui ts r nw :
  opened b m ->
  rtc rt_step (start (Runtime_new (build_core b) m has_bulk ui ts)) r ->
  monotonic_ms nw < monotonic_ms nw +u64 BULK_DIAL_WAIT_MS ->
  monotonic_ms nw < monotonic_ms nw +u64 dial_timeout_ms (config (rt_core r)) ->
  monotonic_ms nw < monotonic_ms nw +u64 reconnect_every_ms (config (rt_core r)) ->
  ∃ r', turn nw Tick r = Some r' /\
    ∀ d, deadline r' = Some d -> monotonic_ms nw < d \/ plugin_wake (rt_core r') = Some d.
Proof.
  intros HO Hr L1 L2 L3. pose proof (reached_healthy b m has_bulk ui ts r HO Hr) as HH.
  destruct (turn_healthy nw Tick r HH) as (r' & E & _ & o & Eo & Ed). exists r'. split; [done|].
  destruct (tick_settles nw (rt_core r) (he_good r HH) L1 L2 L3) as (o' & c' & c1 & out1 & E' & _ & _ & Hd).
  rewrite Eo in E'. injection E' as <- <-. rewrite Ed. intros d Hn. destruct (Hd d Hn) as [?|[? _]]; [by left|by right].
Qed.
End theorems.

(** ** A transfer started twice *)

Section twice.
  Context `{Externs} {T : Type} `{!Store T}.

(** The handle of the second task replaces that of the first, so cancelling the
    transfer aborts the second only. *)
Lemma second_send_outlives_cancel (r : Runtime (T := T)) t e key e' key' :
  bulk r = true ->
  let r' := fold_left apply [BulkSend t e key; BulkSend t e' key'; BulkCancel t] r in
  tasks r' !! next_task r = Some (TSending t e key) /\ running r' !! t = None.
Proof.
  intros Hb. cbn. rewrite Hb. cbn. rewrite Hb. cbn. rewrite lookup_insert_eq. cbn. rewrite Hb. cbn.
  split; [|by rewrite lookup_delete_eq].
  rewrite lookup_delete_ne by lia. rewrite lookup_insert_ne by lia. by rewrite lookup_insert_eq.
Qed.
End twice.
