(* ===== verification/HostWitnesses.v ===== *)
(** * The theorems about the host, at work

    A directory listing, a cipher with a tag of sixteen bytes and a responder
    that registers nothing, on which each theorem about the store, the wires
    and the pump that has a hypothesis is applied to concrete inputs. *)

From S2P Require Import Prelude Externals Ids Frame Hello Envelope PairingKeys Bulk Link Peer Vocab.
From S2P Require Import Noise Plugin Ping CoreState CoreQueries CoreOps CoreHandle CoreTheorems Share.
From S2P Require Import Toy Scenario Strs Fs RtStore RtBulk LinkLife RtTcp RtMirror RtRuntime Witnesses.
Local Open Scope N_scope.

(** ** The interfaces *)

#[local] Instance toy_read_dir : ReadDir := λ q m,
  List.filter (λ p, bool_decide (parent p = q)) (map fst (map_to_list m)).
#[local] Instance toy_read_dir_laws : ReadDirLaws.
Proof.
  intros q m. unfold read_dir, toy_read_dir. split.
  - apply NoDup_ListNoDup, List.NoDup_filter, NoDup_ListNoDup. apply NoDup_fst_map_to_list.
  - intros p. rewrite list_elem_of_In, List.filter_In, <- list_elem_of_In, bool_decide_eq_true.
    split.
    + intros [Hp Hq]. split; [done|]. apply list_elem_of_fmap in Hp as ([p' i] & -> & Hi).
      apply elem_of_map_to_list in Hi. by eexists.
    + intros [Hq [i Hi]]. split; [|done]. apply list_elem_of_fmap. exists (p, i).
      split; [done|]. by apply elem_of_map_to_list.
Qed.

Definition tag (k n : bytes) : bytes := take 16 (n ++ k ++ replicate 16 Byte.x00).
Lemma length_tag k n : length (tag k n) = 16%nat.
Proof. unfold tag. rewrite length_take, !length_app, length_replicate. lia. Qed.

#[local] Instance tag_aead : Aead := {
  aead_encrypt k n m := Some (m ++ tag k n);
  aead_decrypt k n c :=
    let l := (length c - 16)%nat in
    if bool_decide (drop l c = tag k n) then Some (take l c) else None;
}.
#[local] Instance tag_aead_laws : AeadLaws.
Proof.
  intros k n m c [= <-]. unfold aead_decrypt, tag_aead. cbv zeta.
  rewrite length_app, length_tag, Nat.add_sub. rewrite drop_app_length, take_app_length.
  by rewrite bool_decide_eq_true_2.
Qed.
#[local] Instance tag_aead_tag : AeadTag.
Proof. intros k n m c [= <-]. unfold len. rewrite length_app, length_tag. lia. Qed.
#[local] Instance tag_aead_unique : AeadUnique.
Proof.
  intros k n m c. cbn [aead_decrypt tag_aead]. cbv zeta. case_bool_decide as E; [|done].
  intros [= <-]. cbn. by rewrite <- E, take_drop.
Qed.
#[local] Instance tag_aead_total : AeadTotal.
Proof. intros k n m _ _ _. by eexists. Qed.

#[local] Instance quiet_mdns : Mdns := {|
  service_info inst host port props := Some (inst +:+ "._acrylius._tcp.local.")%string;
  hostname := "box"; bound_port := 4040;
|}.
#[local] Instance plain_io_text : IoErrorText := λ _, "io error"%string.

(** ** The store *)

Definition var : FileStore := mkFileStore ["var"%string].

Lemma wf_empty_disk : wf empty_disk.
Proof.
  assert (∀ s (p : path) i, s ∈ snapshots empty_disk -> s !! p = Some i -> False) as Hno.
  { intros s p i ->%list_elem_of_singleton. cbn. by rewrite lookup_empty. }
  split; intros; exfalso; eauto.
Qed.

(** A record written, then the power cut. *)
Lemma store_never_torn_witness :
  let hs := [Put "peer/A" (Some [Byte.x01]) Secret []; PowerCut] in
  let d := (put var "peer/A" (Some [Byte.x01]) Secret empty_disk).2 in
  life var hs empty_disk (d <| past := [] |>) /\
  (read_back (d <| past := [] |>) (record_path var "A") = read_back empty_disk (record_path var "A") \/
   ∃ k s fs, Put k (read_back (d <| past := [] |>) (record_path var "A")) s fs ∈ hs /\
     path_for var k = Ok (record_path var "A")).
Proof.
  cbv zeta. set (d := (put var "peer/A" (Some [Byte.x01]) Secret empty_disk).2).
  assert (life var [Put "peer/A" (Some [Byte.x01]) Secret []; PowerCut] empty_disk (d <| past := [] |>)) as Hl.
  { apply life_put, life_cut with (d <| past := [] |>); [|apply life_nil].
    change (power_loss d (d <| past := [] |>)).
    split_and!; [by left|done|done|]. intros i. change (inodes (d <| past := [] |>)) with (inodes d).
    assert (inodes d = {[0 := mkInode [Byte.x01] 0x180 true]}) as -> by (vm_compute; reflexivity).
    destruct (decide (i = 0)) as [->|Hi]; [by rewrite lookup_singleton_eq|].
    by rewrite lookup_singleton_ne. }
  split; [exact Hl|].
  refine (store_never_torn var (record_path var "A") _ empty_disk _ _ _ _ Hl).
  - reflexivity.
  - repeat constructor. intros q [= <-]. by eexists.
  - split_and!; [apply wf_empty_disk|done|by intros].
Defined.

Definition bob_record : PeerRecord :=
  mkPeerRecord (did_str (id_of bob)) (id_public bob) "bob" "linux" (replicate 32 Byte.x09) 5 [] [].

(** A record written and found again, by the file store as by the other. *)
Lemma store_refines_memory_witness :
  let ws := [("A"%string, to_vec bob_record, Secret); ("B"%string, None, Secret)] in
  ∃ d' rs, put_all var ws empty_disk = (Ok tt, d') /\ load_peers var d' = (Ok rs, d') /\
    rs ≡ₚ [bob_record].
Proof.
  cbv zeta. destruct (store_refines_memory var
    [("A"%string, to_vec bob_record, Secret); ("B"%string, None, Secret)]
    empty_disk (mkMemoryStore ∅)) as (d' & rs & E & El & HP).
  - split; [apply wf_empty_disk|done| | |].
    + intros k v. cbn. by rewrite lookup_empty.
    + intros id _. reflexivity.
    + intros q v _ _. cbn. done.
  - repeat constructor; done.
  - exists d', rs. split_and!; [exact E|exact El|]. rewrite HP. vm_compute. reflexivity.
Defined.

(** ** Transfers *)

Definition inbox_file : path := ["in"; "photo.jpg"]%string.
Definition sealing_key : bytes := replicate 32 Byte.x05.

Lemma transfer_arrives_whole_witness :
  ∃ wire s d', send 3 sealing_key [[Byte.x01]; [Byte.x02; Byte.x03]] = Ok (wire, 3) /\
    accept 3 (mkStream wire true) = Ok s /\
    receive sealing_key 3 inbox_file s empty_disk = (Ok 3, d') /\
    read_back d' inbox_file = Some [Byte.x01; Byte.x02; Byte.x03].
Proof.
  destruct (transfer_arrives_whole 3 sealing_key [Byte.x01; Byte.x02; Byte.x03]
    [[Byte.x01]; [Byte.x02; Byte.x03]] inbox_file "photo.jpg" empty_disk)
    as (wire & s & d' & E1 & E2 & E3 & (_ & E4 & _)).
  - split_and!; done.
  - apply wf_empty_disk.
  - reflexivity.
  - reflexivity.
  - split; [reflexivity|]. repeat constructor; vm_compute; done.
  - vm_compute. done.
  - vm_compute. done.
  - exists wire, s, d'. done.
Defined.

(** A stream that ends before the first frame. *)
Lemma receive_all_or_nothing_witness :
  all_or_nothing sealing_key 3 inbox_file (mkStream [] true) empty_disk
    (receive sealing_key 3 inbox_file (mkStream [] true) empty_disk).
Proof.
  apply (receive_all_or_nothing sealing_key 3 inbox_file "photo.jpg").
  - split_and!; done.
  - apply wf_empty_disk.
  - vm_compute. done.
Defined.

(** The name was taken once already. *)
Lemma reserve_path_fresh_witness :
  ∃ d d', reserve_path ["in"%string] "photo.jpg" empty_disk = (Ok inbox_file, d) /\
    reserve_path ["in"%string] "photo.jpg" d = (Ok ["in"; "photo (2).jpg"]%string, d') /\
    Claimed ["in"; "photo (2).jpg"]%string d d'.
Proof.
  set (d := (reserve_path ["in"%string] "photo.jpg" empty_disk).2).
  exists d, (reserve_path ["in"%string] "photo.jpg" d).2.
  split; [vm_compute; reflexivity|]. split; [vm_compute; reflexivity|].
  assert (wf d) as Hd.
  { unfold d. pose proof (reserve_path_fresh ["in"%string] "photo.jpg" empty_disk) as H.
    destruct (reserve_path ["in"%string] "photo.jpg" empty_disk) as [[p|e] d1] eqn:E.
    - destruct H as [HC _]; [done..|apply wf_empty_disk|]. apply HC.
    - vm_compute in E. done. }
  pose proof (reserve_path_fresh ["in"%string] "photo.jpg" d) as H.
  assert (reserve_path ["in"%string] "photo.jpg" d
    = (Ok ["in"; "photo (2).jpg"]%string, (reserve_path ["in"%string] "photo.jpg" d).2)) as E
    by (vm_compute; reflexivity).
  rewrite E in H. apply H; [done..|exact Hd].
Defined.

(** ** Links *)

Lemma wire_roundtrip_witness :
  read_all 5 (mkStream (writer [Some [Byte.x01; Byte.x02]; Some []; None]) true)
  = [LinkRecv 5 [Byte.x01; Byte.x02]; LinkRecv 5 []; LinkDown 5 Closed].
Proof. apply (wire_roundtrip 5 [[Byte.x01; Byte.x02]; []]). repeat constructor; vm_compute; done. Defined.

(** A connection is accepted, brings a message and goes. *)
Definition first_link : LinkId := LinkId_new 0 1.
Lemma links_live_once_witness :
  ∃ t, tcp_run (Tcp_new 0 (identity_fingerprint alice) "alice")
      [Accepted; FrameRead first_link [Byte.x01]; Ended first_link Closed] t /\
    phase_of first_link (sink t) = Some Over /\
    (first_link ∈ serving t <-> Over = Alive).
Proof.
  eexists. assert (tcp_run (Tcp_new 0 (identity_fingerprint alice) "alice")
      [Accepted; FrameRead first_link [Byte.x01]; Ended first_link Closed]
      (serve_end first_link Closed (emit (LinkRecv first_link [Byte.x01])
        (serve_begin None (Tcp_new 0 (identity_fingerprint alice) "alice"))))) as Hr.
  { apply (run_snoc _ [Accepted; FrameRead first_link [Byte.x01]]
      (emit (LinkRecv first_link [Byte.x01])
        (serve_begin None (Tcp_new 0 (identity_fingerprint alice) "alice")))).
    - apply (run_snoc _ [Accepted] (serve_begin None (Tcp_new 0 (identity_fingerprint alice) "alice"))).
      + eapply (run_snoc _ []); [apply run_nil|apply step_accept].
      + apply step_frame. apply elem_of_union_l, elem_of_singleton. reflexivity.
    - apply step_end. apply elem_of_union_l, elem_of_singleton. reflexivity. }
  split; [exact Hr|].
  assert (len [Accepted; FrameRead first_link [Byte.x01]; Ended first_link Closed] < 2 ^ 48 - 1) as Hn
    by (vm_compute; reflexivity).
  destruct (links_live_once 0 (identity_fingerprint alice) "alice" _ _ ltac:(done) Hn Hr) as [H _].
  destruct (H first_link) as (ph & Hp & Hs). split; [vm_compute; reflexivity|].
  assert (Over = ph) as -> by (vm_compute in Hp; congruence). exact Hs.
Defined.

(** ** The pump *)

Lemma task_reports_witness :
  ∃ pre ok why,
    [BulkListening 4 "10.0.0.1:9"; BulkStarted 4; BulkFinished 4 false "reset"]
    = pre ++ [BulkFinished 4 ok why] /\
    (pre = [] \/ ∃ e, pre = [BulkListening 4 e] \/ pre = [BulkListening 4 e; BulkStarted 4]).
Proof.
  apply (task_reports 4 (TListening 4 3 [] 12) [Endpoint "10.0.0.1:9"; Done; Failed "reset"]);
    reflexivity.
Defined.

(** A device that knows another, whose record is in its store. *)
Definition knows_bob : CoreBuilder :=
  with_restored [bob_record] (with_plugins [Dyn (mkPingPlugin 0); Dyn SharePlugin_default]
    (with_effects [KShare] (CoreBuilder_new alice CoreConfig_default))).
Definition bobs_file : MemoryStore := mkMemoryStore (memory_put (file_key (id_of bob)) (to_vec bob_record) (mkMemoryStore ∅)).(entries).

Lemma knows_bob_peers : peers (build_core knows_bob) = {[id_of bob := bob_record]}.
Proof. vm_compute. reflexivity. Qed.

Lemma knows_bob_named id r : peers (build_core knows_bob) !! id = Some r -> pr_device_id r = did_str id.
Proof. rewrite knows_bob_peers. by intros [<- <-]%lookup_singleton_Some. Qed.

Lemma knows_bob_mirrors : Mirrors (build_core knows_bob) bobs_file.
Proof.
  unfold Mirrors. rewrite knows_bob_peers. split.
  - intros id. cbn [bobs_file entries memory_put]. destruct (decide (id = id_of bob)) as [->|Hne].
    + rewrite lookup_singleton_eq. cbn. by rewrite lookup_insert_eq.
    + rewrite lookup_singleton_ne by done. cbn.
      rewrite lookup_insert_ne; [by rewrite lookup_empty|]. by intros ?%file_key_inj.
  - intros k v. cbn. intros [[<- _]|[_ Hk]]%lookup_insert_Some; [by exists (id_of bob)|].
    by rewrite lookup_empty in Hk.
Qed.

#[local] Instance toy_record_laws : CborLaws PeerRecord := toy_cbor_laws ARRAY.

(** It is told to forget the other, and is started again from what is left. *)
Definition forgetting : list (Now * Event) :=
  [(at_time 1, Tick); (at_time 2, Local (Revoke (id_of bob)))].

Lemma restart_remembers_witness :
  ∃ os c, run forgetting (build_core knows_bob) = Some (os, c) /\
    Mirrors c (replay (all_actions os) bobs_file) /\
    memory_load_peers (replay (all_actions os) bobs_file) = [] /\
    peers (build_core (device alice)) = peers c.
Proof.
  assert (holds (run forgetting (build_core knows_bob))
    (λ '(os, _), bool_decide (memory_load_peers (replay (all_actions os) bobs_file) = []))
    = true) as H by (vm_compute; reflexivity).
  apply holds_true in H as ([os c] & E & H0%bool_decide_eq_true). exists os, c.
  pose proof (restart_remembers knows_bob (device alice) forgetting os c bobs_file
    knows_bob_named knows_bob_mirrors E) as [HM HL].
  split; [exact E|]. split; [exact HM|]. split; [exact H0|]. apply HL, reflexive_eq. symmetry. exact H0.
Defined.

(** Its file store, with the other's record in its place; the next call of the
    system, whatever it is, will fail. *)
Definition bobs_disk : disk :=
  (put var (file_key (id_of bob)) (to_vec bob_record) Secret empty_disk).2 <| faults := [Fails 0] |>.
Definition about_to_fail : FileStore * disk := (var, bobs_disk).

Lemma bob_put : put_leaves (record_path var (did_str (id_of bob))) (to_vec bob_record) empty_disk (Ok tt) bobs_disk.
Proof.
  assert (simple (did_str (id_of bob))) as Hs by apply did_simple.
  assert (∃ bs, to_vec bob_record = Some bs) as [bs Hb] by (vm_compute; by eexists).
  pose proof (put_bytes_leaves var (file_key (id_of bob)) (record_path var (did_str (id_of bob))) bs Secret empty_disk
    (path_for_record _ _ Hs) (named_record _ _ Hs) (record_not_tmp _ _ Hs) wf_empty_disk) as HL.
  unfold bobs_disk. rewrite Hb.
  assert ((put var (file_key (id_of bob)) (Some bs) Secret empty_disk).1 = Ok tt) as E by (vm_compute; reflexivity).
  destruct (put _ _ _ _ _) as [r d]. cbn in E. subst r. destruct HL as (H1 & H2 & H3).
  split_and!; [by apply wf_faults|exact H2|exact H3].
Qed.

Lemma knows_bob_opened : opened knows_bob about_to_fail.
Proof.
  split; [exact knows_bob_named|]. destruct bob_put as (Hwf & Ho & Hh).
  assert (∀ q, read_back empty_disk q = None) as Hemp by (intros q; unfold read_back; cbn; by rewrite lookup_empty).
  split.
  - split; [exact Hwf|]. intros q v _ Ht Hr. cbn [snd fst about_to_fail] in Hr.
    destruct (decide (q = record_path var (did_str (id_of bob)))) as [->|Hne]; [exists (id_of bob); split; [apply did_simple|done]|].
    rewrite Ho, Hemp in Hr by done. done.
  - intros id _. rewrite knows_bob_peers. unfold held, FileStore_StoreLaws, file_held. cbn [fst snd about_to_fail].
    destruct (decide (id = id_of bob)) as [->|Hne].
    + rewrite lookup_singleton_eq, decide_True by apply did_simple. exact Hh.
    + rewrite lookup_singleton_ne by done. destruct (decide (simple (did_str id))) as [Hid|]; [|done].
      rewrite Ho, Hemp; [done| |by apply record_not_tmp]. intros E%record_path_inj. apply Hne. destruct id. cbn in E. by subst.
Qed.

(** It is told to forget the other: the removal fails, is logged, and the record
    stays, though the device trusts nobody any more. *)
Definition pump : Runtime (T := FileStore * disk) := start (Runtime_new (build_core knows_bob) about_to_fail true true [0]).
Definition after_revoking : option Runtime := turn (at_time 5) (Local (Revoke (id_of bob))) pump.

Lemma runtime_invariant_witness :
  ∃ r, after_revoking = Some r /\ unpersisted r = [file_key (id_of bob)] /\ is_Some (turn (at_time 6) Tick r) /\
    held (rt_store r) (id_of carol) = peers (rt_core r) !! id_of carol ≫= to_vec /\
    held (rt_store r) (id_of bob) <> peers (rt_core r) !! id_of bob ≫= to_vec.
Proof.
  assert (holds after_revoking (λ r, bool_decide (unpersisted r = [file_key (id_of bob)]) &&
    bool_decide (read_back (rt_store r).2 (record_path var (did_str (id_of bob))) = to_vec bob_record) &&
    bool_decide (root (rt_store r).1 = root var) &&
    bool_decide (peers (rt_core r) !! id_of bob = None)) = true) as H by (vm_compute; reflexivity).
  apply holds_true in H as (r & E & H).
  apply andb_true_iff in H as [H H4%bool_decide_eq_true]. apply andb_true_iff in H as [H H3%bool_decide_eq_true].
  apply andb_true_iff in H as [H1%bool_decide_eq_true H2%bool_decide_eq_true].
  assert (rtc rt_step pump r) as Hr.
  { eapply rtc_l; [apply (rt_event _ (Local (Revoke (id_of bob))))|]. apply rtc_once.
    apply (rt_take _ (at_time 5) (Local (Revoke (id_of bob))) []); [reflexivity|exact E]. }
  exists r. split; [exact E|]. split; [exact H1|].
  destruct (runtime_invariant knows_bob about_to_fail true true [0] r knows_bob_opened Hr) as (T1 & T2 & _).
  split; [apply T1|]. split.
  - apply T2. rewrite H1. intros Hx%list_elem_of_singleton. vm_compute in Hx. discriminate.
  - rewrite H4. unfold held, FileStore_StoreLaws, file_held. rewrite decide_True by apply did_simple.
    destruct (rt_store r).1 as [ps]. cbn in H3. subst ps.
    rewrite (H2 : read_back _ (record_path (mkFileStore ["var"%string]) _) = _). vm_compute. discriminate.
Defined.

Lemma tick_turn_moves_on_witness :
  ∃ r', turn (at_time 5) Tick pump = Some r' /\
    ∀ d, deadline r' = Some d -> 5 < d \/ plugin_wake (rt_core r') = Some d.
Proof.
  apply (tick_turn_moves_on knows_bob about_to_fail true true [0] pump (at_time 5)
    knows_bob_opened (rtc_refl _ _)); vm_compute; reflexivity.
Defined.
