(* ===== verification/DaemonWitnesses.v ===== *)
(** * The theorems about the daemon and its devices, at work

    A document format that spells a table out key by key, and on it and the
    interfaces of [HostWitnesses] each theorem about files, prompts, the
    configuration, the control socket and the touchpad that has a hypothesis,
    applied to concrete inputs. *)

From Stdlib Require Import Ascii.
From S2P Require Import Prelude Externals Ids Bulk Link Peer Vocab Plugin Touchpad Clipboard Media Session Share Ping.
From S2P Require Import Ble LinkLife RtTcp BleTransport Toy Scenario Strs Utf8 Fs RtBulk Files Prompt Reconcile Ipc Control.
From S2P Require Import TouchDevice Usb Command Logind Players Desktop HostWitnesses.
Local Open Scope N_scope.

(** ** A document format *)

Fixpoint print_table (t : Table string) : bytes :=
  match t with
  | TEnd => [Byte.x00]
  | TValue k v rest => Byte.x01 :: ser k ++ ser v ++ print_table rest
  | TTable k sub rest => Byte.x02 :: ser k ++ print_table sub ++ print_table rest
  end.

Fixpoint parse_table (fuel : nat) (b : bytes) : option (Table string * bytes) :=
  match fuel, b with
  | S fuel, Byte.x00 :: b => Some (TEnd, b)
  | S fuel, Byte.x01 :: b =>
      '(k, b) ← des (T := string) b; '(v, b) ← des (T := string) b;
      '(rest, b) ← parse_table fuel b; Some (TValue k v rest, b)
  | S fuel, Byte.x02 :: b =>
      '(k, b) ← des (T := string) b; '(sub, b) ← parse_table fuel b;
      '(rest, b) ← parse_table fuel b; Some (TTable k sub rest, b)
  | _, _ => None
  end.

Lemma parse_print_table t : ∀ fuel more,
  (length (print_table t) <= fuel)%nat -> parse_table fuel (print_table t ++ more) = Some (t, more).
Proof.
  induction t as [|k v rest IH|k sub IHs rest IH]; intros [|fuel] more; cbn [print_table length];
    rewrite ?length_app; intros Hf; try lia; cbn [parse_table app].
  - done.
  - rewrite <- !app_assoc, des_ser. cbn [mbind option_bind]. rewrite des_ser. cbn [mbind option_bind].
    by rewrite IH by lia.
  - rewrite <- !app_assoc, des_ser. cbn [mbind option_bind]. rewrite IHs by lia. cbn [mbind option_bind].
    by rewrite IH by lia.
Qed.

Fixpoint wf_table {V} (t : Table V) : bool :=
  match t with
  | TEnd => true
  | TValue k _ rest => negb (bool_decide (k ∈ keys rest)) && wf_table rest
  | TTable k sub rest => negb (bool_decide (k ∈ keys rest)) && wf_table sub && wf_table rest
  end.
Lemma wf_table_spec {V} (t : Table V) : wf_table t = true <-> Wf t.
Proof.
  induction t as [|k v rest IH|k sub IHs rest IH]; cbn; [done|..];
    rewrite !andb_true_iff, negb_true_iff, bool_decide_eq_false, IH; [done|]. rewrite IHs. tauto.
Qed.

(** The values of a table before its tables, as a document is printed. *)
Fixpoint values_then {V} (t u : Table V) : Table V :=
  match t with
  | TEnd => u
  | TValue k v rest => TValue k v (values_then rest u)
  | TTable _ _ rest => values_then rest u
  end.
Fixpoint tables_of {V} (t : Table V) : Table V :=
  match t with
  | TEnd => TEnd
  | TValue _ _ rest => tables_of rest
  | TTable k sub rest => TTable k (values_then sub (tables_of sub)) (tables_of rest)
  end.
Definition values_first {V} (t : Table V) : Table V := values_then t (tables_of t).

Lemma get_values_then {V} k (t u : Table V) : Wf t ->
  get k (values_then t u) = match get k t with Some (inl v) => Some (inl v) | _ => get k u end.
Proof.
  induction t as [|j v rest IH|j sub _ rest IH]; cbn; [done|..].
  - intros [_ Hw]. destruct (j =s k); [done|by apply IH].
  - intros (Hj & _ & Hw). rewrite IH by done. destruct (String.eqb_spec j k) as [->|]; [|done].
    apply get_keys in Hj. by rewrite Hj.
Qed.
Lemma get_tables_of {V} k (t : Table V) : Wf t ->
  get k (tables_of t) = match get k t with Some (inr sub) => Some (inr (values_first sub)) | _ => None end.
Proof.
  induction t as [|j v rest IH|j sub _ rest IH]; cbn; [done|..].
  - intros [Hj Hw]. rewrite IH by done. destruct (String.eqb_spec j k) as [->|]; [|done].
    apply get_keys in Hj. by rewrite Hj.
  - intros (_ & _ & Hw). destruct (j =s k); [done|by apply IH].
Qed.
Lemma get_values_first {V} k (t : Table V) : Wf t ->
  get k (values_first t)
  = match get k t with Some (inr sub) => Some (inr (values_first sub)) | i => i end.
Proof.
  intros Hw. unfold values_first. rewrite get_values_then, get_tables_of by done. by destruct (get k t) as [[]|].
Qed.
Lemma values_first_same {V} (t : Table V) : Wf t -> Same (values_first t) t.
Proof.
  intros Hw ks. revert t Hw. induction ks as [|k ks IH]; intros t Hw; [done|]. cbn [entry_at].
  rewrite get_values_first by done. destruct (get k t) as [[v|sub]|] eqn:E; [done| |done].
  apply IH. by eapply Wf_get.
Qed.
Lemma Wf_values_then {V} (t u : Table V) :
  Wf t -> Wf u -> (∀ k v, get k t = Some (inl v) -> get k u = None) -> Wf (values_then t u).
Proof.
  induction t as [|j v rest IH|j sub _ rest IH]; cbn; [done|..].
  - intros [Hj Hw] Hu Hk. apply get_keys in Hj. split.
    + apply get_keys. rewrite get_values_then, Hj by done. apply (Hk j v). by rewrite String.eqb_refl.
    + apply IH; [done|done|]. intros k w Hg. apply (Hk k w). destruct (String.eqb_spec j k) as [->|]; [congruence|done].
  - intros (Hj & _ & Hw) Hu Hk. apply get_keys in Hj. apply IH; [done|done|].
    intros k w Hg. apply (Hk k w). destruct (String.eqb_spec j k) as [->|]; [congruence|done].
Qed.
Lemma Wf_tables_of {V} (t : Table V) : Wf t -> Wf (tables_of t).
Proof.
  induction t as [|j v rest IH|j sub IHs rest IH]; cbn; [done|by intros [_ ?]; apply IH|].
  intros (Hj & Hs & Hw). split_and!; [|apply Wf_values_then; [done|by apply IHs|]|by apply IH].
  - apply get_keys. rewrite get_tables_of by done. apply get_keys in Hj. by rewrite Hj.
  - intros k v Hg. by rewrite get_tables_of, Hg by done.
Qed.
Lemma Wf_values_first {V} (t : Table V) : Wf t -> Wf (values_first t).
Proof.
  intros Hw. apply Wf_values_then; [done|by apply Wf_tables_of|]. intros k v Hg. by rewrite get_tables_of, Hg by done.
Qed.

#[local] Instance toy_toml : Toml := {
  toml_value := string;
  toml_parse s :=
    let b := as_bytes s in
    match parse_table (length b) b with
    | Some (t, []) => if wf_table t then Some t else None
    | _ => None
    end;
  toml_edited _ t := of_bytes (print_table (values_first t));
  toml_pretty t := of_bytes (print_table (values_first t));
}.
Lemma toy_parse (t : Table string) : Wf t -> toml_parse (of_bytes (print_table t)) = Some t.
Proof.
  intros Ht. cbn [toml_parse toy_toml toml_value]. cbv zeta. rewrite as_of_bytes.
  pose proof (parse_print_table t (length (print_table t)) [] (le_n _)) as E.
  rewrite app_nil_r in E. rewrite E. by rewrite (proj2 (wf_table_spec t)).
Qed.
#[local] Instance toy_toml_laws : TomlLaws.
Proof.
  assert (∀ t, Wf t -> ∃ t', toml_parse (toml_pretty t) = Some t' /\ Same t' t) as Hp.
  { intros t Ht. exists (values_first t). split; [by apply toy_parse, Wf_values_first|by apply values_first_same]. }
  split; [|intros s t0 t _ _ Ht; exact (Hp t Ht)|exact Hp].
  cbn [toml_parse toml_pretty toy_toml toml_value]; cbv zeta.
  intros s t. destruct (parse_table _ _) as [[t' [|]]|]; [|done..].
  destruct (wf_table t') eqn:E; [|done]. intros [= <-]. by apply wf_table_spec.
Qed.

(** ** Files *)

Definition holiday : path := ["in"; "old.txt"]%string.
Definition disk_with (p : path) (bs : bytes) : disk :=
  ((do! i := create p in write_all i bs) empty_disk).2.

Lemma disk_with_wf p bs : wf (disk_with p bs).
Proof.
  assert (triple (Kept p empty_disk) (do! i := create p in write_all i bs)
    (λ _, Kept p empty_disk) (Kept p empty_disk)) as H.
  { eapply triple_bind; [apply create_keeps|]. intros i d Hd.
    pose proof (write_all_keeps p i [] bs empty_disk d Hd) as Hw.
    destruct (write_all i bs d) as [[]]; [by eapply Filling_Kept|done]. }
  specialize (H empty_disk (Kept_refl p _ wf_empty_disk)). unfold disk_with.
  destruct ((do! i := create p in write_all i bs) empty_disk) as [[]]; apply H.
Qed.

Definition old_disk : disk := disk_with holiday [Byte.x01].

Definition inbox : Host := mkHost (FileBulk_new ["in"%string] (Some "10.0.0.1"%string) "") [] old_disk.
Definition photo : Offer := mkOffer 7 "photo.jpg" 3 "image/jpeg".

Lemma inbox_sound : Sound inbox.
Proof.
  split; [apply disk_with_wf| |].
  - intros t peer o. cbn. by rewrite lookup_empty.
  - intros p [(t & i & E & _)|(fl & Hfl & _)]; [cbn in E; by rewrite lookup_empty in E|by apply elem_of_nil in Hfl].
Qed.

Lemma holiday_no_part p n : file_path p n -> holiday <> temp_beside p.
Proof.
  intros Hp E. rewrite (temp_beside_spec p n Hp) in E.
  apply (f_equal last) in E. rewrite last_snoc in E. cbn in E. injection E as E.
  assert (String.length "old.txt" = String.length n + String.length ".part")%nat as El
    by (by rewrite E; apply str_length_app).
  destruct n as [|a [|b [|c n]]]; cbn in El; try lia. done.
Qed.

Lemma inbox_unclaimed : ~ Claims inbox holiday.
Proof.
  intros [(t & i & E & _)|(fl & Hfl & _)]; [cbn in E; by rewrite lookup_empty in E|by apply elem_of_nil in Hfl].
Qed.

(** An offer arrives and is listened for, beside a file of an earlier one. *)
Lemma files_stay_witness :
  ∃ h', host_run inbox [NoteOffer "peer" photo; Listen 7 7 [] 3; Proceed 0] h' /\
    is_Some (fb_incoming (hb h') !! 7) /\ read_back (hdisk h') holiday = Some [Byte.x01].
Proof.
  pose (h1 := inbox <| hb ::= note_offer "peer" photo |>).
  destruct (listen_begin 7 (hb h1) (hdisk h1)) as [r d] eqn:E.
  pose (h2 := take_off (Listening 7 7 [] 3 ["in"; "photo.jpg"]%string) (h1 <| hdisk := d |>)).
  pose (h3 := (come_down 0 h2) <| hb := (listen_end 7 7 [] 3 ["in"; "photo.jpg"]%string 9000 (hb h2)).2 |>).
  assert (r = Ok ["in"; "photo.jpg"]%string) as Hr by (vm_compute in E; injection E as <- _; done).
  assert (host_run inbox [NoteOffer "peer" photo; Listen 7 7 [] 3; Proceed 0] h3) as Hrun.
  { apply (hr_cons _ _ h1); [apply hs_note|]. apply (hr_cons _ _ h2).
    - pose proof (hs_listen h1 7 7 [] 3 r d E) as Hl. rewrite Hr in Hl. exact Hl.
    - apply (hr_cons _ _ h3); [|apply hr_nil].
      exact (hs_listened h2 0 7 7 [] 3 ["in"; "photo.jpg"]%string (Some 9000) eq_refl). }
  exists h3. split; [exact Hrun|]. split; [cbn; rewrite lookup_insert_eq; by eexists|].
  assert (∀ peer o, NoteOffer peer o ∈ [NoteOffer "peer" photo; Listen 7 7 [] 3; Proceed 0] -> plain o) as Hpl.
  { intros peer o. rewrite !elem_of_cons, elem_of_nil.
    intros [[= -> ->]|[[=]|[[=]|[]]]]. by vm_compute. }
  apply (files_stay inbox _ h3 holiday [Byte.x01] inbox_sound Hpl Hrun inbox_unclaimed);
    [|vm_compute; reflexivity].
  intros hm Hm. exact (never_parted _ _ _ _ _ inbox_sound Hpl Hm holiday_no_part).
Defined.

(** ** Prompts *)

Definition buttons : Notifier := mkNotifier true true.
Definition no_files : FileBulk := FileBulk_new ["in"%string] None "lo".

Lemma escape_roundtrip_witness :
  str_count "<" (escape_markup "a<b>&c") = 0%nat /\ str_count ">" (escape_markup "a<b>&c") = 0%nat /\
  unescape 6 (escape_markup "a<b>&c") = "a<b>&c"%string.
Proof. apply escape_roundtrip. vm_compute. done. Defined.

Lemma confirms_the_question_shown_witness :
  let ops := [AskPair "bob" "fp" "123 456" (Some 4); Prompt.Ask "peer" "bob" photo (Some 5)] in
  let st := prompt_run ops (Prompter_new buttons true, no_files) in
  On_screen ops 4 /\ pairing_shown (prompt_step (Press (mkPressed 4 MATCH)) st).1.1 = None.
Proof.
  cbv zeta.
  destruct (confirms_the_question_shown
    [AskPair "bob" "fp" "123 456" (Some 4); Prompt.Ask "peer" "bob" photo (Some 5)] buttons true no_files
    (Press (mkPressed 4 MATCH)) true) as [(id & Hs & E) Hp].
  - vm_compute. left.
  - split; [|exact Hp]. by injection E as <-.
Defined.

Definition offered_photo : UiEvent := UiPlugin (id_of bob) SHARE_CAP "offer" (to_vec_or_default photo).

Lemma answers_are_asked_witness :
  ∃ peer body offer, offered_photo = UiPlugin peer SHARE_CAP "offer" body /\ cbor_decode body = Some offer /\
    Local (LocalPlugin (id_of bob) SHARE_CAP "accept" (to_vec_or_default (mkFinished 7 true "")))
    = Local (LocalPlugin peer SHARE_CAP "accept" (to_vec_or_default (mkFinished (of_transfer offer) true ""))).
Proof.
  apply (answers_are_asked [] true offered_photo None None (Some no_files)).
  apply list_elem_of_singleton. vm_compute. reflexivity.
Defined.

Lemma button_then_silence_witness :
  let '(p1, f1) := accepted_by_button "peer" "bob" photo 5 (Prompter_new buttons true) no_files in
  (done_ 7 true "" None p1 (f1 <| fb_landed ::= <[7 := downloads]> |>)).2 = [].
Proof. exact (button_then_silence "peer" "bob" photo 5 (Prompter_new buttons true) no_files true "" None eq_refl). Defined.

(** ** The configuration *)

(** A file of one table, with a setting and a table of the person's own, from a
    schema with a value at the top, a setting more, and commands: the value
    added comes after the tables and is printed before them. *)
Definition mine : Table string :=
  TTable "wol" (TValue "port" "7" TEnd) (TTable "commands" (TTable "reboot" TEnd TEnd) TEnd).
Definition schema : Table string :=
  TValue "name" "" (TTable "wol" (TValue "port" "9" (TValue "macs" "" TEnd)) (TTable "commands" (TTable "halt" TEnd TEnd) TEnd)).
Definition mine_text : string := of_bytes (print_table mine).
Definition schema_text : string := of_bytes (print_table schema).

Lemma reconcile_minimal_witness :
  ∃ text doc, reconcile mine_text schema_text = Some (text, ["name"; "wol.macs"]%string) /\
    reconcile text schema_text = Some (text, []) /\ toml_parse text = Some doc /\
    keys doc = ["name"; "wol"; "commands"]%string /\
    entry_at ["name"%string] doc = Some (Some ""%string) /\ entry_at ["wol"; "port"]%string doc = Some (Some "7"%string) /\
    entry_at ["wol"; "macs"]%string doc = Some (Some ""%string) /\ entry_at ["commands"; "halt"]%string doc = None /\
    reports schema "" mine "wol.macs".
Proof.
  assert (toml_parse mine_text = Some mine) as Em by (vm_compute; reflexivity).
  assert (toml_parse schema_text = Some schema) as Es by (vm_compute; reflexivity).
  destruct (@reconcile_minimal toy_toml toy_toml_laws mine_text schema_text mine schema Em Es)
    as (text & added & doc & E & Hd & He & Hr & _ & Ha).
  assert (added = ["name"; "wol.macs"]%string /\ keys doc = ["name"; "wol"; "commands"]%string) as [-> Hk].
  { vm_compute in E. injection E as <- <-. split; [reflexivity|]. vm_compute in Hd. injection Hd as <-. reflexivity. }
  exists text, doc. split_and!; [exact E|exact Ha|exact Hd|exact Hk|exact (He ["name"%string])|
    exact (He ["wol"; "port"]%string)|exact (He ["wol"; "macs"]%string)|exact (He ["commands"; "halt"]%string)|].
  apply Hr. right. left.
Defined.

Definition conf : path := ["etc"; "acryliusd.toml"]%string.

(** The file is there and the rename fails. *)
Lemma update_whole_witness :
  ∃ d, read_back d conf = Some (as_bytes mine_text) /\ wf d /\
    let d' := (update_file conf schema_text d).2 in
    read_back d' conf = read_back d conf \/
    ∃ old text added, read_back d conf = Some (as_bytes old) /\
      reconcile old schema_text = Some (text, added) /\ read_back d' conf = Some (as_bytes text).
Proof.
  pose proof (disk_with_wf conf (as_bytes mine_text)) as H0. set (d0 := disk_with conf _) in H0.
  exists (d0 <| faults := [Fine; Fine; Fine; Fails 0] |>).
  split; [vm_compute; reflexivity|]. split; [by apply wf_faults|].
  apply update_whole; [eexists; split; [reflexivity|done]|vm_compute; done|by apply wf_faults].
Defined.

(** ** The control socket *)

(** The bodies these witnesses do not decode. *)
#[local] Instance no_cbor T : Cbor T | 200 := {| to_vec _ := None; cbor_decode _ := None |}.

Definition bob_str : string := did_str (id_of bob).
Definition as_is (s : string) : string := s.

(** Another device answers first, then the one that was asked. *)
Definition two_answers : list Heard :=
  [Control.Ev (UiPlugin (id_of alice) SHARE_CAP "offer" []);
   Control.Ev (UiPlugin (id_of bob) SHARE_CAP "offer" (to_vec_or_default photo))].
Definition what_is_offered : Control.Ask := mkAsk SHARE_CAP "offer" [] ["offer"%string].

Lemma reply_is_the_peers_witness :
  ∃ id ty body pre post, DeviceId_parse bob_str = Ok id /\
    two_answers = pre ++ Control.Ev (UiPlugin id SHARE_CAP ty body) :: post /\ ty ∈ ["offer"%string] /\
    Forall (passed_over id SHARE_CAP ["offer"%string]) pre /\
    ReportOffer "offer" "photo.jpg" 3 = report SHARE_CAP ty body.
Proof.
  apply (reply_is_the_peers bob_str what_is_offered two_answers (ReportOffer "offer" "photo.jpg" 3)).
  apply list_elem_of_singleton. vm_compute. reflexivity.
Defined.

Definition handles (f : FileBulk) : Handles := mkHandles 0 (Some f) None [] [] None.
Definition offered_by_bob : FileBulk := note_offer bob_str photo no_files.

Lemma trust_needs_its_verb_witness :
  Local (ConfirmPairing true) ∈
    (handle_request as_is RApprove (Err ""%string) (handles no_files) []).1.1 /\
  RApprove = RApprove.
Proof.
  assert (Local (ConfirmPairing true) ∈
    (handle_request as_is RApprove (Err ""%string) (handles no_files) []).1.1) as H by left.
  split; [exact H|].
  exact (trust_needs_its_verb as_is RApprove (Err ""%string) (handles no_files) [] _ H).
Defined.

Lemma send_names_only_witness :
  ∃ id f offer size f', DeviceId_parse bob_str = Ok id /\ Some no_files = Some f /\
    @Ok (bool * u64) string (true, 3) = Ok (true, size) /\
    Local (LocalPlugin (id_of bob) SHARE_CAP "offer" (to_vec_or_default (mkOffer 1 "cat.jpg" 3 "")))
    = Local (LocalPlugin id SHARE_CAP "offer" (to_vec_or_default offer)) /\
    str_count "/" (of_name offer) = 0%nat /\ of_size offer = size /\ of_transfer offer = fb_next f +u64 1 /\
    h_bulk (on_send bob_str "/home/me/cat.jpg" (Ok (true, 3)) (handles no_files) []).2 = Some f' /\
    fb_outgoing f' !! of_transfer offer = Some ["home"; "me"; "cat.jpg"]%string.
Proof.
  apply (send_names_only bob_str "/home/me/cat.jpg" (Ok (true, 3)) (handles no_files) []).
  apply list_elem_of_singleton. vm_compute. reflexivity.
Defined.

Lemma answer_goes_to_its_maker_witness :
  ∃ f t peer offer id, Some offered_by_bob = Some f /\ fb_offers f !! t = Some (peer, offer) /\
    written_as t 7 = true /\ DeviceId_parse peer = Ok id /\
    Local (LocalPlugin (id_of bob) SHARE_CAP "reject" (to_vec_or_default (mkFinished 7 false "")))
    = Local (LocalPlugin id SHARE_CAP "reject" (to_vec_or_default (mkFinished t false ""))) /\
    h_bulk (on_answer 7 false (handles offered_by_bob) []).2 = Some (forget t f).
Proof.
  apply (answer_goes_to_its_maker 7 false (handles offered_by_bob) []).
  apply list_elem_of_singleton. vm_compute. reflexivity.
Defined.

(** ** The touchpad *)

Definition one_finger : list TouchPoint := [mkTouchPoint 7 100 200].

Lemma frame_shows_witness :
  let '(evs, s') := frame one_finger Slots_default in
  let v' := see_all evs (mkView 0 ∅) in
  ∃ slot t, held s' !! slot = Some (Some 7) /\ contacts v' !! slot = Some (t, 100, 200)%Z.
Proof.
  pose proof (frame_shows one_finger Slots_default (mkView 0 ∅) Slots_default_sound) as H.
  destruct (frame one_finger Slots_default) as [evs s'].
  destruct H as (_ & _ & H & _).
  - intros slot. cbn. rewrite lookup_empty. split; [by intros []|].
    intros [id E]. change (replicate SLOTS (None : option u8) !! slot = Some (Some id)) in E. apply lookup_replicate in E as [E _]. done.
  - repeat constructor. by intros ?%elem_of_nil.
  - vm_compute. lia.
  - apply (H 7 100 200). left.
Defined.

(** ** The touchpad over a cable *)

Definition begin_bytes : bytes := Byte.x00 :: to_vec_or_default (mkBegin 70 150).
Definition frame_bytes : bytes :=
  Byte.x01 :: to_vec_or_default (mkTouchFrame 1 [mkPoint 7 100 200] (Some 16000)).

Lemma mux_roundtrip_witness :
  mux_read (mkStream (mux_message MUX_CONNECT (connect_body 3 PORT) ++ as_bytes "phone") true)
  = Ok ((MUX_CONNECT, connect_body 3 PORT), mkStream (as_bytes "phone") true).
Proof. apply mux_roundtrip; vm_compute; done. Defined.

(** A surface and a finger, then nothing more. *)
Definition touching : UsbSession :=
  (on_read 2000 (Ok frame_bytes) (Usb.drain 1 2000 (λ _, true) (on_read 1000 (Ok begin_bytes) (session_start 0)).2).2).2.

Lemma touching_running : Running 2000 touching.
Proof.
  set (s1 := (on_read 1000 (Ok begin_bytes) (session_start 0)).2).
  apply (running_turn 1000 2000 2000 (λ _, true) (Read 2000 (Ok frame_bytes)) s1
    (Usb.drain 1 2000 (λ _, true) s1).2 touching).
  - apply (running_turn 0 0 1000 (λ _, true) (Read 1000 (Ok begin_bytes)) (session_start 0) (session_start 0) s1).
    + apply running_start.
    + lia.
    + reflexivity.
    + by split; [lia|].
    + vm_compute. reflexivity.
  - lia.
  - vm_compute. reflexivity.
  - by split; [lia|].
  - vm_compute. reflexivity.
Qed.

Lemma silence_lifts_witness :
  ∃ s1, Usb.drain (length (queue touching)) 20000 (λ _, true) touching = (Ok tt, s1) /\
    fingers s1 = [7] /\ queue s1 = [] /\ fingers (take_arm (Stalled true) s1).2 = [].
Proof.
  set (r := Usb.drain (length (queue touching)) 20000 (λ _, true) touching).
  assert (r = (Ok tt, r.2)) as E by (vm_compute; reflexivity).
  exists r.2. assert (fingers r.2 = [7]) as Hf by (vm_compute; reflexivity).
  destruct (silence_lifts 2000 touching 20000 (λ _, true) r.2 touching_running) as [Hq [H|H]].
  - vm_compute. done.
  - exact E.
  - by rewrite H in Hf.
  - split_and!; [exact E|exact Hf|exact Hq|apply (H true)].
Defined.

Lemma session_typed_witness : Typed touching /\ length (queue touching) = 1%nat.
Proof. split; [exact (session_typed 2000 touching touching_running)|vm_compute; reflexivity]. Defined.

(** ** Links over Bluetooth *)

Definition phone_writes : gmap string OwnedValue :=
  <["mtu"%string := VU16 185]> (<["device"%string := VObjectPath "phone"]> ∅).

(** A write of a message in one fragment: the link comes up and brings it. *)
Definition after_write : BleHost :=
  ble_do (write_enter "phone" (Some 185) [byte_of 2; byte_of 7])
    (ble_land 0 (ble_off (Writing "phone" (Some 185) [byte_of 2; byte_of 7])
      (ble_do (λ s, s <| last_central := Some "phone"%string |>) (mkBleHost (Shared_new 1) [])))).

Lemma after_write_run : ble_run 1 2 after_write.
Proof.
  eapply br_snoc; [eapply br_snoc; [apply br_nil|]|].
  - apply (bs_write _ phone_writes "phone" (Some 185) [byte_of 2; byte_of 7]). reflexivity.
  - exact (bs_locked (ble_off (Writing "phone" (Some 185) [byte_of 2; byte_of 7])
      (ble_do (λ s, s <| last_central := Some "phone"%string |>) (mkBleHost (Shared_new 1) [])))
      0 "phone" (Some 185) [byte_of 2; byte_of 7] true eq_refl).
Qed.

Definition ble_link : LinkId := LinkId_new 1 1.
Lemma one_ble_link_witness :
  sh_sink (shared after_write) = [LinkUp ble_link (ble_attrs 1) None; LinkRecv ble_link [byte_of 7]] /\
  phase_of ble_link (sh_sink (shared after_write)) = Some Alive /\ on_air (shared after_write) ble_link /\
  len [byte_of 7] <= 16384.
Proof.
  assert (sh_sink (shared after_write) = [LinkUp ble_link (ble_attrs 1) None; LinkRecv ble_link [byte_of 7]])
    as E by (vm_compute; reflexivity).
  assert (phase_of ble_link (sh_sink (shared after_write)) = Some Alive) as Ep by (vm_compute; reflexivity).
  destruct (one_ble_link 1 2 after_write) as (H1 & _ & H3).
  - vm_compute. done.
  - vm_compute. done.
  - exact after_write_run.
  - destruct (H1 ble_link) as (ph & Hp & Ha). split; [exact E|]. split; [exact Ep|]. split.
    + apply Ha. congruence.
    + apply (H3 ble_link). rewrite E. right. left.
Defined.

(** The invariant of a host whose link has just come up. *)
Lemma up_told : ∃ l, sh_link (shared after_write) = Some l /\ BleTold (shared after_write) /\
  bl_device l = "phone"%string /\ r_open (bl_reassembler l) = false /\ bl_mtu l = 185.
Proof.
  eexists. split; [vm_compute; reflexivity|]. split; [|by vm_compute].
  change (shared after_write) with (write_enter "phone" (Some 185) [byte_of 2; byte_of 7]
    ((Shared_new 1) <| last_central := Some "phone"%string |>)).
  apply told_write; [|vm_compute; done|vm_compute; done].
  split; cbn; [vm_compute; done| |done|by intros ? ? ?%elem_of_nil].
  apply (Story_ext _ _ (λ _, False)); [|apply Story_nil]. intros l. by apply on_air_free.
Qed.

Lemma ble_carries_witness :
  let s := shared after_write in
  sh_sink (write_all_of "phone" None (fragment (as_bytes "a longer message") 5) s)
    = sh_sink s ++ [LinkRecv ble_link (as_bytes "a longer message")] /\
  push_all (Reassembler_new 100) (notify 185 (as_bytes "a longer message"))
    = (Reassembler_new 100, Ok [as_bytes "a longer message"]).
Proof.
  cbv zeta. destruct up_told as (l & El & HT & Ed & Ho & Em).
  destruct (ble_carries (as_bytes "a longer message") 5 "phone" None (shared after_write) l 100 HT El Ed Ho)
    as ((Hs & _) & _ & Hp).
  - vm_compute. done.
  - split; vm_compute; done.
  - rewrite Em in Hp. split; [|exact Hp].
    assert (bl_link l = ble_link) as <-; [|exact Hs].
    vm_compute in El. injection El as <-. vm_compute. reflexivity.
Defined.

(** ** What a desktop does *)

(** Two sessions of the person, the first locked, and a third of somebody else. *)
Definition sessions (second_locked : bool) : Look :=
  mkLook (Ok [mkSessionRow "1" 1000 (Ok tt) (Some "user") (Some "wayland") (Some true) (Some true);
              mkSessionRow "3" 1001 (Ok tt) (Some "user") (Some "x11") (Some true) (Some false);
              mkSessionRow "2" 1000 (Ok tt) (Some "user") (Some "x11") (Some false) (Some second_locked)]%string) None 30.
(** The second is seen to be locked at the third poll. *)
Definition seat : Seat := mkSeat (sessions false) (sessions false) (Ok tt) 12 (λ k, sessions (2 <=? k)%nat).
Definition no_commands : SessionCommands := mkSessionCommands [] [].

(** Locking asks for the one not locked, and sees it locked. *)
Lemma act_is_seen_witness :
  session_act true 1000 no_commands seat = (Ok (mkSessionOutcome false true "2"), [Logind "2" true], 562) /\
  ∃ k, begun (se_polls seat) k < confirm_window true /\ read_locked "2" (se_polls seat k) = Ok true.
Proof.
  assert (session_act true 1000 no_commands seat = (Ok (mkSessionOutcome false true "2"), [Logind "2" true], 562)) as E
    by (vm_compute; reflexivity).
  split; [exact E|].
  destruct (act_is_seen true 1000 no_commands seat _ _ _ E) as (cands & c & _ & _ & _ & Hl & H).
  cbn in Hl. rewrite Hl in H. cbn in H. destruct H as [_ H]. apply H. reflexivity.
Defined.

(** A browser that is paused, a player that plays, the aggregator, and the bus itself. *)
Definition player_bus (status : string) : PlayerBus :=
  mkPlayerBus (Some "Music"%string) (Some status) (Some {["mpris:length"%string := MInt64 1500000]}) (Some 2000000%Z)
    (Some (level_of 40)) (Some true) None None (Some true).
Definition desk (status : string) : Reading :=
  mkReading (Some [":1.7"; "org.mpris.MediaPlayer2.playerctld"; "org.mpris.MediaPlayer2.spotify";
                   "org.mpris.MediaPlayer2.firefox"]%string)
    (λ bus, Some (player_bus (if (bus =s "org.mpris.MediaPlayer2.spotify")%string then status else "Paused")))
    (λ program _, if (program =s "pactl")%string then Some (as_bytes "Volume: front-left: 45875 /  70% / -9.29 dB") else None) 20.
Definition obeys : PlayerAnswers := mkPlayerAnswers (Ok tt) None None None 5.
Definition spotify_bus : string := "org.mpris.MediaPlayer2.spotify".

Lemma control_reaches_one_witness :
  ∃ on_bus id b, rd_on_bus (desk "Playing") = Some on_bus /\ spotify_bus ∈ on_bus /\ spotify_bus = PREFIX +:+ id /\
    id <> AGGREGATOR /\ id = ms_active (media_state str_lower (desk "Playing")) /\
    rd_player (desk "Playing") spotify_bus = Some b /\ pb_can_control b = Some true /\
    call_of (λ _, true) (default id (pb_identity b)) Pause obeys = Ok CallPause.
Proof.
  apply (control_reaches_one str_lower (λ _, true) "" Pause (desk "Playing") (Err ""%string) obeys
    (Ok (Some (media_state str_lower (desk "Playing")))) [Mpris spotify_bus CallPause] 25).
  vm_compute. reflexivity.
Defined.

Lemma nameless_goes_to_what_plays_witness :
  ∃ bus b c, bus ∈ default [] (rd_on_bus (desk "Playing")) /\ rd_player (desk "Playing") bus = Some b /\
    str_lower (default "stopped"%string (pb_status b)) = PLAYING /\ pb_can_control b = Some true /\
    [Mpris spotify_bus CallNext] = [Mpris bus c] /\ call_of (λ _, true) "" Next obeys = Ok c.
Proof.
  apply (nameless_goes_to_what_plays str_lower (λ _, true) Next (desk "Playing") (Err ""%string) obeys
    (Ok (Some (media_state str_lower (desk "Playing")))) [Mpris spotify_bus CallNext] 25
    (default [] (rd_on_bus (desk "Playing"))) spotify_bus (player_bus "Playing")); try (vm_compute; reflexivity).
  - apply not_elem_of_cons; split; [discriminate|]. repeat (apply not_elem_of_cons; split; [discriminate|]).
    apply not_elem_of_nil.
  - apply elem_of_player_names. split; [do 2 right; left|]. exists "spotify"%string. split; [reflexivity|discriminate].
Defined.

(** The pause shows at the second reading. *)
Definition soon_paused (k : nat) : Reading := desk (if (1 <=? k)%nat then "Paused" else "Playing").
Lemma settled_first_witness :
  control_and_settle str_lower (λ _, true) "" Pause (desk "Playing") (Err ""%string) obeys soon_paused
  = (Ok (media_state str_lower (desk "Paused")), [Mpris spotify_bus CallPause], 185, 2%nat) /\
  ∃ k, media_state str_lower (desk "Paused") = media_state str_lower (soon_paused k) /\ k <> 0%nat.
Proof.
  assert (control_and_settle str_lower (λ _, true) "" Pause (desk "Playing") (Err ""%string) obeys soon_paused
    = (Ok (media_state str_lower (desk "Paused")), [Mpris spotify_bus CallPause], 185, 2%nat)) as E by (vm_compute; reflexivity).
  split; [exact E|].
  pose proof (settled_first str_lower (λ _, true) "" Pause (desk "Playing") (Err ""%string) obeys soon_paused 20) as H.
  rewrite E in H. destruct H as [_ (k & Hn & _ & _)]; [intros k; vm_compute; done|].
  exists k. split; [exact Hn|]. intros ->. revert Hn. vm_compute. discriminate.
Defined.

#[export] Instance ascii_texts : Texts := {| str_to_lowercase := str_lower; object_path _ := true |}.
Definition reboot : CommandSpec := mkCommandSpec "Reboot" "/usr/bin/systemctl" ["reboot"%string] true None.
Definition machine : Machine :=
  mkMachine 1000 seat (Ok None) (Ok tt) (Finished [] [] (Some 0%Z)) (Ok 1) (desk "Playing") []
    obeys (λ _, desk "Playing") true.
Definition headless : LinuxEffector := mkLinuxEffector None false {["reboot"%string := reboot]} false None 4.

Lemma supported_is_done_witness :
  effect_kind (RunCommand "reboot") ∈ supported headless /\
  encode (mkExited 5 0 false) <> EffectUnsupported.
Proof.
  assert (effect_kind (RunCommand "reboot") ∈ supported headless) as H by (vm_compute; right; left).
  split; [exact H|]. revert H.
  apply (supported_is_done as_is (RunCommand "reboot") machine headless _ [["/usr/bin/systemctl"; "reboot"]%string]
    (headless <| le_run_counter := 5 |>)).
  vm_compute. reflexivity.
Defined.
