(* ===== verification/Config.v ===== *)
(** * [acryliusd/src/config.rs]: what this machine offers, and to whom

    The configuration with its defaults, how it is read from a table and
    written to one ([serde]'s derived code: an absent field takes its default, an
    unknown key is skipped, a value of the wrong type fails the whole), where
    downloads go, and loading.  The scalars of a document are [toml]'s. *)

From Stdlib Require Import Ascii.
From S2P Require Import Prelude Strs Utf8 Fs Bulk Paths Command Desktop Reconcile.
Local Open Scope N_scope.

(** ** The schema *)

Abbreviation CommandCatalog := (gmap string CommandSpec).

(* src: crates/acryliusd/src/config.rs 31 33 PairConfig *)
Record PairConfig := mkPairConfig { pair_enabled : bool }.
(* src: crates/acryliusd/src/config.rs 35 39 PairConfig::default *)
Definition PairConfig_default : PairConfig := mkPairConfig true.
(* src: crates/acryliusd/src/config.rs 45 47 BleConfig *)
Record BleConfig := mkBleConfig { ble_enabled : bool }.
(* src: crates/acryliusd/src/config.rs 49 53 BleConfig::default *)
Definition BleConfig_default : BleConfig := mkBleConfig true.
(* src: crates/acryliusd/src/config.rs 58 60 UsbConfig *)
Record UsbConfig := mkUsbConfig { usb_enabled : bool }.
(* src: crates/acryliusd/src/config.rs 62 66 UsbConfig::default *)
Definition UsbConfig_default : UsbConfig := mkUsbConfig true.
(* src: crates/acryliusd/src/config.rs 70 80 WolConfig *)
Record WolConfig := mkWolConfig {
  wc_macs : list string; wc_broadcast : string; wc_port : u16; wc_last_ipv4 : string;
  wc_allowlist : list string;
}.
(* src: crates/acryliusd/src/config.rs 219 229 WolConfig::default *)
Definition WolConfig_default : WolConfig := mkWolConfig [] "255.255.255.255" 9 "" [].
(* src: crates/acryliusd/src/config.rs 87 90 SessionConfig *)
Record SessionConfig := mkSessionConfig { lock_command : list string; unlock_command : list string }.
Definition SessionConfig_default : SessionConfig := mkSessionConfig [] [].
(* src: crates/acryliusd/src/config.rs 95 103 ShareConfig *)
Record ShareConfig := mkShareConfig { directory : string; auto_accept : bool; advertise_host : string }.
(* src: crates/acryliusd/src/config.rs 195 200 ClipboardConfig *)
Record ClipboardConfig := mkClipboardConfig { clip_send : bool; clip_receive : bool }.
(* src: crates/acryliusd/src/config.rs 231 238 ClipboardConfig::default *)
Definition ClipboardConfig_default : ClipboardConfig := mkClipboardConfig true true.

(* src: crates/acryliusd/src/config.rs 13 26 Config *)
Record Config := mkConfig {
  c_name : option string; c_port : u16; c_wol : WolConfig; c_clipboard : ClipboardConfig;
  c_session : SessionConfig; c_share : ShareConfig; c_ble : BleConfig; c_usb : UsbConfig;
  c_pair : PairConfig; c_commands : CommandCatalog;
}.

(* src: crates/acrylius-proto/src/lib.rs 22 22 DEFAULT_PORT *)
Definition DEFAULT_PORT : u16 := 1971.

(** ** Where downloads go *)

(** The loop over the lines of [user-dirs.dirs]. *)
(* src: crates/acryliusd/src/config.rs 172 190 xdg_user_dir_in *)
Fixpoint user_dir_line (key home : string) (lines : list string) : option string :=
  match lines with
  | [] => None
  | line :: lines =>
      let line := text_trim line in
      if str_starts_with "#" line then user_dir_line key home lines
      else match str_strip_prefix key line with
           | None => user_dir_line key home lines
           | Some value =>
               let value := trim_matches (N.eqb DQUOTE) (text_trim value) in
               let path := match str_strip_prefix "$HOME/" value with
                           | Some rest => pb_join home rest
                           | None => if value =s "$HOME" then home else value
                           end in
               if path_eqb path home then None else Some path
           end
  end.

(* src: crates/acryliusd/src/config.rs 165 191 xdg_user_dir_in *)
Definition xdg_user_dir_in (sys : Surroundings) (config name home : string) : option string :=
  match read_text sys (pb_join config "user-dirs.dirs") with
  | Err _ => None
  | Ok text => user_dir_line ("XDG_" +:+ name +:+ "_DIR=") home (str_lines text)
  end.

(* src: crates/acryliusd/src/config.rs 158 163 xdg_user_dir *)
Definition xdg_user_dir (sys : Surroundings) (name home : string) : option string :=
  xdg_user_dir_in sys (default (pb_join home ".config") (env_var sys "XDG_CONFIG_HOME")) name home.

(* src: crates/acryliusd/src/config.rs 118 127 default_download_dir *)
Definition default_download_dir (sys : Surroundings) : string :=
  match env_var sys "XDG_DOWNLOAD_DIR" with
  | Some dir => display dir
  | None =>
      let home := home_dir sys in
      display (default (pb_join home "Downloads") (xdg_user_dir sys "DOWNLOAD" home))
  end.

(* src: crates/acryliusd/src/config.rs 133 155 stale_download_dir *)
Definition stale_download_dir (sys : Surroundings) (configured : string) : option string :=
  home ← env_var sys "HOME";
  let english := pb_join home "Downloads" in
  if negb (path_eqb configured english) then None
  else
    real ← xdg_user_dir sys "DOWNLOAD" home;
    if path_eqb real english || negb (is_dir sys real) then None
    else if default true (negb <$> has_entry sys english)
    then Some ("this desktop's downloads folder is " +:+ display real +:+ ", and nothing has ever been put in "
      +:+ display english +:+ ". An earlier version guessed the English name. Change share.directory if files should go where the rest of them do.")%string
    else None.

(* src: crates/acryliusd/src/config.rs 105 113 ShareConfig::default *)
Definition ShareConfig_default (sys : Surroundings) : ShareConfig :=
  mkShareConfig (default_download_dir sys) false "".

(* src: crates/acryliusd/src/config.rs 202 217 Config::default *)
Definition Config_default (sys : Surroundings) : Config :=
  mkConfig None DEFAULT_PORT WolConfig_default ClipboardConfig_default SessionConfig_default
    (ShareConfig_default sys) BleConfig_default UsbConfig_default PairConfig_default ∅.

(** ** Reading a table *)

(** The scalars of a document; an inline table is a value that is one. *)
Class Scalars `{Toml} := {
  of_str : string -> toml_value; as_str : toml_value -> option string;
  of_int : Z -> toml_value; as_int : toml_value -> option Z;
  of_bool : bool -> toml_value; as_bool : toml_value -> option bool;
  of_array : list toml_value -> toml_value; as_array : toml_value -> option (list toml_value);
  as_table : toml_value -> option (Table toml_value);
}.
Class ScalarsLaws `{Scalars} := {
  as_of_str s : as_str (of_str s) = Some s;
  as_of_int z : (i64_min <= z <= i64_max)%Z -> as_int (of_int z) = Some z;
  as_of_bool b : as_bool (of_bool b) = Some b;
  as_of_array l : as_array (of_array l) = Some l;
}.

(** A line that is blank, or one that starts with [#] and has no control
    character, is a comment; comments go before a document that was printed,
    and after it, and change nothing of what it says. *)
Definition comment_line (l : string) : bool :=
  (l =s "") || (str_starts_with "#" l && forallb (λ x, 32 <=? Byte.to_N x) (as_bytes l)).
Class TomlComments `{Toml} :=
  toml_comments pre post t :
    Forall comment_line pre -> Forall comment_line post -> Wf t ->
    toml_parse (foldr (λ l s, l +:+ String "010" s) EmptyString pre +:+ toml_pretty t +:+
      String "010" (foldr (λ l s, l +:+ String "010" s) EmptyString post)) = toml_parse (toml_pretty t).

Section schema.
  Context `{Scalars} (sys : Surroundings).
Abbreviation table := (Table toml_value).
Abbreviation item := (toml_value + Table toml_value)%type.

Definition scalar {A} (f : toml_value -> option A) (i : item) : option A :=
  match i with inl v => f v | inr _ => None end.
Definition de_uint (max : N) (i : item) : option N :=
  z ← scalar as_int i; if (0 <=? z)%Z && (z <=? Z.of_N max)%Z then Some (Z.to_N z) else None.
Definition de_strings (i : item) : option (list string) := scalar as_array i ≫= mapM as_str.
Definition de_table (i : item) : option table :=
  match i with inr t => Some t | inl v => as_table v end.

(** A field that may be absent, one that must be there, and an [Option]. *)
Definition field {A} (de : item -> option A) (dflt : A) (k : string) (t : table) : option A :=
  match get k t with None => Some dflt | Some i => de i end.
Definition required {A} (de : item -> option A) (k : string) (t : table) : option A := get k t ≫= de.
Definition optional {A} (de : item -> option A) : string -> table -> option (option A) :=
  field (λ i, Some <$> de i) None.

Fixpoint items (t : table) : list (string * item) :=
  match t with
  | TEnd => []
  | TValue k v rest => (k, inl v) :: items rest
  | TTable k sub rest => (k, inr sub) :: items rest
  end.

(* src: crates/acrylius-linux/src/command.rs 18 30 CommandSpec *)
Definition de_CommandSpec (i : item) : option CommandSpec :=
  t ← de_table i;
  name ← required (scalar as_str) "name" t;
  program ← required (scalar as_str) "program" t;
  args ← field de_strings [] "args" t;
  needs_confirm ← field (scalar as_bool) false "needs_confirm" t;
  timeout_secs ← optional (de_uint u64_max) "timeout_secs" t;
  Some (mkCommandSpec name program args needs_confirm timeout_secs).
(* src: crates/acryliusd/src/config.rs 24 26 Config *)
Definition de_commands (i : item) : option CommandCatalog :=
  t ← de_table i;
  list_to_map <$> mapM (λ '(k, i), pair k <$> de_CommandSpec i) (items t).
(* src: crates/acryliusd/src/config.rs 29 33 PairConfig *)
Definition de_PairConfig (i : item) : option PairConfig :=
  t ← de_table i; mkPairConfig <$> field (scalar as_bool) (pair_enabled PairConfig_default) "enabled" t.
(* src: crates/acryliusd/src/config.rs 43 47 BleConfig *)
Definition de_BleConfig (i : item) : option BleConfig :=
  t ← de_table i; mkBleConfig <$> field (scalar as_bool) (ble_enabled BleConfig_default) "enabled" t.
(* src: crates/acryliusd/src/config.rs 56 60 UsbConfig *)
Definition de_UsbConfig (i : item) : option UsbConfig :=
  t ← de_table i; mkUsbConfig <$> field (scalar as_bool) (usb_enabled UsbConfig_default) "enabled" t.
(* src: crates/acryliusd/src/config.rs 68 80 WolConfig *)
Definition de_WolConfig (i : item) : option WolConfig :=
  t ← de_table i;
  let d := WolConfig_default in
  macs ← field de_strings (wc_macs d) "macs" t;
  broadcast ← field (scalar as_str) (wc_broadcast d) "broadcast" t;
  port ← field (de_uint u16_max) (wc_port d) "port" t;
  last_ipv4 ← field (scalar as_str) (wc_last_ipv4 d) "last_ipv4" t;
  allowlist ← field de_strings (wc_allowlist d) "allowlist" t;
  Some (mkWolConfig macs broadcast port last_ipv4 allowlist).
(* src: crates/acryliusd/src/config.rs 85 90 SessionConfig *)
Definition de_SessionConfig (i : item) : option SessionConfig :=
  t ← de_table i;
  lock ← field de_strings [] "lock_command" t;
  unlock ← field de_strings [] "unlock_command" t;
  Some (mkSessionConfig lock unlock).
(* src: crates/acryliusd/src/config.rs 93 103 ShareConfig *)
Definition de_ShareConfig (i : item) : option ShareConfig :=
  t ← de_table i;
  let d := ShareConfig_default sys in
  dir ← field (scalar as_str) (directory d) "directory" t;
  auto ← field (scalar as_bool) (auto_accept d) "auto_accept" t;
  host ← field (scalar as_str) (advertise_host d) "advertise_host" t;
  Some (mkShareConfig dir auto host).
(* src: crates/acryliusd/src/config.rs 193 200 ClipboardConfig *)
Definition de_ClipboardConfig (i : item) : option ClipboardConfig :=
  t ← de_table i;
  send ← field (scalar as_bool) (clip_send ClipboardConfig_default) "send" t;
  receive ← field (scalar as_bool) (clip_receive ClipboardConfig_default) "receive" t;
  Some (mkClipboardConfig send receive).

(* src: crates/acryliusd/src/config.rs 11 26 Config *)
Definition de_Config (t : table) : option Config :=
  let d := Config_default sys in
  name ← optional (scalar as_str) "name" t;
  port ← field (de_uint u16_max) (c_port d) "port" t;
  wol ← field de_WolConfig (c_wol d) "wol" t;
  clipboard ← field de_ClipboardConfig (c_clipboard d) "clipboard" t;
  session ← field de_SessionConfig (c_session d) "session" t;
  share ← field de_ShareConfig (c_share d) "share" t;
  ble ← field de_BleConfig (c_ble d) "ble" t;
  usb ← field de_UsbConfig (c_usb d) "usb" t;
  pair ← field de_PairConfig (c_pair d) "pair" t;
  commands ← field de_commands (c_commands d) "commands" t;
  Some (mkConfig name port wol clipboard session share ble usb pair commands).

(** [toml::from_str]. *)
Definition config_from_str (text : string) : option Config := toml_parse text ≫= de_Config.

(** ** Writing a table *)

Definition ser_strings (l : list string) : toml_value := of_array (map of_str l).
Definition ser_uint (n : N) : toml_value := of_int (Z.of_N n).

(* src: crates/acrylius-linux/src/command.rs 18 30 CommandSpec *)
Definition ser_CommandSpec (s : CommandSpec) : table :=
  TValue "name" (of_str (cs_name s)) (TValue "program" (of_str (cs_program s))
    (TValue "args" (ser_strings (cs_args s)) (TValue "needs_confirm" (of_bool (cs_needs_confirm s))
    match cs_timeout_secs s with Some n => TValue "timeout_secs" (ser_uint n) TEnd | None => TEnd end))).
Fixpoint ser_entries (l : list (string * CommandSpec)) : table :=
  match l with [] => TEnd | (k, s) :: l => TTable k (ser_CommandSpec s) (ser_entries l) end.
(* src: crates/acryliusd/src/config.rs 24 26 Config *)
Definition ser_commands (c : CommandCatalog) : table := ser_entries (bt_iter c).
Definition ser_WolConfig (w : WolConfig) : table :=
  TValue "macs" (ser_strings (wc_macs w)) (TValue "broadcast" (of_str (wc_broadcast w))
    (TValue "port" (ser_uint (wc_port w)) (TValue "last_ipv4" (of_str (wc_last_ipv4 w))
    (TValue "allowlist" (ser_strings (wc_allowlist w)) TEnd)))).
Definition ser_ClipboardConfig (c : ClipboardConfig) : table :=
  TValue "send" (of_bool (clip_send c)) (TValue "receive" (of_bool (clip_receive c)) TEnd).
Definition ser_SessionConfig (s : SessionConfig) : table :=
  TValue "lock_command" (ser_strings (lock_command s)) (TValue "unlock_command" (ser_strings (unlock_command s)) TEnd).
Definition ser_ShareConfig (s : ShareConfig) : table :=
  TValue "directory" (of_str (directory s)) (TValue "auto_accept" (of_bool (auto_accept s))
    (TValue "advertise_host" (of_str (advertise_host s)) TEnd)).
Definition ser_enabled (b : bool) : table := TValue "enabled" (of_bool b) TEnd.
(* src: crates/acryliusd/src/config.rs 11 25 Config *)
Definition ser_Config (c : Config) : table :=
  let rest :=
    TValue "port" (ser_uint (c_port c)) (TTable "wol" (ser_WolConfig (c_wol c))
    (TTable "clipboard" (ser_ClipboardConfig (c_clipboard c)) (TTable "session" (ser_SessionConfig (c_session c))
    (TTable "share" (ser_ShareConfig (c_share c)) (TTable "ble" (ser_enabled (ble_enabled (c_ble c)))
    (TTable "usb" (ser_enabled (usb_enabled (c_usb c))) (TTable "pair" (ser_enabled (pair_enabled (c_pair c)))
    (TTable "commands" (ser_commands (c_commands c)) TEnd)))))))) in
  match c_name c with Some n => TValue "name" (of_str n) rest | None => rest end.

(* src: crates/acryliusd/src/reconcile.rs 73 75 reference_text *)
Definition reference_text (c : Config) : string := toml_pretty (ser_Config c).

(** *** The first file written *)

Definition DQ : string := String "034" EmptyString.
(* src: crates/acryliusd/src/reconcile.rs 99 167 HINTS *)
Definition HINTS : list string := [
  "# --- what the settings mean -------------------------------------------------";
  "#";
  "# [wol]";
  "#   macs        this machine's own interfaces, sent to paired devices so they";
  "#               can wake it. A phone aims at last_ipv4 first, because iOS gates";
  "#               broadcast behind an entitlement a free developer account cannot";
  "#               get, and a network card matches the packet's payload rather than";
  "#               its destination address.";
  "#";
  "#               Left empty, every network card with real hardware behind it is";
  "#               found and announced, along with this machine's routed address.";
  "#               Set them only to override that. Filling one in by hand and";
  "#               getting it wrong looks identical to the feature not existing.";
  "#   allowlist   MACs this machine will relay a wake to on request. Empty means";
  "#               it relays for nobody, which is the right default.";
  "#";
  "# [clipboard]";
  "#   send        forward what happens here to paired devices.";
  "#   receive     apply what they send.";
  "#";
  "# [session]";
  "#   lock_command, unlock_command";
  "#               argv vectors, run with no shell. Leave empty to use logind.";
  "#";
  "#               logind only emits a signal, and acting on it is the screen";
  "#               locker's choice — plenty do not. A lock implemented inside a";
  "#               Wayland shell may offer no way in from outside at all, in which";
  "#               case remote unlocking is impossible until you say how it is";
  "#               done. Setting this hands out your session without a password, so";
  "#               it is off unless you turn it on.";
  "#";
  "# [ble]";
  "#   enabled     advertise over Bluetooth LE, so a paired phone reaches this";
  "#               machine with Wi-Fi off. A machine with no adapter, or one whose";
  "#               controller cannot act as a peripheral, offers nothing here";
  "#               whatever this says — capability is detected, not configured.";
  "#";
  "#               What it does turn off is the advertising itself, which is a radio";
  "#               announcing this machine continuously. Pairing is unaffected: it";
  "#               happens over the network and never over Bluetooth.";
  "#";
  "# [pair]";
  "#   enabled     answer devices asking to pair. On.";
  "#";
  "#               Pairing has no code and no shared secret, so any device that can";
  "#               reach this one may start a handshake and put six digits on this";
  "#               screen. That is the point: you pair by tapping a computer in the";
  "#               phone's list, not by reading a code off this one.";
  "#";
  "#               What protects it is that those six digits are also on the";
  "#               asking device, and nothing is stored until somebody here presses";
  "#               " +:+ DQ +:+ "They match" +:+ DQ +:+ ". A device that keeps asking gets one notification";
  "#               and then a cooldown. Turn this off on a machine that is done";
  "#               pairing, or on a network you would rather nobody could raise a";
  "#               dialog from.";
  "#";
  "# [commands]";
  "#   Commands a paired device may run, keyed by the id that travels. The id is";
  "#   what goes over the network, never the command line, so a device cannot ask";
  "#   for anything not listed here.";
  "#";
  "#   [commands.screenshot]";
  "#   name = " +:+ DQ +:+ "Screenshot" +:+ DQ;
  "#   program = " +:+ DQ +:+ "/usr/bin/grim" +:+ DQ +:+ "      # absolute; a relative path stops startup";
  "#   args = [" +:+ DQ +:+ "/home/you/shot.png" +:+ DQ +:+ "]";
  "#   needs_confirm = false";
  "#   timeout_secs = 10"
]%string.
(* src: crates/acryliusd/src/reconcile.rs 85 92 commented_default *)
Definition HEADER : list string := [
  "# acrylius";
  "#";
  "# Every value here is a decision this machine makes. Nothing in it can be";
  "# changed from the network: a paired device chooses from what this file";
  "# allows and has no way to add to it.";
  "#";
  "# `acryliusd config update` adds settings introduced by a newer version";
  "# and leaves everything you have written alone.";
  ""
]%string.
(** Lines, each ended. *)
Definition text_of (ls : list string) : string := foldr (λ l s, l +:+ String "010" s) EmptyString ls.
(* src: crates/acryliusd/src/reconcile.rs 81 97 commented_default *)
Definition commented_default (reference : string) : string :=
  text_of HEADER +:+ reference +:+ String "010" (text_of HINTS).

(** ** Loading *)

Inductive LoadError := LoadIo (e : ErrorKind) | LoadToml | LoadCatalog (message : string).
Context (quoted : string -> string).

(* src: crates/acryliusd/src/config.rs 260 263 Config::catalog *)
Definition Config_catalog (c : Config) : CommandCatalog := c_commands c.
(* src: crates/acrylius-linux/src/effector.rs 15 19 WolSettings *)
Record WolSettings := mkWolSettings { ws_allowlist : list string; ws_broadcast : string; ws_port : u16 }.
(* src: crates/acryliusd/src/config.rs 265 272 Config::wol_settings *)
Definition Config_wol_settings (c : Config) : WolSettings :=
  mkWolSettings (wc_allowlist (c_wol c)) (wc_broadcast (c_wol c)) (wc_port (c_wol c)).

(* src: crates/acryliusd/src/config.rs 243 258 Config::load *)
Definition Config_load (p : string) : result Config LoadError :=
  match read_text sys p with
  | Err NotFound => Ok (Config_default sys)
  | Err e => Err (LoadIo e)
  | Ok text =>
      match config_from_str text with
      | None => Err LoadToml
      | Some config =>
          match catalog_validate quoted (Config_catalog config) with
          | Err e => Err (LoadCatalog (display p +:+ ": " +:+ e))
          | Ok _ => Ok config
          end
      end
  end.

(* src: crates/acryliusd/src/config.rs 274 282 Config::default_path *)
Definition default_path : string :=
  pb_join (default (pb_join (home_dir sys) ".config") (env_var sys "XDG_CONFIG_HOME")) "acrylius/config.toml".
End schema.

(** ** An update changes no setting *)

Section update.
  Context `{TomlLaws} `{!Scalars} `{!ScalarsLaws} (sys : Surroundings).

(** *** The order of the entries does not matter *)

Abbreviation item := (toml_value + Table toml_value)%type.
Definition item_wf (i : item) : Prop := match i with inl _ => True | inr t => Wf t end.

(** A reader for which only the entries count. *)
Class Orderless {A} (de : item -> option A) : Prop :=
  orderless i i' : item_wf i -> item_wf i' -> same_item (Some i) (Some i') -> de i = de i'.

#[local] Instance scalar_orderless {A} (f : toml_value -> option A) : Orderless (scalar f).
Proof. intros [v|t] [v'|t'] _ _; cbn; [by intros ->|done..]. Qed.
#[local] Instance strings_orderless : Orderless de_strings.
Proof. intros i i' Hi Hi' HS. unfold de_strings. by rewrite (orderless (de := scalar as_array) i i'). Qed.
#[local] Instance uint_orderless max : Orderless (de_uint max).
Proof. intros i i' Hi Hi' HS. unfold de_uint. by rewrite (orderless (de := scalar as_int) i i'). Qed.
#[local] Instance some_orderless {A} (de : item -> option A) `{!Orderless de} : Orderless (λ i, Some <$> de i).
Proof. intros i i' Hi Hi' HS. by rewrite (orderless i i'). Qed.

Lemma get_wf k t i : Wf t -> get k t = Some i -> item_wf i.
Proof. destruct i as [v|sub]; [done|]. intros Hw Hg. by eapply Wf_get. Qed.

Lemma field_same {A} (de : item -> option A) `{!Orderless de} dflt k t t' :
  Wf t -> Wf t' -> Same t t' -> field de dflt k t = field de dflt k t'.
Proof.
  intros Hw Hw' HS. pose proof (proj1 (Same_get _ _) HS k) as Hk. unfold field.
  destruct (get k t) as [i|] eqn:E, (get k t') as [i'|] eqn:E'; [|by destruct i|by destruct i'|done].
  apply orderless; [exact (get_wf _ _ _ Hw E)|exact (get_wf _ _ _ Hw' E')|exact Hk].
Qed.
Lemma required_same {A} (de : item -> option A) `{!Orderless de} k t t' :
  Wf t -> Wf t' -> Same t t' -> required de k t = required de k t'.
Proof.
  intros Hw Hw' HS. pose proof (proj1 (Same_get _ _) HS k) as Hk. unfold required.
  destruct (get k t) as [i|] eqn:E, (get k t') as [i'|] eqn:E'; [|by destruct i|by destruct i'|done].
  cbn [mbind option_bind].
  apply orderless; [exact (get_wf _ _ _ Hw E)|exact (get_wf _ _ _ Hw' E')|exact Hk].
Qed.

Ltac same_fields t t' :=
  repeat match goal with
  | |- context [field ?de ?d ?k t] => rewrite (field_same de d k t t') by done
  | |- context [required ?de ?k t] => rewrite (required_same de k t t') by done
  end.
Ltac section_orderless :=
  intros [v|t] [v'|t'] Hw Hw' HS; cbn in Hw, Hw', HS; try done; [by subst v'|];
  cbn [de_table mbind option_bind]; cbv zeta; unfold optional; same_fields t t'; reflexivity.

#[local] Instance CommandSpec_orderless : Orderless de_CommandSpec.
Proof. unfold de_CommandSpec. section_orderless. Qed.
#[local] Instance WolConfig_orderless : Orderless de_WolConfig.
Proof. unfold de_WolConfig. section_orderless. Qed.
#[local] Instance ClipboardConfig_orderless : Orderless de_ClipboardConfig.
Proof. unfold de_ClipboardConfig. section_orderless. Qed.
#[local] Instance SessionConfig_orderless : Orderless de_SessionConfig.
Proof. unfold de_SessionConfig. section_orderless. Qed.
#[local] Instance ShareConfig_orderless : Orderless (de_ShareConfig sys).
Proof. unfold de_ShareConfig. section_orderless. Qed.
#[local] Instance BleConfig_orderless : Orderless de_BleConfig.
Proof. unfold de_BleConfig. section_orderless. Qed.
#[local] Instance UsbConfig_orderless : Orderless de_UsbConfig.
Proof. unfold de_UsbConfig. section_orderless. Qed.
#[local] Instance PairConfig_orderless : Orderless de_PairConfig.
Proof. unfold de_PairConfig. section_orderless. Qed.

Lemma items_keys (t : Table toml_value) : (items t).*1 = keys t.
Proof. induction t as [|k v rest IH|k sub _ rest IH]; cbn; by rewrite ?IH. Qed.
Lemma elem_of_items (t : Table toml_value) k i : Wf t -> (k, i) ∈ items t <-> get k t = Some i.
Proof.
  induction t as [|j v rest IH|j sub _ rest IH]; cbn [items get Wf].
  - split; [by intros ?%elem_of_nil|done].
  - intros [Hj Hw]. rewrite elem_of_cons, IH by done. destruct (String.eqb_spec j k) as [->|Hne]; [|naive_solver].
    apply get_keys in Hj. rewrite Hj. split; [intros [?|?]; by simplify_eq|intros [= <-]; by left].
  - intros (Hj & _ & Hw). rewrite elem_of_cons, IH by done. destruct (String.eqb_spec j k) as [->|Hne]; [|naive_solver].
    apply get_keys in Hj. rewrite Hj. split; [intros [?|?]; by simplify_eq|intros [= <-]; by left].
Qed.
Lemma NoDup_keys (t : Table toml_value) : Wf t -> NoDup (keys t).
Proof.
  induction t as [|k v rest IH|k sub _ rest IH]; cbn; [intros _; constructor|..].
  - intros [Hk Hw]. constructor; [done|by apply IH].
  - intros (Hk & _ & Hw). constructor; [done|by apply IH].
Qed.

(** The entries of a table, all of them read. *)
Definition de_entries {A} (de : item -> option A) (t : Table toml_value) : option (gmap string A) :=
  list_to_map <$> mapM (λ '(k, i), pair k <$> de i) (items t).
Lemma de_entries_Some {A} (de : item -> option A) t m :
  Wf t -> de_entries de t = Some m <->
  (∀ k i, get k t = Some i -> is_Some (de i)) /\ ∀ k, m !! k = get k t ≫= de.
Proof.
  intros Hw. unfold de_entries. assert (∀ l, mapM (λ '(k, i), pair k <$> de i) (items t) = Some l ->
    (∀ k i, get k t = Some i -> is_Some (de i)) /\ ∀ k, (list_to_map l : gmap string A) !! k = get k t ≫= de) as Hto.
  { intros l Hl%mapM_Some.
    assert (l.*1 = keys t) as Hk.
    { rewrite <- items_keys. clear -Hl. induction Hl as [|[k i] [k' a] l1 l2 HE Hl IH]; [done|].
      destruct (de i); [|done]. injection HE as <- <-. cbn. by rewrite IH. }
    assert (∀ k i, (k, i) ∈ items t -> ∃ a, de i = Some a /\ (k, a) ∈ l) as Hin.
    { intros k i Hki. apply list_elem_of_lookup in Hki as [n Hn].
      destruct (Forall2_lookup_l _ _ _ _ _ Hl Hn) as ([k' a] & Hn' & E). destruct (de i) as [a'|]; [|done].
      injection E as -> ->. exists a. split; [done|]. by eapply list_elem_of_lookup_2. }
    split; [intros k i Hg; destruct (Hin k i) as (a & -> & _); [by apply elem_of_items|done]|].
    intros k. destruct (get k t) as [i|] eqn:E; cbn [mbind option_bind].
    - destruct (Hin k i) as (a & -> & Ha); [by apply elem_of_items|]. apply elem_of_list_to_map; [|done].
      rewrite Hk. by apply NoDup_keys.
    - apply not_elem_of_list_to_map. rewrite Hk. by apply get_keys. }
  split.
  - intros (l & E & ->)%fmap_Some. by apply Hto.
  - intros [Hall Hm]. destruct (mapM _ (items t)) as [l|] eqn:E.
    + cbn. f_equal. apply map_eq. intros k. rewrite Hm. by apply Hto.
    + apply mapM_None, Exists_exists in E as ([k i] & Hin & E). apply elem_of_items in Hin; [|done].
      destruct (Hall k i Hin) as [a Ha]. by rewrite Ha in E.
Qed.

#[local] Instance commands_orderless : Orderless de_commands.
Proof.
  intros [v|t] [v'|t'] Hw Hw' HS; cbn in Hw, Hw', HS; try done; [by subst v'|].
  change (de_entries de_CommandSpec t = de_entries de_CommandSpec t').
  pose proof (proj1 (Same_get _ _) HS) as Hg.
  assert (∀ k, get k t ≫= de_CommandSpec = get k t' ≫= de_CommandSpec) as He
    by (intros k; exact (required_same de_CommandSpec k t t' Hw Hw' HS)).
  assert (∀ k, is_Some (get k t) <-> is_Some (get k t')) as Hs.
  { intros k. specialize (Hg k). destruct (get k t) as [i|], (get k t') as [i'|]; [done|by destruct i|by destruct i'|done]. }
  apply option_eq. intros m. rewrite !de_entries_Some by done. setoid_rewrite He. split; intros [Hall Hm]; (split; [|done]);
    intros k i Hi; specialize (He k); destruct (Hs k) as [Ha Hb]; rewrite Hi in He, Ha, Hb; cbn in He.
  - destruct Hb as [j Hj]; [by eexists|]. rewrite <- He, Hj. cbn. by eapply Hall.
  - destruct Ha as [j Hj]; [by eexists|]. rewrite He, Hj. cbn. by eapply Hall.
Qed.

(** What a configuration says does not depend on the order of its settings. *)
Lemma de_Config_same t t' : Wf t -> Wf t' -> Same t t' -> de_Config sys t = de_Config sys t'.
Proof. intros Hw Hw' HS. unfold de_Config. cbv zeta. unfold optional. same_fields t t'. reflexivity. Qed.

(** A field reads the same after a merge, where the schema's own entry reads as
    the default. *)
Lemma field_merged {A} (de : toml_value + Table toml_value -> option A) dflt prefix k from into added :
  Wf from ->
  match get k from with
  | None => True
  | Some (inl v) => de (inl v) = Some dflt
  | Some (inr f) => de (inr f) = Some dflt /\
      (user_owned (dotted prefix k) = true \/
       ∀ t, de (inr (merge_table f (dotted prefix k) t []).1) = de (inr t))
  end ->
  field de dflt k (merge_table from prefix into added).1 = field de dflt k into.
Proof.
  intros Hwf Hf. unfold field. rewrite merge_get by done. unfold merged_item.
  destruct (get k from) as [[v|f]|], (get k into) as [[w|t]|]; try done.
  - destruct Hf as [Hd Hf]. destruct (user_owned (dotted prefix k)); [done|]. destruct Hf as [|Hf]; [done|apply Hf].
  - apply Hf.
Qed.

(** Reading the scalars that were written. *)
Lemma de_ser_str s : scalar as_str (inl (of_str s)) = Some s.
Proof. apply as_of_str. Qed.
Lemma de_ser_bool b : scalar as_bool (inl (of_bool b)) = Some b.
Proof. apply as_of_bool. Qed.
Lemma de_ser_strings l : de_strings (inl (ser_strings l)) = Some l.
Proof.
  unfold de_strings, ser_strings. cbn [scalar]. rewrite as_of_array. cbn [mbind option_bind].
  induction l as [|s l IH]; cbn; [done|]. rewrite as_of_str. cbn. by rewrite IH.
Qed.
Lemma de_ser_uint max n : n <= max -> (Z.of_N n <= i64_max)%Z -> de_uint max (inl (ser_uint n)) = Some n.
Proof.
  intros Hn Hz. unfold de_uint, ser_uint. cbn [scalar]. rewrite as_of_int by (unfold i64_min; lia).
  cbn [mbind option_bind]. rewrite (proj2 (Z.leb_le _ _)), (proj2 (Z.leb_le _ _)) by lia. cbn. by rewrite N2Z.id.
Qed.

Ltac distinct_key := lazymatch goal with |- _ ∉ _ => refine (bool_decide_unpack _ _); vm_compute; exact I end.
Ltac distinct_keys :=
  solve [cbn [Wf ser_CommandSpec ser_WolConfig ser_ClipboardConfig ser_SessionConfig ser_ShareConfig ser_enabled];
    repeat (distinct_key || split); assumption].
(** The schema's own entry under a key. *)
Ltac own_entry :=
  cbn [get ser_Config ser_WolConfig ser_ClipboardConfig ser_SessionConfig ser_ShareConfig ser_enabled
    Config_default c_name c_port c_wol c_clipboard c_session c_share c_ble c_usb c_pair c_commands
    String.eqb Ascii.eqb eqb].
(** The side conditions of [field_merged], for a scalar of the schema. *)
Ltac reads_default :=
  own_entry; first [exact I|apply de_ser_str|apply de_ser_bool|apply de_ser_strings|apply de_ser_uint; done].
Ltac merged_section :=
  cbn [de_table mbind option_bind]; cbv zeta; rewrite !field_merged;
  [reflexivity|first [distinct_keys|reads_default]..].

Lemma WolConfig_merged t :
  de_WolConfig (inr (merge_table (ser_WolConfig WolConfig_default) "wol" t []).1) = de_WolConfig (inr t).
Proof. unfold de_WolConfig. merged_section. Qed.
Lemma ClipboardConfig_merged t :
  de_ClipboardConfig (inr (merge_table (ser_ClipboardConfig ClipboardConfig_default) "clipboard" t []).1)
  = de_ClipboardConfig (inr t).
Proof. unfold de_ClipboardConfig. merged_section. Qed.
Lemma SessionConfig_merged t :
  de_SessionConfig (inr (merge_table (ser_SessionConfig SessionConfig_default) "session" t []).1)
  = de_SessionConfig (inr t).
Proof. unfold de_SessionConfig. merged_section. Qed.
Lemma ShareConfig_merged t :
  de_ShareConfig sys (inr (merge_table (ser_ShareConfig (ShareConfig_default sys)) "share" t []).1)
  = de_ShareConfig sys (inr t).
Proof. unfold de_ShareConfig. merged_section. Qed.
Lemma BleConfig_merged t : de_BleConfig (inr (merge_table (ser_enabled true) "ble" t []).1) = de_BleConfig (inr t).
Proof. unfold de_BleConfig. merged_section. Qed.
Lemma UsbConfig_merged t : de_UsbConfig (inr (merge_table (ser_enabled true) "usb" t []).1) = de_UsbConfig (inr t).
Proof. unfold de_UsbConfig. merged_section. Qed.
Lemma PairConfig_merged t :
  de_PairConfig (inr (merge_table (ser_enabled true) "pair" t []).1) = de_PairConfig (inr t).
Proof. unfold de_PairConfig. merged_section. Qed.

(** What is written of a section is read back. *)
Ltac reads_back :=
  cbn [de_table mbind option_bind]; cbv zeta; unfold optional, required, field; own_entry; cbn [mbind option_bind];
  rewrite ?de_ser_str, ?de_ser_bool, ?de_ser_strings; cbn [mbind option_bind fmap option_fmap option_map].

Lemma port_reads n : n <= u16_max -> de_uint u16_max (inl (ser_uint n)) = Some n.
Proof. intros Hn. apply de_ser_uint; [done|]. unfold u16_max, i64_max in *. lia. Qed.
Lemma de_ser_WolConfig w : wc_port w <= u16_max -> de_WolConfig (inr (ser_WolConfig w)) = Some w.
Proof. intros Hp. unfold de_WolConfig. reads_back. rewrite port_reads by done. by destruct w. Qed.
Lemma de_ser_ClipboardConfig c : de_ClipboardConfig (inr (ser_ClipboardConfig c)) = Some c.
Proof. unfold de_ClipboardConfig. reads_back. by destruct c. Qed.
Lemma de_ser_SessionConfig c : de_SessionConfig (inr (ser_SessionConfig c)) = Some c.
Proof. unfold de_SessionConfig. reads_back. by destruct c. Qed.
Lemma de_ser_ShareConfig c : de_ShareConfig sys (inr (ser_ShareConfig c)) = Some c.
Proof. unfold de_ShareConfig. reads_back. by destruct c. Qed.
Lemma de_ser_BleConfig c : de_BleConfig (inr (ser_enabled (ble_enabled c))) = Some c.
Proof. unfold de_BleConfig. reads_back. by destruct c. Qed.
Lemma de_ser_UsbConfig c : de_UsbConfig (inr (ser_enabled (usb_enabled c))) = Some c.
Proof. unfold de_UsbConfig. reads_back. by destruct c. Qed.
Lemma de_ser_PairConfig c : de_PairConfig (inr (ser_enabled (pair_enabled c))) = Some c.
Proof. unfold de_PairConfig. reads_back. by destruct c. Qed.

(** A configuration whose numbers are in range. *)
Definition ConfigOk (c : Config) : Prop :=
  c_port c <= u16_max /\ wc_port (c_wol c) <= u16_max /\
  ∀ id spec n, c_commands c !! id = Some spec -> cs_timeout_secs spec = Some n -> (Z.of_N n <= i64_max)%Z.

Lemma de_ser_CommandSpec spec :
  (∀ n, cs_timeout_secs spec = Some n -> (Z.of_N n <= i64_max)%Z) ->
  de_CommandSpec (inr (ser_CommandSpec spec)) = Some spec.
Proof.
  intros Hn. destruct spec as [name program args confirm [n|]]; unfold de_CommandSpec, ser_CommandSpec;
    cbn [cs_name cs_program cs_args cs_needs_confirm cs_timeout_secs] in *; reads_back; [|done].
  specialize (Hn n eq_refl). rewrite de_ser_uint; [done|unfold u64_max, i64_max in *; lia|done].
Qed.

Lemma de_ser_commands c :
  (∀ id spec n, c !! id = Some spec -> cs_timeout_secs spec = Some n -> (Z.of_N n <= i64_max)%Z) ->
  de_commands (inr (ser_commands c)) = Some c.
Proof.
  intros Hc. unfold de_commands, ser_commands. cbn [de_table mbind option_bind].
  assert (∀ l, (∀ id spec, (id, spec) ∈ l -> c !! id = Some spec) ->
    mapM (λ '(k, i), pair k <$> de_CommandSpec i) (items (ser_entries l)) = Some l) as Hl.
  { intros l Hin. apply mapM_Some. induction l as [|[id spec] l IH]; cbn [ser_entries items]; constructor.
    - rewrite de_ser_CommandSpec; [done|]. intros n. apply (Hc id). apply Hin. by left.
    - apply IH. intros ? ? ?. apply Hin. by right. }
  rewrite Hl by (intros ? ?; apply elem_of_bt_iter). cbn. f_equal.
  rewrite <- (list_to_map_to_list c) at 2. apply list_to_map_proper.
  - apply bt_keys_NoDup.
  - unfold bt_iter. apply merge_sort_Permutation.
Qed.

Lemma Wf_ser_commands c : Wf (ser_commands c).
Proof.
  unfold ser_commands. pose proof (bt_keys_NoDup c) as Hn. unfold bt_keys in Hn.
  induction (bt_iter c) as [|[id spec] l IH]; [done|]. cbn in Hn |- *. apply NoDup_cons in Hn as [Hid Hn].
  split; [|split; [by destruct (cs_timeout_secs spec); distinct_keys|by apply IH]].
  clear -Hid. induction l as [|[k s] l IH]; cbn in *; [done|].
  apply not_elem_of_cons in Hid as [? ?]. apply not_elem_of_cons. auto.
Qed.

Lemma Wf_ser_Config c : Wf (ser_Config c).
Proof.
  pose proof (Wf_ser_commands (c_commands c)). unfold ser_Config.
  destruct (c_name c); distinct_keys.
Qed.

Lemma de_ser_Config c : ConfigOk c -> de_Config sys (ser_Config c) = Some c.
Proof.
  intros (Hp & Hw & Hc). unfold de_Config, ser_Config. cbv zeta. unfold optional, field.
  destruct c as [[name|] port wol clip sess share ble usb pair commands]; cbn in Hp, Hw, Hc; own_entry;
    rewrite ?de_ser_str; cbn [mbind option_bind fmap option_fmap option_map];
    rewrite port_reads, de_ser_WolConfig, de_ser_ClipboardConfig, de_ser_SessionConfig, de_ser_ShareConfig,
      de_ser_BleConfig, de_ser_UsbConfig, de_ser_PairConfig, de_ser_commands by done; done.
Qed.

Lemma comment_lines ls : forallb comment_line ls = true -> Forall comment_line ls.
Proof. rewrite forallb_forall, Forall_forall. intros Hall l Hl. rewrite (Hall l); [done|]. by apply list_elem_of_In. Qed.

Lemma reference_reads c :
  ∃ t, toml_parse (reference_text c) = Some t /\ Wf t /\ Same t (ser_Config c).
Proof.
  destruct (toml_pretty_reads (ser_Config c) (Wf_ser_Config c)) as (t & E & HS).
  exists t. split_and!; [done|by eapply toml_parse_wf|done].
Qed.

Lemma config_reads_back `{!TomlComments} c :
  ConfigOk c ->
  config_from_str sys (reference_text c) = Some c /\
  config_from_str sys (commented_default (reference_text c)) = Some c.
Proof.
  intros Hc. destruct (reference_reads c) as (t & Hr & Hw & HS).
  assert (Forall comment_line HEADER /\ Forall comment_line HINTS) as [Hh Hn].
  { split; apply comment_lines; vm_compute; reflexivity. }
  unfold config_from_str, commented_default, text_of. unfold reference_text in *.
  rewrite (toml_comments _ _ _ Hh Hn (Wf_ser_Config c)), Hr. cbn [mbind option_bind].
  rewrite (de_Config_same t (ser_Config c)) by (try done; apply Wf_ser_Config). split; by apply de_ser_Config.
Qed.

(** A configuration written out reads back as itself, with whatever
    comments around it: commands, optional name and all. *)
Theorem config_round_trip `{!TomlComments} c :
  ConfigOk c ->
  config_from_str sys (reference_text c) = Some c /\
  config_from_str sys (commented_default (reference_text c)) = Some c.
Proof. apply config_reads_back. Qed.

Lemma default_ok : ConfigOk (Config_default sys).
Proof. split_and!; [done|done|]. cbn. by intros id spec n ?%lookup_empty_Some. Qed.

Lemma Wf_ser_default : Wf (ser_Config (Config_default sys)).
Proof. apply Wf_ser_Config. Qed.

Lemma Config_merged t added : de_Config sys (merge_table (ser_Config (Config_default sys)) "" t added).1 = de_Config sys t.
Proof.
  unfold de_Config, optional. cbv zeta. rewrite !field_merged; [reflexivity|..]; try apply Wf_ser_default; own_entry; try exact I.
  - by apply port_reads.
  - split; [by apply de_ser_WolConfig|]. right. apply WolConfig_merged.
  - split; [by apply de_ser_ClipboardConfig|]. right. apply ClipboardConfig_merged.
  - split; [by apply de_ser_SessionConfig|]. right. apply SessionConfig_merged.
  - split; [by apply de_ser_ShareConfig|]. right. apply ShareConfig_merged.
  - split; [by apply de_ser_BleConfig|]. right. apply BleConfig_merged.
  - split; [by apply de_ser_UsbConfig|]. right. apply UsbConfig_merged.
  - split; [by apply de_ser_PairConfig|]. right. apply PairConfig_merged.
  - split; [done|]. by left.
Qed.

(** Merging from a schema in another order makes no difference either. *)
Lemma merge_same (from from' into : Table toml_value) :
  Wf from -> Wf from' -> Same from from' -> Same (merge_table from "" into []).1 (merge_table from' "" into []).1.
Proof. intros Hw Hw' HS ks. rewrite !merge_entry by done. by rewrite HS. Qed.

Lemma update_reads_same existing text added :
  reconcile existing (reference_text (Config_default sys)) = Some (text, added) ->
  config_from_str sys text = config_from_str sys existing.
Proof.
  intros E. unfold config_from_str.
  destruct (reference_reads (Config_default sys)) as (ref & Er & Hr & HS).
  destruct (toml_parse existing) as [doc|] eqn:Ed; [|unfold reconcile in E; by rewrite Ed in E].
  destruct (reconcile_doc existing _ doc ref Ed Er) as (text' & doc' & E' & _ & Hp & HS').
  rewrite E' in E. injection E as -> _. rewrite Hp. cbn [mbind option_bind].
  rewrite <- (Config_merged doc []). pose proof (toml_parse_wf _ _ Ed) as Hd.
  apply de_Config_same; [by eapply toml_parse_wf|by apply Wf_merge; [apply Wf_ser_default|]|].
  rewrite HS'. by apply merge_same; [|apply Wf_ser_default|].
Qed.

(** C33 (equivalence): Bringing the configuration up to date from the schema of the
    defaults changes no setting: whatever calls fail and wherever the machine
    stops, the file found afterwards reads as the same configuration as before,
    commands and all, or is refused as before.  Of printing a document it is
    only supposed that it reads back with the same entries in each table, in
    whatever order; the order in which the file or the schema lists its settings
    makes no difference to what is read. *)
Theorem update_changes_no_setting p d :
  named p -> with_extension p "toml.new" <> p -> wf d ->
  let d' := (update_file p (reference_text (Config_default sys)) d).2 in
  config_from_str sys ∘ of_bytes <$> read_back d' p = config_from_str sys ∘ of_bytes <$> read_back d p.
Proof.
  intros Hp Hne Hwf. cbv zeta.
  destruct (update_whole p (reference_text (Config_default sys)) d Hp Hne Hwf) as [->|(old & text & added & Eo & Er & ->)].
  - done.
  - rewrite Eo. cbn. rewrite !of_as_bytes. f_equal. by eapply update_reads_same.
Qed.
End update.
