(* ===== verification/Startup.v ===== *)
(** * [acryliusd/src/main.rs]: from arguments to a running daemon

    The config subcommands, the identity, the name, what is told about waking
    this machine, the core the daemon builds, and what it shows of that core.
    [clap]'s parsing of the arguments, random numbers and what the system
    offers (a bus, a display, an input device, an address) are arguments. *)

From Stdlib Require Import Ascii.
From S2P Require Import Prelude Externals Ids Envelope Link Peer Vocab Noise Plugin Ping Command Wol Touchpad Session.
From S2P Require Import Media Clipboard Share CoreState CoreQueries CoreOps CoreHandle.
From S2P Require Import Strs Utf8 Fs Bulk RtStore Files Netself TouchDevice Logind Players Desktop Paths Reconcile Config Ipc Control.
Local Open Scope N_scope.

(* src: crates/acryliusd/src/main.rs 33 33 TCP *)
Definition TCP : TransportId := 1.
(* src: crates/acryliusd/src/main.rs 36 36 BLE *)
Definition BLE : TransportId := 2.

(* src: crates/acryliusd/src/main.rs 68 82 ConfigAction *)
Inductive ConfigAction := CPath | CWritablePaths | CInit | CUpdate | CCheck.

(* src: crates/acryliusd/src/main.rs 40 55 Args *)
Record Args := mkArgs {
  arg_port : u16; arg_state : option string; arg_name : option string; arg_config : option string;
  arg_command : option ConfigAction;
}.

Inductive StartError :=
| StLoad (e : LoadError)
| StIo (e : ErrorKind)
| StUpdate (e : UpdateError)
| NotAKey
| NoRandomness.

(** ** Paths *)

Section paths.
  Context (sys : Surroundings).

(** [trim_start_matches('/')]. *)
Fixpoint trim_slashes (s : string) : string :=
  match s with String c s' => if Ascii.eqb c "/" then trim_slashes s' else s | EmptyString => s end.
(* src: crates/acryliusd/src/main.rs 85 91 expand_home *)
Definition expand_home (p : string) : string :=
  match str_strip_prefix "~" p with
  | None => p
  | Some rest => pb_join (home_dir sys) (trim_slashes rest)
  end.

(* src: crates/acryliusd/src/main.rs 93 102 state_dir *)
Definition state_dir (arg : option string) : string :=
  match arg with
  | Some s => s
  | None => pb_join (default (pb_join (home_dir sys) ".local/share") (env_var sys "XDG_DATA_HOME")) "acrylius"
  end.

(** The lines of [/etc/machine-info]. *)
(* src: crates/acryliusd/src/main.rs 198 205 machine_name *)
Fixpoint pretty_hostname (lines : list string) : option string :=
  match lines with
  | [] => None
  | line :: lines =>
      match str_strip_prefix "PRETTY_HOSTNAME=" (text_trim line) with
      | None => pretty_hostname lines
      | Some value =>
          let value := text_trim (trim_matches (λ c, (c =? DQUOTE) || (c =? QUOTE)) (text_trim value)) in
          if value =s "" then pretty_hostname lines else Some value
      end
  end.
(* src: crates/acryliusd/src/main.rs 197 215 machine_name *)
Definition machine_name : string :=
  match (match read_text sys "/etc/machine-info" with
         | Ok info => pretty_hostname (str_lines info)
         | Err _ => None
         end) with
  | Some value => value
  | None =>
      match read_text sys "/proc/sys/kernel/hostname" with
      | Ok s => if text_trim s =s "" then "acrylius" else text_trim s
      | Err _ => "acrylius"
      end
  end.
End paths.

(** ** The identity *)

Section identity.
  Context `{X25519}.

(** [fs::set_permissions] by name. *)
Definition chmod (p : path) (m : N) : io ErrorKind unit := λ d,
  attempt (λ d, match dir d !! p with
    | Some i => (Ok tt, set_inode i (λ n, n <| mode := m |>) d)
    | None => (Err NotFound, d)
    end) (λ _ d, d) d.

(** [fs::write]. *)
Definition fs_write (p : path) (bs : bytes) : io ErrorKind unit :=
  do! file := create p in write_all file bs.

(* src: crates/acryliusd/src/main.rs 109 109 load_identity *)
Definition key_path (state : path) : path := path_join state "identity.key".

(** [drawn] is what the system's random numbers give, if they give any. *)
(* src: crates/acryliusd/src/main.rs 108 126 load_identity *)
Definition load_identity (state : path) (drawn : option bytes) : io StartError Identity :=
  let p := key_path state in
  io_match (fs_read p) (λ r,
    match r with
    | Ok bs =>
        match array32 bs with
        | None => io_lift (Err NotAKey)
        | Some key => io_ret (Identity_from_private key)
        end
    | Err _ =>
        do! key := io_lift (ok_or drawn NoRandomness) in
        let id := Identity_from_private key in
        do! _ := io_map_err StIo (fs_write p (id_private id)) in
        do! _ := io_map_err StIo (chmod p 0x180) in
        io_ret id
    end).
End identity.

(** ** Waking this machine *)

(* src: crates/acryliusd/src/main.rs 134 167 wake_config *)
Definition wake_config (net : Netself.Sys) (routes : option string) (here : option string) (cfg : Config.WolConfig)
    : Wol.WolConfig :=
  Wol.mkWolConfig
    (if bool_decide (wc_macs cfg = []) then wakeable_macs net routes else wc_macs cfg)
    (if wc_broadcast cfg =s "" then default EmptyString (broadcast_for <$> here) else wc_broadcast cfg)
    (wc_port cfg)
    (if wc_last_ipv4 cfg =s "" then default EmptyString here else wc_last_ipv4 cfg).

(** ** Config maintenance *)

Section maintenance.
  Context `{Toml} `{!Scalars} (quoted : string -> string) (sys : Surroundings) (cwd : path).

(** [Path::exists]: a failure to look is an absence. *)
Definition path_exists (p : path) : io StartError bool := λ d,
  let '(r, d) := attempt (λ d, (match dir d !! p with Some _ => Ok tt | None => Err NotFound end, d)) (λ _ d, d) d in
  (Ok (match r with Ok _ => true | Err _ => false end), d).

Definition fmt_bool (b : bool) : string := if b then "true" else "false".

Fixpoint join_with (sep : string) (ws : list string) : string :=
  match ws with [] => EmptyString | [w] => w | w :: ws => w +:+ sep +:+ join_with sep ws end.

(* src: crates/acryliusd/src/main.rs 266 278 run_config_action *)
Definition update_report (shown : string) (added : list string) : list string :=
  if bool_decide (added = []) then [shown +:+ " is up to date"]%string
  else ("added to " +:+ shown +:+ ":")%string ::
    map (λ '(table, keys),
      "  " +:+ (if table =s "" then "(top level)" else "[" +:+ table +:+ "]") +:+ "  " +:+ join_with ", " keys)%string
      (bt_iter (describe added)).
(* src: crates/acryliusd/src/main.rs 281 287 run_config_action *)
Definition unknown_report (unknown : list string) : list string :=
  if bool_decide (unknown = []) then []
  else "settings this version does not know about, left in place:"%string :: map (λ k, "  " +:+ k)%string unknown.

(* src: crates/acryliusd/src/main.rs 290 313 run_config_action *)
Definition check_report (shown : string) (cfg : Config) : list string :=
  [shown +:+ " parses";
   "  port       " +:+ fmt_u64 (c_port cfg);
   "  commands   " +:+ fmt_u64 (N.of_nat (size (c_commands cfg)));
   "  clipboard  send " +:+ fmt_bool (clip_send (c_clipboard cfg)) +:+ ", receive " +:+ fmt_bool (clip_receive (c_clipboard cfg));
   "  session    " +:+ (if negb (bool_decide (lock_command (c_session cfg) = [])) || negb (bool_decide (unlock_command (c_session cfg) = []))
                        then "using configured commands" else "using logind");
   "  files      land in " +:+ directory (c_share cfg)]%string
  ++ match stale_download_dir sys (directory (c_share cfg)) with
     | Some note => ["  NOTE       " +:+ note]%string
     | None => []
     end.

(** What it prints. *)
(* src: crates/acryliusd/src/main.rs 233 316 run_config_action *)
Definition run_config_action (action : ConfigAction) (p : string) : io StartError (list string) :=
  let reference := reference_text (Config_default sys) in
  let file := file_at cwd p in
  match action with
  | CPath => io_ret [display p]
  | CWritablePaths =>
      let cfg := match Config_load sys quoted p with Ok c => c | Err _ => Config_default sys end in
      let dir := expand_home sys (directory (c_share cfg)) in
      io_ret (if dir =s "" then [] else [display dir])
  | CInit =>
      do! there := path_exists file in
      if there then io_ret [display p +:+ " exists; left alone"]%string
      else
        do! _ := io_map_err StIo (fs_write file (as_bytes (commented_default reference))) in
        io_ret ["wrote " +:+ display p]%string
  | CUpdate =>
      do! there := path_exists file in
      if negb there then io_ret ["no config at " +:+ display p +:+ "; nothing to update"]%string
      else
        do! added := io_map_err StUpdate (update_file file reference) in
        do! text := io_map_err StIo (fs_read file) in
        io_ret (update_report (display p) added ++ unknown_report (unknown_keys (of_bytes text) reference))
  | CCheck =>
      do! cfg := io_lift (map_err StLoad (Config_load sys quoted p)) in
      io_ret (check_report (display p) cfg)
  end.
End maintenance.

(** ** What is shown of the core *)

Section shown.
  Context `{Externs}.
  Implicit Types c : Core.

(* src: crates/acryliusd/src/main.rs 173 175 broadcast_placeholder *)
Definition broadcast_placeholder : DeviceId := DeviceId_of (replicate 32 Byte.x00).

(* src: crates/acryliusd/src/main.rs 177 190 snapshot_devices *)
Definition snapshot_devices c : list Device :=
  omap (λ p,
    id ← record_id p;
    fp ← record_fingerprint p;
    Some (mkDevice (did_str id) (pr_name p) (pr_platform p) (fp_str fp) (bool_decide (peer_state id c = Reachable))))
    (bt_values (peers c)).

(* src: crates/acryliusd/src/main.rs 219 229 snapshot_nearby *)
Definition snapshot_nearby c : list Ipc.Nearby :=
  map (λ n, Ipc.mkNearby (fp_str (CoreQueries.nb_fingerprint n)) (CoreQueries.nb_name n) (CoreQueries.nb_addr n)
    (CoreQueries.nb_transport n) (CoreQueries.nb_pairing n)) (nearby c).

(* src: crates/acryliusd/src/main.rs 472 478 main *)
Definition snapshot_pending c : option Confirmation :=
  (λ q, mkConfirmation (pp_name q) (fp_str (pp_fingerprint q)) (pp_sas q)) <$> pending_pairing c.

(** [free] says of each of the four locks whether nobody holds it. *)
(* src: crates/acryliusd/src/main.rs 465 484 main *)
Definition observe (free : bool * bool * bool * bool) c (h : Handles) : Handles :=
  let '(d, n, p, s) := free in
  let h := if d then h <| h_devices := snapshot_devices c |> else h in
  let h := if n then h <| h_nearby := snapshot_nearby c |> else h in
  let h := if p then h <| h_pending_pair := snapshot_pending c |> else h in
  if s then h <| h_status ::= fmap (λ st,
      mkStatus (st_name st) (st_device_id st) (st_fingerprint st) (st_port st) (len (bt_values (peers c)))
        (st_caps_in st) (st_caps_out st)) |>
  else h.
End shown.

(** ** The daemon *)

(** What the system has to offer. *)
Record Offered := mkOffered {
  of_session_bus : bool; of_media_bus : bool; of_wayland : bool; of_uinput : bool;
  of_local_address : string;
  of_dir_made : result unit ErrorKind;
  of_net : Netself.Sys; of_routes : option string; of_here : option string;
  of_drawn : option bytes;
}.

(* src: crates/acrylius-linux/src/effector.rs 31 73 LinuxEffector::new *)
Definition LinuxEffector_new (catalog : CommandCatalog) (session_commands : SessionCommands) (o : Offered)
    : LinuxEffector :=
  mkLinuxEffector (if of_session_bus o then Some session_commands else None) (of_media_bus o) catalog (of_wayland o)
    (if of_uinput o then Some PadState_default else None) 0.

Section daemon.
  Context `{Toml} `{!Scalars} (quoted : string -> string) (sys : Surroundings) (cwd : path).
  Context `{X25519} `{Externs} `{!ReadDir}.
  Context `{!Cbor ErrorBody} `{!Cbor SessionState} `{!Cbor CommandList} `{!Cbor RunRequest} `{!Cbor ClipboardSet}
    `{!Cbor Wol.WolConfig} `{!Cbor RelayRequest} `{!Cbor MediaState} `{!Cbor MediaCommand} `{!Cbor Offer}
    `{!Cbor Share.Accept} `{!Cbor Share.Finished} `{!Cbor Begin} `{!Cbor TouchFrame}.

(* src: crates/acryliusd/src/main.rs 421 436 main *)
Definition daemon_plugins (cfg : Config) (o : Offered) (e : LinuxEffector) : list DynPlugin :=
  [Dyn (mkPingPlugin 0);
   Dyn SessionPlugin_default;
   Dyn (WolPlugin_new (wake_config (of_net o) (of_routes o) (of_here o) (c_wol cfg)) (wc_allowlist (c_wol cfg)));
   Dyn (ClipboardPlugin_new (mkDirections (clip_send (c_clipboard cfg)) (clip_receive (c_clipboard cfg))));
   Dyn (CommandPlugin_new (catalog_manifest (le_catalog e)));
   Dyn MediaPlugin_default;
   Dyn SharePlugin_default;
   Dyn TouchpadPlugin_default].

(* src: crates/acryliusd/src/main.rs 413 418 main *)
Definition daemon_config (cfg : Config) (name : string) : CoreConfig := {|
  cfg_name := name;
  cfg_platform := "linux";
  pairing_window_ms := pairing_window_ms CoreConfig_default;
  accept_pair_requests := pair_enabled (c_pair cfg);
  pair_cooldown_ms := pair_cooldown_ms CoreConfig_default;
  pair_denied_cooldown_ms := pair_denied_cooldown_ms CoreConfig_default;
  reconnect_every_ms := reconnect_every_ms CoreConfig_default;
  handshake_timeout_ms := handshake_timeout_ms CoreConfig_default;
  dial_timeout_ms := dial_timeout_ms CoreConfig_default;
|}.

(* src: crates/acryliusd/src/main.rs 411 438 main *)
Definition daemon_builder (cfg : Config) (o : Offered) (id : Identity) (name : string) (e : LinuxEffector)
    (kinds : list EffectKind) (peers : list PeerRecord) : CoreBuilder :=
  with_restored peers (with_plugins (daemon_plugins cfg o e)
    (with_effects kinds (CoreBuilder_new id (daemon_config cfg name)))).

(* src: crates/acryliusd/src/main.rs 440 448 main *)
Definition first_status (name : string) (port : u16) (c : Core) : Status :=
  mkStatus name (did_str (core_device_id c)) (fp_str (core_fingerprint c)) port (len (bt_values (peers c)))
    (caps_in c) (caps_out c).

Record Daemon := mkDaemon {
  dm_core : Core;
  dm_store : FileStore;
  dm_effector : LinuxEffector;
  (** the rest of what the effector is given *)
  dm_wol : WolSettings;
  dm_bulk : option FileBulk;
  dm_kinds : list EffectKind;
  dm_handles : Handles;
  dm_transports : list TransportId;
  dm_usb : bool;
  (** which watchers run: of the clipboard, of the session, of the players *)
  dm_watchers : bool * bool * bool;
}.

Definition has_kind (k : EffectKind) (kinds : list EffectKind) : bool := bool_decide (k ∈ kinds).

(** No download directory turns receiving files off; one that cannot be
    written to is only reported. *)
(* src: crates/acryliusd/src/main.rs 379 403 main *)
Definition open_downloads (cfg : Config) (o : Offered) : io StartError (option FileBulk) :=
  match of_dir_made o with
  | Err _ => io_ret None
  | Ok _ =>
      let host := if advertise_host (c_share cfg) =s "" then None else Some (advertise_host (c_share cfg)) in
      let b := FileBulk_new (file_at cwd (expand_home sys (directory (c_share cfg)))) host (of_local_address o) in
      io_match (writable b) (λ _, io_ret (Some b))
  end.

(* src: crates/acryliusd/src/main.rs 341 490 main *)
Definition start_daemon (args : Args) (o : Offered) : io StartError Daemon :=
  let state := file_at cwd (state_dir sys (arg_state args)) in
  do! cfg := io_lift (map_err StLoad (Config_load sys quoted (default (default_path sys) (arg_config args)))) in
  let port := if arg_port args =? DEFAULT_PORT then c_port cfg else arg_port args in
  do! id := load_identity state (of_drawn o) in
  let store := mkFileStore state in
  do! known := io_map_err StIo (load_peers store) in
  let name := match arg_name args with
              | Some n => n
              | None => default (machine_name sys) (c_name cfg)
              end in
  let session_commands := mkSessionCommands (lock_command (c_session cfg)) (unlock_command (c_session cfg)) in
  let effector := LinuxEffector_new (Config_catalog cfg) session_commands o in
  do! bulk := open_downloads cfg o in
  let kinds := supported effector ++ match bulk with Some _ => [KShare] | None => [] end in
  let core := build_core (daemon_builder cfg o id name effector kinds known) in
  let status := first_status name port core in
  io_ret (mkDaemon core store effector (Config_wol_settings cfg) bulk kinds
    (mkHandles TCP bulk (Some status) (snapshot_devices core) (snapshot_nearby core) None)
    (TCP :: if ble_enabled (c_ble cfg) then [BLE] else [])
    (usb_enabled (c_usb cfg) && has_kind KTouchpad kinds)
    (has_kind KClipboard kinds && clip_send (c_clipboard cfg), has_kind KSession kinds, has_kind KMedia kinds)).

(** What the watchers submit: the clipboard's, when it has changed, and those
    of the two clocks. *)
(* src: crates/acryliusd/src/main.rs 641 660 main *)
Definition clipboard_watch (data : bytes) : Event :=
  Local (LocalPlugin broadcast_placeholder CLIPBOARD_CAP "changed" data).
(* src: crates/acryliusd/src/main.rs 661 684 main *)
Definition session_watch : Event := Local (LocalPlugin broadcast_placeholder SESSION_CAP "notify" []).
(* src: crates/acryliusd/src/main.rs 686 710 main *)
Definition media_watch : Event := Local (LocalPlugin broadcast_placeholder MEDIA_CAP "notify" []).

(** What a run of the binary comes to: lines printed, or a daemon. *)
(* src: crates/acryliusd/src/main.rs 331 345 main *)
Definition main_ (args : Args) (o : Offered) : io StartError (list string + Daemon) :=
  match arg_command args with
  | Some action =>
      do! lines := run_config_action quoted sys cwd action (default (default_path sys) (arg_config args)) in
      io_ret (inl lines)
  | None => do! d := start_daemon args o in io_ret (inr d)
  end.
End daemon.
