(* ===== verification/StartupTheorems.v ===== *)
(** * What starting the daemon guarantees

    The identity is made once and found again; no process is started but the
    configured commands and the sound server's tools;
    the config subcommands keep the configuration; what is trusted outlives
    the process. *)

From Stdlib Require Import Ascii.
From S2P Require Import Host.
From S2P Require Import Prelude Externals Ids Envelope Link Peer Vocab Noise Plugin Ping Command Wol Touchpad Session.
From S2P Require Import Media Clipboard Share CoreState CoreQueries CoreOps CoreHandle CoreTheorems.
From S2P Require Import Strs Utf8 Fs Bulk RtStore RtMirror Files Netself TouchDevice Logind Players Desktop Paths Reconcile Config Ipc Control Startup.
Local Open Scope N_scope.

(** ** The identity *)

Section identity.
  Context `{X25519}.

(** A file written in one go, when every call goes through. *)
Lemma fs_write_healthy p bs d :
  wf d -> healthy d -> ∃ i d', fs_write p bs d = (Ok tt, d') /\ Building d d' p i bs.
Proof.
  intros Hwf Hh. destruct (create_healthy p d Hwf Hh) as (i & d1 & E1 & B1).
  unfold fs_write, io_bind. rewrite E1. unfold write_all. rewrite attempt_healthy by apply B1.
  exists i. eexists. split; [reflexivity|]. apply Building_touch with []; [intros n E; cbn; by rewrite E|done].
Qed.

Lemma chmod_healthy p m d i :
  healthy d -> dir d !! p = Some i -> chmod p m d = (Ok tt, set_inode i (λ n, n <| mode := m |>) d).
Proof. intros Hh Hi. unfold chmod. by rewrite attempt_healthy, Hi. Qed.

(** Who may read a file. *)
Definition mode_of (d : disk) (p : path) : option N := i ← dir d !! p; mode <$> inodes d !! i.

(** A key that is there is the identity, and nothing is written. *)
Lemma load_identity_there state drawn d bs :
  healthy d -> read_back d (key_path state) = Some bs ->
  load_identity state drawn d =
    (match array32 bs with Some key => Ok (Identity_from_private key) | None => Err NotAKey end, d).
Proof.
  intros Hh Hr. unfold load_identity, io_match, fs_read. rewrite attempt_healthy, Hr by done. cbn.
  by destruct (array32 bs).
Qed.

(** However a start comes by its identity, it is then the one on the disk, and no
    other file reads differently. *)
Lemma load_identity_ok state drawn d id d' :
  wf d -> healthy d -> (∀ k, drawn = Some k -> len k = 32) -> load_identity state drawn d = (Ok id, d') ->
  wf d' /\ healthy d' /\ (∀ q, q <> key_path state -> read_back d' q = read_back d q) /\
  ∃ key, len key = 32 /\ id = Identity_from_private key /\ read_back d' (key_path state) = Some key /\
    ∀ bs, read_back d (key_path state) = Some bs -> key = bs.
Proof.
  intros Hwf Hh Hd. destruct (read_back d (key_path state)) as [bs|] eqn:Er.
  - rewrite (load_identity_there state drawn d bs Hh Er). unfold array32.
    destruct (N.eqb_spec (len bs) 32) as [Hl|]; intros [= <- <-]. split_and!; [done..|].
    exists bs. split_and!; [done..|]. by intros ? [= ->].
  - unfold load_identity, io_match, fs_read. rewrite attempt_healthy, Er by done.
    unfold ok_or at 1. cbv iota. unfold io_bind at 1, io_lift. destruct drawn as [key|]; cbn [ok_or]; [|done].
    destruct (fs_write_healthy (key_path state) key d Hwf Hh) as (i & d1 & E1 & B1).
    unfold io_bind, io_map_err. cbn [id_private Identity_from_private]. rewrite E1. cbn [map_err].
    pose proof B1 as [[_ [Hdir _]] Hh1]. rewrite (chmod_healthy (key_path state) 0x180 d1 i Hh1 Hdir).
    intros [= <- <-]. set (d2 := set_inode i _ d1).
    assert (Building d d2 (key_path state) i key) as [[[Hwf2 Hk2] [Hdir2 Hin2]] Hh2] by (by apply Building_touch with key).
    split_and!; [done|done|exact Hk2|]. exists key. split_and!; [by apply Hd|done| |done].
    unfold read_back. rewrite Hdir2. exact Hin2.
Qed.

(** The next call to the system goes through; the ones after it may not. *)
Definition looks (d : disk) : Prop := match faults d with [] | Fine :: _ => True | _ => False end.
Definition looked (d : disk) : disk := d <| faults ::= tail |>.

Lemma fs_read_looks p d : looks d -> fs_read p d = (ok_or (read_back d p) NotFound, looked d).
Proof.
  unfold looks, fs_read, attempt, looked. destruct d as [? ? ? ? [|[]]]; cbn; [done|done|done..].
Qed.

Lemma fs_write_keeps p bs d0 :
  triple (Kept p d0) (fs_write p bs) (λ _ d, ∃ i, Filling p i bs d0 d) (Kept p d0).
Proof.
  unfold fs_write. eapply triple_bind; [apply create_keeps|]. intros i d Hd.
  pose proof (write_all_keeps p i [] bs d0 d Hd) as Hw. destruct (write_all i bs d) as [[[]|e] d']; [by exists i|done].
Qed.

Lemma chmod_keeps p i bs m d0 :
  triple (Filling p i bs d0) (chmod p m) (λ _ d, Filling p i bs d0 d /\ mode_of d p = Some m) (Kept p d0).
Proof.
  apply triple_attempt; [by intros; apply Filling_faults| |apply Filling_Kept|by intros; eapply Filling_Kept].
  intros d [HK [Hdir Hin]]. rewrite Hdir. split.
  - by apply Filling_touch with bs.
  - unfold mode_of. cbn. rewrite Hdir. cbn. rewrite lookup_alter_eq. cbn in Hin. by destruct (inodes d !! i).
Qed.

(** C13 (roundtrip): the identity is made once.  Take any start whose first call,
    the look for the key, goes through, whatever calls fail after it; a look that
    itself fails is left out ([identity_lost_on_read_error]).  No file but the key
    reads differently after it.  Where a key is there, nothing is written and the
    start goes on with the identity of that key, or is refused when it has not 32
    bytes.  Where none is, the start goes on only when a key (of 32 bytes) was drawn and is, by then, on the disk whole and readable by its owner only, and it does go on when
    one was drawn and no call fails.  And once a start went on, every later one
    that finds the key as that one left it, and whose look goes through, has the
    same identity and writes nothing, whatever it draws.  (A start whose write
    fails part of the way does not go on, and may leave part of a key,
    which later starts refuse: [identity_torn_is_fatal].) *)
Theorem identity_kept state drawn d r d' :
  wf d -> looks d -> (∀ k, drawn = Some k -> len k = 32) -> load_identity state drawn d = (r, d') ->
  let p := key_path state in
  (∀ q, q <> p -> read_back d' q = read_back d q) /\
  match read_back d p with
  | Some bs => d' = looked d /\
      r = match array32 bs with Some key => Ok (Identity_from_private key) | None => Err NotAKey end
  | None =>
      (∀ id, r = Ok id -> ∃ key, drawn = Some key /\ id = Identity_from_private key /\
        read_back d' p = Some key /\ mode_of d' p = Some 0x180) /\
      (∀ key, drawn = Some key -> healthy d -> r = Ok (Identity_from_private key))
  end /\
  ∀ id later again, r = Ok id -> looks later -> read_back later p = read_back d' p ->
    load_identity state again later = (Ok id, looked later).
Proof.
  intros Hwf Hl Hd E. cbv zeta. set (p := key_path state).
  assert (∀ st dr dk bs, looks dk -> read_back dk (key_path st) = Some bs -> load_identity st dr dk =
    (match array32 bs with Some key => Ok (Identity_from_private key) | None => Err NotAKey end, looked dk)) as Hthere.
  { intros st dr dk bs Hk Hr. unfold load_identity, io_match. rewrite fs_read_looks, Hr by done. cbn.
    by destruct (array32 bs). }
  destruct (read_back d p) as [bs|] eqn:Er.
  - rewrite (Hthere state drawn d bs Hl Er) in E. injection E as <- <-. split_and!; [done..|].
    intros id later again Hok Hlk Hlr. change (read_back (looked d) p) with (read_back d p) in Hlr.
    rewrite (Hthere state again later bs Hlk) by (by fold p; rewrite Hlr). by rewrite Hok.
  - unfold load_identity, io_match in E. fold p in E. rewrite fs_read_looks, Er in E by done. cbn [ok_or] in E.
    assert (Kept p d (looked d)) as HK0 by (by apply Kept_faults, Kept_refl).
    destruct drawn as [key|]; [|by injection E as <- <-].
    unfold io_bind at 1, io_lift, ok_or in E. unfold io_bind, io_map_err in E. cbn [id_private Identity_from_private] in E.
    pose proof (fs_write_keeps p key d (looked d) HK0) as Hw.
    pose proof (λ H, fs_write_healthy p key (looked d) (proj1 HK0) H) as Hh.
    destruct (fs_write p key (looked d)) as [[[]|e] d1]; cbn [map_err] in E; cycle 1.
    { injection E as <- <-. split_and!; [apply Hw|done| |done]. intros k _ Hhd.
      destruct Hh as (? & ? & [=] & _). unfold healthy, looked in *. cbn. by rewrite Hhd. }
    destruct Hw as [i HF]. pose proof (chmod_keeps p i key 0x180 d d1 HF) as Hc.
    assert (healthy d -> (chmod p 0x180 d1).1 = Ok tt) as Hch.
    { intros Hhd. destruct Hh as (j & d2 & [= <-] & [[_ [Hdir _]] Hh1]).
      { unfold healthy, looked in *. cbn. by rewrite Hhd. }
      by rewrite (chmod_healthy p 0x180 d1 j). }
    destruct (chmod p 0x180 d1) as [[[]|e] d2]; cbn [map_err] in E; injection E as <- <-; cycle 1.
    { split_and!; [apply Hc|done| |done]. intros k _ Hhd. by specialize (Hch Hhd). }
    destruct Hc as [[HK2 [Hdir2 Hin2]] Hm]. assert (read_back d2 p = Some key) as Hr2.
    { unfold read_back. rewrite Hdir2. exact Hin2. }
    split_and!; [apply HK2| |by intros ? [= <-]|].
    + intros id [= <-]. by exists key.
    + intros id later again [= <-] Hlk Hlr. rewrite (Hthere state again later key Hlk) by (by fold p; rewrite Hlr).
      unfold array32. by rewrite (Hd key eq_refl).
Qed.

(** Only a missing file should lead to a new identity, but any failure to read
    it does: the key every paired device knows this machine by is overwritten. *)
Theorem identity_lost_on_read_error state old new d :
  wf d -> read_back d (key_path state) = Some old -> len new = 32 -> faults d = [Fails 0] ->
  ∃ d', load_identity state (Some new) d = (Ok (Identity_from_private new), d') /\
    read_back d' (key_path state) = Some new.
Proof.
  intros Hwf Hr Hn Hf. set (p := key_path state) in *. set (d0 := d <| faults := [] |>).
  assert (wf d0) as Hwf0 by by apply wf_faults.
  destruct (fs_write_healthy p new d0 Hwf0 eq_refl) as (i & d1 & E1 & B1).
  pose proof B1 as [[_ [Hdir Hin]] Hh1].
  set (d2 := set_inode i (λ n, n <| mode := 0x180 |>) d1).
  assert (Building d0 d2 p i new) as [[_ [Hdir2 Hin2]] _] by (by apply Building_touch with new).
  exists d2. split.
  - unfold load_identity, io_match, fs_read, attempt. fold p. rewrite Hf. fold d0.
    unfold io_bind at 1, io_lift, ok_or. unfold io_bind, io_map_err. cbn [id_private Identity_from_private].
    rewrite E1. cbn [map_err]. by rewrite (chmod_healthy p 0x180 d1 i).
  - unfold read_back. rewrite Hdir2. exact Hin2.
Qed.

Lemma created_faults t d f : created t (d <| faults := f |>) = ((created t d).1, (created t d).2 <| faults := f |>).
Proof. unfold created. cbn. by destruct (dir d !! t). Qed.

(** The key is written in place: stopped half way, it is refused by every start
    until somebody removes it. *)
Theorem identity_torn_is_fatal state new n d :
  wf d -> read_back d (key_path state) = None -> len new = 32 -> (n < 32)%nat ->
  faults d = [Fine; Fine; Fails n] ->
  ∃ d', load_identity state (Some new) d = (Err (StIo OtherError), d') /\
    ∀ again, load_identity state again d' = (Err NotAKey, d').
Proof.
  intros Hwf Hr Hn Hlt Hf. set (p := key_path state) in *. set (d0 := d <| faults := [] |>).
  assert (wf d0) as Hwf0 by by apply wf_faults.
  destruct (created_fills p d0 d0 (Kept_refl p d0 Hwf0)) as (i & d1 & E1 & HF & Hf1).
  pose proof (Filling_append p i [] (take n new) d0 d1 HF) as [_ [Hdir Hin]].
  set (d2 := set_inode i (append_to (take n new)) d1) in *.
  exists (d2 <| faults := [] |>). split.
  - unfold load_identity, io_match, fs_read. fold p. unfold attempt at 1. rewrite Hf.
    change (read_back (d <| faults := [Fine; Fails n] |>) p) with (read_back d p). rewrite Hr.
    assert (fs_write p new (d <| faults := [Fine; Fails n] |>) = (Err OtherError, d2 <| faults := [] |>)) as Ew.
    { unfold fs_write, io_bind.
      change (create p (d <| faults := [Fine; Fails n] |>)) with (created p (d0 <| faults := [Fails n] |>)).
      by rewrite created_faults, E1. }
    unfold ok_or. unfold io_bind at 1, io_lift. unfold io_bind, io_map_err. cbn [id_private Identity_from_private].
    by rewrite Ew.
  - intros again. rewrite (load_identity_there state again _ (take n new)); [|done|].
    + assert (len (take n new) <> 32) as Hne.
      { unfold len in *. rewrite length_take. lia. }
      unfold array32. by rewrite (proj2 (N.eqb_neq _ _)).
    + unfold read_back. fold p. cbn [dir inodes]. change (dir d2 !! p ≫= (λ j, data <$> inodes d2 !! j) = Some (take n new)).
      rewrite Hdir. exact Hin.
Qed.
End identity.

(** ** Only what is configured runs *)

Section commands.
  Context `{Toml} `{!Scalars} (quoted : string -> string) (sys : Surroundings) (cwd : path).
  Context `{X25519} `{Externs} `{!ReadDir} {TX : Texts}.
  Context `{!Cbor ErrorBody} `{!Cbor SessionState} `{!Cbor SessionOutcome} `{!Cbor CommandList} `{!Cbor RunRequest}
    `{!Cbor Exited} `{!Cbor ClipboardSet} `{!Cbor Wol.WolConfig} `{!Cbor RelayRequest} `{!Cbor MediaState}
    `{!Cbor MediaCommand} `{!Cbor Offer} `{!Cbor Share.Accept} `{!Cbor Share.Finished} `{!Cbor Begin} `{!Cbor TouchFrame}.

Lemma run_effect_same eff m e r started e' :
  run_effect quoted eff m e = (r, started, e') -> le_catalog e' = le_catalog e /\ le_session e' = le_session e.
Proof.
  destruct eff; cbn [run_effect]; intros E; try (by injection E as <- <- <-).
  - destruct (le_session e) eqn:Es; [destruct (session_act _ _ _ _) as [[? ?] ?]|]; by injection E as <- <- <-.
  - destruct (le_session e) eqn:Es; [destruct (session_act _ _ _ _) as [[? ?] ?]|]; by injection E as <- <- <-.
  - destruct (le_catalog e !! id); by injection E as <- <- <-.
  - destruct (le_media e); by injection E as <- <- <-.
  - destruct (le_media e); [destruct (control_and_settle _ _ _ _ _ _ _ _) as [[[? ?] ?] ?]|]; by injection E as <- <- <-.
  - destruct (le_touchpad e); [destruct (pad_run _ _ _ _)|]; by injection E as <- <- <-.
Qed.

(** The processes started by a run of effects. *)
Fixpoint run_effects (l : list (Effect * Machine)) (e : LinuxEffector) : list (list string) :=
  match l with
  | [] => []
  | (eff, m) :: l => let '(_, started, e) := run_effect quoted eff m e in started ++ run_effects l e
  end.

Lemma may_start_same eff e e' argv :
  le_catalog e' = le_catalog e -> le_session e' = le_session e -> may_start eff e' argv -> may_start eff e argv.
Proof. intros Hc Hs. destruct eff; cbn; by rewrite ?Hc, ?Hs. Qed.

Lemma run_effects_started l : ∀ e argv,
  argv ∈ run_effects l e -> ∃ eff m, (eff, m) ∈ l /\ may_start eff e argv.
Proof.
  induction l as [|[eff m] l IH]; intros e argv; cbn [run_effects]; [by intros ?%elem_of_nil|].
  destruct (run_effect quoted eff m e) as [[r started] e'] eqn:E.
  pose proof (run_effect_same _ _ _ _ _ _ E) as [Hc Hs]. intros [Hin|Hin]%elem_of_app.
  - exists eff, m. split; [by left|]. by eapply run_effect_starts.
  - destruct (IH e' argv Hin) as (eff' & m' & Hin' & Hm). exists eff', m'. split; [by right|].
    by eapply may_start_same.
Qed.

(** A configuration that loads has only absolute programs, under names. *)
Lemma load_validated p cfg :
  Config_load sys quoted p = Ok cfg ->
  ∀ id spec, c_commands cfg !! id = Some spec -> id <> ""%string /\ is_absolute (cs_program spec) = true.
Proof.
  unfold Config_load. destruct (read_text sys p) as [text|[]]; try done.
  - destruct (config_from_str sys text) as [c|]; [|done].
    destruct (catalog_validate quoted (Config_catalog c)) as [[]|] eqn:Ev; [|done]. intros [= <-].
    exact (proj1 (validate_spec quoted _) Ev).
  - intros [= <-]. cbn. by intros id spec ?%lookup_empty_Some.
Qed.

Lemma start_daemon_inv args o d dm d' :
  start_daemon quoted sys cwd args o d = (Ok dm, d') ->
  ∃ cfg id known d1 d2,
    Config_load sys quoted (default (default_path sys) (arg_config args)) = Ok cfg /\
    load_identity (file_at cwd (state_dir sys (arg_state args))) (of_drawn o) d = (Ok id, d1) /\
    load_peers (mkFileStore (file_at cwd (state_dir sys (arg_state args)))) d1 = (Ok known, d2) /\
    dm_store dm = mkFileStore (file_at cwd (state_dir sys (arg_state args))) /\
    dm_effector dm = LinuxEffector_new (Config_catalog cfg)
      (mkSessionCommands (lock_command (c_session cfg)) (unlock_command (c_session cfg))) o /\
    dm_core dm = build_core (daemon_builder cfg o id
      (match arg_name args with Some n => n | None => default (machine_name sys) (c_name cfg) end)
      (dm_effector dm) (dm_kinds dm) known) /\
    dm_kinds dm = supported (dm_effector dm) ++ match dm_bulk dm with Some _ => [KShare] | None => [] end /\
    open_downloads sys cwd cfg o d2 = (Ok (dm_bulk dm), d').
Proof.
  unfold start_daemon, io_bind at 1, io_lift.
  destruct (Config_load sys quoted _) as [cfg|] eqn:Ec; cbn [map_err]; [|done]. cbv zeta.
  unfold io_bind at 1. destruct (load_identity _ _ d) as [[id|] d1] eqn:Ei; [|done].
  unfold io_bind at 1, io_map_err. destruct (load_peers _ d1) as [[known|] d2] eqn:Ek; cbn [map_err]; [|done].
  unfold io_bind. destruct (open_downloads sys cwd cfg o d2) as [[bulk|] d3] eqn:Eb; [|done].
  intros [= <- <-]. exists cfg, id, known, d1, d2. cbn [dm_store dm_effector dm_core dm_kinds dm_bulk]. done.
Qed.

(** Why an effect starts a process: the programs and their arguments are those of
    the configuration, but for the tools of the sound server. *)
Definition configured_for (cfg : Config) (eff : Effect) (argv : list string) : Prop :=
  match eff with
  | RunCommand id => ∃ spec, id <> ""%string /\ c_commands cfg !! id = Some spec /\
      is_absolute (cs_program spec) = true /\ argv = cs_program spec :: cs_args spec
  | LockSession => argv = lock_command (c_session cfg) /\ argv <> []
  | UnlockSession => argv = unlock_command (c_session cfg) /\ argv <> []
  | MediaQuery => argv ∈ reading_tools
  | MediaControl player action =>
      argv ∈ reading_tools \/
      ∃ percent, player = ""%string /\ action = SetVolume percent /\ argv ∈ setting_tools (N.min percent 100)
  | _ => False
  end.

(** C34 (safety): Whatever effects a started daemon's effector is asked for, in
    whatever order and whatever the machine answers, every process it starts is,
    with all its arguments, one of these, and the effect that started it was
    asked for: a command of the configuration the daemon loaded, asked for by
    its id, which is not empty, and whose program is an absolute path; the command
    the configuration gives to lock a session, or to unlock one, for that very
    effect, where it gives one (its program need not be absolute); and, for an
    effect about the media players, wpctl or pactl, which are looked for along
    the path, with fixed arguments that read the volume of the default sink, or,
    only to set the machine's volume, with fixed arguments that set it to the
    percentage asked for, at most 100, and unmute it. *)
Theorem only_configured_run args o d dm d' effs argv :
  start_daemon quoted sys cwd args o d = (Ok dm, d') ->
  argv ∈ run_effects effs (dm_effector dm) ->
  ∃ cfg eff m, Config_load sys quoted (default (default_path sys) (arg_config args)) = Ok cfg /\
    (eff, m) ∈ effs /\ configured_for cfg eff argv.
Proof.
  intros E Hin. apply start_daemon_inv in E as (cfg & id & known & d1 & d2 & Ec & _ & _ & _ & He & _).
  rewrite He in Hin. destruct (run_effects_started effs _ argv Hin) as (eff & m & Hm & Hs).
  exists cfg, eff, m. split_and!; [done|done|].
  destruct eff as [| | | | | |cid| |player action|macs dests port|order op|ns verb payload]; try exact Hs; cbn in Hs |- *.
  - destruct Hs as (c & Hc & -> & Hne). destruct (of_session_bus o); [|done]. injection Hc as <-. done.
  - destruct Hs as (c & Hc & -> & Hne). destruct (of_session_bus o); [|done]. injection Hc as <-. done.
  - destruct Hs as (spec & Hl & ->). change (c_commands cfg !! cid = Some spec) in Hl.
    destruct (load_validated _ cfg Ec cid spec Hl) as [Hne Ha]. by exists spec.
Qed.
End commands.

(** ** Config maintenance *)

Section maintenance.
  Context `{TomlLaws} `{!Scalars} `{!ScalarsLaws} (quoted : string -> string) (sys : Surroundings) (cwd : path).

(** An update writes the configuration and the temporary beside it only. *)
Lemma update_file_others p reference d q :
  named p -> with_extension p "toml.new" <> p -> wf d -> q <> p -> q <> with_extension p "toml.new" ->
  read_back (update_file p reference d).2 q = read_back d q.
Proof.
  intros Hp Hne Hwf Hq Hqt. set (t := with_extension p "toml.new") in *.
  assert (∀ d', Kept t d d' -> read_back d' q = read_back d q) as HK by (intros d' [_ Hk]; by apply Hk).
  unfold update_file, io_bind at 1, io_map_err at 1.
  pose proof (fs_read_keeps t d p d (Kept_refl t d Hwf)) as Hr.
  destruct (fs_read p d) as [[bs|e] d1]; cbn [map_err]; [|by apply HK]. destruct Hr as [Hk1 _].
  unfold io_bind at 1, io_lift. destruct (reconcile (of_bytes bs) reference) as [[text added]|]; cbn [ok_or]; [|by apply HK].
  case_bool_decide; [by apply HK|]. unfold io_bind. pose proof (write_over_keeps p text d Hp Hne d1 Hk1) as Hw.
  destruct (write_over p text d1) as [[[]|e] d2]; [|by apply HK]. destruct Hw as (_ & _ & _ & Hw). by apply Hw.
Qed.

Lemma path_exists_disk p d : ∃ b f, path_exists p d = (Ok b, d <| faults := f |>) /\
  (b = true -> is_Some (dir d !! p)) /\
  (is_Some (dir d !! p) -> (∀ n, head (faults d) <> Some (Fails n)) -> b = true \/ head f = Some Halts).
Proof.
  destruct d as [di inos fr pa fs]. unfold path_exists, attempt. cbn [faults dir].
  destruct fs as [|[| n|] fs]; cbn [faults dir].
  - exists (if di !! p then true else false), []. split; [by destruct (di !! p)|]. destruct (di !! p); naive_solver.
  - exists (if di !! p then true else false), fs. split; [by cbn; destruct (di !! p)|]. destruct (di !! p); naive_solver.
  - exists false, fs. split; [done|]. split; [done|]. intros _ Hn. by destruct (Hn n).
  - exists false, (Halts :: fs). split; [done|]. split; [done|]. by right.
Qed.

Lemma io_bind_ok {E A B} (m : io E A) (k : A -> io E B) d a d' : m d = (Ok a, d') -> io_bind m k d = k a d'.
Proof. unfold io_bind. by intros ->. Qed.

Lemma fs_write_halted p bs d fs : faults d = Halts :: fs -> (fs_write p bs d).2 = d.
Proof. intros Hf. unfold fs_write, io_bind, create, attempt. by rewrite Hf. Qed.

(** A config subcommand never takes a setting away: whatever calls fail
    and wherever the machine stops, no file but the configuration and the
    temporary of an update reads differently afterwards, and a configuration
    that was there reads as the same settings, or is refused as before; [init]
    promises it as long as the look for an existing file does not itself fail. *)
Theorem maintenance_safe action s d :
  let p := file_at cwd s in
  named p -> with_extension p "toml.new" <> p -> wf d ->
  (action = CInit -> is_Some (dir d !! p) /\ ∀ n, head (faults d) <> Some (Fails n)) ->
  let d' := (run_config_action quoted sys cwd action s d).2 in
  (∀ q, q <> p -> q <> with_extension p "toml.new" -> read_back d' q = read_back d q) /\
  config_from_str sys ∘ of_bytes <$> read_back d' p = config_from_str sys ∘ of_bytes <$> read_back d p.
Proof.
  cbv zeta. set (p := file_at cwd s). intros Hp Hne Hwf Hinit. unfold run_config_action. cbv zeta. fold p.
  destruct action; try done.
  - destruct (Hinit eq_refl) as [Hthere Hlook]. destruct (path_exists_disk p d) as (b & f & E & _ & Hb).
    rewrite !(io_bind_ok _ _ _ _ _ E). destruct (Hb Hthere Hlook) as [->|Hh]; [done|].
    destruct b; [done|]. unfold io_bind, io_map_err.
    destruct f as [|f fs]; [done|]. injection Hh as ->.
    pose proof (fs_write_halted p (as_bytes (commented_default (reference_text (Config_default sys))))
      (d <| faults := Halts :: fs |>) fs eq_refl) as Hw.
    destruct (fs_write p _ _) as [[[]|e] d1]; cbn [map_err snd] in *; by subst d1.
  - destruct (path_exists_disk p d) as (b & f & E & _ & _).
    rewrite !(io_bind_ok _ _ _ _ _ E).
    destruct b; cbn [negb]; [|done]. set (d1 := d <| faults := f |>). assert (wf d1) as Hwf1 by by apply wf_faults.
    pose proof (update_changes_no_setting sys p d1 Hp Hne Hwf1) as Hu.
    pose proof (λ q, update_file_others p (reference_text (Config_default sys)) d1 q Hp Hne Hwf1) as Ho.
    unfold io_bind, io_map_err. destruct (update_file p _ d1) as [[added|e] d2]; cbn [map_err snd] in *; [|by split].
    assert (∀ q, read_back (fs_read p d2).2 q = read_back d2 q) as Hread.
    { intros q. unfold fs_read, attempt. by destruct (faults d2) as [|[]]. }
    destruct (fs_read p d2) as [[text|e] d3]; cbn [map_err snd] in *;
      (split; [intros q Hq Hqt; rewrite Hread; by apply Ho|rewrite Hread; exact Hu]).
  - unfold io_bind, io_lift. by destruct (Config_load sys quoted s).
Qed.

(** (roundtrip) [config init] where there is no configuration writes one, and a daemon
    that then reads it, wherever it runs, loads the defaults it was written from. *)
Theorem init_writes_defaults `{!TomlComments} s d :
  let p := file_at cwd s in
  wf d -> healthy d -> dir d !! p = None ->
  ∃ text d', run_config_action quoted sys cwd CInit s d = (Ok ["wrote " +:+ display s]%string, d') /\
    read_back d' p = Some (as_bytes text) /\ (∀ q, q <> p -> read_back d' q = read_back d q) /\
    ∀ sys', read_text sys' s = Ok text -> Config_load sys' quoted s = Ok (Config_default sys).
Proof.
  cbv zeta. set (p := file_at cwd s). intros Hwf Hh Hn.
  set (text := commented_default (reference_text (Config_default sys))).
  destruct (path_exists_disk p d) as (b & f & E & Hb & _).
  assert (f = [] /\ b = false) as [-> ->].
  { unfold path_exists, attempt in E. rewrite Hh, Hn in E. injection E as Eb Ef.
    apply (f_equal faults) in Ef. cbn in Ef. by rewrite Hh in Ef. }
  assert (d <| faults := [] |> = d) as Hd by (destruct d; unfold healthy in Hh; cbn in Hh; by subst). rewrite Hd in E.
  destruct (fs_write_healthy p (as_bytes text) d Hwf Hh) as (i & d1 & Ew & [[[_ Hk] [Hdir Hin]] _]).
  exists text, d1. split_and!.
  - unfold run_config_action. cbv zeta. fold p. rewrite (io_bind_ok _ _ _ _ _ E). cbv iota.
    unfold io_bind, io_map_err. fold text. by rewrite Ew.
  - unfold read_back. rewrite Hdir. exact Hin.
  - exact Hk.
  - intros sys' Hr. unfold Config_load. rewrite Hr.
    destruct (config_reads_back sys' (Config_default sys) (default_ok sys)) as [_ Ec]. fold text in Ec. rewrite Ec.
    reflexivity.
Qed.
End maintenance.
