(* ===== verification/DaemonLife.v ===== *)
(** * What a daemon trusts outlives it

    The core's writes carried out on the file store, the daemon stopped and
    started again on the same disk: [Startup], [RtStore], [RtMirror] and the
    core's invariants put together. *)

From Stdlib Require Import Ascii.
From S2P Require Import Prelude Externals B64 Ids Envelope Link Peer Vocab Noise Plugin Ping Command Wol Touchpad Session.
From S2P Require Import Media Clipboard Share CoreState CoreQueries CoreOps CoreHandle CoreSteps CoreRefines CoreTheorems.
From S2P Require Import Strs Utf8 Fs Bulk RtBulk RtStore RtMirror Files Netself TouchDevice Logind Players Desktop FfiTypes.
From S2P Require Import Paths Reconcile Config Ipc Control Startup StartupTheorems.
Local Open Scope N_scope.

(** ** Ids a person names *)

Lemma good_id_simple id : good_id id -> simple (did_str id).
Proof.
  unfold good_id, DeviceId_parse. intros E. apply parse_id_canonical in E as (_ & d & -> & Hd).
  apply encode_simple. by rewrite Hd.
Qed.

(** ** What the core asks to be written *)

Section life.
  Context `{Externs} `{!ExternsLaws} `{!Sha256Laws} `{!CborLaws PeerRecord} `{!ReadDir} `{!ReadDirLaws}.
  Implicit Types c : Core.

Lemma record_id_of r id : record_id r = Some id -> ∃ pk, id = DeviceId_of pk.
Proof.
  unfold record_id, public_key_array, array32. destruct (_ =? _); [|done]. cbn. intros [= <-]. by eexists.
Qed.

(** Every write and erasure is of a record under a device's name. *)
Lemma handle_persists nw ev c o c' k v s :
  Good c -> Named c -> handle nw ev c = Some (o, c') -> Persist k v s ∈ actions o ->
  ∃ id, k = file_key id /\ (ev = Local (Revoke id) \/ ∃ pk, id = DeviceId_of pk).
Proof.
  intros HG [HN1 HN2] E Hin. pose proof (handle_inversion nw ev c o c' HG E) as Hr. destruct HG as (_ & HF & _).
  apply steps_actions in Hr. unfold actions_justified in Hr. rewrite Forall_forall in Hr.
  destruct (Hr _ Hin) as ([c1 out1] & Hr1 & -> & Hv). destruct v as [b|].
  - destruct Hv as (rec & -> & _ & id & Hid). exists id. destruct (steps_trust_evolves _ _ _ _ Hr1) as [HA _].
    destruct (HA id rec Hid) as [(r & Hp & _ & _ & Hd & _)|(_ & w & a & Hw & Ha & -> & Hi)].
    + rewrite Hd, (HN1 id r Hp). split; [done|]. right. apply (record_id_of r), (HF id r Hp).
    + rewrite (HN2 w a id Hw Ha Hi). split; [done|]. right. by apply (record_id_of (aw_record a)).
  - destruct Hv as (peer & -> & -> & _). exists peer. split; [done|by left].
Qed.

(** ** Carried out on the disk *)

(* src: crates/acrylius-rt/src/runtime.rs 272 280 Runtime::apply *)
Definition carry_out (st : FileStore) (a : Action) (d : disk) : disk :=
  match a with Persist k v s => (put st k v s d).2 | _ => d end.
Definition carry_all (st : FileStore) (out : list Action) (d : disk) : disk :=
  fold_left (λ d a, carry_out st a d) out d.

Definition revokes_named (ev : Event) : Prop := ∀ id, ev = Local (Revoke id) -> good_id id.

Lemma carry_all_mirror st out d m :
  (∀ k v s, Persist k v s ∈ out -> ∃ id, k = file_key id /\ simple (did_str id)) ->
  Mirror st d m -> Mirror st (carry_all st out d) (replay out m).
Proof.
  revert d m. induction out as [|a out IH]; intros d m Hout HM; [done|].
  cbn [carry_all replay fold_left]. apply IH; [intros k v s Hk; apply (Hout k v s); by right|].
  destruct a; try exact HM. destruct (Hout key value sensitivity) as (id & -> & Hid); [by left|].
  destruct (put_mirror st (did_str id) value sensitivity d m Hid HM) as (d' & E & HM').
  cbn [carry_out persist]. unfold file_key in *. by rewrite E.
Qed.

(** Files outside the record directory are as they were. *)
Lemma carry_all_else st out d q :
  (∀ k v s, Persist k v s ∈ out -> ∃ id, k = file_key id /\ simple (did_str id)) ->
  wf d -> healthy d -> is_tmp q = false -> parent q <> root st ++ ["peer"%string] ->
  read_back (carry_all st out d) q = read_back d q.
Proof.
  intros Hout. revert d. induction out as [|a out IH]; intros d Hwf Hh Ht Hp; [done|].
  cbn [carry_all fold_left]. change (fold_left _ out ?d1) with (carry_all st out d1).
  destruct a; try (apply IH; [intros k v s Hk; apply (Hout k v s); by right|done..]).
  destruct (Hout key value sensitivity) as (id & -> & Hid); [by left|].
  destruct (put_healthy st (file_key id) (record_path st (did_str id)) value sensitivity d) as (d' & E & [W1 W2 _ W4]);
    [by apply path_for_record|by apply named_record|by apply record_not_tmp|done..|].
  cbn [carry_out]. rewrite E. cbn [snd]. rewrite IH; [|intros k' v' s' Hk; apply (Hout k' v' s'); by right|done..].
  apply W4; [|done]. intros ->. by rewrite parent_record in Hp.
Qed.

Lemma run_persists evs : ∀ c os c' m,
  Good c -> Named c -> Mirrors c m -> run evs c = Some (os, c') -> Forall (revokes_named ∘ snd) evs ->
  ∀ k v s, Persist k v s ∈ all_actions os -> ∃ id, k = file_key id /\ simple (did_str id).
Proof.
  induction evs as [|[nw ev] evs IH]; intros c os c' m HG HN HM E Hev k v s; cbn [run] in E.
  { injection E as <- <-. by intros ?%elem_of_nil. }
  destruct (handle_good_event nw ev c HG) as (o & c1 & E1 & HG1). rewrite E1 in E.
  destruct (handle_mirrors nw ev c o c1 m HG HN HM E1) as [HN1 HM1].
  destruct (run evs c1) as [[os' c2]|] eqn:E2; [|done]. injection E as <- ->.
  apply Forall_cons in Hev as [Hr Hev]. unfold all_actions. cbn [map concat]. intros [Hin|Hin]%elem_of_app.
  - destruct (handle_persists nw ev c o c1 k v s HG HN E1 Hin) as (id & -> & [He|[pk ->]]); exists id || eexists;
      (split; [done|]); [by apply good_id_simple, Hr|apply did_simple].
  - by apply (IH c1 os' c' _ HG1 HN1 HM1 E2 Hev k v s).
Qed.

(** ** What the disk remembers *)

(** The record directory holds the records of [P], each under its name. *)
Definition Trusts (st : FileStore) (P : gmap DeviceId PeerRecord) (d : disk) : Prop :=
  ∃ m, Mirror st d m /\ (∀ id, entries m !! file_key id = P !! id ≫= to_vec) /\
    (∀ k v, entries m !! k = Some v -> ∃ id, k = file_key id) /\
    ∀ id r, P !! id = Some r -> record_id r = Some id /\ pr_device_id r = did_str id.

(** What else is written leaves it so: elsewhere, or a file there that is no record taken away. *)
Lemma Mirror_other st d d' m :
  Mirror st d m -> wf d' -> healthy d' ->
  (∀ q, parent q = root st ++ ["peer"%string] -> is_tmp q = false -> read_back d' q = read_back d q \/
     (read_back d' q = None /\ ∀ id, simple id -> q <> record_path st id)) ->
  Mirror st d' m.
Proof.
  intros [M1 M2 M3 M4 M5] Hwf Hh Hq. split; [done..| |].
  - intros id Hid. rewrite <- M4 by done.
    destruct (Hq (record_path st id)) as [|[_ Hn]]; [apply parent_record|by apply record_not_tmp|done|].
    by destruct (Hn id Hid).
  - intros q v Hp Ht Hv. destruct (Hq q Hp Ht) as [E|[E _]]; [apply (M5 q v Hp Ht); congruence|congruence].
Qed.

(** A core built from what is loaded of it trusts just those devices. *)
Lemma Trusts_load st P d b :
  Trusts st P d ->
  ∃ rs, load_peers st d = (Ok rs, d) /\ (cb_peers b = rs -> peers (build_core b) = P).
Proof.
  intros (m & HM & Hm & Hk & HP). destruct (load_peers_mirror st d m HM) as (rs & E & Hrs).
  exists rs. split; [done|]. intros Hb.
  set (c := (build_core b) <| peers := P |>). assert (peers c = P) as Hc by reflexivity.
  rewrite <- Hc. apply (loaded_exactly c m b); clearbody c; subst P.
  - intros id r Hr. by apply HP.
  - by split.
  - by rewrite Hb.
Qed.

(** Nothing but the records is in the directory: a first start. *)
Lemma Trusts_nobody st d :
  wf d -> healthy d -> (∀ q v, parent q = root st ++ ["peer"%string] -> read_back d q = Some v -> is_tmp q = true) ->
  Trusts st ∅ d.
Proof.
  intros Hwf Hh Hq. exists (mkMemoryStore ∅). split_and!.
  - split; [done|done|cbn; by intros k v ?%lookup_empty_Some| |].
    + intros id Hid. cbn. rewrite lookup_empty. destruct (read_back d (record_path st id)) as [v|] eqn:E; [|done].
      apply Hq in E; [|apply parent_record]. by rewrite record_not_tmp in E.
    + intros q v Hp Ht Hv. by rewrite (Hq q v Hp Hv) in Ht.
  - intros id. cbn. by rewrite !lookup_empty.
  - cbn. by intros k v ?%lookup_empty_Some.
  - by intros id r ?%lookup_empty_Some.
Qed.

(** The core's writes keep up with it. *)
Lemma Trusts_run st c d evs os c' :
  Good c -> Named c -> Trusts st (peers c) d -> run evs c = Some (os, c') -> Forall (revokes_named ∘ snd) evs ->
  Trusts st (peers c') (carry_all st (all_actions os) d).
Proof.
  intros HG HN (m & HM & Hm & Hk & HP) E Hev. assert (Mirrors c m) as HMc by by split.
  destruct (run_mirrors evs c os c' m HG HN HMc E) as [[HN1 _] [Hm' Hk']].
  destruct (run_good_from evs c HG) as (os2 & c2 & E2 & (_ & HF & _)). rewrite E in E2. injection E2 as <- <-.
  exists (replay (all_actions os) m). split_and!; [|exact Hm'|exact Hk'|].
  - apply carry_all_mirror; [|done]. by apply (run_persists evs c os c' m).
  - intros id r Hr. split; [by apply (HF id r)|by apply HN1].
Qed.
End life.

(** ** From one start to the next *)

Section starts.
  Context `{Toml} `{!Scalars} (quoted : string -> string) (cwd : path).
  Context `{X25519} `{Externs} `{!ExternsLaws} `{!Sha256Laws} `{!CborLaws PeerRecord} `{!ReadDir} `{!ReadDirLaws}.
  Context `{!Cbor ErrorBody} `{!Cbor SessionState} `{!Cbor CommandList} `{!Cbor RunRequest} `{!Cbor ClipboardSet}
    `{!Cbor Wol.WolConfig} `{!Cbor RelayRequest} `{!Cbor MediaState} `{!Cbor MediaCommand} `{!Cbor Offer}
    `{!Cbor Share.Accept} `{!Cbor Share.Finished} `{!Cbor Begin} `{!Cbor TouchFrame}.

Definition store_of (sys : Surroundings) (args : Args) : FileStore :=
  mkFileStore (file_at cwd (state_dir sys (arg_state args))).

Lemma key_path_place (p : path) :
  is_tmp (key_path p) = false /\ parent (key_path p) = p /\ file_name (key_path p) = Some "identity.key"%string.
Proof.
  unfold key_path, path_join, file_name, is_tmp, extension, file_name. cbn [str_starts_with Ascii.eqb eqb andb].
  change (components "identity.key") with ["identity.key"%string]. rewrite last_snoc, parent_snoc. done.
Qed.
Lemma key_path_apart (p : path) : parent (key_path p) <> p ++ ["peer"%string].
Proof.
  destruct (key_path_place p) as (_ & -> & _). intros E. apply (f_equal length) in E. rewrite length_app in E.
  cbn in E. lia.
Qed.

(** The probe of the download directory comes and goes. *)
Lemma open_downloads_ok sys cfg o d b d' :
  wf d -> healthy d -> open_downloads sys cwd cfg o d = (Ok b, d') ->
  wf d' /\ healthy d' /\
  ∀ q, read_back d' q = read_back d q \/ (read_back d' q = None /\ file_name q = Some ".acrylius-write-test"%string).
Proof.
  intros Hwf Hh. unfold open_downloads. destruct (of_dir_made o) as [[]|e]; cbv zeta.
  - unfold io_match at 1, writable. set (probe := path_join _ ".acrylius-write-test").
    destruct (create_healthy probe d Hwf Hh) as (i & d1 & E1 & [[[Hwf1 Hk1] [Hdir1 Hin1]] Hh1]).
    unfold io_bind. rewrite E1. unfold write_all. rewrite attempt_healthy by done.
    assert (Building d (set_inode i (append_to []) d1) probe i []) as [[[Hwf2 Hk2] [Hdir2 Hin2]] Hh2].
    { apply Building_touch with []; [intros n E; cbn; by rewrite E|]. by split; [split; [split|split]|]. }
    unfold io_match, remove_file. rewrite attempt_healthy by done. rewrite Hdir2.
    intros [= <- <-]. split_and!; [by apply wf_delete|done|]. intros q. destruct (decide (q = probe)) as [->|Hne].
    + right. split; [unfold read_back; cbn; by rewrite lookup_delete_eq|].
      unfold file_name, probe, path_join. cbn [str_starts_with Ascii.eqb eqb andb].
      change (components ".acrylius-write-test") with [".acrylius-write-test"%string]. by rewrite last_snoc.
    + left. rewrite <- (Hk2 q Hne). unfold read_back. cbn. by rewrite lookup_delete_ne.
  - intros [= <- <-]. split_and!; [done|done|by left].
Qed.

(** A start neither adds to what is trusted nor loses any of it. *)
Lemma start_trusts sys args o d dm d' P :
  Trusts (store_of sys args) P d -> (∀ k, of_drawn o = Some k -> len k = 32) ->
  start_daemon quoted sys cwd args o d = (Ok dm, d') ->
  dm_store dm = store_of sys args /\ peers (dm_core dm) = P /\ Good (dm_core dm) /\ Named (dm_core dm) /\
  Trusts (store_of sys args) P d' /\
  ∃ key, identity (dm_core dm) = Identity_from_private key /\
    read_back d' (key_path (root (store_of sys args))) = Some key /\
    ∀ bs, read_back d (key_path (root (store_of sys args))) = Some bs -> key = bs.
Proof.
  intros HT Hd E. apply start_daemon_inv in E as (cfg & id & known & d1 & d2 & _ & Ei & Ek & Est & _ & Ec & _ & Eb).
  change (mkFileStore (file_at cwd (state_dir sys (arg_state args)))) with (store_of sys args) in *.
  change (file_at cwd (state_dir sys (arg_state args))) with (root (store_of sys args)) in *.
  set (st := store_of sys args) in *. clearbody st. pose proof HT as (m & HM & Hrest).
  assert (wf d /\ healthy d) as [Hwf Hh] by by destruct HM.
  destruct (load_identity_ok _ _ d id d1 Hwf Hh Hd Ei) as (Hwf1 & Hh1 & Hk1 & key & _ & -> & Hkey & Hsame).
  assert (Trusts st P d1) as HT1.
  { exists m. split; [|done]. apply (Mirror_other st d d1 m HM Hwf1 Hh1). intros q Hq _. left. apply Hk1. intros ->.
    by apply key_path_apart in Hq. }
  destruct (Trusts_load st P d1 (daemon_builder cfg o (Identity_from_private key)
    (match arg_name args with Some n => n | None => default (machine_name sys) (c_name cfg) end)
    (dm_effector dm) (dm_kinds dm) known) HT1) as (rs & El & HP).
  rewrite El in Ek. injection Ek as <- <-.
  destruct (open_downloads_ok sys cfg o d1 (dm_bulk dm) d' Hwf1 Hh1 Eb) as (Hwf' & Hh' & Hq').
  assert (peers (dm_core dm) = P) as Hpe by (rewrite Ec; by apply HP).
  split_and!; [done|done|rewrite Ec; apply build_good|..].
  - destruct Hrest as (_ & _ & HPn). split; [rewrite Hpe; intros i r Hr; by apply HPn|]. rewrite Ec. cbn. done.
  - destruct HT1 as (m1 & HM1 & Hr1). exists m1. split; [|done]. apply (Mirror_other st d1 d' m1 HM1 Hwf' Hh').
    intros q _ _. destruct (Hq' q) as [|[Hn Hf]]; [by left|right]. split; [done|]. intros i Hi ->.
    rewrite file_name_record in Hf by done. injection Hf as ->. destruct Hi as (_ & _ & Hdot). done.
  - exists key. rewrite Ec. split_and!; [done| |done].
    destruct (Hq' (key_path (root st))) as [->|[_ Hf]]; [done|].
    by destruct (key_path_place (root st)) as (_ & _ & Hn); rewrite Hn in Hf.
Qed.

(** C12 (invariant): What a daemon is trusted with outlives it: started on a disk that
    holds the records of some devices it trusts just those; after any run of
    events, its writes carried out, the disk holds the records of the devices
    the core then trusts; and a daemon started again on it, whatever the
    configuration and the system offer by then, is the same machine to them and
    trusts the same devices with the same keys, secrets and watermarks. *)
Theorem daemon_remembers sys args o d dm d1 P evs os c :
  Trusts (store_of sys args) P d -> (∀ k, of_drawn o = Some k -> len k = 32) ->
  start_daemon quoted sys cwd args o d = (Ok dm, d1) ->
  run evs (dm_core dm) = Some (os, c) -> Forall (revokes_named ∘ snd) evs ->
  let d2 := carry_all (dm_store dm) (all_actions os) d1 in
  peers (dm_core dm) = P /\ Trusts (dm_store dm) (peers c) d2 /\
  ∀ sys' args' o' dm' d3,
    store_of sys' args' = store_of sys args -> (∀ k, of_drawn o' = Some k -> len k = 32) ->
    start_daemon quoted sys' cwd args' o' d2 = (Ok dm', d3) ->
    peers (dm_core dm') = peers c /\ identity (dm_core dm') = identity (dm_core dm) /\
    Trusts (dm_store dm') (peers c) d3.
Proof.
  intros HT Hd E Er Hev. cbv zeta.
  destruct (start_trusts sys args o d dm d1 P HT Hd E) as (Hst & Hp & HG & HN & HT1 & key & Hid & Hkey & _).
  rewrite <- Hst in HT1, Hkey. rewrite <- Hp in HT1.
  pose proof (Trusts_run _ (dm_core dm) d1 evs os c HG HN HT1 Er Hev) as HT2.
  assert (read_back (carry_all (dm_store dm) (all_actions os) d1) (key_path (root (dm_store dm))) = Some key) as Hkey2.
  { destruct HT1 as (m & HM & Hm & Hk & HP). assert (wf d1 /\ healthy d1) as [Hwf Hh] by by destruct HM.
    destruct (key_path_place (root (dm_store dm))) as (Ht & _ & _).
    rewrite carry_all_else; [done| |done|done|done|apply key_path_apart].
    apply (run_persists evs (dm_core dm) os c m); [done|done|by split|done|done]. }
  split_and!; [done|done|]. intros sys' args' o' dm' d3 Hs' Hd' E'. rewrite <- Hst in Hs'. rewrite <- Hs' in HT2 at 1.
  destruct (start_trusts sys' args' o' _ dm' d3 (peers c) HT2 Hd' E') as (Hst' & Hp' & _ & _ & HT3 & key' & Hid' & _ & Hold).
  rewrite Hs' in Hold. rewrite (Hold key Hkey2) in Hid'.
  split_and!; [done|congruence|by rewrite Hst'].
Qed.
End starts.
