(* ===== verification/Client.v ===== *)
(** * [acryliusctl]: the command line client

    From parsed arguments to a request, what is done with each response, and
    when a pairing is answered.  [clap] parses the arguments; JSON is
    [serde_json]'s; the daemon's lines, what a person types and whether a
    second connection can be had are arguments. *)

From Stdlib Require Import Ascii.
From S2P Require Import Prelude Externals Ids Vocab Strs Utf8 Fs Bulk Paths Config Ipc Control Startup.
Local Open Scope N_scope.

(** ** Arguments *)

(* src: crates/acryliusd/src/bin/acryliusctl.rs 66 80 PairCmd *)
Inductive PairCmd := PairApprove | PairDeny | PairWith (addr : string) (yes : bool).
(* src: crates/acryliusd/src/bin/acryliusctl.rs 89 113 DeviceCmd *)
Inductive DeviceCmd :=
| DeviceList
| DeviceNearby
| DeviceForget (device : string)
| DeviceConnect (device : string) (addr : option string)
| DevicePing (device : string).
(* src: crates/acryliusd/src/bin/acryliusctl.rs 122 136 ScreenCmd *)
Inductive ScreenCmd := ScreenQuery (device : string) | ScreenLock (device : string) | ScreenUnlock (device : string).
(* src: crates/acryliusd/src/bin/acryliusctl.rs 138 147 ScreenCmd::parts *)
Definition screen_parts (c : ScreenCmd) : string * string :=
  match c with
  | ScreenQuery device => (device, "query")
  | ScreenLock device => (device, "lock")
  | ScreenUnlock device => (device, "unlock")
  end%string.
(* src: crates/acryliusd/src/bin/acryliusctl.rs 155 167 ClipCmd *)
Inductive ClipCmd := ClipGet (device : string) | ClipPut (device text : string).
(* src: crates/acryliusd/src/bin/acryliusctl.rs 181 232 PlayCmd *)
Inductive PlayCmd :=
| PlayStatus (device : string)
| PlayPlay (device : string)
| PlayPause (device : string)
| PlayToggle (device : string)
| PlayNext (device : string)
| PlayPrevious (device : string)
| PlayStop (device : string)
| PlaySeek (device : string) (offset_ms : i64)
| PlayPosition (device : string) (ms : i64)
| PlayVolume (device : string) (percent : i64).
(* src: crates/acryliusd/src/bin/acryliusctl.rs 234 250 PlayCmd::parts *)
Definition play_parts (c : PlayCmd) : string * string * option i64 :=
  match c with
  | PlayStatus device => (device, "query", None)
  | PlayPlay device => (device, "play", None)
  | PlayPause device => (device, "pause", None)
  | PlayToggle device => (device, "playpause", None)
  | PlayNext device => (device, "next", None)
  | PlayPrevious device => (device, "previous", None)
  | PlayStop device => (device, "stop", None)
  | PlaySeek device offset_ms => (device, "seek", Some offset_ms)
  | PlayPosition device ms => (device, "position", Some ms)
  | PlayVolume device percent => (device, "volume", Some percent)
  end%string.
(* src: crates/acryliusd/src/bin/acryliusctl.rs 258 270 CmdCmd *)
Inductive CmdCmd := CmdList (device : string) | CmdRun (device id : string).
(* src: crates/acryliusd/src/bin/acryliusctl.rs 279 292 FileCmd *)
Inductive FileCmd :=
| FileSend (device path : string)
| FileOffers
| FileAccept (transfer : u64)
| FileReject (transfer : u64).

(* src: crates/acryliusd/src/bin/acryliusctl.rs 32 55 Top *)
Inductive Top :=
| TStatus
| TPair (what : option PairCmd) (yes : bool)
| TDevice (what : DeviceCmd)
| TScreen (what : ScreenCmd)
| TClip (what : ClipCmd)
| TPlay (what : PlayCmd) (player : option string)
| TCmd (what : CmdCmd)
| TFile (what : FileCmd)
| TWake (device mac : string).

(* src: crates/acryliusd/src/bin/acryliusctl.rs 17 27 Args *)
Record CtlArgs := mkCtlArgs { ctl_state : option string; ctl_json : bool; ctl_cmd : Top }.

(** ** Paths *)

(* src: crates/acryliusd/src/bin/acryliusctl.rs 303 313 socket_path *)
Definition ctl_socket_path (runtime_dir state : option string) : string :=
  match state with
  | Some s => pb_join s "acrylius.sock"
  | None => pb_join (default "/tmp"%string runtime_dir) "acrylius.sock"
  end.

(* src: crates/acryliusd/src/bin/acryliusctl.rs 558 568 resolve *)
Definition resolve_path (p home cwd : string) : string :=
  let expanded := match str_strip_prefix "~/" p with Some rest => pb_join home rest | None => p end in
  if is_absolute expanded then expanded else pb_join cwd expanded.

(** [None]: the working directory cannot be had. *)
(* src: crates/acryliusd/src/bin/acryliusctl.rs 549 556 absolute *)
Definition absolute (home : option string) (cwd : option string) (p : string) : option string :=
  (λ cwd, display (resolve_path p (default EmptyString home) cwd)) <$> cwd.

(** ** The request *)

(** The request, whether more than one response is read, and whether a pairing
    is accepted without asking. *)
(* src: crates/acryliusd/src/bin/acryliusctl.rs 325 409 main *)
Definition request_of (home cwd : option string) (cmd : Top) : option (Request * bool * bool) :=
  match cmd with
  | TStatus => Some (RStatus, false, false)
  | TPair None yes => Some (RPair, true, yes)
  | TPair (Some PairApprove) _ => Some (RApprove, false, false)
  | TPair (Some PairDeny) _ => Some (RDeny, false, false)
  | TPair (Some (PairWith addr yes)) _ => Some (RPairWith addr, true, yes)
  | TDevice DeviceList => Some (RDevices, false, false)
  | TDevice DeviceNearby => Some (RNearby, false, false)
  | TDevice (DeviceForget device) => Some (RRevoke device, false, false)
  | TDevice (DeviceConnect device addr) => Some (RConnect device addr, false, false)
  | TDevice (DevicePing device) => Some (RPing device, false, false)
  | TScreen what => let '(device, action) := screen_parts what in Some (RSession device action, false, false)
  | TClip (ClipGet device) => Some (RClipboard device None, false, false)
  | TClip (ClipPut device text) => Some (RClipboard device (Some text), false, false)
  | TPlay what player =>
      let '(device, action, value) := play_parts what in Some (RMedia device action player value, false, false)
  | TCmd (CmdList device) => Some (RCommands device, false, false)
  | TCmd (CmdRun device id) => Some (RRun device id, false, false)
  | TFile (FileSend device p) => (λ p, (RSend device p, false, false)) <$> absolute home cwd p
  | TFile FileOffers => Some (ROffers, false, false)
  | TFile (FileAccept transfer) => Some (RAnswer transfer true, false, false)
  | TFile (FileReject transfer) => Some (RAnswer transfer false, false, false)
  | TWake device mac => Some (RWake device mac, false, false)
  end.

(** ** Responses *)

(** What the client does: it prints, asks a person, or answers the daemon on a
    connection of its own. *)
Inductive Did :=
| Printed (line : string)
| PrintedError (line : string)
| AskedPerson (question : string)
| AnsweredDaemon (r : Request).

Section responses.
  Context (to_json : Response -> string).

Fixpoint comma_join (v : list string) : string :=
  match v with [] => EmptyString | [w] => w | w :: ws => w +:+ ", " +:+ comma_join ws end.
(* src: crates/acryliusd/src/bin/acryliusctl.rs 570 576 join *)
Definition join_or_none (v : list string) : string :=
  match v with [] => "(none)" | _ => comma_join v end.

(** The lines printed for a response that is not a question. *)
(* src: crates/acryliusd/src/bin/acryliusctl.rs 428 474 main *)
Definition show_response (r : Response) : list Did :=
  match r with
  | ROk => [Printed "ok"]
  | RReport report => [Printed (render_report report)]
  | RStatusIs s =>
      [Printed (st_name s +:+ "  " +:+ st_device_id s);
       Printed ("  fingerprint  " +:+ st_fingerprint s);
       Printed ("  port         " +:+ fmt_u64 (st_port s));
       Printed ("  peers        " +:+ fmt_u64 (st_peers s));
       Printed ("  accepts      " +:+ join_or_none (st_caps_in s));
       Printed ("  sends        " +:+ join_or_none (st_caps_out s))]
  | RDevicesAre [] => [Printed "no paired devices"]
  | RDevicesAre devices =>
      concat (map (λ x,
        [Printed (dv_device_id x +:+ "  " +:+ dv_name x +:+ " (" +:+ dv_platform x +:+ ")  " +:+
           (if dv_reachable x then "reachable" else "unreachable"));
         Printed ("  fingerprint " +:+ dv_fingerprint x)]) devices)
  | RNearbyAre [] => [Printed "nothing nearby that is not already paired"]
  | RNearbyAre nearby =>
      (concat (map (λ x,
        [Printed (nb_addr x +:+ "  " +:+ nb_name x +:+ (if nb_pairing x then "  (busy pairing)" else ""));
         Printed ("  fingerprint " +:+ nb_fingerprint x)]) nearby)
      ++ [Printed ""; Printed "Pair with one: acryliusctl pair with <address>"])%list
  | REvent text => [Printed text]
  | RError message => [PrintedError ("error: " +:+ message)]
  | RConfirm _ _ _ => []
  end%string.

(* src: crates/acryliusd/src/bin/acryliusctl.rs 475 485 main *)
Definition show_question (name fingerprint sas : string) : list Did :=
  [Printed ""; Printed (name +:+ " wants to pair."); Printed ("  fingerprint  " +:+ fingerprint);
   Printed ""; Printed ("  It should be showing:  " +:+ sas); Printed ""]%string.

(** Anything but a line that starts with n is a yes, an empty one and the end
    of the input included. *)
(* src: crates/acryliusd/src/bin/acryliusctl.rs 519 530 prompt *)
Definition says_yes (line : string) : bool := negb (str_starts_with "n" (str_lower (text_trim line))).

(* src: crates/acryliusd/src/bin/acryliusctl.rs 532 547 answer *)
Definition answer_request (accept : bool) : Request := if accept then RApprove else RDeny.

(** What the client is run with, and what remains of the world: the lines typed
    ([None]: they cannot be read) and how connections to the daemon fare. *)
(** Refused, broken once the answer is out, or fine. *)
Inductive Connection := ConnRefused | ConnBroken | ConnFine.
Record Setting := mkSetting { s_json : bool; s_streaming : bool; s_assume_yes : bool; s_tty : bool }.
Record Outside := mkOutside { typed : list (option string); connections : list Connection }.

(** How a question ends: with an answer, unanswered, or with the program. *)
Inductive Asked := AskAnswer (accept : bool) | AskNobody | AskFails.

(* src: crates/acryliusd/src/bin/acryliusctl.rs 486 497 main *)
Definition decide_pairing (s : Setting) (o : Outside) : list Did * Asked * Outside :=
  if s_assume_yes s then ([Printed "  accepting (--yes)"], AskAnswer true, o)
  else if s_tty s then
    match typed o with
    | Some line :: more =>
        ([AskedPerson "  Do the codes match? [Y/n] "], AskAnswer (says_yes line), mkOutside more (connections o))
    | None :: _ => ([AskedPerson "  Do the codes match? [Y/n] "], AskFails, o)
    | [] => ([AskedPerson "  Do the codes match? [Y/n] "], AskAnswer (says_yes ""), o)
    end
  else ([Printed "  Not a terminal, so nothing to ask.";
         Printed "  Run `acryliusctl pair approve` (or `pair deny`) to answer."], AskNobody, o).

(** How the program ends: with 0, with 1, or with an error of its own. *)
Inductive Exit := ExitOk | ExitFailed | ExitError.
Definition exit_of (failed : bool) : Exit := if failed then ExitFailed else ExitOk.

(** One response: what is done and whether to go on, with [failed] as it is then. *)
(* src: crates/acryliusd/src/bin/acryliusctl.rs 416 512 main *)
Definition on_response (s : Setting) (r : Response) (failed : bool) (o : Outside)
    : list Did * (Exit + bool) * Outside :=
  let next (failed : bool) : Exit + bool := if s_streaming s then inr failed else inl (exit_of failed) in
  if s_json s then
    ([Printed (to_json r)], next (match r with RError _ => true | _ => failed end), o)
  else match r with
  | RConfirm name fingerprint sas =>
      let '(did, asked, o) := decide_pairing s o in
      let did := (show_question name fingerprint sas ++ did)%list in
      match asked with
      | AskNobody => (did, inr failed, o)
      | AskFails => (did, inl ExitError, o)
      | AskAnswer accept =>
          let o' := mkOutside (typed o) (drop 1 (connections o)) in
          let answered := did ++ [AnsweredDaemon (answer_request accept)] in
          match connections o with
          | ConnRefused :: _ => (did, inl ExitError, o')
          | ConnBroken :: _ => (answered, inl ExitError, o')
          | _ => (answered, next (if accept then failed else true), o')
          end
      end
  | RError message => (show_response r, next true, o)
  | _ => (show_response r, next failed, o)
  end.

(** The lines of the daemon, as they parse, until the connection ends; one that
    does not parse ends the program. *)
(* src: crates/acryliusd/src/bin/acryliusctl.rs 413 516 main *)
Fixpoint respond (s : Setting) (lines : list (option Response)) (failed : bool) (o : Outside)
    : list Did * Exit :=
  match lines with
  | [] => ([], exit_of failed)
  | None :: _ => ([], ExitError)
  | Some r :: lines =>
      let '(did, next, o) := on_response s r failed o in
      match next with
      | inl e => (did, e)
      | inr failed => let '(more, e) := respond s lines failed o in (did ++ more, e)
      end
  end.

(** A run of the client, once connected: the request sent, what it does, and
    how it ends. *)
(* src: crates/acryliusd/src/bin/acryliusctl.rs 316 517 main *)
Definition ctl_run (args : CtlArgs) (home cwd : option string) (tty : bool) (lines : list (option Response)) (o : Outside)
    : option Request * list Did * Exit :=
  match request_of home cwd (ctl_cmd args) with
  | None => (None, [], ExitError)
  | Some (req, streaming, assume_yes) =>
      let '(did, e) := respond (mkSetting (ctl_json args) streaming assume_yes tty) lines false o in
      (Some req, did, e)
  end.
End responses.

(** ** Theorems *)

Section theorems.
  Context (to_json : Response -> string).

(** The questions put to a person in what the client did, and what was typed at
    the [n]th of them: the [n]th line, and nothing where the input had ended. *)
Definition is_asking (x : Did) : bool := match x with AskedPerson _ => true | _ => false end.
Definition asked_so_far (l : list Did) : nat := length (List.filter is_asking l).
Definition typed_at (o : Outside) (n : nat) : option string :=
  match typed o !! n with Some reply => reply | None => Some ""%string end.

(** Where the yes or no of an answer came from: [--yes], or what was typed at
    the question itself, the [n]th one. *)
Definition decided_by (yes tty : bool) (o : Outside) (n : nat) (x : Did) (r : Request) : Prop :=
  if yes then x = Printed "  accepting (--yes)" /\ r = RApprove
  else tty = true /\ x = AskedPerson "  Do the codes match? [Y/n] " /\
    ∃ line, typed_at o n = Some line /\ r = answer_request (says_yes line).

Definition is_answer (x : Did) : Prop := ∃ r, x = AnsweredDaemon r.

Definition only_prints (x : Did) : Prop := match x with Printed _ | PrintedError _ => True | _ => False end.

Lemma show_response_prints r : Forall only_prints (show_response r).
Proof.
  destruct r as [|s|[|d ds]|[|n ns]|text|report|name fp sas|m]; cbn [show_response]; try (by repeat constructor).
  - apply Forall_concat, Forall_map, List.Forall_forall. intros x _. by repeat constructor.
  - apply Forall_app. split; [|by repeat constructor].
    apply Forall_concat, Forall_map, List.Forall_forall. intros x _. by repeat constructor.
Qed.

Lemma show_response_silent r : Forall (λ x, ~ is_answer x) (show_response r).
Proof. eapply Forall_impl; [apply show_response_prints|]. intros [] H [? ?]; done. Qed.

Lemma prints_ask_nothing l : Forall only_prints l -> asked_so_far l = 0%nat.
Proof. unfold asked_so_far. induction 1 as [|[] l Hx _ IH]; done. Qed.

Lemma asked_app l k : asked_so_far (l ++ k) = (asked_so_far l + asked_so_far k)%nat.
Proof. unfold asked_so_far. by rewrite List.filter_app, length_app. Qed.

Lemma not_answer_app l pre a post : Forall (λ x, ~ is_answer x) l -> l = pre ++ AnsweredDaemon a :: post -> False.
Proof. intros Hl ->. apply Forall_app in Hl as [_ [Hn _]%Forall_cons]. apply Hn. by exists a. Qed.

Lemma snoc_answer l a pre r post :
  Forall (λ x, ~ is_answer x) l -> l ++ [AnsweredDaemon a] = pre ++ AnsweredDaemon r :: post ->
  pre = l /\ r = a /\ post = [].
Proof.
  intros Hl E. destruct post as [|x post _] using rev_ind.
  - apply app_inj_tail in E as [<- [= <-]]. done.
  - exfalso. rewrite app_comm_cons, app_assoc in E. apply app_inj_tail in E as [E _].
    by apply (not_answer_app l pre r post).
Qed.

Lemma decide_pairing_spec s o did asked o' :
  decide_pairing s o = (did, asked, o') ->
  (∃ x, did = [x] /\ ~ is_answer x /\ ∀ b, asked = AskAnswer b -> decided_by (s_assume_yes s) (s_tty s) o 0 x (answer_request b)) \/
  (Forall (λ x, ~ is_answer x) did /\ asked = AskNobody).
Proof.
  unfold decide_pairing, decided_by.
  assert (∀ q, ~ is_answer (AskedPerson q)) as Hq by (by intros q [? ?]).
  assert (∀ q, ~ is_answer (Printed q)) as Hp by (by intros q [? ?]).
  destruct (s_assume_yes s); [|destruct (s_tty s)].
  - intros [= <- <- <-]. left. eexists. split_and!; [done|done|]. by intros b [= <-].
  - unfold typed_at. destruct (typed o) as [|[line|] more]; intros [= <- <- <-]; left; eexists;
      (split_and!; [done|done|]); intros b [= <-]; (split_and!; [done..|]); by eexists.
  - intros [= <- <- <-]. right. split; [|done]. by repeat constructor.
Qed.

(** What one response leads to: at most one answer, last, right after the question. *)
Lemma on_response_answers s r failed o did next o' pre a post :
  on_response to_json s r failed o = (did, next, o') -> did = pre ++ AnsweredDaemon a :: post ->
  post = [] /\ s_json s = false /\
  ∃ name fp sas x, r = RConfirm name fp sas /\ pre = show_question name fp sas ++ [x] /\
    decided_by (s_assume_yes s) (s_tty s) o 0 x a.
Proof.
  unfold on_response. destruct (s_json s).
  { intros [= <- _ _]. intros E. exfalso. eapply (not_answer_app [Printed (to_json r)]); [|exact E].
    constructor; [by intros [? ?]|constructor]. }
  pose proof (show_response_silent r) as Hs. destruct r;
    lazymatch goal with
    | |- context[decide_pairing] => idtac
    | |- _ => intros [= <- _ _] E; exfalso; exact (not_answer_app _ _ _ _ Hs E)
    end.
  destruct (decide_pairing s o) as [[d asked] o1] eqn:Ed. apply decide_pairing_spec in Ed.
  assert (Forall (λ x, ~ is_answer x) (show_question name fingerprint sas)) as Hq
    by (repeat constructor; by intros [? ?]).
  remember (show_question name fingerprint sas) as q eqn:Hqe.
  destruct Ed as [(x & -> & Hx & Hd)|[Hn ->]].
  - assert (Forall (λ x, ~ is_answer x) (q ++ [x])) as Hqx
      by (apply Forall_app; split; [done|by constructor]).
    destruct asked as [b| |]; [|intros [= <- _ _] E; exfalso; by eapply not_answer_app..].
    destruct (connections o1) as [|[] more]; intros [= <- _ _] E; try (exfalso; by eapply not_answer_app);
      apply snoc_answer in E as (E1 & E2 & E3); try done; (split_and!; [done|done|]);
      exists name, fingerprint, sas, x; rewrite <- Hqe, E2; split_and!; try done; by apply Hd.
  - intros [= <- _ _] E. exfalso. eapply not_answer_app; [|exact E]. by apply Forall_app.
Qed.

(** A question takes the next line. *)
Lemma on_response_typed s r failed o did f o' :
  on_response to_json s r failed o = (did, inr f, o') -> typed o' = drop (asked_so_far did) (typed o).
Proof.
  unfold on_response. destruct (s_json s); [by intros [= <- _ <-]|].
  assert (∀ l, l = show_response r -> asked_so_far l = 0%nat) as Hs
    by (intros l ->; apply prints_ask_nothing, show_response_prints).
  destruct r as [|?|?|?|?|?|name fp sas|m];
    lazymatch goal with
    | |- context[decide_pairing] => idtac
    | |- _ => intros [= <- _ <-]; rewrite Hs; [done|reflexivity]
    end.
  unfold decide_pairing. destruct (s_assume_yes s); [|destruct (s_tty s)].
  - destruct (connections o) as [|[] ?]; intros [= <- _ <-]; done.
  - destruct (typed o) as [|[line|] more] eqn:Et; cbn [typed connections].
    + destruct (connections o) as [|[] ?]; intros [= <- _ <-]; cbn; by rewrite Et.
    + destruct (connections o) as [|[] ?]; intros [= <- _ <-]; cbn; by rewrite drop_0.
    + done.
  - by intros [= <- _ <-].
Qed.

Lemma decided_by_drop yes tty o o' k n x r :
  typed o' = drop k (typed o) -> decided_by yes tty o' n x r -> decided_by yes tty o (k + n) x r.
Proof. unfold decided_by, typed_at. intros ->. by rewrite lookup_drop. Qed.

Lemma silent_no_deny l : Forall (λ x, ~ is_answer x) l -> AnsweredDaemon RDeny ∉ l.
Proof. rewrite Forall_forall. intros H Hin. apply (H _ Hin). by eexists. Qed.

(** What [failed] is after a response. *)
Lemma on_response_failed s r failed o did next o' :
  on_response to_json s r failed o = (did, next, o') ->
  next = inl ExitError \/
  ∃ f, (next = inr f \/ next = inl (exit_of f) /\ s_streaming s = false) /\
    (f = true <-> failed = true \/ (∃ m, r = RError m) \/ AnsweredDaemon RDeny ∈ did).
Proof.
  assert (∀ f : bool, (if s_streaming s then inr f else inl (exit_of f)) = inr f \/
    (if s_streaming s then inr f else inl (exit_of f)) = inl (exit_of f) /\ s_streaming s = false) as Hnext
    by (intros f; destruct (s_streaming s); auto).
  unfold on_response. destruct (s_json s).
  { intros [= <- <- <-]. right. eexists. split; [apply Hnext|].
    rewrite list_elem_of_singleton. destruct r; naive_solver. }
  pose proof (silent_no_deny _ (show_response_silent r)) as Hs. destruct r as [|?|?|?|?|?|name fp sas|m];
    lazymatch goal with
    | |- context[decide_pairing] => idtac
    | |- _ => intros [= <- <- <-]; right; eexists; (split; [apply Hnext|]); naive_solver
    end.
  assert (Forall (λ x, ~ is_answer x) (show_question name fp sas)) as Hq
    by (repeat constructor; by intros [? ?]).
  destruct (decide_pairing s o) as [[d asked] o1] eqn:Ed. apply decide_pairing_spec in Ed.
  assert (AnsweredDaemon RDeny ∉ (show_question name fp sas ++ d)%list) as Hd.
  { apply silent_no_deny, Forall_app. split; [done|]. destruct Ed as [(x & -> & Hx & _)|[? _]]; [by constructor|done]. }
  clear Ed Hq Hs. set (q := (show_question name fp sas ++ d)%list) in *. clearbody q.
  destruct asked as [b| |].
  - destruct (connections o1) as [|[] more]; intros [= <- <- <-]; auto; right; eexists; (split; [apply Hnext|]);
      rewrite elem_of_app, list_elem_of_singleton; destruct b; naive_solver.
  - intros [= <- <- <-]. right. exists failed. split; [auto|]. naive_solver.
  - intros [= <- <- <-]. auto.
Qed.

(** Unless the client itself fails, its exit status says what happened: it is
    1 exactly when, among the responses it read, one was an error or a pairing
    was answered with no.  A command that expects one response reads no more
    than that one (and whatever question it could not put to anybody); one
    that streams reads until the daemon is done. *)
Theorem exit_tells s lines failed o did e :
  respond to_json s lines failed o = (did, e) -> e <> ExitError ->
  ∃ seen unread, lines = seen ++ unread /\ (s_streaming s = true -> unread = []) /\
    (s_streaming s = false -> ∀ r, r ∈ removelast seen -> ∃ name fp sas, r = Some (RConfirm name fp sas)) /\
    (e = ExitFailed <-> failed = true \/ (∃ m, Some (RError m) ∈ seen) \/ AnsweredDaemon RDeny ∈ did).
Proof.
  revert failed o did. induction lines as [|[r|] lines IH]; intros failed o did; cbn [respond].
  - intros [= <- <-] _. exists [], []. split_and!; [done|done|by intros _ ? ?%elem_of_nil|].
    setoid_rewrite elem_of_nil. destruct failed; naive_solver.
  - destruct (on_response to_json s r failed o) as [[d next] o1] eqn:Er.
    apply on_response_failed in Er as Hf. destruct Hf as [->|(f & Hnext & Hf)]; [by intros [= <- <-] ?|].
    destruct Hnext as [->|[-> Hs]].
    + destruct (respond to_json s lines f o1) as [more e'] eqn:Erec. intros [= <- <-] He.
      destruct (IH _ _ _ Erec He) as (seen & unread & -> & Hst & Hone & Hw).
      exists (Some r :: seen), unread. split_and!; [done|done| |].
      * intros Hs r'. destruct seen as [|x seen]; [by intros ?%elem_of_nil|].
        change (removelast (Some r :: x :: seen)) with (Some r :: removelast (x :: seen)).
        intros [->|Hin]%elem_of_cons; [|by apply Hone].
        unfold on_response in Er. rewrite Hs in Er. destruct (s_json s); [done|]. destruct r; naive_solver.
      * rewrite Hw. setoid_rewrite elem_of_app. setoid_rewrite elem_of_cons. naive_solver.
    + intros [= <- <-] He. exists [Some r], lines. split_and!; [done|by rewrite Hs|by intros _ ? ?%elem_of_nil|].
      assert (exit_of f = ExitFailed <-> f = true) as -> by (by destruct f).
      rewrite Hf. setoid_rewrite list_elem_of_singleton. naive_solver.
  - intros [= <- <-]. done.
Qed.

(** What the client answers in answer to the daemon's lines. *)
Lemma respond_answers s lines failed o did e pre a post :
  respond to_json s lines failed o = (did, e) -> did = pre ++ AnsweredDaemon a :: post ->
  s_json s = false /\
  ∃ pre' name fp sas x,
    Some (RConfirm name fp sas) ∈ lines /\ pre = pre' ++ show_question name fp sas ++ [x] /\
    decided_by (s_assume_yes s) (s_tty s) o (asked_so_far pre') x a.
Proof.
  revert failed o did pre. induction lines as [|[r|] lines IH]; intros failed o did pre; cbn [respond];
    [intros [= <- _] E; by destruct pre| |intros [= <- _] E; by destruct pre].
  destruct (on_response to_json s r failed o) as [[d next] o1] eqn:Er.
  assert (∀ d1 d2, d = d1 ++ AnsweredDaemon a :: d2 -> pre = d1 ->
    s_json s = false /\ ∃ pre' name fp sas x, Some (RConfirm name fp sas) ∈ Some r :: lines /\
      pre = pre' ++ show_question name fp sas ++ [x] /\
      decided_by (s_assume_yes s) (s_tty s) o (asked_so_far pre') x a) as Hhere.
  { intros d1 d2 E ->. destruct (on_response_answers _ _ _ _ _ _ _ _ _ _ Er E) as (-> & ? & name & fp & sas & x & -> & -> & ?).
    split; [done|]. exists [], name, fp, sas, x. split_and!; [by left|done|done]. }
  destruct next as [e'|failed'].
  - intros [= <- _] E. by apply (Hhere pre post).
  - destruct (respond to_json s lines failed' o1) as [more e'] eqn:Erec. intros [= <- ->] E.
    apply app_eq_app in E as [l [[-> E]|[-> E]]].
    + destruct l as [|x l]; cbn in E.
      * destruct (IH _ _ _ [] Erec (eq_sym E)) as (? & pre' & name & fp & sas & x & _ & Hnil & _). by destruct pre', fp.
      * injection E as <- ->. by apply (Hhere pre l).
    + destruct (IH _ _ _ l Erec E) as (? & pre' & name & fp & sas & x & Hin & -> & Hd). split; [done|].
      exists (d ++ pre'), name, fp, sas, x. split_and!; [by right|by rewrite <-app_assoc|].
      rewrite asked_app. eapply decided_by_drop; [|exact Hd]. by eapply on_response_typed.
Qed.

(** The leave to accept without asking. *)
Definition says_accept (cmd : Top) : bool :=
  match cmd with TPair None yes | TPair (Some (PairWith _ yes)) _ => yes | _ => false end.

(** C35 (safety): In every run of the client, whatever the daemon's lines, what is
    typed and how its connections fare.  The one request it sends of its own is
    an answer to a pairing only for the two commands that say so: yes exactly for
    [pair approve], no exactly for [pair deny].  Beyond that it answers only when
    its output is not JSON and the daemon has asked: each answer comes right after
    the name, the fingerprint and the digits of a question of the daemon's were
    printed and one line more, which tells what decided it.  With [--yes] on a
    pairing command, that line says so and the answer is yes.  Without it, there is
    a terminal, the line is the question put to the person, and the answer is
    what was typed at that very question: the [n]th line typed for the [n]th
    question (nothing, where the input has ended), no if it starts with n and
    yes otherwise. *)
Theorem no_answer_unasked args home cwd tty lines o req did e :
  ctl_run to_json args home cwd tty lines o = (req, did, e) ->
  ((req = Some RApprove <-> ∃ yes, ctl_cmd args = TPair (Some PairApprove) yes) /\
   (req = Some RDeny <-> ∃ yes, ctl_cmd args = TPair (Some PairDeny) yes)) /\
  ∀ pre a post, did = pre ++ AnsweredDaemon a :: post ->
    ctl_json args = false /\
    ∃ pre' name fp sas x,
      Some (RConfirm name fp sas) ∈ lines /\ pre = pre' ++ show_question name fp sas ++ [x] /\
      decided_by (says_accept (ctl_cmd args)) tty o (asked_so_far pre') x a.
Proof.
  unfold ctl_run. destruct (request_of home cwd (ctl_cmd args)) as [[[r streaming] yes]|] eqn:Eq.
  - assert (yes = says_accept (ctl_cmd args) /\
      ((r = RApprove <-> ∃ yes, ctl_cmd args = TPair (Some PairApprove) yes) /\
       (r = RDeny <-> ∃ yes, ctl_cmd args = TPair (Some PairDeny) yes))) as [-> Hr].
    { revert Eq. destruct (ctl_cmd args) as [|[[]|]|[]|[]|[]|[] ?|[]|[]|]; cbn; try (destruct (absolute _ _ _); cbn);
        intros [= <- <- <-]; (split; [done|]); split; naive_solver. }
    destruct (respond _ _ _ _ _) as [did' e'] eqn:Er. intros [= <- <- <-]. split; [destruct Hr as [H1 H2]; split; naive_solver|].
    intros pre a post E. exact (respond_answers _ _ _ _ _ _ _ _ _ Er E).
  - intros [= <- <- <-]. split; [|by intros [|] ? ?].
    split; (split; [done|]); intros [y E]; rewrite E in Eq; done.
Qed.
End theorems.

(** The client looks for the socket where the daemon puts it, for any state
    directory named to both, and otherwise in the runtime directory of the
    person's session. *)
Theorem sockets_meet sys cwd state :
  is_Some state \/ (∃ d, env_var sys "XDG_RUNTIME_DIR" = Some d /\ str_starts_with "/" d = true) ->
  file_at cwd (ctl_socket_path (env_var sys "XDG_RUNTIME_DIR") state)
  = socket_path (file_at cwd (state_dir sys state)) (match state with Some _ => true | None => false end)
      (env_var sys "XDG_RUNTIME_DIR").
Proof.
  intros H. unfold ctl_socket_path, socket_path, state_dir. destruct state as [s|].
  - destruct (String.eqb_spec s "") as [->|Hne]; [|by apply file_at_join].
    unfold file_at, path_join. cbn. by rewrite app_nil_r.
  - destruct H as [[? [=]]|(d & -> & Hd)]. cbn [default].
    change (file_at cwd (pb_join d "acrylius.sock") = path_join (components d) "acrylius.sock").
    rewrite file_at_join by (by intros E; rewrite E in Hd). f_equal.
    unfold file_at, path_join. by rewrite Hd.
Qed.

(** Without either the two part: the client looks in [/tmp], the daemon is
    beside its state. *)
Lemma sockets_miss sys cwd :
  env_var sys "XDG_RUNTIME_DIR" = None ->
  file_at cwd (ctl_socket_path (env_var sys "XDG_RUNTIME_DIR") None) = ["tmp"; "acrylius.sock"]%string /\
  socket_path (file_at cwd (state_dir sys None)) false (env_var sys "XDG_RUNTIME_DIR")
  = path_join (file_at cwd (state_dir sys None)) "acrylius.sock".
Proof. intros ->. done. Qed.

(** A file is named to the daemon by an absolute path, whatever was typed, as long
    as the working directory is one. *)
Lemma sent_path_absolute p home cwd :
  is_absolute cwd = true -> is_absolute (resolve_path p home cwd) = true.
Proof.
  intros Hc. unfold resolve_path. cbv zeta.
  match goal with |- context[if is_absolute ?x then _ else _] => destruct (is_absolute x) eqn:E end;
    [exact E|by apply pb_join_absolute].
Qed.

(** A connection that the daemon closes without a word is a success to the client. *)
Example silence_is_success to_json s o : respond to_json s [] false o = ([], ExitOk).
Proof. done. Qed.

(** With its output as JSON the client never answers a pairing, [--yes] or not. *)
Example json_yes_unanswered to_json name fp sas o :
  respond to_json (mkSetting true true true true) [Some (RConfirm name fp sas)] false o
  = ([Printed (to_json (RConfirm name fp sas))], ExitOk).
Proof. done. Qed.
