(* ===== verification/Serve.v ===== *)
(** * [acryliusd/src/control.rs]: the life of the control socket

    Binding it, taking over one a crash left behind, who is let in, and giving
    it back.  A socket is a file with a listener behind it: a connection goes
    through if the file that has the name is one somebody still listens on.
    That a name is taken is [AlreadyExists] here, and [AddrInUse] to the
    system. *)

From S2P Require Import Prelude Strs Utf8 Bulk Fs Paths Config Startup StartupTheorems Host.
Local Open Scope N_scope.

(** ** Binding *)

Record Sockets := mkSockets { sk_disk : disk; sk_listening : gset ino }.
#[global] Instance Sockets_eta : Eta Sockets := λ s, mkSockets (sk_disk s) (sk_listening s).

(** [UnixStream::connect]. *)
Definition connects (p : path) (s : Sockets) : bool :=
  match dir (sk_disk s) !! p with Some i => bool_decide (i ∈ sk_listening s) | None => false end.

(** A socket nobody answers on is removed, if that works. *)
(* src: crates/acryliusd/src/control.rs 158 162 serve *)
Definition serve_probe (p : path) (s : Sockets) : Sockets :=
  if connects p s then s else s <| sk_disk ::= λ d, (remove_file p d).2 |>.
(** [UnixListener::bind], then for its owner only; a listener that cannot be
    restricted is dropped. *)
(* src: crates/acryliusd/src/control.rs 163 168 serve *)
Definition serve_bind (p : path) (s : Sockets) : result ino ErrorKind * Sockets :=
  match create_new p (sk_disk s) with
  | (Err e, d) => (Err e, s <| sk_disk := d |>)
  | (Ok i, d) =>
      match chmod p 0x180 d with
      | (Err e, d) => (Err e, s <| sk_disk := d |>)
      | (Ok _, d) => (Ok i, mkSockets d ({[i]} ∪ sk_listening s))
      end
  end.
(* src: crates/acryliusd/src/control.rs 157 208 serve *)
Definition serve (p : path) (s : Sockets) : result ino ErrorKind * Sockets := serve_bind p (serve_probe p s).

(** The daemon that listened ends: its listener goes, and its [ControlSocket]
    takes the file of that name away, which only one that bound has. *)
(* src: crates/acryliusd/src/control.rs 25 32 ControlSocket::drop *)
Definition drop_socket (p : path) (i : ino) (s : Sockets) : Sockets :=
  mkSockets (remove_file p (sk_disk s)).2 (sk_listening s ∖ {[i]}).
(** A call to accept that fails ends the loop, and with it the listener. *)
(* src: crates/acryliusd/src/control.rs 173 175 serve *)
Definition accept_failed (i : ino) (s : Sockets) : Sockets := s <| sk_listening ::= λ l, l ∖ {[i]} |>.

(** ** Who is let in *)

(* src: crates/acryliusd/src/control.rs 210 221 nix_getuid *)
Definition nix_getuid : option string -> u32 := uid.

(** What [accept] gives: nothing more, or a connection with what the kernel says
    of its maker, if it does; those that are served. *)
(* src: crates/acryliusd/src/control.rs 171 204 serve *)
Fixpoint served {C} (own : u32) (accepts : list (option (option u32 * C))) : list C :=
  match accepts with
  | Some (Some cred, c) :: accepts => if cred =? own then c :: served own accepts else served own accepts
  | Some (None, _) :: accepts => served own accepts
  | None :: _ | [] => []
  end.

(** Every connection served was made by this user, and none of this user's made
    before the first failure is missed. *)
Lemma served_own {C} own (accepts : list (option (option u32 * C))) c :
  c ∈ served own accepts <->
  ∃ pre post, accepts = pre ++ Some (Some own, c) :: post /\ Forall is_Some pre.
Proof.
  induction accepts as [|[[[cred|] x]|] accepts IH]; cbn [served].
  - split; [by intros ?%elem_of_nil|]. intros (pre & post & E & _). by destruct pre.
  - assert (c ∈ (if cred =? own then x :: served own accepts else served own accepts) <->
      (cred = own /\ c = x) \/ c ∈ served own accepts) as ->.
    { destruct (N.eqb_spec cred own); rewrite ?elem_of_cons; naive_solver. }
    rewrite IH. split.
    + intros [[-> ->]|(pre & post & -> & Hp)]; [exists [], accepts; by split|].
      exists (Some (Some cred, x) :: pre), post. split; [done|]. constructor; [by eexists|done].
    + intros (pre & post & E & Hp). destruct pre as [|y pre]; [injection E as -> -> _; by left|].
      injection E as <- E2. right. apply Forall_cons in Hp as [_ Hp]. by exists pre, post.
  - rewrite IH. split.
    + intros (pre & post & -> & Hp). exists (Some (None, x) :: pre), post. split; [done|]. constructor; [by eexists|done].
    + intros (pre & post & E & Hp). destruct pre as [|y pre]; [done|]. injection E as <- E2.
      apply Forall_cons in Hp as [_ Hp]. by exists pre, post.
  - split; [by intros ?%elem_of_nil|]. intros (pre & post & E & Hp). destruct pre as [|y pre]; [done|].
    injection E as <- _. by apply Forall_cons in Hp as [[? ?] _].
Qed.

(** ** One daemon at a time *)

(** Daemons of one name start and end; [running] are those that bound it. *)
Inductive socket_step (p : path) : Sockets * list ino -> Sockets * list ino -> Prop :=
| ss_started s s' running i : serve p s = (Ok i, s') -> socket_step p (s, running) (s', running ++ [i])
| ss_refused s s' running e : serve p s = (Err e, s') -> socket_step p (s, running) (s', running)
| ss_ended s running k i :
    running !! k = Some i -> socket_step p (s, running) (drop_socket p i s, delete k running).

(** At most one runs; if one does, the name is its own and others are kept out. *)
Definition Exclusive (p : path) (d0 : disk) (st : Sockets * list ino) : Prop :=
  let '(s, running) := st in
  let d := sk_disk s in
  wf d /\ healthy d /\ (∀ q, q <> p -> read_back d q = read_back d0 q) /\
  match running with
  | [] => sk_listening s = ∅
  | [i] => sk_listening s = {[i]} /\ dir d !! p = Some i /\ mode_of d p = Some 0x180
  | _ => False
  end.

Lemma removed_healthy p d :
  wf d -> healthy d ->
  let d' := (remove_file p d).2 in
  wf d' /\ healthy d' /\ dir d' !! p = None /\ ∀ q, q <> p -> read_back d' q = read_back d q.
Proof.
  intros Hwf Hh. cbv zeta. unfold remove_file. rewrite attempt_healthy by done.
  destruct (dir d !! p) as [i|] eqn:E; cbn [snd]; [|by split_and!].
  split_and!; [by apply wf_delete|done|cbn; by rewrite lookup_delete_eq|].
  intros q Hq. unfold read_back. cbn. by rewrite lookup_delete_ne.
Qed.

Lemma bind_healthy p s :
  wf (sk_disk s) -> healthy (sk_disk s) -> dir (sk_disk s) !! p = None ->
  ∃ i d', serve_bind p s = (Ok i, mkSockets d' ({[i]} ∪ sk_listening s)) /\
    wf d' /\ healthy d' /\ dir d' !! p = Some i /\ mode_of d' p = Some 0x180 /\
    ∀ q, q <> p -> read_back d' q = read_back (sk_disk s) q.
Proof.
  destruct s as [d l]. cbn [sk_disk sk_listening]. intros Hwf Hh Hp. unfold serve_bind, create_new. cbn [sk_disk].
  rewrite attempt_healthy, Hp by done.
  assert (dir (new_file p d) !! p = Some (fresh_ino d)) as Hd by (cbn; by rewrite lookup_insert_eq).
  rewrite (chmod_healthy p 0x180 (new_file p d) (fresh_ino d)) by done.
  exists (fresh_ino d). eexists. split; [reflexivity|]. split_and!.
  - by apply wf_set_inode, wf_new_file.
  - done.
  - exact Hd.
  - unfold mode_of. cbn. rewrite lookup_insert_eq. cbn. by rewrite lookup_alter_eq, lookup_insert_eq.
  - destruct (created_fills p d d (Kept_refl p d Hwf)) as (i & d' & Ec & HF & _). unfold created in Ec. rewrite Hp in Ec.
    injection Ec as <- <-. destruct HF as [[Hwf' Hk] _]. intros q Hq. rewrite read_back_set_inode; [by apply Hk|].
    intros Hqi. apply Hq. by apply (wf_inj _ Hwf' (dir (new_file p d)) q p (fresh_ino d)); [left|..].
Qed.

Lemma serve_alone p d0 s :
  Exclusive p d0 (s, []) -> ∃ i s', serve p s = (Ok i, s') /\ Exclusive p d0 (s', [i]).
Proof.
  intros (Hwf & Hh & Hk & Hl). unfold serve, serve_probe.
  assert (connects p s = false) as ->.
  { unfold connects. destruct (dir (sk_disk s) !! p); [|done]. rewrite Hl. by apply bool_decide_eq_false. }
  destruct (removed_healthy p (sk_disk s) Hwf Hh) as (Hwf1 & Hh1 & Hp1 & Hk1).
  destruct (bind_healthy p (s <| sk_disk ::= λ d, (remove_file p d).2 |>)) as (i & d' & -> & Hwf2 & Hh2 & Hp2 & Hm & Hk2);
    [done..|]. exists i. eexists. split; [reflexivity|]. cbn in Hk2 |- *. split_and!; try done.
  - intros q Hq. by rewrite Hk2, Hk1, Hk.
  - rewrite Hl. set_solver.
Qed.

Lemma serve_taken p d0 s i : Exclusive p d0 (s, [i]) -> serve p s = (Err AlreadyExists, s).
Proof.
  intros (Hwf & Hh & Hk & Hl & Hp & _). unfold serve, serve_probe.
  assert (connects p s = true) as -> by (unfold connects; rewrite Hp, Hl; apply bool_decide_eq_true; set_solver).
  unfold serve_bind, create_new. rewrite attempt_healthy, Hp by done. by destruct s.
Qed.

(** While calls go through and nobody else meddles, however daemons of one name start and
    end one after the other, at most one of them listens; the name leads to it,
    for its owner only; another that starts is told the name is taken and
    disturbs nothing; a file a crash left is taken over; and no other file is
    touched. *)
Theorem sockets_exclusive p d0 st :
  wf d0 -> healthy d0 -> rtc (socket_step p) (mkSockets d0 ∅, []) st ->
  Exclusive p d0 st /\
  match st with
  | (s, []) => ∃ i s', serve p s = (Ok i, s')
  | (s, _) => connects p s = true /\ serve p s = (Err AlreadyExists, s)
  end.
Proof.
  intros Hwf Hh Hrun. assert (Exclusive p d0 st) as HE.
  { assert (Exclusive p d0 (mkSockets d0 ∅, [])) as H0 by done.
    remember (mkSockets d0 ∅, @nil ino) as st0 eqn:E0. clear E0. revert H0. induction Hrun as [|st0 st1 st2 Hstep _ IH]; [done|]. intros HE. apply IH.
    destruct Hstep as [s s' running i E|s s' running e E|s running k i Hk].
    - destruct running as [|j [|? ?]]; [|by rewrite (serve_taken p d0 s j HE) in E|by destruct HE as (_ & _ & _ & [])].
      destruct (serve_alone p d0 s HE) as (i' & s1 & E' & HE'). rewrite E in E'. by injection E' as -> ->.
    - destruct running as [|j [|? ?]]; [|rewrite (serve_taken p d0 s j HE) in E; by injection E as _ <-|by destruct HE as (_ & _ & _ & [])].
      destruct (serve_alone p d0 s HE) as (i' & s1 & E' & _). by rewrite E in E'.
    - destruct HE as (Hwf1 & Hh1 & Hk1 & HE). destruct running as [|j [|? ?]]; [done| |by destruct HE].
      destruct k; [|done]. injection Hk as ->. destruct HE as (Hl & _).
      destruct (removed_healthy p (sk_disk s) Hwf1 Hh1) as (Hwf2 & Hh2 & _ & Hk2).
      split_and!; [done|done| |].
      + intros q Hq. cbn. by rewrite Hk2, Hk1.
      + cbn. rewrite Hl. set_solver. }
  split; [done|]. destruct st as [s [|i [|? ?]]]; [| |by destruct HE as (_ & _ & _ & [])].
  - destruct (serve_alone p d0 s HE) as (i & s' & E & _). by exists i, s'.
  - split; [|by apply (serve_taken p d0 s i)]. destruct HE as (_ & _ & _ & Hl & Hp & _).
    unfold connects. rewrite Hp, Hl. apply bool_decide_eq_true. set_solver.
Qed.

(** Two that start together each see nobody: the second removes the socket the
    first has just bound, and both listen, one of them at no name. *)
Lemma racing_starts p d :
  wf d -> healthy d ->
  ∃ i j s, serve_bind p (serve_probe p (mkSockets d ∅)) = (Ok i, s) /\
    (* the second looked before the first bound *)
    ∃ s', serve_bind p (s <| sk_disk ::= λ d, (remove_file p d).2 |>) = (Ok j, s') /\
      sk_listening s' = {[j; i]} /\ dir (sk_disk s') !! p = Some j.
Proof.
  intros Hwf Hh. destruct (serve_alone p d (mkSockets d ∅)) as (i & s & E & HE); [done|].
  destruct HE as (Hwf1 & Hh1 & _ & Hl & _). destruct (removed_healthy p (sk_disk s) Hwf1 Hh1) as (Hwf2 & Hh2 & Hp2 & _).
  destruct (bind_healthy p (s <| sk_disk ::= λ d, (remove_file p d).2 |>)) as (j & d' & E' & _ & _ & Hp' & _);
    [done..|]. exists i, j, s. split; [exact E|]. eexists. split; [exact E'|]. cbn. split; [|done]. rewrite Hl. set_solver.
Qed.

(** One call to accept that fails and the daemon is deaf for good, where the TCP
    listener tries again: who starts next takes the name, and loses it when the
    first daemon ends. *)
Lemma deaf_daemon p d0 s i :
  Exclusive p d0 (s, [i]) ->
  connects p (accept_failed i s) = false /\
  ∃ j s', serve p (accept_failed i s) = (Ok j, s') /\ dir (sk_disk (drop_socket p i s')) !! p = None.
Proof.
  intros (Hwf & Hh & Hk & Hl & Hp & _). assert (Exclusive p d0 (accept_failed i s, [])) as HE.
  { split_and!; [done..|]. cbn. rewrite Hl. set_solver. }
  split.
  - unfold connects. cbn. rewrite Hp, Hl. apply bool_decide_eq_false. set_solver.
  - destruct (serve_alone p d0 _ HE) as (j & s' & E & HE'). exists j, s'. split; [exact E|].
    destruct HE' as (Hwf' & Hh' & _). by apply removed_healthy.
Qed.
