(* ===== verification/Agreement.v ===== *)
(** * What the phone and the desktop have to agree on

    The constants [acrylius-ffi/src/lib.rs] hands to the application, and the
    smaller parts of its object, against what the desktop does: how long the
    phone waits for an answer and how long the desktop may take, what the phone
    looks for over Bluetooth and what the desktop shows there, and whose
    patience with a dial ends first. *)

From S2P Require Import Prelude Externals Link Peer Vocab Noise Plugin Session Media Share CoreState.
From S2P Require Import BleTransport BleBus Logind Players TouchDevice Desktop Config Ipc Control FfiTypes FfiBodies FfiCore.
Local Open Scope N_scope.

(** ** What the library tells the application *)

(** [drawn] is what the system's random numbers give, or why they do not. *)
(* src: crates/acrylius-ffi/src/lib.rs 62 69 generate_identity *)
Definition generate_identity `{X25519} (drawn : result bytes string) : result bytes FfiError :=
  match drawn with
  | Ok key => Ok (id_private (Identity_from_private key))
  | Err e => Err (EffectError e)
  end.

(* src: crates/acrylius-ffi/src/lib.rs 266 273 AcryliusCore::caps_in *)
Definition ffi_caps_in `{Externs} (c : Core) : list string := caps_in c.
(* src: crates/acrylius-ffi/src/lib.rs 277 284 AcryliusCore::caps_served *)
Definition ffi_caps_served `{Externs} (c : Core) : list string := caps_served c.
(* src: crates/acrylius-ffi/src/lib.rs 286 293 AcryliusCore::caps_out *)
Definition ffi_caps_out `{Externs} (c : Core) : list string := caps_out c.

(* src: crates/acrylius-ffi/src/lib.rs 303 308 ble_service_uuid *)
Definition ble_service_uuid : string := BLE_SERVICE_UUID.
(* src: crates/acrylius-ffi/src/lib.rs 310 316 ble_identity_uuid *)
Definition ble_identity_uuid : string := BLE_IDENTITY_UUID.
(* src: crates/acrylius-ffi/src/lib.rs 318 323 ble_rx_uuid *)
Definition ble_rx_uuid : string := BLE_RX_UUID.
(* src: crates/acrylius-ffi/src/lib.rs 325 330 ble_tx_uuid *)
Definition ble_tx_uuid : string := BLE_TX_UUID.
(* src: crates/acrylius-ffi/src/lib.rs 332 336 default_port *)
Definition default_port : u16 := DEFAULT_PORT.
(* src: crates/acrylius-ffi/src/lib.rs 338 346 session_lock_budget_ms *)
Definition session_lock_budget_ms : u64 := LOCK_REPLY_BUDGET_MS.
(* src: crates/acrylius-ffi/src/lib.rs 348 353 session_unlock_budget_ms *)
Definition session_unlock_budget_ms : u64 := UNLOCK_REPLY_BUDGET_MS.
(* src: crates/acrylius-ffi/src/lib.rs 355 360 media_command_budget_ms *)
Definition media_command_budget_ms : u64 := CONTROL_REPLY_BUDGET_MS.
(* src: crates/acrylius-ffi/src/lib.rs 362 368 dead_peer_ms *)
Definition dead_peer_ms : u64 := DEAD_PEER_MS.
(* src: crates/acrylius-ffi/src/lib.rs 370 379 dial_timeout_ms *)
Definition ffi_dial_timeout_ms : u64 := DIAL_TIMEOUT_MS.
(* src: crates/acrylius-ffi/src/lib.rs 381 387 media_watch_interval_ms *)
Definition media_watch_interval_ms : u64 := WATCH_INTERVAL_MS.
(* src: crates/acrylius-ffi/src/lib.rs 389 393 media_watch_slow_interval_ms *)
Definition media_watch_slow_interval_ms : u64 := WATCH_INTERVAL_SLOW_MS.
(* src: crates/acrylius-ffi/src/lib.rs 395 400 media_idle_interval_ms *)
Definition media_idle_interval_ms : u64 := IDLE_INTERVAL_MS.

(** How long a client of the control socket waits for a device. *)
(* src: crates/acryliusd/src/control.rs 701 702 MACHINE *)
Definition MACHINE : u64 := 15000.
(* src: crates/acryliusd/src/control.rs 703 705 PATIENT *)
Definition PATIENT : u64 := 3600 * 1000.

(** ** Waiting *)

Section waiting.
  Context {TX : Texts}.

(** The milliseconds an effect takes, of those the phone waits for, with the
    commands configured to lock and unlock. *)
Definition effect_takes (eff : Effect) (commands : SessionCommands) (m : Machine) : u64 :=
  match eff with
  | LockSession => (session_act true (m_uid m) commands (m_seat m)).2
  | UnlockSession => (session_act false (m_uid m) commands (m_seat m)).2
  | MediaControl player action =>
      (control_and_settle str_to_lowercase object_path player action (m_reading m)
         (mixer_set action (m_mixer m)).1 (m_player m) (m_readings m)).1.2
  | _ => 0
  end.
(** What of them passes before the watch for it to show. *)
Definition takes_before_watch (eff : Effect) (m : Machine) : u64 :=
  match eff with
  | LockSession | UnlockSession =>
      lk_took (se_first (m_seat m)) + lk_took (se_chosen (m_seat m)) + se_call_took (m_seat m)
  | MediaControl _ _ => rd_took (m_reading m) + pa_took (m_player m) + 150
  | _ => 0
  end.
(** How long the phone waits for its answer, where the library tells it. *)
Definition phone_waits (eff : Effect) : option u64 :=
  match eff with
  | LockSession => Some session_lock_budget_ms
  | UnlockSession => Some session_unlock_budget_ms
  | MediaControl _ _ => Some media_command_budget_ms
  | _ => None
  end.

(** C36 (bounds): The phone waits long enough: the desktop is done with a lock, an unlock or a media
    command before the phone calls it a failure, whatever the screen locker and
    the players do meanwhile, as long as what comes before the watch, one poll with
    its pause and the way over the network fit into the slack.  A client of the
    control socket waits longer still. *)
Theorem phone_waits_long_enough eff commands m poll travel waits :
  phone_waits eff = Some waits ->
  (∀ k, lk_took (se_polls (m_seat m) k) <= poll) -> (∀ k, rd_took (m_readings m k) <= poll) ->
  takes_before_watch eff m + poll + N.max CONFIRM_INTERVAL CONTROL_INTERVAL + travel <= REPLY_SLACK_MS ->
  effect_takes eff commands m + travel <= waits /\ waits <= MACHINE.
Proof.
  intros Hw Hl Hr Hs. split; [|by destruct eff; try done; injection Hw as <-].
  pose proof (λ want, act_time want (m_uid m) commands (m_seat m) poll Hl) as Ha.
  change (N.max CONFIRM_INTERVAL CONTROL_INTERVAL) with CONFIRM_INTERVAL in Hs.
  destruct eff as [| | | | | | | |player action| | |]; try done; injection Hw as <-;
    cbn [effect_takes takes_before_watch] in *.
  - specialize (Ha true). change session_lock_budget_ms with (confirm_window true + REPLY_SLACK_MS). lia.
  - specialize (Ha false). change session_unlock_budget_ms with (confirm_window false + REPLY_SLACK_MS). lia.
  - pose proof (settled_first str_to_lowercase object_path player action (m_reading m)
      (mixer_set action (m_mixer m)).1 (m_player m) (m_readings m) poll Hr) as H.
    destruct (control_and_settle _ _ _ _ _ _ _ _) as [[[res calls] t] n]. destruct H as [H _]. cbn [fst snd].
    change media_command_budget_ms with (CONTROL_CONFIRM_MS + REPLY_SLACK_MS).
    assert (CONTROL_INTERVAL <= CONFIRM_INTERVAL) by (vm_compute; done). lia.
Qed.
End waiting.

(** The phone gives up a dial before the core's backstop does, with any
    configuration of its own. *)
Lemma dial_bounds_ordered config : ffi_dial_timeout_ms < dial_timeout_ms (phone_config config).
Proof. vm_compute. done. Qed.
(** While nothing plays the phone does not read inside the window of a command. *)
Lemma idle_outside_window : CONTROL_CONFIRM_MS < media_idle_interval_ms.
Proof. vm_compute. done. Qed.

(** ** Meeting over Bluetooth *)

Definition chr_for (uuid flag : string) (chrs : list Chr) : list string :=
  map chr_path (List.filter (λ c, (chr_uuid c =s uuid) && existsb (λ f, f =s flag) (chr_flags c)) chrs).

(** What the phone scans for is what is advertised and what is served, and each thing it
    does there is allowed on one characteristic of that service, each a different
    one. *)
Lemma phone_finds_desktop name :
  let '(_, services, chrs) := gatt_application in
  adv_service_uuids (advertisement_of name) = [ble_service_uuid] /\
  map srv_uuid services = [ble_service_uuid] /\
  Forall (λ c, chr_service c ∈ map srv_path services) chrs /\ NoDup (map chr_path chrs) /\
  chr_for ble_identity_uuid "read" chrs = [IDENTITY_PATH] /\
  chr_for ble_rx_uuid "write-without-response" chrs = [RX_PATH] /\
  chr_for ble_tx_uuid "notify" chrs = [TX_PATH].
Proof.
  cbn [gatt_application]. split_and!; try (vm_compute; reflexivity).
  - repeat constructor.
  - apply (bool_decide_unpack _). vm_compute. exact I.
Qed.
