(* ===== verification/FfiWitnesses.v ===== *)
(** * The theorems about the phone's library, at work

    A phone that knows one computer is told to forget it and started again;
    media commands, files and their listener go through the same interfaces as
    in [HostWitnesses]. *)

From S2P Require Import Prelude Externals Ids Bulk Link Peer Vocab Noise Plugin Media.
From S2P Require Import CoreState CoreQueries CoreOps CoreHandle CoreTheorems Toy Scenario.
From S2P Require Import Strs Fs RtStore RtBulk RtMirror HostWitnesses Witnesses.
From S2P Require Import FfiTypes FfiBodies FfiBulk FfiCore.
Local Open Scope N_scope.

#[local] Instance toy_records : CborLaws PeerRecord := toy_cbor_laws ARRAY.
#[local] Instance toy_commands : CborLaws MediaCommand := toy_cbor_laws ARRAY.
#[local] Instance toy_commands_total : CborTotal MediaCommand := toy_cbor_total ARRAY.

Definition in_quotes (s : string) : string := ("'" +:+ s +:+ "'")%string.

(** ** The phone's core *)

Definition phone_key : bytes := replicate 32 Byte.x41.
Definition phone : result Core FfiError :=
  AcryliusCore_new FfiConfig_default phone_key [default [] (to_vec bob_record)] [FKShare].
Definition phone_core : Core :=
  build_core (phone_builder FfiConfig_default alice [default [] (to_vec bob_record)] [FKShare]).

Lemma phone_built : phone = Ok phone_core.
Proof.
  assert (ffi_identity phone_key = Ok alice) as E by (vm_compute; reflexivity).
  unfold phone, AcryliusCore_new. rewrite E. reflexivity.
Qed.
Lemma phone_knows_bob : peers phone_core = {[id_of bob := bob_record]}.
Proof. vm_compute. reflexivity. Qed.

(** The clock, a text that is no device, and the computer forgotten. *)
Definition phone_calls : list (u64 * u64 * FfiEvent) :=
  [(1, 1000001, FfiTick); (2, 1000002, FfiConnect "nobody"); (3, 1000003, FfiRevoke (did_str (id_of bob)))].

Lemma phone_never_poisoned_witness :
  ∃ rs c', ffi_run in_quotes phone_calls phone_core = Some (rs, c') /\ CoreTheorems.Good c' /\
    Forall2 (λ '(_, _, e) r, ∀ err, r = Err err <-> Event_try_from in_quotes e = Err err) phone_calls rs.
Proof.
  destruct (phone_never_poisoned in_quotes FfiConfig_default phone_key [default [] (to_vec bob_record)] [FKShare]
    phone_core phone_calls phone_built) as (rs & c' & os & E & HG & _ & _ & HF).
  exists rs, c'. split; [exact E|]. split; [exact HG|exact HF].
Defined.

Lemma phone_remembers_bob : Remembers phone_core (entries bobs_file).
Proof.
  apply (new_remembers FfiConfig_default phone_key [default [] (to_vec bob_record)] [FKShare]); [apply phone_built| |].
  - rewrite phone_knows_bob. by intros id r [<- <-]%lookup_singleton_Some.
  - pose proof knows_bob_mirrors as [H1 H2]. split; [|exact H2].
    intros i. rewrite phone_knows_bob, <- knows_bob_peers. apply H1.
Qed.

(** Afterwards nothing is kept, and a phone started from nothing knows nobody. *)
Lemma phone_remembers_witness :
  ∃ rs c' c2, ffi_run in_quotes phone_calls phone_core = Some (rs, c') /\
    keep_all (handed_over rs) (entries bobs_file) = ∅ /\
    AcryliusCore_new FfiConfig_default phone_key [] [] = Ok c2 /\ peers c2 = peers c' /\ Remembers c2 ∅.
Proof.
  assert (holds (ffi_run in_quotes phone_calls phone_core)
    (λ '(rs, _), bool_decide (keep_all (handed_over rs) (entries bobs_file) = ∅)) = true) as Hk
    by (vm_compute; reflexivity).
  apply holds_true in Hk as ([rs c'] & E & Hm%bool_decide_eq_true).
  destruct (phone_remembers in_quotes FfiConfig_default phone_key [default [] (to_vec bob_record)] [FKShare]
    phone_core phone_calls (entries bobs_file) rs c' phone_built phone_remembers_bob E) as [_ Hnext].
  rewrite Hm in Hnext.
  assert (∃ c2, AcryliusCore_new FfiConfig_default phone_key [] [] = Ok c2) as [c2 E2].
  { assert (ffi_identity phone_key = Ok alice) as Ei by (vm_compute; reflexivity).
    unfold AcryliusCore_new. rewrite Ei. by eexists. }
  destruct (Hnext FfiConfig_default phone_key [] [] c2) as [Hp Hr].
  - rewrite map_to_list_empty. reflexivity.
  - exact E2.
  - exists rs, c', c2. exact (conj E (conj Hm (conj E2 (conj Hp Hr)))).
Defined.

Lemma peers_reported_witness : map fpr_device_id (ffi_peers phone_core) = [did_str (id_of bob)].
Proof.
  assert (CoreTheorems.Good phone_core) as HG by apply build_good.
  destruct (peers_reported in_quotes phone_core HG) as (E & _ & _). rewrite E. vm_compute. reflexivity.
Defined.

(** ** Players *)

Definition a_cx : Cx := Cx_new 5 0 0 EffectSet_all.
Definition louder : Envelope.Envelope :=
  Envelope.mkEnvelope 1 7 None MEDIA_CAP "volume" (encode_media_command "vlc" 40) 0 None.

Lemma phone_drives_player_witness :
  ∃ q' cx token, media_on_message (id_of bob) louder MediaPlugin_default a_cx = (Ok tt, (q', cx)) /\
    cx_effects cx = [(token, MediaControl "vlc" (SetVolume 40))].
Proof.
  destruct (phone_drives_player (id_of bob) (id_of bob) louder "vlc" 40 MediaPlugin_default MediaPlugin_default
    a_cx a_cx) as (_ & (q' & cx & token & E & Ee) & _).
  - vm_compute. reflexivity.
  - vm_compute. split; discriminate.
  - discriminate.
  - discriminate.
  - discriminate.
  - reflexivity.
  - exists q', cx, token. split; [exact E|exact Ee].
Defined.

Lemma media_verbs_cross_witness : media_verb (Vocab.Seek (-5000)) = ("seek", (-5000)%Z)%string.
Proof.
  assert (action_for "seek" (mkMediaCommand "vlc" (-5000)) = Ok (Vocab.Seek (-5000))) as E by reflexivity.
  pose proof (media_verbs_cross "seek" _ _ E ltac:(vm_compute; split; discriminate)) as H.
  destruct (media_verb (Vocab.Seek (-5000))) as [verb value]. destruct H as (-> & [->|[[? Hx] _]] & _).
  - reflexivity.
  - discriminate Hx.
Defined.

(** ** Files *)

Definition two_pieces : list bytes := [[Byte.x01]; [Byte.x02; Byte.x03]].

Definition breaking : wire := mkWire [] [None; None; None; None; Some 1%nat].

(** The connection breaks one byte into the second piece. *)
Lemma senders_agree_witness :
  ∃ r w, ffi_send 3 sealing_key (Ok tt) (Ok tt) (Ok tt) (map Ok two_pieces)
      breaking = (r, w) /\
    r = Err (Io OtherError) /\
    (∀ out n, send 3 sealing_key two_pieces = Ok (out, n) -> written_out w `prefix_of` out).
Proof.
  destruct (ffi_send 3 sealing_key (Ok tt) (Ok tt) (Ok tt) (map Ok two_pieces)
      breaking) as [r w] eqn:E.
  exists r, w. split; [reflexivity|]. split; [vm_compute in E; congruence|].
  assert (Forall (λ b, 1 <= len b) two_pieces) as Hb by (repeat constructor; vm_compute; discriminate).
  pose proof (senders_agree 3 sealing_key (Ok tt) two_pieces breaking r w Hb eq_refl E) as H.
  intros out n Es. rewrite Es in H. apply H.
Defined.

Definition no_text (e : ErrorKind) : string := "io error".

(** The second connection is not taken. *)
Definition listening_calls : list ListenerCall :=
  [CallAccept 3 (Ok (mkStream (hello 3) true)); CallAccept 3 (Ok (mkStream (hello 3) true));
   CallReceive sealing_key 0 inbox_file; CallReceive sealing_key 0 inbox_file].

Lemma listener_serves_once_witness :
  ∃ l, bind_listener no_text "10.0.0.2" (Ok 4050) = Ok l /\
    let d' := (listener_calls no_text listening_calls (l, empty_disk)).2 in
    d' = empty_disk \/ ∃ s key expect dest, taken_by listening_calls s /\
    CallReceive key expect dest ∈ listening_calls /\ d' = (ffi_receive key expect dest s empty_disk).2.
Proof.
  eexists. split; [reflexivity|]. apply (listener_serves_once no_text "10.0.0.2" 4050). reflexivity.
Defined.
