(* ===== verification/StartWitnesses.v ===== *)
(** * The theorems about start-up, configuration, client and host, at work

    A TOML whose documents are lines of binary digits between comments, a
    machine with nothing on its disk, and a daemon started on it twice. *)

From Stdlib Require Import Ascii.
From stdpp Require Import countable.
From S2P Require Import Prelude Externals Ids Envelope Link Peer Vocab Noise Plugin Ping Command Wol Touchpad Session.
From S2P Require Import Media Clipboard Share CoreState CoreQueries CoreOps CoreHandle CoreTheorems Toy Scenario.
From S2P Require Import Strs Utf8 Fs Bulk RtBulk RtStore RtMirror Reconcile Files Netself TouchDevice Logind Players Desktop HostWitnesses DaemonWitnesses.
From S2P Require Import RtTcp BleTransport BleBus.
From S2P Require Import Paths Config Ipc Control Startup StartupTheorems DaemonLife Client Host Serve Agreement.
Local Open Scope N_scope.

(** ** A small TOML *)

Definition tval : Type := gen_tree (string + Z + bool).

Fixpoint tree_of (t : Table tval) : tval :=
  match t with
  | TEnd => GenNode 1 []
  | TValue k v rest => GenNode 2 [GenLeaf (inl (inl k)); v; tree_of rest]
  | TTable k sub rest => GenNode 3 [GenLeaf (inl (inl k)); tree_of sub; tree_of rest]
  end.
Fixpoint table_of (t : tval) : option (Table tval) :=
  match t with
  | GenNode 1 [] => Some TEnd
  | GenNode 2 [GenLeaf (inl (inl k)); v; rest] => TValue k v <$> table_of rest
  | GenNode 3 [GenLeaf (inl (inl k)); sub; rest] => sub ← table_of sub; TTable k sub <$> table_of rest
  | _ => None
  end.
Lemma table_of_tree t : table_of (tree_of t) = Some t.
Proof. induction t as [|k v rest IH|k sub IHs rest IH]; cbn; [done|by rewrite IH|by rewrite IHs; cbn; rewrite IH]. Qed.

Fixpoint bits (p : positive) : string :=
  match p with xH => "1" | xO p => String "0" (bits p) | xI p => String "1" (bits p) end%string.
Fixpoint of_bits (s : string) : option positive :=
  match s with
  | String "1" EmptyString => Some xH
  | String "0" s => xO <$> of_bits s
  | String "1" s => xI <$> of_bits s
  | _ => None
  end.
Lemma of_bits_bits p : of_bits (bits p) = Some p.
Proof. induction p as [p IH|p IH|]; [|by cbn; rewrite IH|done]. cbn. rewrite IH. by destruct p. Qed.
Lemma bits_line p : str_count "010" (bits p) = 0%nat.
Proof. by induction p. Qed.
Lemma bits_content p : comment_line (bits p) = false.
Proof. by destruct p. Qed.

Definition content (s : string) : list string := List.filter (negb ∘ comment_line) (str_split "010" s).

#[local] Instance line_toml : Toml := {
  toml_value := tval;
  toml_parse s :=
    match content s with
    | [l] => p ← of_bits l; t ← countable.decode p; t ← table_of t; if wf_table t then Some t else None
    | _ => None
    end;
  toml_edited _ t := bits (countable.encode (tree_of t));
  toml_pretty t := bits (countable.encode (tree_of t));
}.

Lemma comment_newline l : comment_line l = true -> str_count "010" l = 0%nat.
Proof.
  unfold comment_line. intros [E|[_ E]%andb_true_iff]%orb_true_iff; [by apply String.eqb_eq in E as ->|].
  induction l as [|c l IH]; [done|]. cbn in E |- *. apply andb_true_iff in E as [Hc E].
  destruct (Ascii.eqb_spec c "010") as [->|]; [done|by apply IH].
Qed.
Lemma content_line l s : str_count "010" l = 0%nat ->
  content (l +:+ String "010" s) = (if comment_line l then [] else [l]) ++ content s.
Proof. intros Hl. unfold content. rewrite str_split_app by done. cbn. by destruct (comment_line l). Qed.
Lemma content_comments ls s : Forall comment_line ls ->
  content (foldr (λ l s, l +:+ String "010" s) EmptyString ls +:+ s) = content s.
Proof.
  induction 1 as [|l ls Hl _ IH]; [done|]. cbn [foldr]. rewrite str_app_assoc. apply Is_true_true in Hl.
  change (String "010" ?a +:+ s)%string with (String "010" (a +:+ s)).
  rewrite content_line by (by apply comment_newline). by rewrite Hl, IH.
Qed.

Lemma line_parse s t : content s = [bits (countable.encode (tree_of t))] -> Wf t -> toml_parse s = Some t.
Proof.
  intros E Ht. cbn. rewrite E, of_bits_bits. cbn. rewrite decode_encode. cbn. rewrite table_of_tree. cbn.
  by rewrite (proj2 (wf_table_spec t)).
Qed.
#[local] Instance line_toml_laws : TomlLaws.
Proof.
  assert (∀ t, Wf t -> ∃ t', toml_parse (toml_pretty t) = Some t' /\ Same t' t) as Hp.
  { intros t Ht. exists t. split; [|done]. apply line_parse; [|done]. unfold content. cbn.
    rewrite str_split_none by apply bits_line. cbn. by rewrite bits_content. }
  split; [|intros s t0 t _ _ Ht; exact (Hp t Ht)|exact Hp].
  - intros s t. cbn. destruct (content s) as [|l [|? ?]]; try done.
    destruct (of_bits l) as [p|]; [|done]. cbn. destruct (countable.decode p) as [tr|]; [|done]. cbn.
    destruct (table_of tr) as [t'|]; [|done]. cbn. destruct (wf_table t') eqn:E; [|done].
    intros [= <-]. by apply wf_table_spec.
Qed.
#[local] Instance line_toml_comments : TomlComments.
Proof.
  intros pre post t Hpre Hpost Ht. rewrite (line_parse (toml_pretty t) t); [apply line_parse; [|done]|..|done].
  2:{ unfold content. cbn. rewrite str_split_none by apply bits_line. cbn. by rewrite bits_content. }
  rewrite content_comments by done. cbn [toml_pretty line_toml].
  rewrite content_line by apply bits_line. rewrite bits_content.
  rewrite <- (str_app_nil_r (foldr _ _ post)), content_comments by done. done.
Qed.

#[local] Instance line_scalars : Scalars := {
  of_str s := GenLeaf (inl (inl s)); as_str v := match v with GenLeaf (inl (inl s)) => Some s | _ => None end;
  of_int z := GenLeaf (inl (inr z)); as_int v := match v with GenLeaf (inl (inr z)) => Some z | _ => None end;
  of_bool b := GenLeaf (inr b); as_bool v := match v with GenLeaf (inr b) => Some b | _ => None end;
  of_array l := GenNode 0 l; as_array v := match v with GenNode 0 l => Some l | _ => None end;
  as_table _ := None;
}.
#[local] Instance line_scalars_laws : ScalarsLaws.
Proof. by split. Qed.

(** ** The configuration *)

Definition home_sys (config : result string ErrorKind) : Surroundings := {|
  env_var k := if (k =s "HOME")%string then Some "/home/me"%string
               else if (k =s "XDG_RUNTIME_DIR")%string then Some "/run/user/1000"%string else None;
  read_text p := if (p =s "/home/me/.config/acrylius/config.toml")%string then config else Err NotFound;
  is_dir _ := false;
  has_entry _ := None;
|}.
Definition bare : Surroundings := home_sys (Err NotFound).
Definition settings : Config.Config :=
  mkConfig (Some "desk"%string) 1972 (c_wol (Config_default bare)) (mkClipboardConfig true false)
    (c_session (Config_default bare)) (c_share (Config_default bare)) (mkBleConfig false)
    (c_usb (Config_default bare)) (c_pair (Config_default bare)) {["reboot"%string := reboot]}.
Definition settings_text : string := reference_text settings.
Definition configured : Surroundings := home_sys (Ok settings_text).

Lemma settings_ok : ConfigOk settings.
Proof. split_and!; [done|done|]. cbn. intros id spec n [<- <-]%lookup_singleton_Some. done. Qed.

Lemma config_round_trip_witness :
  config_from_str bare settings_text = Some settings /\
  config_from_str bare (commented_default settings_text) = Some settings.
Proof. exact (config_round_trip bare settings settings_ok). Defined.

Definition config_file : path := ["home"; "me"; ".config"; "acrylius"; "config.toml"]%string.
(** The settings on a disk whose third call fails. *)
Definition failing : disk := (disk_with config_file (as_bytes settings_text)) <| faults := [Fine; Fine; Fails 3] |>.
Lemma failing_wf : wf failing.
Proof. apply wf_faults, disk_with_wf. Qed.
Lemma config_named : named config_file.
Proof. by eexists. Qed.

Lemma update_changes_no_setting_witness :
  config_from_str bare ∘ of_bytes <$> read_back (update_file config_file (reference_text (Config_default bare)) failing).2 config_file
  = config_from_str bare ∘ of_bytes <$> read_back failing config_file.
Proof. apply update_changes_no_setting; [apply config_named|vm_compute; done|apply failing_wf]. Defined.

Lemma maintenance_safe_witness :
  config_from_str bare ∘ of_bytes <$> read_back
    (run_config_action as_is bare [] CUpdate "/home/me/.config/acrylius/config.toml" failing).2 config_file
  = config_from_str bare ∘ of_bytes <$> read_back failing config_file.
Proof.
  apply (maintenance_safe as_is bare [] CUpdate "/home/me/.config/acrylius/config.toml" failing);
    [apply config_named|vm_compute; done|apply failing_wf|done].
Defined.

Lemma init_writes_defaults_witness :
  ∃ text d', run_config_action as_is bare [] CInit "/home/me/.config/acrylius/config.toml" empty_disk
    = (Ok ["wrote /home/me/.config/acrylius/config.toml"]%string, d') /\
    Config_load (home_sys (Ok text)) as_is "/home/me/.config/acrylius/config.toml" = Ok (Config_default bare).
Proof.
  destruct (init_writes_defaults as_is bare [] "/home/me/.config/acrylius/config.toml" empty_disk wf_empty_disk
    eq_refl eq_refl) as (text & d' & E & _ & _ & Hl).
  exists text, d'. split; [exact E|]. by apply Hl.
Defined.

(** ** The daemon *)

(** A first start on a disk whose sixth call would fail, and a later one. *)
Definition first_start : result Identity StartError * disk :=
  load_identity ["state"%string] (Some (replicate 32 Byte.x41)) (empty_disk <| faults := [Fine; Fine; Fine; Fine; Fine; Fails 3] |>).

Lemma identity_kept_witness :
  let key := replicate 32 Byte.x41 in
  first_start.1 = Ok (Identity_from_private key) /\
  read_back first_start.2 (key_path ["state"%string]) = Some key /\
  mode_of first_start.2 (key_path ["state"%string]) = Some 0x180 /\
  ∀ again, (load_identity ["state"%string] again first_start.2).1 = Ok (Identity_from_private key).
Proof.
  cbv zeta. set (key := replicate 32 Byte.x41).
  destruct (identity_kept ["state"%string] (Some key) (empty_disk <| faults := [Fine; Fine; Fine; Fine; Fine; Fails 3] |>)
    first_start.1 first_start.2) as (_ & [Hok _] & Hlater).
  - apply wf_faults, wf_empty_disk.
  - done.
  - by intros k [= <-].
  - by vm_compute.
  - assert (first_start.1 = Ok (Identity_from_private key)) as E by (vm_compute; reflexivity).
    destruct (Hok _ E) as (k & [= <-] & _ & Hr & Hm). split_and!; [exact E|exact Hr|exact Hm|].
    intros again. by rewrite (Hlater _ first_start.2 again E).
Defined.

#[local] Existing Instance toy_read_dir.
#[local] Existing Instance toy_read_dir_laws.
#[local] Existing Instance toy_record_laws.
#[local] Existing Instance no_cbor | 200.

Definition plain_args : Args := mkArgs DEFAULT_PORT None None None None.
Definition offered : Offered :=
  mkOffered false false false false "10.0.0.2" (Ok tt) (mkSys [] (λ _, false) (λ _, None)) None None
    (Some (replicate 32 Byte.x41)).

Definition is_ok {E A} (r : result A E * disk) : bool := match r.1 with Ok _ => true | Err _ => false end.
Lemma is_ok_true {E A} (r : result A E * disk) : is_ok r = true -> ∃ a d, r = (Ok a, d).
Proof. destruct r as [[a|e] d]; [by exists a, d|done]. Qed.

Lemma settings_load : Config_load configured as_is (default_path configured) = Ok settings.
Proof.
  unfold Config_load. change (read_text configured (default_path configured)) with (Ok (E := ErrorKind) settings_text).
  cbv iota beta. destruct (config_reads_back configured settings settings_ok) as [E _].
  change (reference_text settings) with settings_text in E. rewrite E. vm_compute. reflexivity.
Qed.

(** Asked for the one command there is and for another, and what plays, on a
    machine with players and PulseAudio. *)
Definition with_players : Offered := mkOffered false true false false "10.0.0.2" (Ok tt) (mkSys [] (λ _, false) (λ _, None))
  None None (Some (replicate 32 Byte.x41)).
Definition asked_of_it : list (Effect * Machine) :=
  [(RunCommand "halt", machine); (RunCommand "reboot", machine); (MediaQuery, machine)].
Definition pactl_argv : list string := ["pactl"; "get-sink-volume"; "@DEFAULT_SINK@"].

Lemma only_configured_run_witness :
  ∃ dm d', start_daemon as_is configured [] plain_args with_players empty_disk = (Ok dm, d') /\
    run_effects as_is asked_of_it (dm_effector dm)
      = [["/usr/bin/systemctl"; "reboot"]; ["wpctl"; "get-volume"; "@DEFAULT_AUDIO_SINK@"]; pactl_argv]%string /\
    (∃ cfg eff m, Config_load configured as_is (default_path configured) = Ok cfg /\
       (eff, m) ∈ asked_of_it /\ configured_for cfg eff ["/usr/bin/systemctl"; "reboot"]%string) /\
    ∃ cfg eff m, Config_load configured as_is (default_path configured) = Ok cfg /\
      (eff, m) ∈ asked_of_it /\ configured_for cfg eff pactl_argv.
Proof.
  assert (is_ok (start_daemon as_is configured [] plain_args with_players empty_disk) = true) as (dm & d' & E)%is_ok_true.
  { unfold start_daemon. unfold io_bind at 1. unfold io_lift.
    change (default (default_path configured) (arg_config plain_args)) with (default_path configured).
    rewrite settings_load. vm_compute. reflexivity. }
  exists dm, d'. split; [exact E|].
  assert (run_effects as_is asked_of_it (dm_effector dm)
    = [["/usr/bin/systemctl"; "reboot"]; ["wpctl"; "get-volume"; "@DEFAULT_AUDIO_SINK@"]; pactl_argv]%string) as H.
  { apply start_daemon_inv in E as (cfg & id & known & d1 & d2 & Ec & _ & _ & _ & -> & _).
    change (Config_load configured as_is (default_path configured) = Ok cfg) in Ec. rewrite settings_load in Ec.
    injection Ec as <-. vm_compute. reflexivity. }
  split; [exact H|].
  pose proof (only_configured_run as_is configured [] plain_args with_players empty_disk dm d' asked_of_it) as HT.
  split; apply HT; try exact E; rewrite H; [left|right; right; left].
Defined.

(** A disk with one device's record, and the daemon told to forget it. *)
Definition home_store : FileStore := store_of [] bare plain_args.
Definition bobs_disk : disk := (put home_store (file_key (id_of bob)) (to_vec bob_record) Secret empty_disk).2.

Lemma bobs_disk_trusts : Trusts home_store {[id_of bob := bob_record]} bobs_disk.
Proof.
  destruct (Trusts_nobody home_store empty_disk wf_empty_disk eq_refl) as (m & HM & Hm & Hk & _); [done|].
  destruct (put_mirror home_store (did_str (id_of bob)) (to_vec bob_record) Secret empty_disk m
    (did_simple _) HM) as (d' & E & HM').
  unfold bobs_disk. fold (file_key (id_of bob)) in E, HM'. rewrite E. cbn [snd]. eexists. split; [exact HM'|].
  destruct (to_vec bob_record) as [b|] eqn:Eb; [|by vm_compute in Eb]. cbn [memory_put entries]. split_and!.
  - intros id. destruct (decide (id = id_of bob)) as [->|Hne].
    + by rewrite lookup_insert_eq, lookup_singleton_eq, <- Eb.
    + rewrite lookup_insert_ne by (by intros ?%file_key_inj). by rewrite Hm, lookup_singleton_ne, lookup_empty.
  - intros k v [[<- _]|[_ Hv]]%lookup_insert_Some; [by exists (id_of bob)|by apply (Hk k v)].
  - intros id r [<- <-]%lookup_singleton_Some. split; vm_compute; reflexivity.
Qed.

(** It is started, forgets, and is started again under another configuration. *)
Definition two_starts : option (Daemon * disk * list Vocab.Outcome * Core * Daemon * disk) :=
  match start_daemon as_is bare [] plain_args offered bobs_disk with
  | (Ok dm, d1) =>
      match CoreTheorems.run forgetting (dm_core dm) with
      | Some (os, c) =>
          match start_daemon as_is configured [] plain_args offered (carry_all (dm_store dm) (all_actions os) d1) with
          | (Ok dm', d3) => Some (dm, d1, os, c, dm', d3)
          | _ => None
          end
      | None => None
      end
  | _ => None
  end.

Lemma daemon_remembers_witness :
  ∃ dm d1 os c dm' d3, two_starts = Some (dm, d1, os, c, dm', d3) /\
    peers (dm_core dm) = {[id_of bob := bob_record]} /\ peers (dm_core dm') = peers c /\
    CoreState.identity (dm_core dm') = CoreState.identity (dm_core dm) /\ Trusts (dm_store dm') (peers c) d3.
Proof.
  assert (match two_starts with Some _ => true | None => false end = true) as H.
  { vm_compute. reflexivity. }
  destruct two_starts as [[[[[[dm d1] os] c] dm'] d3]|] eqn:E2; [|done]. clear H.
  exists dm, d1, os, c, dm', d3. split; [reflexivity|]. unfold two_starts in E2.
  destruct (start_daemon as_is bare [] plain_args offered bobs_disk) as [[dm0|] d0] eqn:Es; [|done].
  destruct (CoreTheorems.run forgetting (dm_core dm0)) as [[os0 c0]|] eqn:Er; [|done].
  destruct (start_daemon as_is configured _ _ _ (carry_all _ _ _)) as [[dm2|] d2] eqn:Es'; [|done].
  injection E2 as -> -> -> -> -> ->.
  destruct (daemon_remembers as_is [] bare plain_args offered bobs_disk dm d1 _ forgetting os c bobs_disk_trusts)
    as (Hp & _ & Hn); [by intros k [= <-]|exact Es|exact Er| |].
  { repeat constructor; intros id; cbn; [done|]. intros [= <-]. vm_compute. reflexivity. }
  destruct (Hn configured plain_args offered dm' d3) as (H1 & H2 & H3); [done|by intros k [= <-]|exact Es'|].
  split; [exact Hp|]. split; [exact H1|]. split; [exact H2|exact H3].
Defined.

(** ** The client *)

(** A pairing is streamed to somebody at a terminal, who presses return; then
    it fails. *)
Definition at_terminal : Setting := mkSetting false true false true.
Definition pairing_lines : list (option Response) :=
  [Some (REvent "looking"); Some (RConfirm "phone" "AB-CD" "123456"); Some (RError "too late")]%string.
Definition one_return : Outside := mkOutside [Some ""%string] [].
Definition as_json (_ : Response) : string := "{}".

(** Two pairings: the first is answered with return, the second with n. *)
Definition pair_phone : CtlArgs := mkCtlArgs None false (TPair None false).
Definition asked_twice : list (option Response) :=
  [Some (RConfirm "phone" "AB-CD" "123456"); Some (RConfirm "tablet" "EF-GH" "654321")]%string.
Definition return_then_n : Outside := mkOutside [Some ""%string; Some "no"%string] [].

Lemma no_answer_unasked_witness :
  ∃ did pre, ctl_run as_json pair_phone None None true asked_twice return_then_n = (Some RPair, did, ExitFailed) /\
    did = pre ++ [AnsweredDaemon RDeny] /\
    ∃ pre' name fp sas x, Some (RConfirm name fp sas) ∈ asked_twice /\
      pre = pre' ++ show_question name fp sas ++ [x] /\
      decided_by false true return_then_n (asked_so_far pre') x RDeny.
Proof.
  eexists _, (show_question "phone" "AB-CD" "123456" ++
    [AskedPerson "  Do the codes match? [Y/n] "; AnsweredDaemon RApprove] ++
    show_question "tablet" "EF-GH" "654321" ++ [AskedPerson "  Do the codes match? [Y/n] "])%list.
  split; [vm_compute; reflexivity|]. split; [reflexivity|].
  eapply (no_answer_unasked as_json pair_phone None None true asked_twice return_then_n (Some RPair) _ ExitFailed);
    vm_compute; reflexivity.
Defined.

Lemma exit_tells_witness :
  (respond as_json at_terminal pairing_lines false one_return).2 = ExitFailed /\
  ∃ seen unread, pairing_lines = seen ++ unread /\ unread = [] /\
    ((∃ m, Some (RError m) ∈ seen) \/
     AnsweredDaemon RDeny ∈ (respond as_json at_terminal pairing_lines false one_return).1).
Proof.
  split; [vm_compute; reflexivity|].
  destruct (respond as_json at_terminal pairing_lines false one_return) as [did e] eqn:E.
  assert (e = ExitFailed) as He by (vm_compute in E; congruence).
  assert (e <> ExitError) as Hne by (rewrite He; discriminate).
  destruct (exit_tells as_json at_terminal pairing_lines false one_return did e E Hne)
    as (seen & unread & Hl & Hs & _ & Hf).
  exists seen, unread. split; [exact Hl|]. split; [apply Hs; reflexivity|].
  destruct (proj1 Hf He) as [Hff|Hor]; [discriminate Hff|exact Hor].
Defined.

Lemma sockets_meet_witness :
  file_at [] (ctl_socket_path (env_var bare "XDG_RUNTIME_DIR") None)
  = socket_path (file_at [] (state_dir bare None)) false (env_var bare "XDG_RUNTIME_DIR").
Proof. apply (sockets_meet bare [] None). right. exists "/run/user/1000"%string. split; reflexivity. Defined.

(** ** The host *)

(** A machine with [wpctl] only, whose state is its volume in hundredths. *)
Definition wireplumber (v : N) (program : string) (args : list string) : option bytes * N :=
  if (program =s "wpctl")%string then
    match args with
    | ["get-volume"; _] => (Some (as_bytes ("Volume: " +:+ two_decimals v)), v)
    | ["set-volume"; _; arg] =>
        match str_rsplit_once "%" arg with
        | Some (n, _) => match parse_uint 255 n with Some n => (Some [], n) | None => (None, v) end
        | None => (None, v)
        end
    | _ => (Some [], v)
    end%string
  else (None, v).

Lemma volume_set_is_read_witness :
  set_volume wireplumber 20 180 = (Ok 100, 100) /\
  ∃ w1 w2,
    (∃ w0 b, wireplumber w0 "wpctl" ["set-volume"; "@DEFAULT_AUDIO_SINK@"; "100%"] = (Some b, w1) \/
             wireplumber w0 "pactl" ["set-sink-volume"; "@DEFAULT_SINK@"; "100%"] = (Some b, w1)) /\
    volume wireplumber w2 = (Some 100, 100).
Proof.
  assert (set_volume wireplumber 20 180 = (Ok 100, 100)) as E by (vm_compute; reflexivity).
  split; [exact E|]. destruct (volume_set_is_read wireplumber 20 180 _ _ E) as (w1 & w2 & Ha & Hv & _).
  exists w1, w2. split; [exact Ha|exact Hv].
Defined.

Lemma sockets_of_the_session_witness :
  ∀ p, p ∈ candidates (Some "/run/user/1000"%string) (Some "stale"%string) [("older", Some 3%Z); ("newest", Some 7%Z)]%string ->
  ∃ w, components p = ["run"; "user"; "1000"; "hypr"; w; ".socket.sock"]%string.
Proof.
  intros p Hp. edestruct (sockets_of_the_session "/run/user/1000" (Some "stale"%string)
    [("older", Some 3%Z); ("newest", Some 7%Z)]%string) as [H _]; [by intros sig [= <-]| |].
  { repeat constructor; eexists; split; reflexivity. }
  destruct (H p Hp) as (w & E & _). exists w. exact E.
Defined.

(** ** The control socket *)

(** A socket left by a crash is taken over; a second daemon is refused. *)
Definition socket_file : path := ["run"; "user"; "1000"; "acrylius.sock"]%string.
Definition crashed : disk := disk_with socket_file [].

Lemma sockets_exclusive_witness :
  ∃ i s, serve socket_file (mkSockets crashed ∅) = (Ok i, s) /\ connects socket_file s = true /\
    serve socket_file s = (Err AlreadyExists, s) /\
    ∀ q, q <> socket_file -> read_back (sk_disk s) q = read_back crashed q.
Proof.
  destruct (serve socket_file (mkSockets crashed ∅)) as [[i|e] s] eqn:E; [|by vm_compute in E].
  exists i, s. split; [reflexivity|].
  destruct (sockets_exclusive socket_file crashed (s, [i])) as [(_ & _ & Hk & _) [Hc Hs]].
  - apply disk_with_wf.
  - vm_compute. reflexivity.
  - apply rtc_once, (ss_started socket_file _ _ [] i E).
  - split; [exact Hc|]. split; [exact Hs|exact Hk].
Defined.

(** ** The touchpad *)

Lemma frames_within_device_witness :
  Forall (within (setup 150 100)) (frame [mkTouchPoint 7 65535 0; mkTouchPoint 9 12 34] Slots_default).1 /\
  Forall (within (setup 150 100)) (release_all Slots_default).1.
Proof.
  apply frames_within_device; [apply Slots_default_sound|]. repeat constructor; vm_compute; discriminate.
Defined.

(** ** The Bluetooth transport *)

Lemma advertisement_follows_witness :
  ∃ calls s, ble_transport_run 2 (Some (Some true, Some ["central"; "peripheral"]%string))
      [TAdvertise true []; TAdvertise true []; TAdvertise false []; TAdvertise true []]
    = Ok (RegisterApplication :: calls, s) /\ balanced false calls /\ advertising s = true.
Proof.
  apply (advertisement_follows 2
    [TAdvertise true []; TAdvertise true []; TAdvertise false []; TAdvertise true []] (Some true)
    (Some ["central"; "peripheral"]%string)); [reflexivity|vm_compute; right; left].
Defined.

(** ** What the phone waits for *)

Lemma phone_waits_long_enough_witness :
  effect_takes LockSession no_commands machine + 1000 <= session_lock_budget_ms /\ session_lock_budget_ms <= MACHINE.
Proof.
  apply (phone_waits_long_enough LockSession no_commands machine 30 1000 session_lock_budget_ms eq_refl).
  - intros k. vm_compute. done.
  - intros k. vm_compute. done.
  - vm_compute. done.
Defined.
